(* ===== verification/_CoqProject ===== *)
-Q . S2P
Prelude.v
JsDate.v
JsValue.v
ProofSdk.v
Json.v
Canonical.v
Receipt.v
Normal.v
Merkle.v
PomRx.v
JsHeap.v
PlainData.v
Authorization.v
Gate.v
Diagnostics.v
StrictChecks.v
Verdict.v
ExactJson.v
PolicyCapability.v
ProfiledVerifier.v
Base64.v
Witness.v
TrustedClock.v
Execution.v
Trust.v
EvidenceBinding.v
Observation.v
FileSystem.v
DurableClaims.v
DurableRecords.v
DurableWorld.v
DurableSafety.v
EvmDecoders.v
WalletIntent.v
WalletPolicy.v
DecodedEffect.v
WalletBoundary.v
PolicyController.v
PayloadSize.v
PreflightEvidence.v
