(* ===== verification/Prelude.v ===== *)
(** * The SwissTokint open risk infrastructure, verified

    SwissTokint commits the risk decisions of agents to hash-chained receipts
    ("POM-RX"), verifies those chains, and puts a single-use gate between a
    decision and the action it allows.  This library models the JavaScript
    modules under [src/] that make up that core, and proves what they promise.

    ** Parts of the program and where they are modelled

    - [sdk/typescript/swisstokint-proof.mjs], the proof SDK: [ProofSdk] (payload
      safety, canonical text, commitments), [Receipt] (wire receipts, anchor
      records, public commitments), [Merkle] (batches and inclusion proofs).
    - [sdk/typescript/pom-rx.mjs], receipts and chains: [PomRx].
    - [core/reference-data/plain-data-snapshot.mjs], the boundary every entry
      point of [core/] copies its arguments through: [PlainData], on the heap of
      [JsHeap].
    - [sdk/typescript/pom-rx-witness.mjs], source envelopes and witness
      acknowledgements: [Witness], with Node's base64 in [Base64].
    - [core/authorization/reference-exact-authorization.mjs]: [Authorization].
    - [core/gate/reference-single-use-gate.mjs]: [Gate].
    - [core/execution/reference-execution-evidence.mjs]: [Execution]; the clock
      and the inert objects it shares with its siblings are in [TrustedClock].
    - [core/observation/reference-observation-reconciliation.mjs]: [Observation],
      the observer channel and the reconciliation of its one report.
    - [core/gate/reference-durable-claim-store.mjs]: [DurableClaims], programs
      over the file system calls of [FileSystem]; its records are the subject of
      [DurableRecords], the world of stores, threads and crashes of
      [DurableWorld], and what holds in it of [DurableSafety].
    - [core/witness/reference-trust-lifecycle.mjs]: [Trust], enrolment,
      revocation, rotation and recovery of signing identities as steps of a
      lifecycle, and the decision on an authorisation candidate;
      [core/witness/reference-evidence-binding.mjs]: [EvidenceBinding].
    - [sdk/typescript/internal/]: [Diagnostics], [StrictChecks] (the five
      checkers), [Verdict], [ExactJson] and [PolicyCapability] (both halves of
      [pom-rx-v01-policy-capability.mjs]).
    - [core/strict-verification/pom-rx-v01-profiled-verifier.mjs]:
      [ProfiledVerifier], the client of all of [internal/].
    - [applications/blockchain-digital-assets/wallet-guard/], the application that
      puts a policy between a page and a wallet: [EvmDecoders] (calldata and typed
      data), [WalletIntent] (requests to intents and their commitment),
      [WalletPolicy] (policies and their decision), [DecodedEffect] (the evidence
      of what an intent asks for), [PolicyController] (the policy in force, its
      replacement and its kill switch), [PreflightEvidence] (the receipts of
      decisions, with [method-commitment.mjs]), and [WalletBoundary], the boundary
      check its modules copy.

    [JsValue] holds JavaScript values without identity, [JsHeap] objects with
    identity (proxies, prototypes, symbol keys, accessors, sparse arrays,
    aliasing), [JsDate] the [Date] operations, [Json] the standard's
    [JSON.parse].  [Canonical] and [Normal] are the lemmas on canonical texts
    that the binding theorems share, [PayloadSize] those on the size of payloads.
    This file has the strings, the patterns,
    the error monad and the sorting the rest is written with.

    ** How state and operations correspond

    A function of the source is a definition with its name.  A thrown error is
    [Throw] of its class, code and message; the order of the checks is the order
    of the source, so the message of a rejected input is the one the program
    gives.  A module with state is a record with the source's variables:
    [gate], [recorder], [lifecycle],
    [controller], [builder], [world].  Objects that a module recognises
    by identity ([WeakMap], [WeakSet]) are indices of that record, and any other
    argument is [None].  An operation that calls out (the Gate's clock, observer
    and executor, the clocks of the recorder and the preflight builder) is cut at
    the calls: each segment between two calls is one step, other calls may run in
    between, and the answers are arbitrary labels.  The operations of the policy
    controller can run code of the caller in many places; they are cut between
    their assignments, with a stack of the operations in progress, so nested
    calls and errors thrown in the middle are events like any other.  The claim store awaits in the middle of its
    functions, so there each operation is a program of a free monad whose calls
    are the file operations and the uses of the store's variables; programs of
    any number of stores interleave call by call on one file system that has
    entries in memory and on the disk, a call may fail for a reason of its own,
    and a crash ends all programs and may lose whatever was not on the disk.

    What the source takes from its runtime is a class with its documented laws:
    [StringHost] (NFC, NFKC, lower-casing, collation, number printing),
    [DateHost] ([Date.parse]), [HashHost] and [ByteHashHost] (SHA-256, of which
    only the format is used: binding theorems exhibit a collision instead of
    assuming there is none), [KeyHost] (Ed25519 keys, their DER form and
    signatures), [ProcessHost] (the process and [node:path]), [UrlHost] (URL
    parsing).  Each has a concrete instance the witnesses
    compute with.  [ArtifactVerifier] is what the profiled verifier needs from
    the artifact identity module.

    ** What the theorems show

    - Canonical texts: they parse back to the payload, exist exactly within
      the limits, and so commitments bind payloads up to a collision.
    - Receipts and chains: the validator returns exactly the receipts their inputs
      say, the chain verifier accepts exactly the linked chains
      of six shapes, and the last hash binds the history.
    - Merkle proofs are sound and complete; the leaves of a batch are its sorted
      entries, and the root is the reference tree's.
    - Plain-data capture accepts exactly what denotes bounded inert data, and
      never a cycle.
    - Authorizations are prepared exactly for valid inputs, and their
      commitment binds every field.
    - The Gate forwards a capability at most once, only what was observed and
      only inside its window, under every interleaving; consumptions progress.
    - The recorder's evidence belongs to one handle and one authorization, and
      completing a handle always records the classification of its outcome.
    - An observer's promise settles as the reference reading of its callbacks
      says, and a reconciliation reports exactly what the comparison of the
      observation with its authorization shows.
    - Claims and completions on the disk are exclusive, their files are always
      complete records, and what an operation answered is found again after any
      crash; the validators accept exactly the records the store makes.
    - A signed envelope or acknowledgement passes its verifier, and what passes
      was signed over the normalised receipt or the canonical acknowledgement.
    - The trust lifecycle keeps roles, keys and windows consistent through every
      mutation; what it authorises was signed by active identities of the right
      roles, and a closed identity never authorises again; its results bind to
      exactly the evidence they were computed from, and a binding is accepted
      exactly when the result names the evidence it is presented with.
    - The exact JSON parser accepts what the reference parser with distinct
      names accepts; policies decide exactly for their tuples; capabilities and
      bindings are single-use and expire with their call.
    - A request the wallet policy allows, from the bytes of its calldata or the
      fields of its typed data to the decision, is one of a few effects within the
      limits of that policy; intents mean what the request says, and the hashes of
      intents and policies bind all their fields.  The policy controller refines
      a machine that has a policy, a revision and at most one operation in
      progress: nested operations are refused, updates are compare-and-set, and an
      engaged kill switch denies everything until the policy is replaced.  Preflight
      evidence is made once per id, for well-formed inputs, and a receipt that
      allows is for a transfer of native value within the policy.
    - The strict checkers report exactly the receipts at fault; verdicts follow
      the truth table, never authorize, and the profiled verifier refines the
      specification that combines all of these.

    ** Fuel and bounds

    [json_parse] and [scanObjectKeys] recurse on fuel computed from the length
    of the text, and theorems show that it is never the limit.  [captureValue]
    recurses on the depth the source allows.  [merge_level] is structural and
    the loop over Merkle levels has one unit per receipt, which is shown to
    reach one node.  Instants are unbounded integers with the range check of the
    standard; numbers that the source counts with stay far below [2^53].

    ** Not modelled

    - [sdk/typescript/internal/pom-rx-v01-artifact-identity.mjs] walks the
      module graph of the installation; it is an interface here.
    - Processes and the network: the isolated
      runner and child, the strict package, [submitReceipt], the Filecoin
      integration, the prototype server and its browser bridge, the scripts.
    - The rest of the Wallet Guard: the JSON ingress and the envelopes of its
      bridge, the witness authorisation that assembles what [Trust] and
      [EvidenceBinding] check, the captured context, the controlled host, the
      provider and its transport.
    - Links that are written through another name, and anything but the store
      writing below its root.
    - Key objects other than those [createPublicKey] returns (a parameter of
      [Trust] maps values to keys), and proxies that are revoked while a call runs.
    - The depth of the JavaScript stack, the [details] of strict errors, and
      what code that replaces intrinsics of the runtime makes them return (that it
      calls the policy controller in the middle of an operation is modelled).
    - The loss of directories above the root of a claim store in a crash. *)
From Stdlib Require Import ZArith NArith Lia Bool.
From Stdlib Require Import Sorted Permutation.
From stdpp Require Export base list gmap sets strings sorting.

#[global] Open Scope Z_scope.
#[export] Set Warnings "-clear-no-such-hyp".

(** Let [lia] handle division and remainder. *)
Ltac Zify.zify_post_hook ::= Z.div_mod_to_equations.

(** ** JavaScript strings

    A JavaScript string is a sequence of UTF-16 code units.  [js] embeds the
    ASCII literals the source writes. *)

Abbreviation jsstr := (list N).

Fixpoint js (s : string) : jsstr :=
  match s with
  | EmptyString => []
  | String c s' => Ascii.N_of_ascii c :: js s'
  end.

Declare Scope js_scope.
Delimit Scope js_scope with js.

(** [s === t] on strings, as the boolean the source tests. *)
Definition str_eqb (s t : jsstr) : bool := bool_decide (s = t).
Infix "=s" := str_eqb (at level 70) : js_scope.
#[global] Open Scope js_scope.

(** JavaScript's [<] on strings: lexicographic on code units. *)
Fixpoint str_ltb (s t : jsstr) : bool :=
  match s, t with
  | _, [] => false
  | [], _ :: _ => true
  | a :: s', b :: t' => (a <? b)%N || ((a =? b)%N && str_ltb s' t')
  end.

Definition str_leb (s t : jsstr) : bool := negb (str_ltb t s).

(** [s.endsWith(suffix)] *)
Definition ends_with (s suffix : jsstr) : bool :=
  str_eqb (drop (length s - length suffix) s) suffix.

(** ** Character classes and the anchored patterns of the source *)

Definition in_range (lo hi c : N) : bool := (lo <=? c)%N && (c <=? hi)%N.
Definition is_digit (c : N) : bool := in_range 48 57 c.
Definition is_lower (c : N) : bool := in_range 97 122 c.
Definition is_upper (c : N) : bool := in_range 65 90 c.
Definition is_alpha (c : N) : bool := is_lower c || is_upper c.
Definition is_alnum (c : N) : bool := is_alpha c || is_digit c.
Definition is_hex (c : N) : bool := is_digit c || in_range 97 102 c.
(** One of the characters of an ASCII literal. *)
Definition is_one_of (chars : string) (c : N) : bool :=
  bool_decide (c ∈ js chars).

(** [/^[cls]{lo,hi}$/] *)
Definition re_class (cls : N -> bool) (lo hi : nat) (s : jsstr) : bool :=
  (lo <=? length s)%nat && (length s <=? hi)%nat && forallb cls s.

(** [/^[first][rest]{lo,hi}$/] *)
Definition re_head_class (first rest : N -> bool) (lo hi : nat) (s : jsstr)
  : bool :=
  match s with
  | [] => false
  | c :: s' => first c && re_class rest lo hi s'
  end.

(** [/^prefix<re>$/] for a literal prefix *)
Definition re_prefixed (prefix : jsstr) (re : jsstr -> bool) (s : jsstr)
  : bool :=
  str_eqb (take (length prefix) s) prefix && re (drop (length prefix) s).

(** [/^[a-f0-9]{64}$/], which most modules declare as [HASH_PATTERN]. *)
Definition hash_pattern : jsstr -> bool := re_class is_hex 64 64.
(** [/^ed25519-[a-f0-9]{32}$/] *)
Definition key_id_pattern : jsstr -> bool :=
  re_prefixed (js "ed25519-") (re_class is_hex 32 32).
(** [/^cap-[a-f0-9]{32}$/] *)
Definition capability_id_pattern : jsstr -> bool :=
  re_prefixed (js "cap-") (re_class is_hex 32 32).
(** [/^[A-Za-z0-9][A-Za-z0-9._-]{15,127}$/] *)
Definition id_pattern : jsstr -> bool :=
  re_head_class is_alnum (fun c => is_alnum c || is_one_of "._-" c) 15 127.
(** [/^[A-Za-z0-9][A-Za-z0-9._-]{0,63}$/] *)
Definition source_key_id_pattern : jsstr -> bool :=
  re_head_class is_alnum (fun c => is_alnum c || is_one_of "._-" c) 0 63.
(** [/^[A-Za-z0-9][A-Za-z0-9._/-]{2,127}$/] *)
Definition profile_pattern : jsstr -> bool :=
  re_head_class is_alnum (fun c => is_alnum c || is_one_of "._/-" c) 2 127.
(** [/[\u0000-\u001f\u007f]/] *)
Definition is_control (c : N) : bool := (c <? 32)%N || (c =? 127)%N.
Definition has_control (s : jsstr) : bool := existsb is_control s.

(** ** Decimal digits *)

(** [n] decimal digits of [z], zero padded. *)
Fixpoint digits (n : nat) (z : Z) : jsstr :=
  match n with
  | O => []
  | S n' => digits n' (z / 10) ++ [Z.to_N (48 + z mod 10)]
  end.

Definition digits_val (l : jsstr) : Z :=
  foldl (fun a c => 10 * a + (Z.of_N c - 48)) 0 l.

Lemma length_digits n z : length (digits n z) = n.
Proof.
  revert z. induction n as [|n IH]; intros z; simpl; [done|].
  rewrite length_app, IH. simpl. lia.
Qed.

Lemma digits_val_app l c :
  digits_val (l ++ [c]) = 10 * digits_val l + (Z.of_N c - 48).
Proof. unfold digits_val. by rewrite foldl_app. Qed.

Lemma digits_val_digits n z :
  0 <= z < 10 ^ Z.of_nat n -> digits_val (digits n z) = z.
Proof.
  revert z. induction n as [|n IH]; intros z Hz.
  - simpl in *. unfold digits_val. simpl. lia.
  - rewrite Nat2Z.inj_succ, Z.pow_succ_r in Hz by lia.
    cbn [digits]. rewrite digits_val_app, IH by lia. lia.
Qed.

Lemma digits_is_digit n z : Forall (fun c => is_digit c = true) (digits n z).
Proof.
  revert z. induction n as [|n IH]; intros z; [constructor|].
  cbn [digits]. apply Forall_app. split; [apply IH|]. constructor; [|constructor].
  unfold is_digit, in_range. apply andb_true_iff. split; apply N.leb_le; lia.
Qed.

(** The number of decimal digits of a non-negative integer. *)
Fixpoint dec_length (fuel : nat) (z : Z) : nat :=
  match fuel with
  | O => 1
  | S fuel' => if z <? 10 then 1 else S (dec_length fuel' (z / 10))
  end.

(** [String(z)] for an integer below 10^21. *)
Definition string_of_nonneg (z : Z) : jsstr :=
  digits (dec_length (S (Z.to_nat (Z.log2 z))) z) z.
Definition string_of_Z (z : Z) : jsstr :=
  if z <? 0 then 45%N :: string_of_nonneg (- z) else string_of_nonneg z.

Lemma dec_length_spec fuel z :
  0 <= z < 2 ^ Z.of_nat fuel ->
  let n := dec_length fuel z in
  (1 <= n)%nat /\ z < 10 ^ Z.of_nat n /\ (z = 0 /\ n = 1%nat \/ 10 ^ (Z.of_nat n - 1) <= z).
Proof.
  revert z. induction fuel as [|fuel IH]; intros z Hz; cbn [dec_length].
  - simpl in *. lia.
  - destruct (Z.ltb_spec z 10); [simpl; lia|].
    rewrite Nat2Z.inj_succ, Z.pow_succ_r in Hz by lia.
    destruct (IH (z / 10)) as (H1 & H2 & H3); [lia|].
    split; [lia|]. rewrite Nat2Z.inj_succ, Z.pow_succ_r by lia. split; [lia|]. right.
    replace (Z.succ (Z.of_nat (dec_length fuel (z / 10))) - 1)
      with (Z.succ (Z.of_nat (dec_length fuel (z / 10)) - 1)) by lia.
    destruct H3 as [[? ?]|H3]; [lia|]. rewrite Z.pow_succ_r by lia. lia.
Qed.

Lemma string_of_nonneg_spec z :
  0 <= z ->
  let l := string_of_nonneg z in
  digits_val l = z /\ l <> [] /\ Forall (fun c => is_digit c = true) l /\
  (hd 0%N l = 48%N -> length l = 1%nat).
Proof.
  intros Hz l. destruct (dec_length_spec (S (Z.to_nat (Z.log2 z))) z) as (H1 & H2 & H3).
  { rewrite Nat2Z.inj_succ, Z2Nat.id by apply Z.log2_nonneg.
    destruct (decide (z = 0)) as [->|]; [done|]. pose proof (Z.log2_spec z). lia. }
  unfold l, string_of_nonneg. set (n := dec_length _ z) in *.
  split; [by apply digits_val_digits|].
  split; [intros E; apply (f_equal length) in E; rewrite length_digits in E; simpl in E; lia|].
  split; [apply digits_is_digit|]. intros Hhd. rewrite length_digits.
  destruct H3 as [[? ?]|H3]; [done|]. destruct n as [|[|m]]; [lia|done|]. exfalso.
  assert (forall k y, 10 ^ Z.of_nat k <= y < 10 ^ Z.of_nat (S k) ->
            hd 0%N (digits (S k) y) <> 48%N) as Hd.
  { clear. induction k as [|k IH]; intros y Hy.
    - simpl in *. lia.
    - change (digits (S (S k)) y) with (digits (S k) (y / 10) ++ [Z.to_N (48 + y mod 10)]).
      pose proof (length_digits (S k) (y / 10)).
      rewrite !Nat2Z.inj_succ, !Z.pow_succ_r in Hy by lia.
      specialize (IH (y / 10)). rewrite Nat2Z.inj_succ, Z.pow_succ_r in IH by lia.
      destruct (digits (S k) (y / 10)) as [|c l]; [done|]. simpl in *.
      apply IH. lia. }
  apply (Hd (S m) z); [|done]. split; [|done].
  replace (Z.of_nat (S m)) with (Z.of_nat (S (S m)) - 1) by lia. done.
Qed.

(** ** Thrown errors and the error monad *)

(** The class of a thrown [Error]; the source tells them apart with
    [instanceof]. *)
Inductive err_class :=
  | TypeErr | RangeErr | SyntaxErr
  | PayloadErr      (* ProofPayloadValidationError *)
  | PlainDataErr    (* PomRxPlainDataError *)
  | CapabilityErr   (* PomRxReferenceCapabilityError *)
  | GateErr         (* PomRxGateError *)
  | ExecutionErr    (* PomRxExecutionEvidenceError *)
  | ObservationErr  (* PomRxObservationError *)
  | TrustErr        (* PomRxWitnessTrustError *)
  | DurableErr      (* PomRxDurableClaimStoreError *)
  | SystemErr       (* an error of a call of the runtime, with its code *)
  | StrictErr       (* PomRxV01StrictError *)
  | DecoderErr      (* WalletGuardDecoderError *)
  | IntentErr       (* WalletGuardIntentError *)
  | WalletPolicyErr (* WalletGuardPolicyError *)
  | EffectErr       (* WalletGuardDecodedEffectError *)
  | PolicyStateErr  (* WalletGuardPolicyStateError *)
  | PreflightErr    (* WalletGuardPreflightEvidenceError *)
  | WitnessAuthErr  (* WalletGuardWitnessAuthorizationError *)
  | ContextErr      (* WalletGuardTrustedContextError *)
  | ProviderErr     (* WalletGuardProviderError *)
  | HostErr         (* WalletGuardControlledHostError *)
  | BridgeErr       (* WalletGuardBridgeEnvelopeError *)
  | IngressErr.     (* WalletGuardJsonIngressError *)

#[export] Instance err_class_eq_dec : EqDecision err_class.
Proof. solve_decision. Defined.

(** [code] is the empty string for an error class that carries none. *)
Record jserr := Err { err_cls : err_class; err_code : jsstr; err_msg : jsstr }.

#[export] Instance jserr_eq_dec : EqDecision jserr.
Proof. solve_decision. Defined.

Inductive res (A : Type) :=
  | Ok (a : A)
  | Throw (e : jserr).
Arguments Ok {A} _.
Arguments Throw {A} _.

#[export] Instance res_eq_dec `{EqDecision A} : EqDecision (res A).
Proof. solve_decision. Defined.

#[export] Instance res_ret : MRet res := fun A a => Ok a.
#[export] Instance res_bind : MBind res := fun A B k m =>
  match m with Ok a => k a | Throw e => Throw e end.
#[export] Instance res_fmap : FMap res := fun A B f m =>
  match m with Ok a => Ok (f a) | Throw e => Throw e end.

(** [if (!cond) throw e] *)
Definition guard_or (cond : bool) (e : jserr) : res unit :=
  if cond then Ok tt else Throw e.

(** [try { m } catch (e) { h(e) }] *)
Definition catch {A} (m : res A) (h : jserr -> res A) : res A :=
  match m with Ok a => Ok a | Throw e => h e end.

(** [list.map(f)] for an [f] that may throw: left to right, first error wins. *)
Definition map_res {A B} (f : A -> res B) : list A -> res (list B) :=
  fix go (l : list A) : res (list B) :=
    match l with
    | [] => Ok []
    | x :: l' => y ← f x; ys ← go l'; Ok (y :: ys)
    end.

(** A loop over a list that threads a state and may throw. *)
Definition fold_res {A S} (f : A -> S -> res S) : list A -> S -> res S :=
  fix go (l : list A) (s : S) : res S :=
    match l with
    | [] => Ok s
    | x :: l' => s ← f x s; go l' s
    end.

(** [for (const x of list) body(x)] for a body that only throws. *)
Fixpoint for_each {A} (f : A -> res unit) (l : list A) : res unit :=
  match l with
  | [] => Ok tt
  | x :: l' => _ ← f x; for_each f l'
  end.

Definition is_ok {A} (m : res A) : bool :=
  match m with Ok _ => true | Throw _ => false end.

(** *** Reasoning about the monad *)

Lemma bind_Ok {A B} (m : res A) (k : A -> res B) b :
  (x ← m; k x) = Ok b <-> exists a, m = Ok a /\ k a = Ok b.
Proof.
  destruct m as [a|e]; simpl; split.
  - intros H. by exists a.
  - by intros (a' & [= ->] & H).
  - done.
  - by intros (a' & H & _).
Qed.

Lemma bind_Throw {A B} (m : res A) (k : A -> res B) e :
  (x ← m; k x) = Throw e <->
  m = Throw e \/ exists a, m = Ok a /\ k a = Throw e.
Proof.
  destruct m as [a|e']; simpl; split.
  - intros H. right. by exists a.
  - by intros [?|(a' & [= ->] & H)].
  - intros [= ->]. by left.
  - by intros [[= ->]|(a' & H & _)].
Qed.

Lemma fmap_Ok {A B} (f : A -> B) (m : res A) b :
  f <$> m = Ok b <-> exists a, m = Ok a /\ f a = b.
Proof.
  destruct m as [a|e]; simpl; split.
  - intros [= <-]. by exists a.
  - by intros (a' & [= ->] & ->).
  - done.
  - by intros (a' & H & _).
Qed.

Lemma map_res_Ok {A B} (f : A -> res B) l l' :
  map_res f l = Ok l' <-> Forall2 (fun x y => f x = Ok y) l l'.
Proof.
  revert l'; induction l as [|x l IH]; intros l'; simpl.
  - split; [intros [= <-]; constructor | by inversion 1].
  - rewrite bind_Ok. setoid_rewrite bind_Ok. split.
    + intros (y & Hy & ys & Hys & [= <-]). constructor; [done|]. by apply IH.
    + inversion 1; subst. eexists; split; [done|].
      eexists; split; [by apply IH | done].
Qed.

Lemma map_res_perm {A B} (f : A -> res B) l1 l2 k1 :
  l1 ≡ₚ l2 -> map_res f l1 = Ok k1 -> exists k2, map_res f l2 = Ok k2 /\ k1 ≡ₚ k2.
Proof.
  intros Hp. revert k1. induction Hp as [|x l1 l2 _ IH|x y l|l1 l2 l3 _ IH1 _ IH2]; intros k1 H.
  - by exists k1.
  - simpl in *. apply bind_Ok in H as (b & Hb & (bs & Hbs & [= <-])%bind_Ok).
    destruct (IH _ Hbs) as (k2 & Hk & ?). rewrite Hb. simpl. rewrite Hk. simpl.
    eexists. split; [done|]. by constructor.
  - simpl in *. apply bind_Ok in H as (b & Hb & (bs & Hbs & [= <-])%bind_Ok).
    apply bind_Ok in Hbs as (c & Hc & (cs & Hcs & [= <-])%bind_Ok).
    rewrite Hc. simpl. rewrite Hb. simpl. rewrite Hcs. simpl.
    eexists. split; [done|]. apply Permutation_swap.
  - destruct (IH1 _ H) as (k2 & Hk2 & ?). destruct (IH2 _ Hk2) as (k3 & Hk3 & ?).
    exists k3. split; [done|]. by etrans.
Qed.

Lemma fold_res_cons {A S} (f : A -> S -> res S) x l s :
  fold_res f (x :: l) s = s ← f x s; fold_res f l s.
Proof. done. Qed.

(** A loop whose body consumes [cost x] of a budget, provided [P x] holds and
    the budget covers it, consumes the sum. *)
Lemma fold_res_budget {A} (f : A -> Z -> res Z) (P : A -> Prop) (cost : A -> Z) l :
  (forall x, x ∈ l -> 0 <= cost x) ->
  (forall x, x ∈ l -> forall b b', f x b = Ok b' <-> P x /\ cost x <= b /\ b' = b - cost x) ->
  forall b b', 0 <= b -> fold_res f l b = Ok b' <->
    Forall P l /\ foldr (fun x n => cost x + n) 0 l <= b /\
    b' = b - foldr (fun x n => cost x + n) 0 l.
Proof.
  induction l as [|x l IH]; intros Hpos Hf b b' Hb.
  - simpl. split; [intros [= ->]; split; [constructor|lia]|].
    intros (_ & _ & ->). f_equal. lia.
  - rewrite fold_res_cons, bind_Ok, Forall_cons. simpl.
    pose proof (Hpos x (list_elem_of_here _ _)).
    assert (0 <= foldr (fun x n => cost x + n) 0 l).
    { clear -Hpos. assert (forall y, y ∈ l -> 0 <= cost y) as H
        by (intros; apply Hpos; by right). clear Hpos.
      induction l as [|y l IH]; simpl; [lia|].
      pose proof (H y (list_elem_of_here _ _)).
      assert (0 <= foldr (fun x n => cost x + n) 0 l)
        by (apply IH; intros; apply H; by right). lia. }
    split.
    + intros (a & Ha & Hl). apply Hf in Ha as (HP & Hle & ->); [|left].
      apply IH in Hl as (? & ? & ->); [|intros; apply Hpos; by right
        |intros; apply Hf; by right|lia]. split; [by split|]. lia.
    + intros ((HP & HPl) & Hle & ->). exists (b - cost x). split.
      * apply Hf; [left|]. split; [done|]. lia.
      * apply IH; [intros; apply Hpos; by right|intros; apply Hf; by right|lia|].
        split; [done|]. lia.
Qed.

Lemma catch_Ok {A} (m : res A) h a :
  catch m h = Ok a <-> m = Ok a \/ exists e, m = Throw e /\ h e = Ok a.
Proof.
  destruct m as [b|e]; simpl; split.
  - intros H. by left.
  - by intros [?|(e & H & _)].
  - intros H. right. by exists e.
  - by intros [?|(e' & [= ->] & H)].
Qed.

Lemma guard_or_Ok c e u : guard_or c e = Ok u <-> c = true.
Proof. by destruct c, u. Qed.

Lemma guard_bind_Ok {A} c e (k : res A) a :
  (guard_or c e ≫= fun _ => k) = Ok a <-> c = true /\ k = Ok a.
Proof. destruct c; simpl; [|by split; [|intros []]]. by split; [|intros []]. Qed.

(** *** What a computation may throw *)

Definition throws_only {A} (P : jserr -> Prop) (m : res A) : Prop :=
  match m with Ok _ => True | Throw e => P e end.

Lemma throws_only_Throw {A} P (m : res A) e : throws_only P m -> m = Throw e -> P e.
Proof. by intros H ->. Qed.
Lemma throws_only_bind {A B} P (m : res A) (k : A -> res B) :
  throws_only P m -> (forall a, m = Ok a -> throws_only P (k a)) -> throws_only P (m ≫= k).
Proof. intros Hm Hk. destruct m as [a|e]; [by apply Hk|done]. Qed.
Lemma throws_only_guard (P : jserr -> Prop) cond e : P e -> throws_only P (guard_or cond e).
Proof. by destruct cond. Qed.
Lemma throws_only_map_res {A B} P (f : A -> res B) l :
  (forall a, a ∈ l -> throws_only P (f a)) -> throws_only P (map_res f l).
Proof.
  induction l as [|a l IH]; intros Hf; [done|]. simpl.
  apply throws_only_bind; [apply Hf; left|]. intros b _.
  apply throws_only_bind; [apply IH; intros; apply Hf; by right|]. by intros bs _.
Qed.
Lemma throws_only_fold_res {A S} P (f : A -> S -> res S) l s :
  (forall a s, a ∈ l -> throws_only P (f a s)) -> throws_only P (fold_res f l s).
Proof.
  revert s. induction l as [|a l IH]; intros s Hf; [done|]. simpl.
  apply throws_only_bind; [apply Hf; left|]. intros t _. apply IH. intros. apply Hf. by right.
Qed.

Lemma for_each_Ok {A} (f : A -> res unit) l u :
  for_each f l = Ok u <-> Forall (fun x => f x = Ok tt) l.
Proof.
  destruct u. induction l as [|x l IH]; simpl.
  - split; [constructor | done].
  - rewrite bind_Ok, Forall_cons, <- IH. split.
    + by intros ([] & ? & ?).
    + intros [? ?]. by exists tt.
Qed.

Create Rewrite HintDb res_db.
#[export] Hint Rewrite @bind_Ok @fmap_Ok @map_res_Ok guard_or_Ok @for_each_Ok
  @catch_Ok : res_db.

(** Decompose a hypothesis [H : m = Ok _] about a monadic term into the
    success of each of its steps. *)
Ltac inv_step :=
  match goal with
  | H : (_ ≫= _) = Ok _ |- _ =>
      apply bind_Ok in H;
      let x := fresh "r" in let Hx := fresh "Hr" in destruct H as (x & Hx & H)
  | H : (_ <$> _) = Ok _ |- _ =>
      apply fmap_Ok in H;
      let x := fresh "r" in let Hx := fresh "Hr" in destruct H as (x & Hx & H)
  | H : guard_or _ _ = Ok _ |- _ => apply guard_or_Ok in H
  | H : Throw _ = Ok _ |- _ => discriminate H
  | H : Ok _ = Ok _ |- _ => injection H as H
  | H : mret _ = Ok _ |- _ => injection H as H
  | u : unit |- _ => destruct u
  end.
Ltac inv_ok := repeat inv_step; subst.

(** ** The order of strings *)

Lemma str_eqb_eq s t : str_eqb s t = true <-> s = t.
Proof. apply bool_decide_eq_true. Qed.
Lemma str_eqb_neq s t : str_eqb s t = false <-> s <> t.
Proof. apply bool_decide_eq_false. Qed.
Lemma str_eqb_refl s : str_eqb s s = true.
Proof. by apply str_eqb_eq. Qed.

Lemma str_ltb_irrefl a : str_ltb a a = false.
Proof.
  induction a as [|x a IH]; [done|]. simpl. by rewrite N.ltb_irrefl, N.eqb_refl.
Qed.

Lemma str_ltb_cons x a y b :
  str_ltb (x :: a) (y :: b) = true <->
  (x < y)%N \/ x = y /\ str_ltb a b = true.
Proof.
  simpl. rewrite orb_true_iff, andb_true_iff, N.ltb_lt, N.eqb_eq. done.
Qed.

Lemma str_ltb_trans a b c :
  str_ltb a b = true -> str_ltb b c = true -> str_ltb a c = true.
Proof.
  revert b c. induction a as [|x a IH]; intros [|y b] [|z c] H1 H2; try done.
  apply str_ltb_cons in H1, H2. apply str_ltb_cons.
  destruct H1 as [?|[-> ?]], H2 as [?|[-> ?]]; try (left; lia).
  right. split; [done|]. by eapply IH.
Qed.

Lemma str_ltb_trichotomy a b :
  str_ltb a b = true \/ a = b \/ str_ltb b a = true.
Proof.
  revert b. induction a as [|x a IH]; intros [|y b]; [by right; left|by left|by right;right|].
  rewrite !str_ltb_cons. destruct (N.lt_trichotomy x y) as [?|[->|?]];
    [by left; left| |by right; right; left].
  destruct (IH b) as [?|[->|?]]; [by left; right|by right; left|by right; right; right].
Qed.

Lemma str_ltb_asym a b : str_ltb a b = true -> str_ltb b a = false.
Proof.
  intros H. destruct (str_ltb b a) eqn:E; [|done].
  pose proof (str_ltb_trans _ _ _ H E) as H'. by rewrite str_ltb_irrefl in H'.
Qed.

Lemma str_leb_total a b : str_leb a b = true \/ str_leb b a = true.
Proof.
  unfold str_leb. destruct (str_ltb_trichotomy a b) as [H|[->|H]].
  - left. by rewrite str_ltb_asym.
  - left. by rewrite str_ltb_irrefl.
  - right. by rewrite str_ltb_asym.
Qed.

Lemma str_leb_antisym a b : str_leb a b = true -> str_leb b a = true -> a = b.
Proof.
  unfold str_leb. intros H1%negb_true_iff H2%negb_true_iff.
  destruct (str_ltb_trichotomy a b) as [H|[H|H]]; congruence.
Qed.

Lemma str_leb_trans a b c :
  str_leb a b = true -> str_leb b c = true -> str_leb a c = true.
Proof.
  unfold str_leb. intros H1%negb_true_iff H2%negb_true_iff. apply negb_true_iff.
  destruct (str_ltb c a) eqn:E; [|done].
  destruct (str_ltb_trichotomy a b) as [H|[->|H]]; try congruence.
  pose proof (str_ltb_trans _ _ _ E H). congruence.
Qed.

(** ** Stable sorting

    [Array.prototype.sort] is stable, so with a comparator that is a total
    preorder its result is the one insertion sort gives. *)

Section sort.
Context {A : Type} (leb : A -> A -> bool).

Fixpoint insert_by (x : A) (l : list A) : list A :=
  match l with
  | [] => [x]
  | y :: l' => if leb x y then x :: l else y :: insert_by x l'
  end.

Definition sort_by (l : list A) : list A := foldr insert_by [] l.

Lemma insert_by_perm x l : insert_by x l ≡ₚ x :: l.
Proof.
  induction l as [|y l IH]; simpl; [done|]. destruct (leb x y); [done|].
  rewrite IH. apply Permutation_swap.
Qed.

Lemma sort_by_perm l : sort_by l ≡ₚ l.
Proof. induction l as [|x l IH]; simpl; [done|]. by rewrite insert_by_perm, IH. Qed.

Context (leb_total : forall x y, leb x y = true \/ leb y x = true).
Context (leb_trans : forall x y z,
  leb x y = true -> leb y z = true -> leb x z = true).

Lemma insert_by_sorted x l :
  StronglySorted (fun a b => leb a b = true) l ->
  StronglySorted (fun a b => leb a b = true) (insert_by x l).
Proof.
  induction 1 as [|y l Hs IH Hall]; simpl; [repeat constructor|].
  destruct (leb x y) eqn:E.
  - constructor; [by constructor|]. constructor; [done|].
    eapply Forall_impl; [exact Hall|]. simpl. eauto.
  - constructor; [done|]. rewrite insert_by_perm. constructor; [|done].
    destruct (leb_total x y); congruence.
Qed.

Lemma sort_by_sorted l : StronglySorted (fun a b => leb a b = true) (sort_by l).
Proof. induction l as [|x l IH]; simpl; [constructor|by apply insert_by_sorted]. Qed.

Lemma elem_of_sort_by x l : x ∈ sort_by l <-> x ∈ l.
Proof. by rewrite sort_by_perm. Qed.

Context (leb_antisym : forall x y, leb x y = true -> leb y x = true -> x = y).

(** With a total order the result depends on the elements only. *)
Lemma sort_by_perm_eq l1 l2 : l1 ≡ₚ l2 -> sort_by l1 = sort_by l2.
Proof.
  intros Hp. eapply (StronglySorted_unique_strong (fun a b => leb a b = true));
    [|by apply sort_by_sorted..|by rewrite !sort_by_perm].
  intros; eauto.
Qed.
End sort.

(** Sorting related lists by related comparators gives related lists. *)
Lemma sort_by_Forall2 {A B} (la : A -> A -> bool) (lb : B -> B -> bool)
    (R : A -> B -> Prop) l1 l2 :
  (forall x y x' y', R x y -> R x' y' -> la x x' = lb y y') ->
  Forall2 R l1 l2 -> Forall2 R (sort_by la l1) (sort_by lb l2).
Proof.
  intros Hc. induction 1 as [|x y l1 l2 Hxy _ IH]; simpl; [constructor|].
  revert IH. generalize (sort_by la l1) (sort_by lb l2). intros k1 k2.
  induction 1 as [|x' y' k1 k2 Hxy' Hk IHk]; simpl; [by repeat constructor|].
  rewrite (Hc x y x' y') by done. destruct (lb y y'); by repeat constructor.
Qed.

Lemma sort_by_fmap {A B} (la : A -> A -> bool) (lb : B -> B -> bool) (f : A -> B) l :
  (forall x x', la x x' = lb (f x) (f x')) ->
  sort_by lb (f <$> l) = f <$> sort_by la l.
Proof.
  intros Hc. symmetry. apply list_eq_Forall2, Forall2_fmap_l.
  apply sort_by_Forall2; [by intros x y x' y' <- <-|].
  apply Forall2_fmap_r, Forall_Forall2_diag. by apply Forall_true.
Qed.

(** Sorting a sorted list changes nothing. *)
Lemma sort_by_sorted_id {A} (leb : A -> A -> bool) l :
  StronglySorted (fun a b => leb a b = true) l -> sort_by leb l = l.
Proof.
  induction 1 as [|x l Hs IH Hall]; simpl; [done|]. rewrite IH.
  destruct l as [|y l]; [done|]. inversion Hall; subst. simpl. by rewrite H1.
Qed.

Definition sort_str : list jsstr -> list jsstr := sort_by str_leb.

(** [JSON.stringify(keys.sort()) === JSON.stringify(expected.sort())]: the keys
    are the expected ones, in any order. *)
Definition same_keys (keys expected : list jsstr) : bool :=
  bool_decide (sort_str keys = sort_str expected).

Lemma same_keys_iff keys expected :
  same_keys keys expected = true <-> keys ≡ₚ expected.
Proof.
  unfold same_keys, sort_str. rewrite bool_decide_eq_true. split.
  - intros H. by rewrite <- (sort_by_perm str_leb keys), H, sort_by_perm.
  - apply sort_by_perm_eq; eauto using str_leb_total, str_leb_trans, str_leb_antisym.
Qed.

(** Close a decidable goal by evaluating its decision. *)
Ltac decide_now := apply (bool_decide_unpack _); vm_compute; exact I.
