(* ===== verification/JsDate.v ===== *)
(** * The [Date] operations the source uses

    A time value is an integer number of milliseconds since the epoch, within
    +-8.64e15.  [toISOString] is defined exactly (ECMA-262, 21.4.4.36), on the
    proleptic Gregorian calendar.  [Date.parse] is implementation-defined
    outside the interchange format, so it is the method of a host interface
    whose laws are the two the standard gives; [iso_date_host] is an
    implementation that discharges them. *)
From S2P Require Import Prelude.


Definition time_valid (t : Z) : bool := (Z.abs t <=? 8640000000000000).

(** ** Civil calendar *)

Definition ms_per_day : Z := 86400000.

(** Days from 0000-03-01 to the first day of month [mi], where months are
    counted from March of year 0. *)
Definition month_start (mi : Z) : Z :=
  let y := mi / 12 in
  let mp := mi mod 12 in
  365 * y + y / 4 - y / 100 + y / 400 + (153 * mp + 2) / 5.

(** The March-based month index that contains a day (counted from
    0000-03-01): 400-year, 100-year, 4-year and 1-year cycles, then the month. *)
Definition month_index (z : Z) : Z :=
  let era := z / 146097 in
  let doe := z mod 146097 in
  let c := Z.min (doe / 36524) 3 in
  let doc := doe - 36524 * c in
  let q := doc / 1461 in
  let doq := doc - 1461 * q in
  let yy := Z.min (doq / 365) 3 in
  let doy := doq - 365 * yy in
  12 * (400 * era + 100 * c + 4 * q + yy) + (5 * doy + 2) / 153.

(** [719468] days separate 0000-03-01 from 1970-01-01. *)
Definition day_of_time (t : Z) : Z := t / ms_per_day + 719468.
Definition month_of_time (t : Z) : Z := month_index (day_of_time t).

Definition year_from_time (t : Z) : Z := (month_of_time t + 2) / 12.
Definition month_from_time (t : Z) : Z := (month_of_time t + 2) mod 12 + 1.
Definition date_from_time (t : Z) : Z :=
  day_of_time t - month_start (month_of_time t) + 1.
Definition hour_from_time (t : Z) : Z := t mod ms_per_day / 3600000.
Definition min_from_time (t : Z) : Z := t mod 3600000 / 60000.
Definition sec_from_time (t : Z) : Z := t mod 60000 / 1000.
Definition ms_from_time (t : Z) : Z := t mod 1000.

Lemma month_index_spec z :
  month_start (month_index z) <= z < month_start (month_index z + 1) /\
  z - month_start (month_index z) < 31.
Proof.
  unfold month_index.
  set (era := z / 146097). set (doe := z mod 146097).
  assert (z = 146097 * era + doe /\ 0 <= doe < 146097) as [Hz Hdoe]
    by (subst era doe; split; [apply Z.div_mod | apply Z.mod_pos_bound]; lia).
  set (c := Z.min (doe / 36524) 3).
  set (doc := doe - 36524 * c).
  assert (0 <= c <= 3 /\ 0 <= doc /\ (doc < 36524 \/ (c = 3 /\ doc = 36524)))
    as (Hc & Hdoc0 & Hdoc) by (subst c doc; lia).
  set (q := doc / 1461). set (doq := doc - 1461 * q).
  assert (0 <= q <= 24 /\ 0 <= doq < 1461 /\ (q = 24 -> c <> 3 -> doq < 1460))
    as (Hq & Hdoq & Hdoq') by (subst q doq; lia).
  set (yy := Z.min (doq / 365) 3). set (doy := doq - 365 * yy).
  assert (0 <= yy <= 3 /\ 0 <= doy < 366 /\ (doy = 365 -> yy = 3))
    as (Hyy & Hdoy & Hleap) by (subst yy doy; lia).
  set (mp := (5 * doy + 2) / 153).
  assert (0 <= mp <= 11 /\ (153 * mp + 2) / 5 <= doy
          /\ (mp <> 11 -> doy < (153 * (mp + 1) + 2) / 5)
          /\ doy - (153 * mp + 2) / 5 < 31)
    as (Hmp & Hlo & Hhi & H31) by (subst mp; lia).
  set (y := 400 * era + 100 * c + 4 * q + yy).
  assert (Hy : 365 * y + y / 4 - y / 100 + y / 400
               = 146097 * era + 36524 * c + 1461 * q + 365 * yy).
  { assert (y / 4 = 100 * era + 25 * c + q) as -> by (subst y; lia).
    assert (y / 100 = 4 * era + c) as -> by (subst y; lia).
    assert (y / 400 = era) as -> by (subst y; lia). subst y; lia. }
  assert (Hy1 : doy = 365 \/ mp = 11 ->
     z < 365 * (y + 1) + (y + 1) / 4 - (y + 1) / 100 + (y + 1) / 400).
  { intros _. subst y. lia. }
  assert (Hms : month_start (12 * y + mp) = 146097 * era + 36524 * c + 1461 * q
     + 365 * yy + (153 * mp + 2) / 5).
  { unfold month_start.
    assert ((12 * y + mp) / 12 = y) as -> by lia.
    assert ((12 * y + mp) mod 12 = mp) as -> by lia. lia. }
  rewrite Hms. split; [split; [lia|] | lia].
  unfold month_start. destruct (decide (mp = 11)) as [->|Hne].
  - assert ((12 * y + 11 + 1) / 12 = y + 1) as -> by lia.
    assert ((12 * y + 11 + 1) mod 12 = 0) as -> by lia. lia.
  - assert ((12 * y + mp + 1) / 12 = y) as -> by lia.
    assert ((12 * y + mp + 1) mod 12 = mp + 1) as -> by lia. lia.
Qed.

Lemma month_start_step mi : month_start mi < month_start (mi + 1).
Proof.
  unfold month_start.
  destruct (decide (mi mod 12 = 11)) as [H|H].
  - assert ((mi + 1) / 12 = mi / 12 + 1) as -> by lia.
    assert ((mi + 1) mod 12 = 0) as -> by lia. rewrite H. lia.
  - assert ((mi + 1) / 12 = mi / 12) as -> by lia.
    assert ((mi + 1) mod 12 = mi mod 12 + 1) as -> by lia. lia.
Qed.

Lemma month_start_lt a b : a < b -> month_start a < month_start b.
Proof.
  intros H. apply Z.le_succ_l, Z.le_exists_sub in H as (n & -> & Hn).
  revert n Hn. apply natlike_ind.
  - pose proof (month_start_step a). by rewrite Z.add_0_l, <- Z.add_1_r.
  - intros n _ IH. pose proof (month_start_step (n + Z.succ a)).
    replace (Z.succ n + Z.succ a) with (n + Z.succ a + 1) by lia. lia.
Qed.

Lemma month_start_le a b : a <= b -> month_start a <= month_start b.
Proof.
  intros H. destruct (decide (a = b)) as [->|]; [lia|].
  pose proof (month_start_lt a b). lia.
Qed.

(** Days are ordered as their (month, day-of-month) pairs are. *)
Lemma month_index_mono z1 z2 : z1 <= z2 -> month_index z1 <= month_index z2.
Proof.
  intros H. destruct (month_index_spec z1) as [[H1 _] _].
  destruct (month_index_spec z2) as [[_ H2] _].
  destruct (decide (month_index z1 <= month_index z2)); [done|].
  pose proof (month_start_le (month_index z2 + 1) (month_index z1)). lia.
Qed.

(** ** [toISOString] *)

Definition year_string (y : Z) : jsstr :=
  if (0 <=? y) && (y <=? 9999) then digits 4 y
  else (if y <? 0 then js "-" else js "+") ++ digits 6 (Z.abs y).

Definition to_iso_string (t : Z) : jsstr :=
  year_string (year_from_time t) ++ js "-" ++
  digits 2 (month_from_time t) ++ js "-" ++
  digits 2 (date_from_time t) ++ js "T" ++
  digits 2 (hour_from_time t) ++ js ":" ++
  digits 2 (min_from_time t) ++ js ":" ++
  digits 2 (sec_from_time t) ++ js "." ++
  digits 3 (ms_from_time t) ++ js "Z".

(** ** The inverse: a parser of exactly the strings [toISOString] makes *)

Definition make_time (y m d h mi s ms : Z) : Z :=
  (month_start (12 * y + m - 3) + d - 1 - 719468) * ms_per_day
  + h * 3600000 + mi * 60000 + s * 1000 + ms.

(** The value of the [n] digits at offset [i]. *)
Definition field (s : jsstr) (i n : nat) : Z := digits_val (take n (drop i s)).

Definition iso_fields (y : Z) (s : jsstr) : Z :=
  make_time y (field s 1 2) (field s 4 2) (field s 7 2) (field s 10 2)
    (field s 13 2) (field s 16 3).

Definition iso_candidate (s : jsstr) : Z :=
  if str_eqb (take 1 s) (js "-") then
    iso_fields (- digits_val (take 6 (drop 1 s))) (drop 7 s)
  else if str_eqb (take 1 s) (js "+") then
    iso_fields (digits_val (take 6 (drop 1 s))) (drop 7 s)
  else iso_fields (digits_val (take 4 s)) (drop 4 s).

Definition iso_parse (s : jsstr) : option Z :=
  let t := iso_candidate s in
  if time_valid t && str_eqb (to_iso_string t) s then Some t else None.

Example iso_epoch : to_iso_string 0 = js "1970-01-01T00:00:00.000Z".
Proof. reflexivity. Qed.
Example iso_2026 : to_iso_string 1772366645678 = js "2026-03-01T12:04:05.678Z".
Proof. reflexivity. Qed.
Example iso_max :
  to_iso_string 8640000000000000 = js "+275760-09-13T00:00:00.000Z".
Proof. reflexivity. Qed.
Example iso_min :
  to_iso_string (-8640000000000000) = js "-271821-04-20T00:00:00.000Z".
Proof. reflexivity. Qed.
Example iso_parse_2024 :
  iso_parse (js "2024-02-29T23:59:59.999Z") = Some 1709251199999.
Proof. reflexivity. Qed.

(** ** Fields *)

Lemma field_ranges t :
  1 <= month_from_time t <= 12 /\ 1 <= date_from_time t <= 31 /\
  0 <= hour_from_time t < 24 /\ 0 <= min_from_time t < 60 /\
  0 <= sec_from_time t < 60 /\ 0 <= ms_from_time t < 1000.
Proof.
  destruct (month_index_spec (day_of_time t)) as [[H1 _] H2].
  unfold month_from_time, date_from_time, hour_from_time, min_from_time,
    sec_from_time, ms_from_time, month_of_time, ms_per_day in *.
  repeat split; lia.
Qed.

Lemma make_time_fields t :
  make_time (year_from_time t) (month_from_time t) (date_from_time t)
    (hour_from_time t) (min_from_time t) (sec_from_time t) (ms_from_time t) = t.
Proof.
  unfold make_time, year_from_time, month_from_time, date_from_time.
  replace (12 * ((month_of_time t + 2) / 12) +
    ((month_of_time t + 2) mod 12 + 1) - 3) with (month_of_time t) by lia.
  unfold day_of_time, hour_from_time, min_from_time, sec_from_time,
    ms_from_time, ms_per_day. lia.
Qed.

Lemma year_bound t : time_valid t = true -> Z.abs (year_from_time t) <= 300000.
Proof.
  unfold time_valid, year_from_time. intros H%Z.leb_le.
  assert (- 100000000 + 719468 <= day_of_time t <= 100000000 + 719468) as [Ha Hb]
    by (unfold day_of_time, ms_per_day; lia).
  apply month_index_mono in Ha, Hb. unfold month_of_time.
  assert (month_index (- 100000000 + 719468) = -3261851) as E1 by reflexivity.
  assert (month_index (100000000 + 719468) = 3309126) as E2 by reflexivity.
  lia.
Qed.

(** The part of the rendering after the year. *)
Definition iso_tail (t : Z) : jsstr :=
  js "-" ++ digits 2 (month_from_time t) ++ js "-" ++
  digits 2 (date_from_time t) ++ js "T" ++
  digits 2 (hour_from_time t) ++ js ":" ++
  digits 2 (min_from_time t) ++ js ":" ++
  digits 2 (sec_from_time t) ++ js "." ++
  digits 3 (ms_from_time t) ++ js "Z".

Lemma to_iso_tail t : to_iso_string t = year_string (year_from_time t) ++ iso_tail t.
Proof. done. Qed.

Lemma length_iso_tail t : length (iso_tail t) = 20%nat.
Proof. unfold iso_tail. by rewrite !length_app, !length_digits. Qed.

Lemma iso_fields_tail t : iso_fields (year_from_time t) (iso_tail t) = t.
Proof.
  destruct (field_ranges t) as (?&?&?&?&?&?).
  rewrite <- (make_time_fields t) at 3.
  unfold iso_fields, iso_tail, field. cbn [digits app js drop take].
  f_equal; apply (digits_val_digits 2 _) || apply (digits_val_digits 3 _);
    simpl; lia.
Qed.

Lemma drop_app_digits n z s : drop n (digits n z ++ s) = s.
Proof. by rewrite drop_app_length' by (by rewrite length_digits). Qed.
Lemma take_app_digits n z s : take n (digits n z ++ s) = digits n z.
Proof. by rewrite take_app_length' by (by rewrite length_digits). Qed.

Lemma iso_candidate_to_iso t :
  time_valid t = true -> iso_candidate (to_iso_string t) = t.
Proof.
  intros Hv. pose proof (year_bound t Hv) as Hy.
  rewrite to_iso_tail. unfold iso_candidate, year_string.
  set (y := year_from_time t) in *.
  destruct ((0 <=? y) && (y <=? 9999)) eqn:E.
  - apply andb_true_iff in E as [E1%Z.leb_le E2%Z.leb_le].
    assert (forall c, is_digit c = false ->
      str_eqb (take 1 (digits 4 y ++ iso_tail t)) [c] = false) as Hns.
    { intros c Hc. apply bool_decide_eq_false. intros Heq.
      pose proof (digits_is_digit 4 y) as HF.
      destruct (digits 4 y) as [|d l] eqn:Ed; [by pose proof (length_digits 4 y) as L; rewrite Ed in L|].
      simpl in Heq. injection Heq as ->. inversion HF. congruence. }
    cbn [js]. rewrite !Hns by done.
    rewrite take_app_digits, drop_app_digits.
    rewrite digits_val_digits by (simpl; lia). apply iso_fields_tail.
  - assert (forall c l, take 6 (drop 1 ((c :: digits 6 (Z.abs y)) ++ l)) = digits 6 (Z.abs y)
      /\ drop 7 ((c :: digits 6 (Z.abs y)) ++ l) = l) as Hsplit.
    { intros c l. split; [exact (take_app_digits 6 (Z.abs y) l) | exact (drop_app_digits 6 (Z.abs y) l)]. }
    destruct (y <? 0) eqn:Es.
    + apply Z.ltb_lt in Es. change (js "-") with [45%N]. cbn [app].
      destruct (Hsplit 45%N (iso_tail t)) as [E1 E2].
      cbn [app] in E1, E2. rewrite E1, E2. cbn [take].
      rewrite str_eqb_refl, digits_val_digits by (simpl; lia).
      replace (- Z.abs y) with y by lia. apply iso_fields_tail.
    + apply Z.ltb_ge in Es. change (js "-") with [45%N].
      change (js "+") with [43%N]. cbn [app].
      destruct (Hsplit 43%N (iso_tail t)) as [E1 E2].
      cbn [app] in E1, E2. rewrite E1, E2. cbn [take].
      replace (str_eqb [43%N] [45%N]) with false by done.
      rewrite str_eqb_refl, digits_val_digits
        by (simpl; apply andb_false_iff in E as [E%Z.leb_gt|E%Z.leb_gt]; lia).
      replace (Z.abs y) with y by lia. apply iso_fields_tail.
Qed.

Lemma to_iso_string_inj t1 t2 :
  time_valid t1 = true -> time_valid t2 = true ->
  to_iso_string t1 = to_iso_string t2 -> t1 = t2.
Proof.
  intros H1 H2 Heq. rewrite <- (iso_candidate_to_iso t1), <- (iso_candidate_to_iso t2) by done.
  by rewrite Heq.
Qed.

Lemma iso_parse_to_iso t :
  time_valid t = true -> iso_parse (to_iso_string t) = Some t.
Proof.
  intros H. unfold iso_parse. rewrite iso_candidate_to_iso by done.
  by rewrite H, str_eqb_refl.
Qed.

Lemma iso_parse_valid s t : iso_parse s = Some t -> time_valid t = true.
Proof.
  unfold iso_parse. destruct (time_valid _ && _) eqn:E; [|done].
  apply andb_true_iff in E as [E _]. by intros [= <-].
Qed.

(** ** Chronological and lexicographic order agree on the years 0 to 9999 *)

Definition four_digit_year (t : Z) : Prop := 0 <= year_from_time t <= 9999.

Lemma str_ltb_app a b c d :
  length a = length b ->
  str_ltb (a ++ c) (b ++ d) = str_ltb a b || (str_eqb a b && str_ltb c d).
Proof.
  revert b. induction a as [|x a IH]; intros [|y b] Hl; try done.
  simpl in *. rewrite IH by lia.
  destruct (N.ltb_spec x y), (N.eqb_spec x y) as [->|Hne]; simpl; try done; try lia.
  - unfold str_eqb. destruct (decide (a = b)) as [->|].
    + rewrite !bool_decide_true by done. done.
    + rewrite !bool_decide_false by congruence. done.
  - unfold str_eqb. by rewrite (bool_decide_false (x :: a = y :: b)) by congruence.
Qed.

Lemma str_ltb_digits n x y :
  0 <= x < 10 ^ Z.of_nat n -> 0 <= y < 10 ^ Z.of_nat n ->
  str_ltb (digits n x) (digits n y) = (x <? y).
Proof.
  revert x y. induction n as [|n IH]; intros x y Hx Hy.
  - simpl in *. destruct (Z.ltb_spec x y); [lia|done].
  - rewrite Nat2Z.inj_succ, Z.pow_succ_r in Hx, Hy by lia.
    cbn [digits]. rewrite str_ltb_app by by rewrite !length_digits.
    rewrite IH by lia. cbn [str_ltb]. rewrite andb_false_r, orb_false_r.
    unfold str_eqb. destruct (Z.ltb_spec (x / 10) (y / 10)); cbn [orb].
    + symmetry. apply Z.ltb_lt. lia.
    + case_bool_decide as Heq; cbn [andb].
      * apply (f_equal digits_val) in Heq.
        rewrite !digits_val_digits in Heq by lia.
        destruct (N.ltb_spec (Z.to_N (48 + x mod 10)) (Z.to_N (48 + y mod 10)));
          symmetry; [apply Z.ltb_lt | apply Z.ltb_ge]; lia.
      * symmetry. apply Z.ltb_ge.
        assert (x / 10 <> y / 10) by congruence. lia.
Qed.

Lemma str_eqb_digits n x y :
  0 <= x < 10 ^ Z.of_nat n -> 0 <= y < 10 ^ Z.of_nat n ->
  str_eqb (digits n x) (digits n y) = (x =? y).
Proof.
  intros Hx Hy. unfold str_eqb. destruct (Z.eqb_spec x y) as [->|Hne].
  - by apply bool_decide_eq_true.
  - apply bool_decide_eq_false. intros Heq. apply Hne.
    apply (f_equal digits_val) in Heq. by rewrite !digits_val_digits in Heq.
Qed.

(** One field of a lexicographic comparison. *)
Definition lex_step (x y : Z) (rest : bool) : bool :=
  (x <? y) || ((x =? y) && rest).

Lemma str_ltb_field n x y sep a b :
  0 <= x < 10 ^ Z.of_nat n -> 0 <= y < 10 ^ Z.of_nat n ->
  str_ltb (digits n x ++ sep :: a) (digits n y ++ sep :: b)
  = lex_step x y (str_ltb a b).
Proof.
  intros Hx Hy. rewrite str_ltb_app by by rewrite !length_digits.
  rewrite str_ltb_digits, str_eqb_digits by done. cbn [str_ltb].
  by rewrite N.ltb_irrefl, N.eqb_refl.
Qed.

Definition lex_time (t1 t2 : Z) : bool :=
  lex_step (year_from_time t1) (year_from_time t2) $
  lex_step (month_from_time t1) (month_from_time t2) $
  lex_step (date_from_time t1) (date_from_time t2) $
  lex_step (hour_from_time t1) (hour_from_time t2) $
  lex_step (min_from_time t1) (min_from_time t2) $
  lex_step (sec_from_time t1) (sec_from_time t2) $
  lex_step (ms_from_time t1) (ms_from_time t2) false.

Lemma to_iso_string_ltb t1 t2 :
  four_digit_year t1 -> four_digit_year t2 ->
  str_ltb (to_iso_string t1) (to_iso_string t2) = lex_time t1 t2.
Proof.
  intros H1 H2. unfold four_digit_year in *.
  destruct (field_ranges t1) as (?&?&?&?&?&?).
  destruct (field_ranges t2) as (?&?&?&?&?&?).
  unfold to_iso_string, lex_time, year_string.
  replace ((0 <=? year_from_time t1) && _) with true by lia.
  replace ((0 <=? year_from_time t2) && _) with true by lia.
  cbn [js app].
  by rewrite !str_ltb_field by (simpl; lia).
Qed.

Lemma lex_step_lt x y r : x < y -> lex_step x y r = true.
Proof. unfold lex_step. intros. apply orb_true_iff. left. lia. Qed.

Lemma lex_step_eq x y r : x = y -> lex_step x y r = r.
Proof. unfold lex_step. intros ->. by rewrite Z.ltb_irrefl, Z.eqb_refl. Qed.

Lemma lex_time_lt t1 t2 : t1 < t2 -> lex_time t1 t2 = true.
Proof.
  intros H. unfold lex_time.
  assert (day_of_time t1 <= day_of_time t2) as Hd
    by (unfold day_of_time, ms_per_day; lia).
  pose proof (month_index_mono _ _ Hd) as Hm. fold (month_of_time t1) (month_of_time t2) in Hm.
  destruct (Z.lt_trichotomy (year_from_time t1) (year_from_time t2)) as [?|[Ey|Ey]];
    [by apply lex_step_lt| |unfold year_from_time in *; lia].
  rewrite (lex_step_eq _ _ _ Ey).
  destruct (Z.lt_trichotomy (month_from_time t1) (month_from_time t2)) as [?|[Em|Em]];
    [by apply lex_step_lt| |unfold year_from_time, month_from_time in *; lia].
  rewrite (lex_step_eq _ _ _ Em).
  assert (month_of_time t1 = month_of_time t2) as Emi
    by (unfold year_from_time, month_from_time in *; lia).
  destruct (Z.lt_trichotomy (date_from_time t1) (date_from_time t2)) as [?|[Ed|Ed]];
    [by apply lex_step_lt| |unfold date_from_time in *; rewrite Emi in *; lia].
  rewrite (lex_step_eq _ _ _ Ed).
  assert (t1 / ms_per_day = t2 / ms_per_day) as Eday
    by (unfold date_from_time, day_of_time in *; rewrite Emi in *; lia).
  assert (t1 mod ms_per_day < t2 mod ms_per_day) as Hr
    by (unfold ms_per_day in *; lia).
  unfold lex_step, hour_from_time, min_from_time, sec_from_time, ms_from_time.
  unfold ms_per_day in *. clear Emi Ed Em Ey Hm Hd. lia.
Qed.

Lemma lex_time_irrefl t : lex_time t t = false.
Proof. unfold lex_time. by rewrite !lex_step_eq. Qed.

(** On four-digit years the strings order as the instants do. *)
Lemma iso_order t1 t2 :
  four_digit_year t1 -> four_digit_year t2 ->
  str_ltb (to_iso_string t1) (to_iso_string t2) = (t1 <? t2).
Proof.
  intros H1 H2. rewrite to_iso_string_ltb by done.
  destruct (Z.lt_trichotomy t1 t2) as [Hlt|[->|Hgt]].
  - rewrite lex_time_lt by done. symmetry. by apply Z.ltb_lt.
  - by rewrite lex_time_irrefl, Z.ltb_irrefl.
  - rewrite <- (to_iso_string_ltb t1 t2) by done.
    destruct (str_ltb (to_iso_string t1) _) eqn:E; [|symmetry; apply Z.ltb_ge; lia].
    exfalso. rewrite to_iso_string_ltb in E by done.
    pose proof (lex_time_lt t2 t1 Hgt) as E'. revert E E'. unfold lex_time, lex_step. lia.
Qed.

Lemma year_mono t1 t2 : t1 <= t2 -> year_from_time t1 <= year_from_time t2.
Proof.
  intros H. assert (day_of_time t1 <= day_of_time t2) as Hd
    by (unfold day_of_time, ms_per_day; lia).
  pose proof (month_index_mono _ _ Hd) as Hm. unfold year_from_time, month_of_time. lia.
Qed.

(** Other years start with a sign, which sorts before every digit. *)
Lemma signed_year_first t1 t2 :
  ~ four_digit_year t1 -> four_digit_year t2 -> str_ltb (to_iso_string t1) (to_iso_string t2) = true.
Proof.
  intros H1 H2. rewrite !to_iso_tail. unfold four_digit_year, year_string in *.
  replace ((0 <=? year_from_time t1) && _) with false by lia.
  replace ((0 <=? year_from_time t2) && _) with true by lia.
  pose proof (digits_is_digit 4 (year_from_time t2)) as Hd.
  pose proof (length_digits 4 (year_from_time t2)) as Hl.
  destruct (digits 4 (year_from_time t2)) as [|c l]; [done|].
  inv Hd. unfold is_digit, in_range in *. rewrite andb_true_iff, N.leb_le in *.
  change (js "-") with [45%N]. change (js "+") with [43%N].
  destruct (year_from_time t1 <? 0); cbn [app]; apply str_ltb_cons; left; lia.
Qed.

(** An instant between two others as strings is between them as instants. *)
Lemma iso_window t1 t t2 :
  four_digit_year t -> t1 <= t2 -> str_leb (to_iso_string t1) (to_iso_string t) = true ->
  str_leb (to_iso_string t) (to_iso_string t2) = true -> t1 <= t <= t2.
Proof.
  unfold str_leb. rewrite !negb_true_iff. intros Ht Hle H1 H2.
  assert (four_digit_year t2) as Ht2.
  { destruct (decide (0 <= year_from_time t2 <= 9999)); [done|].
    by rewrite signed_year_first in H2. }
  rewrite iso_order, Z.ltb_ge in H2 by done.
  destruct (decide (0 <= year_from_time t1 <= 9999)) as [H|H].
  - rewrite iso_order, Z.ltb_ge in H1 by done. done.
  - pose proof (year_mono _ _ Hle). unfold four_digit_year in *.
    destruct (Z.le_gt_cases t1 t); [done|]. pose proof (year_mono t t1). lia.
Qed.

(** ** The host's [Date.parse]

    [new Date(s).getTime()] for a string [s]; [None] is an invalid date.  The
    standard fixes the value on strings [toISOString] makes and the range of
    every value; the rest is the engine's. *)
Class DateHost := {
  date_parse : jsstr -> option Z;
  date_parse_iso t :
    time_valid t = true -> date_parse (to_iso_string t) = Some t;
  date_parse_valid s t : date_parse s = Some t -> time_valid t = true;
}.

Program Definition iso_date_host : DateHost := {|
  date_parse := iso_parse;
|}.
Next Obligation. exact iso_parse_to_iso. Qed.
Next Obligation. exact iso_parse_valid. Qed.

(** [value.endsWith('Z')], a finite [new Date(value)] and
    [parsed.toISOString() === value]: the test every [canonicalUtcInstant] of
    the source makes. *)
Definition canonical_instant `{DateHost} (s : jsstr) : option Z :=
  if ends_with s (js "Z") then
    match date_parse s with
    | Some t => if str_eqb (to_iso_string t) s then Some t else None
    | None => None
    end
  else None.

Lemma ends_with_app a b : ends_with (a ++ b) b = true.
Proof.
  unfold ends_with. rewrite length_app.
  replace (length a + length b - length b)%nat with (length a) by lia.
  rewrite drop_app_length. apply str_eqb_refl.
Qed.

Lemma to_iso_ends_with_Z t : ends_with (to_iso_string t) (js "Z") = true.
Proof. unfold to_iso_string. rewrite !app_assoc. apply ends_with_app. Qed.

(** The accepted strings are exactly the renderings of the time values. *)
Lemma canonical_instant_Some `{DateHost} s t :
  canonical_instant s = Some t <-> time_valid t = true /\ s = to_iso_string t.
Proof.
  unfold canonical_instant. split.
  - destruct (ends_with s _); [|done]. destruct (date_parse s) as [u|] eqn:E; [|done].
    destruct (str_eqb _ s) eqn:E'; [|done]. intros [= ->].
    apply str_eqb_eq in E'. eauto using date_parse_valid.
  - intros [Hv ->]. rewrite to_iso_ends_with_Z, date_parse_iso by done.
    by rewrite str_eqb_refl.
Qed.
