(* ===== verification/JsValue.v ===== *)
(** * JavaScript values without identity, and the host interfaces

    [jsv] is the type of the values the source handles as data: primitives,
    opaque values (functions, symbols, bigints) and trees of frozen arrays and
    plain objects.  Objects with identity, accessors, proxies and mutable
    properties are in [JsHeap].  The interfaces of the last part are what the
    source takes from its runtime: Unicode normalisation, collation, SHA-256. *)
From S2P Require Import Prelude JsDate.

(** Finite integral numbers (with [-0] and [0] identified: no operation of the
    source tells them apart), other finite numbers, and the rest. *)
Inductive jsnum :=
  | NInt (z : Z)
  | NFrac (num : Z) (den : positive)
  | NInf (negative : bool)
  | NNaN.

(** [Object.getPrototypeOf] *)
Inductive proto := PObject | PArray | PNull | POther.

#[warnings="-register-all"]
Inductive jsv :=
  | VUndef
  | VNull
  | VBool (b : bool)
  | VNum (n : jsnum)
  | VStr (s : jsstr)
  | VFun (f : nat)
  | VSym (i : nat)
  | VBig (z : Z)
  | VArr (l : list jsv)
  | VObj (p : proto) (l : list (jsstr * jsv)).

#[export] Instance jsnum_eq_dec : EqDecision jsnum.
Proof. solve_decision. Defined.
#[export] Instance proto_eq_dec : EqDecision proto.
Proof. solve_decision. Defined.

(** Induction through the elements and the property values. *)
Section jsv_ind.
Context (P : jsv -> Prop).
Context (Hundef : P VUndef) (Hnull : P VNull) (Hbool : forall b, P (VBool b))
  (Hnum : forall n, P (VNum n)) (Hstr : forall s, P (VStr s))
  (Hfun : forall f, P (VFun f)) (Hsym : forall i, P (VSym i))
  (Hbig : forall z, P (VBig z))
  (Harr : forall l, Forall P l -> P (VArr l))
  (Hobj : forall p l, Forall (fun kv => P kv.2) l -> P (VObj p l)).

Fixpoint jsv_nested_ind (v : jsv) : P v :=
  match v with
  | VUndef => Hundef
  | VNull => Hnull
  | VBool b => Hbool b
  | VNum n => Hnum n
  | VStr s => Hstr s
  | VFun f => Hfun f
  | VSym i => Hsym i
  | VBig z => Hbig z
  | VArr l => Harr l ((fix go (l : list jsv) : Forall P l :=
      match l with
      | [] => @List.Forall_nil _ P
      | x :: l' => @List.Forall_cons _ P x l' (jsv_nested_ind x) (go l')
      end) l)
  | VObj p l => Hobj p l
      ((fix go (l : list (jsstr * jsv)) : Forall (fun kv => P kv.2) l :=
      match l with
      | [] => @List.Forall_nil _ (fun kv => P kv.2)
      | x :: l' =>
          @List.Forall_cons _ (fun kv => P kv.2) x l' (jsv_nested_ind x.2) (go l')
      end) l)
  end.
End jsv_ind.

(** ** Tests *)

Definition max_safe_integer : Z := 9007199254740991.

(** [Number.isSafeInteger(v)] *)
Definition is_safe_integer (v : jsv) : option Z :=
  match v with
  | VNum (NInt z) =>
      if (- max_safe_integer <=? z) && (z <=? max_safe_integer)
      then Some z else None
  | _ => None
  end.

(** [v === s] for a string [s] *)
Definition is_str (v : jsv) (s : jsstr) : bool :=
  match v with VStr t => str_eqb t s | _ => false end.

Definition is_null (v : jsv) : bool :=
  match v with VNull => true | _ => false end.

Definition is_bool (v : jsv) (b : bool) : bool :=
  match v with VBool b' => eqb b' b | _ => false end.

(** [typeof v === 'string' && test(v)] *)
Definition str_that (test : jsstr -> bool) (v : jsv) : option jsstr :=
  match v with VStr s => if test s then Some s else None | _ => None end.

(** [v && typeof v === 'object' && !Array.isArray(v)] *)
Definition is_record (v : jsv) : bool :=
  match v with VObj _ _ => true | _ => false end.

(** ** Properties *)

Fixpoint alist_get {V} (k : jsstr) (l : list (jsstr * V)) : option V :=
  match l with
  | [] => None
  | (k', v) :: l' => if str_eqb k' k then Some v else alist_get k l'
  end.

(** [v.k] for a value that is not [null] or [undefined]; the source reads no
    property a prototype defines. *)
Definition get (k : jsstr) (v : jsv) : jsv :=
  match v with
  | VObj _ l => default VUndef (alist_get k l)
  | _ => VUndef
  end.

(** [Object.keys(v)] of a plain object *)
Definition keys_of (v : jsv) : list jsstr :=
  match v with VObj _ l => l.*1 | _ => [] end.

Lemma is_str_eq v s : is_str v s = true <-> v = VStr s.
Proof.
  destruct v; simpl; try (split; [done|intros [=]]). rewrite str_eqb_eq.
  split; [by intros ->|by intros [=]].
Qed.

Lemma alist_get_Some {V} k (l : list (jsstr * V)) v :
  alist_get k l = Some v -> (k, v) ∈ l.
Proof.
  induction l as [|[k' v'] l IH]; simpl; [done|].
  destruct (str_eqb k' k) eqn:E.
  - apply str_eqb_eq in E as ->. intros [= ->]. left.
  - intros H. right. auto.
Qed.

Lemma alist_get_is_Some {V} k (l : list (jsstr * V)) :
  is_Some (alist_get k l) <-> k ∈ l.*1.
Proof.
  induction l as [|[k' v'] l IH]; simpl.
  - split; [by intros []|]. by intros ?%not_elem_of_nil.
  - rewrite elem_of_cons. destruct (str_eqb k' k) eqn:E.
    + apply str_eqb_eq in E as ->. split; [by left|done].
    + apply str_eqb_neq in E. rewrite IH. split; [by right|].
      intros [->|?]; done.
Qed.

(** ** [JSON.stringify] of a string (ECMA-262, QuoteJSONString) *)

Definition is_high_surrogate (c : N) : bool := in_range 55296 56319 c.
Definition is_low_surrogate (c : N) : bool := in_range 56320 57343 c.

Definition hex_digit (n : N) : N := if (n <? 10)%N then (48 + n)%N else (87 + n)%N.

(** [\uXXXX] *)
Definition unicode_escape (c : N) : jsstr :=
  [92; 117; hex_digit (c / 4096); hex_digit (c / 256 mod 16);
   hex_digit (c / 16 mod 16); hex_digit (c mod 16)]%N.

Definition json_escape (c : N) : jsstr :=
  match c with
  | 8 => [92; 98] | 9 => [92; 116] | 10 => [92; 110] | 12 => [92; 102]
  | 13 => [92; 114] | 34 => [92; 34] | 92 => [92; 92]
  | _ => if (c <? 32)%N then unicode_escape c else [c]
  end%N.

Fixpoint json_chars (s : jsstr) : jsstr :=
  match s with
  | [] => []
  | c :: s' =>
      if is_high_surrogate c then
        match s' with
        | d :: s'' =>
            if is_low_surrogate d then c :: d :: json_chars s''
            else unicode_escape c ++ json_chars s'
        | [] => unicode_escape c
        end
      else if is_low_surrogate c then unicode_escape c ++ json_chars s'
      else json_escape c ++ json_chars s'
  end.

Definition json_string (s : jsstr) : jsstr := 34%N :: json_chars s ++ [34%N].

(** ** Host interfaces *)

(** [String.prototype.normalize], [toLowerCase], [localeCompare] and
    [String(number)].  The laws are the documented ones: normalisation is
    idempotent and leaves ASCII alone, lower-casing maps the ASCII capitals,
    a collation is a total preorder, and a safe integer prints in decimal. *)
Definition is_ascii (c : N) : bool := (c <? 128)%N.
Definition ascii_lower (c : N) : N := if is_upper c then (c + 32)%N else c.

Class StringHost := {
  nfc : jsstr -> jsstr;
  nfkc : jsstr -> jsstr;
  to_lower : jsstr -> jsstr;
  (** [left.localeCompare(right) <= 0] *)
  locale_leb : jsstr -> jsstr -> bool;
  number_to_string : jsnum -> jsstr;
  (** the value of a JSON number token that is not a safe integer literal *)
  number_of_literal : jsstr -> jsnum;
  nfc_idemp s : nfc (nfc s) = nfc s;
  nfc_ascii s : forallb is_ascii s = true -> nfc s = s;
  nfkc_ascii s : forallb is_ascii s = true -> nfkc s = s;
  to_lower_ascii s : forallb is_ascii s = true -> to_lower s = ascii_lower <$> s;
  locale_leb_total s t : locale_leb s t = true \/ locale_leb t s = true;
  locale_leb_trans s t u :
    locale_leb s t = true -> locale_leb t u = true -> locale_leb s u = true;
  number_to_string_int z :
    is_safe_integer (VNum (NInt z)) = Some z ->
    number_to_string (NInt z) = string_of_Z z;
}.

(** [crypto.createHash('sha256').update(value, 'utf8').digest('hex')] *)
Class HashHost := {
  sha256_hex : jsstr -> jsstr;
  sha256_hex_format s : hash_pattern (sha256_hex s) = true;
}.

(** [crypto.createHash('sha256').update(bytes).digest('hex')] *)
Class ByteHashHost := {
  sha256_bytes : list N -> jsstr;
  sha256_bytes_format b : hash_pattern (sha256_bytes b) = true;
}.

(** *** Concrete hosts

    Instances the witnesses compute with: identity normalisation, a
    collation by code units, and a polynomial checksum in the format of a digest. *)
Definition ascii_lower_all (s : jsstr) : jsstr := ascii_lower <$> s.

(** The underscore sorts before the other characters, as it does under ICU. *)
Definition collation_key (c : N) : N := if (c =? 95)%N then 0%N else (c + 1)%N.

Program Definition plain_string_host : StringHost := {|
  nfc s := s;
  nfkc s := s;
  to_lower := ascii_lower_all;
  locale_leb s t := str_leb (collation_key <$> s) (collation_key <$> t);
  number_to_string n :=
    match n with
    | NInt z => string_of_Z z
    | NFrac _ _ => js "fraction"
    | NInf neg => if neg then js "-Infinity" else js "Infinity"
    | NNaN => js "NaN"
    end;
  number_of_literal _ := NNaN;
|}.
Next Obligation. done. Qed.
Next Obligation. done. Qed.
Next Obligation. done. Qed.
Next Obligation. done. Qed.
Next Obligation. intros. apply str_leb_total. Qed.
Next Obligation. intros s t u. apply str_leb_trans. Qed.
Next Obligation. done. Qed.

Lemma plain_locale_antisym (s t : jsstr) :
  @locale_leb plain_string_host s t = true -> @locale_leb plain_string_host t s = true -> s = t.
Proof.
  intros H1 H2. apply (list_fmap_eq_inj collation_key); [|by apply str_leb_antisym].
  intros x y. unfold collation_key.
  destruct (N.eqb_spec x 95), (N.eqb_spec y 95); lia.
Qed.

Definition checksum (s : jsstr) : N :=
  foldl (fun h c => (h * 1099511628211 + c + 1) mod 18446744073709551616)%N 0%N s.

Fixpoint hex_digits (n : nat) (x : N) : jsstr :=
  match n with
  | O => []
  | S n' => hex_digits n' (x / 16) ++ [hex_digit (x mod 16)]
  end%N.

Lemma hex_digit_is_hex x : (x < 16)%N -> is_hex (hex_digit x) = true.
Proof.
  intros H. unfold is_hex, is_digit, in_range, hex_digit.
  destruct (N.ltb_spec x 10); rewrite !orb_true_iff, !andb_true_iff, !N.leb_le; lia.
Qed.

Lemma hex_digits_format n x : re_class is_hex n n (hex_digits n x) = true.
Proof.
  assert (forall n x, length (hex_digits n x) = n) as Hlen.
  { clear. induction n as [|n IH]; intros x; simpl; [done|].
    rewrite length_app, IH. simpl. lia. }
  unfold re_class. rewrite Hlen, Nat.leb_refl. simpl.
  revert x. induction n as [|n IH]; intros x; simpl; [done|].
  rewrite forallb_app, IH. simpl. rewrite andb_true_r.
  apply hex_digit_is_hex, N.mod_lt. done.
Qed.

Program Definition checksum_hash_host : HashHost := {|
  sha256_hex s := hex_digits 64 (checksum s);
|}.
Next Obligation. intros s. apply hex_digits_format. Qed.

Program Definition checksum_bytes_host : ByteHashHost := {|
  sha256_bytes b := hex_digits 64 (checksum b * 2 ^ 192 + checksum b)%N;
|}.
Next Obligation. intros b. apply hex_digits_format. Qed.
