(* ===== verification/ProofSdk.v ===== *)
(** * The proof SDK: canonical payloads, wire receipts, anchor records

    Models [sdk/typescript/swisstokint-proof.mjs] except its Merkle batches
    (see [Merkle]).  Payloads are inert data ([jsv]); the modules of [core/]
    reach these functions with snapshots they took themselves. *)
From S2P Require Import Prelude JsDate JsValue.

Definition RECEIPT_SCHEMA_VERSION : jsstr := js "pom-receipt/0.2".
Definition BATCH_SCHEMA_VERSION : jsstr := js "pom-batch/0.1".
Definition ANCHOR_RECORD_SCHEMA_VERSION : jsstr := js "pom-anchor-record/0.1".

(** [/^[a-z0-9][a-z0-9._/-]{2,63}$/] *)
Definition ADAPTER_ID_PATTERN : jsstr -> bool :=
  re_head_class (fun c => is_lower c || is_digit c)
    (fun c => is_lower c || is_digit c || is_one_of "._/-" c) 2 63.
(** [/^[A-Za-z0-9_.-]{1,64}$/] *)
Definition PAYLOAD_KEY_PATTERN : jsstr -> bool :=
  re_class (fun c => is_alnum c || is_one_of "_.-" c) 1 64.
Definition KINDS : list jsstr :=
  js <$> ["signal"; "research"; "governance"; "milestone"].
Definition MAX_DEPTH : Z := 8.
Definition MAX_STRING_LENGTH : nat := 2048.
Definition MAX_CANONICAL_BYTES : N := 16 * 1024.

Definition sensitivePayloadKeys : list jsstr := js <$>
  ["apikey"; "apisecret"; "accesskey"; "accesssecret"; "accesstoken";
   "refreshtoken"; "password"; "secret"; "privatekey"; "seedphrase";
   "mnemonic"; "email"; "phone"; "walletaddress"; "balance";
   "accountbalance"; "accountid"; "userid"; "position"; "positions"].

Definition type_error (msg : jsstr) : jserr := Err TypeErr [] msg.
Definition payload_error (code msg : string) : jserr :=
  Err PayloadErr (js code) (js msg).

(** [assert] and [payloadAssert] *)
Definition assert (condition : bool) (message : jsstr) : res unit :=
  guard_or condition (type_error message).
Definition payloadAssert (condition : bool) (code message : string) : res unit :=
  guard_or condition (payload_error code message).

Definition mem_str (s : jsstr) (l : list jsstr) : bool := bool_decide (s ∈ l).

Lemma mem_str_true s l : mem_str s l = true <-> s ∈ l.
Proof. apply bool_decide_eq_true. Qed.

(** [Buffer.byteLength(s, 'utf8')]: a surrogate pair takes four bytes, a lone
    surrogate is replaced by U+FFFD. *)
Fixpoint utf8_length (s : jsstr) : N :=
  match s with
  | [] => 0
  | c :: s' =>
      if (c <? 128)%N then 1 + utf8_length s'
      else if (c <? 2048)%N then 2 + utf8_length s'
      else if is_high_surrogate c then
        match s' with
        | d :: s'' =>
            if is_low_surrogate d then 4 + utf8_length s''
            else 3 + utf8_length s'
        | [] => 3
        end
      else 3 + utf8_length s'
  end%N.

(** [list.join(',')] *)
Fixpoint join_comma (l : list jsstr) : jsstr :=
  match l with
  | [] => []
  | [x] => x
  | x :: l' => x ++ js "," ++ join_comma l'
  end.

Section sdk.
Context `{SH : !StringHost, HH : !HashHost, DH : !DateHost}.

(** ** Payloads *)

Definition normalizedSensitiveKey (key : jsstr) : jsstr :=
  filter (fun c => is_lower c || is_digit c = true) (to_lower (nfkc key)).

(** The argument and the result [remaining] are [budget.remaining] before and
    after the call. *)
Fixpoint validateSafeValue (value : jsv) (depth : Z) (remaining : Z) : res Z :=
  _ ← payloadAssert (depth <=? MAX_DEPTH) "PROOF_E_PAYLOAD_DEPTH"
        "Payload exceeds the maximum depth";
  _ ← payloadAssert (0 <? remaining) "PROOF_E_PAYLOAD_NODES"
        "Payload exceeds the maximum node count";
  let remaining := remaining - 1 in
  match value with
  | VNull | VBool _ => Ok remaining
  | VStr s =>
      _ ← payloadAssert (length s <=? MAX_STRING_LENGTH)%nat
            "PROOF_E_PAYLOAD_STRING" "Payload string is too long";
      Ok remaining
  | VNum _ =>
      _ ← payloadAssert (bool_decide (is_Some (is_safe_integer value)))
            "PROOF_E_PAYLOAD_NUMBER" "Payload numbers must be safe integers";
      Ok remaining
  | VArr items =>
      fold_res (fun item remaining => validateSafeValue item (depth + 1) remaining)
        items remaining
  | VObj _ entries =>
      fold_res (fun '(key, nestedValue) remaining =>
        _ ← guard_or (PAYLOAD_KEY_PATTERN key)
              (Err PayloadErr (js "PROOF_E_PAYLOAD_KEY")
                 (js "Unsafe payload key: " ++ key));
        _ ← guard_or (negb (mem_str (normalizedSensitiveKey key) sensitivePayloadKeys))
              (Err PayloadErr (js "PROOF_E_PAYLOAD_SENSITIVE_KEY")
                 (js "Sensitive payload key: " ++ key));
        validateSafeValue nestedValue (depth + 1) remaining) entries remaining
  | VUndef | VFun _ | VSym _ | VBig _ =>
      Throw (payload_error "PROOF_E_PAYLOAD_TYPE" "Payload contains an unsupported value")
  end.

Definition entry_leb {V} (left right : jsstr * V) : bool := str_leb left.1 right.1.

(** [Object.entries] of a function, symbol or bigint is empty and of
    [undefined] throws.  The entries are rendered before they are sorted: the
    comparator reads the keys only. *)
Fixpoint canonicalizeValue (value : jsv) : res jsstr :=
  match value with
  | VNull => Ok (js "null")
  | VBool b => Ok (if b then js "true" else js "false")
  | VNum n => Ok (number_to_string n)
  | VStr s => Ok (json_string (nfc s))
  | VArr items =>
      parts ← map_res canonicalizeValue items;
      Ok (js "[" ++ join_comma parts ++ js "]")
  | VObj _ entries =>
      parts ← map_res (fun '(key, nestedValue) =>
                part ← canonicalizeValue nestedValue; Ok (key, part)) entries;
      Ok (js "{" ++ join_comma ((fun '(key, part) => json_string key ++ js ":" ++ part)
                                  <$> sort_by entry_leb parts) ++ js "}")
  | VUndef => Throw (type_error (js "Cannot convert undefined or null to object"))
  | VFun _ | VSym _ | VBig _ => Ok (js "{}")
  end.

Definition sha256Hex (value : jsstr) : jsstr := sha256_hex value.

Definition canonicalizePayload (payload : jsv) : res jsstr :=
  _ ← payloadAssert (is_record payload) "PROOF_E_PAYLOAD_SHAPE"
        "Payload must be a JSON object";
  _ ← validateSafeValue payload 0 1000;
  canonical ← canonicalizeValue payload;
  _ ← payloadAssert (utf8_length canonical <=? MAX_CANONICAL_BYTES)%N
        "PROOF_E_PAYLOAD_CANONICAL_BYTES" "Canonical payload exceeds 16 KiB";
  Ok canonical.

Record payload_commitment := {
  canonicalPayload : jsstr;
  payloadHash : jsstr;
}.

Definition commitPayload (payload : jsv) : res payload_commitment :=
  canonicalPayload ← canonicalizePayload payload;
  Ok {| canonicalPayload := canonicalPayload;
        payloadHash := sha256Hex canonicalPayload |}.
End sdk.
