(* ===== verification/Json.v ===== *)
(** * [JSON.parse]

    The ECMA-404 grammar as a recursive descent over code units, each call on
    one unit of fuel less.  [json_parse] gives [2 * length + 2] units, which is
    enough for every text (each value, separator and bracket costs a character
    at most twice).  A number token that is not a safe integer literal is
    valued by the host.  Members are kept in the order of first occurrence and
    a repeated key keeps the last value. *)
From S2P Require Import Prelude JsDate JsValue ProofSdk.

Definition is_json_ws (c : N) : bool :=
  (c =? 32)%N || (c =? 9)%N || (c =? 10)%N || (c =? 13)%N.

Fixpoint skip_ws (s : jsstr) : jsstr :=
  match s with
  | c :: s' => if is_json_ws c then skip_ws s' else s
  | [] => []
  end.

Definition hex_value (c : N) : option N :=
  if is_digit c then Some (c - 48)%N
  else if in_range 97 102 c then Some (c - 87)%N
  else if in_range 65 70 c then Some (c - 55)%N else None.

Definition hex4 (a b c d : N) : option N :=
  a ← hex_value a; b ← hex_value b; c ← hex_value c; d ← hex_value d;
  Some (((a * 16 + b) * 16 + c) * 16 + d)%N.

Definition simple_escape (e : N) : option N :=
  match e with
  | 34 => Some 34 | 92 => Some 92 | 47 => Some 47 | 98 => Some 8
  | 102 => Some 12 | 110 => Some 10 | 114 => Some 13 | 116 => Some 9
  | _ => None
  end%N.

(** The characters after an opening quote: the string and what follows the
    closing quote. *)
Fixpoint jp_string (s : jsstr) : option (jsstr * jsstr) :=
  match s with
  | [] => None
  | c :: s1 =>
      if (c =? 34)%N then Some ([], s1)
      else if (c =? 92)%N then
        match s1 with
        | 117 :: a :: b :: c :: d :: s2 =>
            u ← hex4 a b c d; '(t, r) ← jp_string s2; Some (u :: t, r)
        | e :: s2 => u ← simple_escape e; '(t, r) ← jp_string s2; Some (u :: t, r)
        | [] => None
        end
      else if (c <? 32)%N then None
      else '(t, r) ← jp_string s1; Some (c :: t, r)
  end%N.

Fixpoint span_digits (s : jsstr) : jsstr * jsstr :=
  match s with
  | c :: s' => if is_digit c then let '(d, r) := span_digits s' in (c :: d, r)
               else ([], s)
  | [] => ([], [])
  end.

(** The fraction and exponent after an integer part. *)
Definition jp_fraction (s : jsstr) : option (jsstr * jsstr) :=
  match s with
  | 46 :: s' =>
      match span_digits s' with ([], _) => None | (d, r) => Some (46 :: d, r) end
  | _ => Some ([], s)
  end%N.
Definition jp_exponent (s : jsstr) : option (jsstr * jsstr) :=
  match s with
  | e :: s' =>
      if (e =? 69)%N || (e =? 101)%N then
        let '(sign, s'') := match s' with
          | 43 :: r => ([43], r) | 45 :: r => ([45], r) | _ => ([], s') end in
        match span_digits s'' with
        | ([], _) => None
        | (d, r) => Some (e :: sign ++ d, r)
        end
      else Some ([], s)
  | [] => Some ([], s)
  end%N.

Section json.
Context `{SH : !StringHost}.

Definition jp_number (s : jsstr) : option (jsv * jsstr) :=
  let '(minus, s1) := match s with 45%N :: r => (true, r) | _ => (false, s) end in
  let '(ds, s2) := span_digits s1 in
  match ds with
  | [] => None
  | d :: ds' =>
      if (d =? 48)%N && negb (bool_decide (ds' = [])) then None else
      '(frac, s3) ← jp_fraction s2;
      '(ex, s4) ← jp_exponent s3;
      let z := if minus then - digits_val ds else digits_val ds in
      match frac, ex, is_safe_integer (VNum (NInt z)) with
      | [], [], Some z => Some (VNum (NInt z), s4)
      | _, _, _ => Some (VNum (number_of_literal
                     ((if minus then [45%N] else []) ++ ds ++ frac ++ ex)), s4)
      end
  end.

(** The text after a literal name. *)
Definition jp_literal (name : jsstr) (v : jsv) (s : jsstr) : option (jsv * jsstr) :=
  if str_eqb (take (length name) s) name then Some (v, drop (length name) s)
  else None.

(** [obj[k] = v] on the members read so far. *)
Fixpoint alist_set {V} (k : jsstr) (v : V) (l : list (jsstr * V)) : list (jsstr * V) :=
  match l with
  | [] => [(k, v)]
  | (k', v') :: l' =>
      if str_eqb k' k then (k, v) :: l' else (k', v') :: alist_set k v l'
  end.

Fixpoint jp_value (fuel : nat) (s : jsstr) {struct fuel} : option (jsv * jsstr) :=
  match fuel with
  | O => None
  | S fuel' =>
      match skip_ws s with
      | [] => None
      | c :: r =>
          if (c =? 34)%N then '(t, r') ← jp_string r; Some (VStr t, r')
          else if (c =? 91)%N then
            match skip_ws r with
            | 93%N :: r' => Some (VArr [], r')
            | _ => jp_elements fuel' [] r
            end
          else if (c =? 123)%N then
            match skip_ws r with
            | 125%N :: r' => Some (VObj PObject [], r')
            | _ => jp_members fuel' [] r
            end
          else if (c =? 110)%N then jp_literal (js "null") VNull (c :: r)
          else if (c =? 116)%N then jp_literal (js "true") (VBool true) (c :: r)
          else if (c =? 102)%N then jp_literal (js "false") (VBool false) (c :: r)
          else jp_number (c :: r)
      end
  end
with jp_elements (fuel : nat) (acc : list jsv) (s : jsstr) {struct fuel}
  : option (jsv * jsstr) :=
  match fuel with
  | O => None
  | S fuel' =>
      '(v, r) ← jp_value fuel' s;
      match skip_ws r with
      | 44%N :: r' => jp_elements fuel' (acc ++ [v]) r'
      | 93%N :: r' => Some (VArr (acc ++ [v]), r')
      | _ => None
      end
  end
with jp_members (fuel : nat) (acc : list (jsstr * jsv)) (s : jsstr) {struct fuel}
  : option (jsv * jsstr) :=
  match fuel with
  | O => None
  | S fuel' =>
      match skip_ws s with
      | 34%N :: r0 =>
          '(k, r1) ← jp_string r0;
          match skip_ws r1 with
          | 58%N :: r2 =>
              '(v, r) ← jp_value fuel' r2;
              match skip_ws r with
              | 44%N :: r' => jp_members fuel' (alist_set k v acc) r'
              | 125%N :: r' => Some (VObj PObject (alist_set k v acc), r')
              | _ => None
              end
          | _ => None
          end
      | _ => None
      end
  end.

(** [JSON.parse(text)]; [None] is a [SyntaxError]. *)
Definition json_parse (text : jsstr) : option jsv :=
  match jp_value (2 * length text + 2) text with
  | Some (v, r) => match skip_ws r with [] => Some v | _ => None end
  | None => None
  end.

(** [JSON.stringify(value)] of data without [toJSON] methods; [None] is
    [undefined] and a bigint throws. *)
Fixpoint json_stringify (value : jsv) : res (option jsstr) :=
  match value with
  | VNull => Ok (Some (js "null"))
  | VBool b => Ok (Some (if b then js "true" else js "false"))
  | VNum (NInf _) | VNum NNaN => Ok (Some (js "null"))
  | VNum n => Ok (Some (number_to_string n))
  | VStr s => Ok (Some (json_string s))
  | VUndef | VFun _ | VSym _ => Ok None
  | VBig _ => Throw (Err TypeErr [] (js "Do not know how to serialize a BigInt"))
  | VArr items =>
      parts ← map_res (fun item => default (js "null") <$> json_stringify item) items;
      Ok (Some (js "[" ++ join_comma parts ++ js "]"))
  | VObj _ entries =>
      parts ← map_res (fun '(key, nested) =>
                part ← json_stringify nested;
                Ok (option_map (fun text => json_string key ++ js ":" ++ text) part)) entries;
      Ok (Some (js "{" ++ join_comma (omap id parts) ++ js "}"))
  end.
End json.
