(* ===== verification/Canonical.v ===== *)
(** * Canonical payloads parse back

    The round trip behind every commitment of the source: the text
    [canonicalizePayload] hashes determines the payload up to the order of its
    properties and Unicode normalisation of its strings. *)
From S2P Require Import Prelude JsDate JsValue ProofSdk Json.
From Stdlib Require Import ZifyN.

Section canonical.
Context `{SH : !StringHost}.

(** ** What the canonical text keeps *)

Fixpoint normalize (v : jsv) : jsv :=
  match v with
  | VStr s => VStr (nfc s)
  | VArr l => VArr (normalize <$> l)
  | VObj _ l =>
      VObj PObject (sort_by entry_leb ((fun '(k, v) => (k, normalize v)) <$> l))
  | _ => v
  end.

(** The values [validateSafeValue] accepts, depth and counts aside, with
    distinct property names as every object has. *)
Fixpoint canonical_data (v : jsv) : Prop :=
  match v with
  | VNull | VBool _ | VStr _ => True
  | VNum _ => is_Some (is_safe_integer v)
  | VArr l => fold_right (fun x P => canonical_data x /\ P) True l
  | VObj _ l =>
      NoDup l.*1 /\ fold_right (fun kv P => canonical_data kv.2 /\ P) True l
  | _ => False
  end.

Lemma fold_right_Forall {A} (P : A -> Prop) l :
  fold_right (fun x Q => P x /\ Q) True l <-> Forall P l.
Proof.
  induction l as [|x l IH]; simpl; [by split|]. by rewrite Forall_cons, IH.
Qed.

(** Fuel a value needs. *)
Fixpoint jsize (v : jsv) : nat :=
  match v with
  | VArr l => S (sum_list_with (fun x => S (jsize x)) l)
  | VObj _ l => S (sum_list_with (fun kv => S (jsize kv.2)) l)
  | _ => 1
  end.

(** ** Tokens *)

Lemma hex_value_digit n : (n < 16)%N -> hex_value (hex_digit n) = Some n.
Proof.
  intros H. unfold hex_value, hex_digit, is_digit, in_range.
  destruct (N.ltb_spec n 10).
  - replace (48 <=? 48 + n)%N with true by (symmetry; apply N.leb_le; lia).
    replace (48 + n <=? 57)%N with true by (symmetry; apply N.leb_le; lia).
    cbn. f_equal. lia.
  - replace (87 + n <=? 57)%N with false by (symmetry; apply N.leb_gt; lia).
    rewrite andb_false_r.
    replace (97 <=? 87 + n)%N with true by (symmetry; apply N.leb_le; lia).
    replace (87 + n <=? 102)%N with true by (symmetry; apply N.leb_le; lia).
    cbn. f_equal. lia.
Qed.

Lemma hex4_escape c :
  (c < 65536)%N ->
  hex4 (hex_digit (c / 4096)) (hex_digit (c / 256 mod 16))
    (hex_digit (c / 16 mod 16)) (hex_digit (c mod 16)) = Some c.
Proof.
  intros H. unfold hex4. rewrite !hex_value_digit by lia. simpl. f_equal.
  assert (c / 4096 = c / 16 / 16 / 16 /\ c / 256 = c / 16 / 16)%N as [-> ->]
    by by rewrite !N.Div0.div_div.
  pose proof (N.Div0.div_mod c 16). pose proof (N.Div0.div_mod (c / 16) 16).
  pose proof (N.Div0.div_mod (c / 16 / 16) 16). lia.
Qed.

Lemma jp_string_escape c s :
  (c < 65536)%N ->
  jp_string (unicode_escape c ++ s) = '(t, r) ← jp_string s; Some (c :: t, r).
Proof. intros H. cbn -[hex4 hex_digit]. by rewrite hex4_escape. Qed.

Lemma jp_string_json_escape c s :
  jp_string (json_escape c ++ s) = '(t, r) ← jp_string s; Some (c :: t, r).
Proof.
  unfold json_escape.
  repeat match goal with |- context [match ?x with _ => _ end] =>
    is_var x; destruct x; try done end.
  all: match goal with |- context [(?c <? 32)%N] =>
    destruct (N.ltb_spec c 32); [rewrite jp_string_escape; [done|lia]|] end.
  all: cbn [jp_string app].
  all: repeat match goal with |- context [(?a =? ?b)%N] =>
    destruct (N.eqb_spec a b); [lia|] end.
  all: match goal with |- context [(?c <? 32)%N] =>
    destruct (N.ltb_spec c 32); [lia|done] end.
Qed.

Lemma json_escape_plain c : (65536 <= c)%N -> json_escape c = [c].
Proof.
  intros H. unfold json_escape.
  repeat match goal with |- context [match ?x with _ => _ end] =>
    is_var x; destruct x; try done; try lia end.
  all: match goal with |- context [(?c <? 32)%N] =>
    destruct (N.ltb_spec c 32); [lia|done] end.
Qed.

Lemma is_surrogate_bound c :
  is_high_surrogate c = true \/ is_low_surrogate c = true -> (55296 <= c < 65536)%N.
Proof.
  unfold is_high_surrogate, is_low_surrogate, in_range.
  rewrite !andb_true_iff, !N.leb_le. lia.
Qed.

Lemma jp_string_plain c s :
  (55296 <= c)%N -> jp_string (c :: s) = '(t, r) ← jp_string s; Some (c :: t, r).
Proof.
  intros H. cbn [jp_string].
  destruct (N.eqb_spec c 34); [lia|]. destruct (N.eqb_spec c 92); [lia|].
  destruct (N.ltb_spec c 32); [lia|done].
Qed.

Lemma jp_string_json_chars s rest :
  jp_string (json_chars s ++ 34%N :: rest) = Some (s, rest).
Proof.
  remember (length s) as n eqn:Hn. revert s Hn.
  induction n as [n IH] using lt_wf_ind. intros s Hn. subst n.
  destruct s as [|c s]; [done|]. cbn [json_chars].
  assert (forall s', (length s' <= length s)%nat ->
     jp_string (json_chars s' ++ 34%N :: rest) = Some (s', rest)) as IH'.
  { intros s' Hle. eapply (IH (length s')); simpl; [lia|done]. }
  destruct (is_high_surrogate c) eqn:Eh; [destruct s as [|d s]; [|destruct (is_low_surrogate d) eqn:El]
    |destruct (is_low_surrogate c) eqn:El].
  - pose proof (is_surrogate_bound c (or_introl Eh)).
    by rewrite jp_string_escape by lia.
  - pose proof (is_surrogate_bound c (or_introl Eh)).
    pose proof (is_surrogate_bound d (or_intror El)).
    cbn [app]. rewrite !jp_string_plain by lia. by rewrite IH' by (simpl; lia).
  - pose proof (is_surrogate_bound c (or_introl Eh)).
    rewrite <- app_assoc, jp_string_escape by lia. by rewrite IH'.
  - pose proof (is_surrogate_bound c (or_intror El)).
    rewrite <- app_assoc, jp_string_escape by lia. by rewrite IH'.
  - rewrite <- app_assoc, jp_string_json_escape. by rewrite IH'.
Qed.

(** ** Numbers *)

(** What may follow a number token without extending it. *)
Definition token_end (rest : jsstr) : Prop :=
  match rest with
  | [] => True
  | c :: _ => is_digit c = false /\ c <> 46%N /\ c <> 69%N /\ c <> 101%N
  end.

Lemma span_digits_app d rest :
  Forall (fun c => is_digit c = true) d ->
  match rest with [] => True | c :: _ => is_digit c = false end ->
  span_digits (d ++ rest) = (d, rest).
Proof.
  intros Hd Hr. induction Hd as [|c d Hc Hd IH]; simpl.
  - destruct rest as [|c rest]; simpl; [done|]. by rewrite Hr.
  - by rewrite Hc, IH.
Qed.

Lemma token_end_fraction rest : token_end rest -> jp_fraction rest = Some ([], rest).
Proof.
  destruct rest as [|c rest]; [done|]. intros (_ & H & _). unfold jp_fraction.
  repeat match goal with |- context [match ?x with _ => _ end] =>
    is_var x; destruct x; try done end.
Qed.

Lemma token_end_exponent rest : token_end rest -> jp_exponent rest = Some ([], rest).
Proof.
  destruct rest as [|c rest]; [done|]. intros (_ & _ & H1 & H2). simpl.
  destruct (N.eqb_spec c 69), (N.eqb_spec c 101); done.
Qed.

Lemma jp_number_int (z : Z) rest :
  is_safe_integer (VNum (NInt z)) = Some z -> token_end rest ->
  jp_number (string_of_Z z ++ rest) = Some (VNum (NInt z), rest).
Proof.
  intros Hz Hr. unfold string_of_Z.
  assert (forall y, 0 <= y -> span_digits (string_of_nonneg y ++ rest)
     = (string_of_nonneg y, rest)) as Hspan.
  { intros y Hy. destruct (string_of_nonneg_spec y Hy) as (_ & _ & HF & _).
    apply span_digits_app; [done|]. by destruct rest; [|destruct Hr]. }
  destruct (Z.ltb_spec z 0) as [Hneg|Hpos]; unfold jp_number.
  - cbn [app]. destruct (string_of_nonneg_spec (- z)) as (Hv & Hne & HF & H0); [lia|].
    rewrite Hspan by lia. destruct (string_of_nonneg (- z)) as [|d ds]; [done|].
    replace ((d =? 48)%N && _) with false.
    2: { symmetry. apply andb_false_iff. destruct (N.eqb_spec d 48) as [->|]; [right|by left].
         specialize (H0 eq_refl). by destruct ds. }
    cbn [mbind option_bind]. rewrite token_end_fraction by done.
    cbn [mbind option_bind].
    rewrite token_end_exponent by done. cbn [mbind option_bind].
    rewrite Hv, Z.opp_involutive. cbn -[is_safe_integer]. by rewrite Hz.
  - destruct (string_of_nonneg_spec z) as (Hv & Hne & HF & H0); [lia|].
    pose proof (Hspan z Hpos) as Hs. destruct (string_of_nonneg z) as [|d ds]; [done|].
    assert (d <> 45%N) as Hd by (inversion HF; subst; by intros ->).
    cbn [app] in *.
    replace (match d with 45%N => (true, ds ++ rest) | _ => (false, d :: ds ++ rest) end)
      with (false, d :: ds ++ rest).
    2: { repeat match goal with |- context [match ?x with _ => _ end] =>
           is_var x; destruct x; try done end. }
    rewrite Hs.
    replace ((d =? 48)%N && _) with false.
    2: { symmetry. apply andb_false_iff. destruct (N.eqb_spec d 48) as [->|]; [right|by left].
         specialize (H0 eq_refl). by destruct ds. }
    rewrite token_end_fraction by done. cbn [mbind option_bind].
    rewrite token_end_exponent by done. cbn [mbind option_bind].
    rewrite Hv. cbn -[is_safe_integer]. by rewrite Hz.
Qed.

(** ** Values *)

(** A part renders a value: whatever follows it, the parser reads it back. *)
Definition reads_back (v : jsv) (part : jsstr) : Prop :=
  (exists x p, part = x :: p /\ is_json_ws x = false /\ x <> 93%N /\ x <> 125%N) /\
  forall rest fuel, token_end rest -> (jsize v <= fuel)%nat ->
    jp_value fuel (part ++ rest) = Some (normalize v, rest).

Lemma skip_ws_cons c s : is_json_ws c = false -> skip_ws (c :: s) = c :: s.
Proof. intros H. simpl. by rewrite H. Qed.

(** Evaluate the comparisons of literal code units and take the branch. *)
Ltac eval_codes :=
  repeat match goal with
  | |- context [(?a =? ?b)%N] =>
      let r := eval vm_compute in (a =? b)%N in
      match r with true => idtac | false => idtac end;
      change (a =? b)%N with r; cbn iota
  end.
(** Run the parser over the punctuation of the text. *)
Ltac run_parser :=
  repeat first [rewrite skip_ws_cons by done | progress eval_codes
    | progress cbn [mbind option_bind app fst snd] | rewrite <- app_assoc].

Lemma join_comma_cons x l :
  l <> [] -> join_comma (x :: l) = x ++ [44%N] ++ join_comma l.
Proof. by destruct l. Qed.

Lemma jp_elements_join items parts :
  Forall2 reads_back items parts -> items <> [] ->
  forall fuel acc rest,
  (sum_list_with (fun x => S (jsize x)) items <= fuel)%nat ->
  jp_elements fuel acc (join_comma parts ++ 93%N :: rest)
  = Some (VArr (acc ++ (normalize <$> items)), rest).
Proof.
  induction 1 as [|v part items parts [_ Hv] Hrest IH]; [done|].
  intros _ fuel acc rest Hf. simpl in Hf. destruct fuel as [|fuel]; [lia|].
  cbn [jp_elements]. destruct (decide (items = [])) as [->|Hne].
  - inversion Hrest; subst. cbn [join_comma].
    rewrite Hv by (done || lia). run_parser. done.
  - assert (parts <> []) as Hp by (intros ->; by inversion Hrest; subst).
    rewrite join_comma_cons, <- !app_assoc by done.
    rewrite Hv by (done || lia). run_parser. rewrite IH by (done || lia).
    by rewrite <- app_assoc.
Qed.

Lemma alist_set_fresh {V} k (v : V) l : k ∉ l.*1 -> alist_set k v l = l ++ [(k, v)].
Proof.
  induction l as [|[k' v'] l IH]; simpl; [done|]. intros Hk.
  apply not_elem_of_cons in Hk as [Hne Hk].
  destruct (str_eqb k' k) eqn:E; [by apply str_eqb_eq in E as ->|].
  by rewrite IH.
Qed.

(** A rendered member: the key as a JSON string, a colon, the value. *)
Definition member_text (kp : jsstr * jsstr) : jsstr :=
  json_string kp.1 ++ 58%N :: kp.2.
Definition reads_back_entry (kv : jsstr * jsv) (kp : jsstr * jsstr) : Prop :=
  kp.1 = kv.1 /\ reads_back kv.2 kp.2.

Lemma jp_members_join entries parts :
  Forall2 reads_back_entry entries parts -> entries <> [] ->
  forall fuel acc rest,
  NoDup (acc.*1 ++ entries.*1) ->
  (sum_list_with (fun kv => S (jsize kv.2)) entries <= fuel)%nat ->
  jp_members fuel acc (join_comma (member_text <$> parts) ++ 125%N :: rest)
  = Some (VObj PObject (acc ++ ((fun kv => (kv.1, normalize kv.2)) <$> entries)), rest).
Proof.
  induction 1 as [|[k v] [k' part] entries parts [Hk [_ Hv]] Hrest IH]; [done|].
  simpl in Hk; subst k'. simpl in Hv.
  intros _ fuel acc rest Hnd Hf. simpl in Hf, Hnd. destruct fuel as [|fuel]; [lia|].
  assert (k ∉ acc.*1) as Hfresh
    by (apply NoDup_app in Hnd as (_ & Hd & _); intros ?; by eapply Hd; [done|left]).
  cbn [jp_members]. destruct (decide (entries = [])) as [->|Hne].
  - inversion Hrest; subst. cbn [join_comma fmap list_fmap member_text].
    unfold member_text. cbn [fst snd json_string app].
    rewrite <- !app_assoc. cbn [app]. rewrite skip_ws_cons by done.
    rewrite jp_string_json_chars. cbn -[jp_value].
    rewrite Hv by (done || lia). cbn. by rewrite alist_set_fresh.
  - assert (parts <> []) as Hp by (intros ->; by inversion Hrest; subst).
    cbn [fmap list_fmap]. rewrite join_comma_cons by (by destruct parts).
    unfold member_text at 1. unfold json_string at 1.
    run_parser. rewrite jp_string_json_chars. run_parser.
    rewrite Hv by (done || lia). run_parser.
    rewrite alist_set_fresh by done. rewrite IH; [|done| |lia].
    + by rewrite <- app_assoc.
    + rewrite fmap_app. simpl. by rewrite <- app_assoc.
Qed.

Lemma string_of_Z_head z :
  exists x p, string_of_Z z = x :: p /\ (is_digit x = true \/ x = 45%N).
Proof.
  unfold string_of_Z. destruct (Z.ltb_spec z 0); [by exists 45%N; eauto|].
  destruct (string_of_nonneg_spec z) as (_ & Hne & HF & _); [done|].
  destruct (string_of_nonneg z) as [|x p]; [done|]. inversion HF; eauto.
Qed.

Lemma digit_not (c d : N) : is_digit c = true -> is_digit d = false -> (c =? d)%N = false.
Proof. intros H1 H2. apply N.eqb_neq. congruence. Qed.

Lemma jp_value_number z rest fuel :
  is_safe_integer (VNum (NInt z)) = Some z -> token_end rest -> (1 <= fuel)%nat ->
  jp_value fuel (string_of_Z z ++ rest) = Some (VNum (NInt z), rest).
Proof.
  intros Hz Hr Hf. destruct fuel as [|fuel]; [lia|]. cbn [jp_value].
  rewrite <- (jp_number_int z rest) by done.
  destruct (string_of_Z_head z) as (x & p & -> & Hx). cbn [app].
  destruct Hx as [Hx| ->]; [|done].
  rewrite skip_ws_cons by (unfold is_json_ws; by rewrite !(digit_not x)).
  by rewrite !(digit_not x).
Qed.

Lemma is_safe_integer_VNum n z :
  is_safe_integer (VNum n) = Some z -> n = NInt z.
Proof. destruct n; simpl; try done. case_match; [by intros [= ->]|done]. Qed.

Lemma jp_value_string s rest fuel :
  (1 <= fuel)%nat -> jp_value fuel (json_string s ++ rest) = Some (VStr s, rest).
Proof.
  intros Hf. destruct fuel as [|fuel]; [lia|]. cbn [jp_value json_string app].
  run_parser. by rewrite jp_string_json_chars.
Qed.

Lemma canonical_entries (entries : list (jsstr * jsv)) (parts : list (jsstr * jsstr)) :
  map_res (fun '(key, nestedValue) =>
    part ← canonicalizeValue nestedValue; Ok (key, part)) entries = Ok parts ->
  Forall2 (fun kv kp => kp.1 = kv.1 /\ canonicalizeValue kv.2 = Ok kp.2) entries parts.
Proof.
  intros H%map_res_Ok. eapply Forall2_impl; [exact H|].
  intros [k v] kp Hk. simpl in *. inv_ok. done.
Qed.

Lemma canonical_reads_back v c :
  canonical_data v -> canonicalizeValue v = Ok c -> reads_back v c.
Proof.
  revert c. induction v as [| |b|n|s|f|i|z|l IH|p l IH] using jsv_nested_ind;
    intros c Hd Hc; try done; cbn [canonicalizeValue] in Hc.
  - injection Hc as <-. split; [by eexists _, _|]. intros rest [|fuel] _ Hf; [simpl in Hf; lia|done].
  - injection Hc as <-. split; [destruct b; by eexists _, _|].
    intros rest [|fuel] _ Hf; [simpl in Hf; lia|]. by destruct b.
  - destruct Hd as [z Hz]. pose proof (is_safe_integer_VNum _ _ Hz) as ->.
    injection Hc as <-. rewrite number_to_string_int by done. split.
    + destruct (string_of_Z_head z) as (x & p & -> & Hx). eexists _, _. split; [done|].
      destruct Hx as [Hx| ->]; [|done].
      split; [unfold is_json_ws; by rewrite !(digit_not x)|].
      split; intros ->; done.
    + intros. by apply jp_value_number.
  - injection Hc as <-. split; [by eexists _, _|]. intros. by apply jp_value_string.
  - change (js "[") with [91%N] in Hc. change (js "]") with [93%N] in Hc.
    inv_ok. rename r into parts, Hr into Hparts. apply map_res_Ok in Hparts.
    apply fold_right_Forall in Hd.
    assert (Forall2 reads_back l parts) as HF.
    { clear -IH Hd Hparts. induction Hparts; [constructor|].
      inversion IH; inversion Hd; subst. constructor; auto. }
    split; [by eexists _, _|]. intros rest [|fuel] Hr Hf; [simpl in Hf; lia|].
    cbn [jp_value]. cbn [app]. rewrite skip_ws_cons by done. eval_codes.
    destruct l as [|v0 l0].
    + inversion HF; subst. by cbn.
    + assert (exists x q, (join_comma parts ++ [93%N]) ++ rest = x :: q /\
        is_json_ws x = false /\ x <> 93%N) as (x & q & Hq & Hws & Hx).
      { inversion HF as [|? part ? ps [(x & q & -> & ? & ? & ?) _] ?]; subst.
        destruct ps; by eexists _, _. }
      rewrite Hq, skip_ws_cons by done.
      replace (match x with 93%N => Some (VArr [], q) | _ => jp_elements fuel [] (x :: q) end)
        with (jp_elements fuel [] (x :: q)).
      2: { repeat match goal with |- context [match ?y with _ => _ end] =>
             is_var y; destruct y; try done end. }
      rewrite <- Hq, <- app_assoc. cbn [app].
      rewrite (jp_elements_join _ _ HF) by (done || (simpl in *; lia)). done.
  - change (js "{") with [123%N] in Hc. change (js "}") with [125%N] in Hc.
    inv_ok. rename r into parts, Hr into Hparts. apply canonical_entries in Hparts.
    match goal with |- context [join_comma (?f <$> ?l')] =>
      assert (f <$> l' = member_text <$> l') as ->
        by (apply list_fmap_ext; by intros ? []) end.
    destruct Hd as [Hnd Hd]. apply fold_right_Forall in Hd.
    assert (Forall2 reads_back_entry (sort_by entry_leb l) (sort_by entry_leb parts)) as HF.
    { apply sort_by_Forall2.
      - intros [] [] [] [] [? _] [? _]. simpl in *. by subst.
      - clear -IH Hd Hparts. induction Hparts as [|? ? ? ? []]; [constructor|].
        inversion IH; inversion Hd; subst. constructor; [split; auto|auto]. }
    split; [by eexists _, _|]. intros rest [|fuel] Hr Hf; [simpl in Hf; lia|].
    cbn [jp_value]. cbn [app normalize]. rewrite skip_ws_cons by done. eval_codes.
    assert (sort_by entry_leb ((fun '(k, v) => (k, normalize v)) <$> l)
      = (fun kv => (kv.1, normalize kv.2)) <$> sort_by entry_leb l) as ->.
    { rewrite (sort_by_fmap entry_leb) by by intros [] [].
      apply list_fmap_ext. by intros ? []. }
    assert (sort_by entry_leb l ≡ₚ l) as Hperm by apply sort_by_perm.
    destruct (decide (sort_by entry_leb l = [])) as [E|Hne].
    + rewrite E in *. inversion HF; subst. by cbn.
    + assert (exists q, (join_comma (member_text <$> sort_by entry_leb parts) ++ [125%N]) ++ rest
        = 34%N :: q) as (q & Hq).
      { inversion HF as [E|? [k part] ? ps ? ?]; subst; [congruence|].
        destruct ps; by eexists _. }
      rewrite Hq, skip_ws_cons by done.
      rewrite <- Hq, <- app_assoc. cbn [app].
      rewrite (jp_members_join _ _ HF); [done|done| |].
      * simpl. by rewrite Hperm.
      * rewrite Hperm. simpl in Hf. lia.
Qed.

(** ** What [validateSafeValue] accepts *)

(** Nodes of the tree, the root included. *)
Fixpoint node_count (v : jsv) : Z :=
  match v with
  | VArr l => 1 + foldr (fun x n => node_count x + n) 0 l
  | VObj _ l => 1 + foldr (fun kv n => node_count kv.2 + n) 0 l
  | _ => 1
  end.

(** A value at [depth] within the limits, without sensitive keys anywhere. *)
Fixpoint safe_value (depth : Z) (v : jsv) : Prop :=
  depth <= MAX_DEPTH /\
  match v with
  | VNull | VBool _ => True
  | VStr s => (length s <= MAX_STRING_LENGTH)%nat
  | VNum _ => is_Some (is_safe_integer v)
  | VArr l => fold_right (fun x P => safe_value (depth + 1) x /\ P) True l
  | VObj _ l => fold_right (fun kv P =>
      (PAYLOAD_KEY_PATTERN kv.1 = true /\
       (normalizedSensitiveKey kv.1 ∉ sensitivePayloadKeys) /\
       safe_value (depth + 1) kv.2) /\ P) True l
  | _ => False
  end.

Lemma node_count_pos v : 1 <= node_count v.
Proof.
  induction v as [| |b|n|s|f|i|z|l IH|p l IH] using jsv_nested_ind; simpl; try lia;
    induction IH; simpl; lia.
Qed.

(** The loops of [validateSafeValue] after their own node was counted. *)
Lemma fold_res_total {A} (f : A -> Z -> res Z) (P : A -> Prop) (cost : A -> Z) l rem r :
  (forall x, x ∈ l -> 1 <= cost x) ->
  (forall x, x ∈ l -> forall b b', f x b = Ok b' <-> P x /\ cost x <= b /\ b' = b - cost x) ->
  (0 < rem /\ fold_res f l (rem - 1) = Ok r) <->
  Forall P l /\ 1 + foldr (fun x n => cost x + n) 0 l <= rem /\
  r = rem - (1 + foldr (fun x n => cost x + n) 0 l).
Proof.
  intros Hc Hf.
  assert (0 <= foldr (fun x n => cost x + n) 0 l).
  { clear Hf. induction l as [|x l IH]; simpl; [lia|].
    pose proof (Hc x (list_elem_of_here _ _)).
    assert (0 <= foldr (fun x n => cost x + n) 0 l)
      by (apply IH; intros; apply Hc; by right). lia. }
  split.
  - intros (Hr & Hl). apply (fold_res_budget f P cost) in Hl as (? & ? & ->);
      [|intros x Hx; specialize (Hc x Hx); lia|exact Hf|lia].
    split; [done|lia].
  - intros (HP & Hle & ->). split; [lia|]. apply (fold_res_budget f P cost);
      [intros x Hx; specialize (Hc x Hx); lia|exact Hf|lia|].
    split; [done|lia].
Qed.

Lemma validateSafeValue_spec v depth remaining r :
  validateSafeValue v depth remaining = Ok r <->
  safe_value depth v /\ node_count v <= remaining /\ r = remaining - node_count v.
Proof.
  revert depth remaining r.
  induction v as [| |b|n|s|f|i|z|l IH|p l IH] using jsv_nested_ind;
    intros depth rem r; cbn [validateSafeValue safe_value node_count];
    unfold payloadAssert, MAX_DEPTH;
    rewrite !guard_bind_Ok, Z.leb_le, Z.ltb_lt.
  all: try (split; [by intros (_ & _ & ?) | by intros ([_ []] & _)]).
  1,2: split; [intros (? & ? & [= <-]); repeat split; lia
              |intros (? & ? & ->); split; [lia|]; split; [lia|done]].
  - rewrite bool_decide_eq_true. split.
    + intros (? & ? & ? & [= <-]). repeat split; (done || lia).
    + intros ((? & ?) & ? & ->). repeat split; (done || lia).
  - rewrite Nat.leb_le. split.
    + intros (? & ? & ? & [= <-]). repeat split; (done || lia).
    + intros ((? & ?) & ? & ->). repeat split; (done || lia).
  - rewrite fold_right_Forall. rewrite Forall_forall in IH.
    rewrite (fold_res_total _ (safe_value (depth + 1)) node_count).
    + tauto.
    + intros x Hx. apply node_count_pos.
    + intros x Hx b b'. by apply IH.
  - rewrite fold_right_Forall. rewrite Forall_forall in IH.
    rewrite (fold_res_total _ (fun kv => PAYLOAD_KEY_PATTERN kv.1 = true /\
        (normalizedSensitiveKey kv.1 ∉ sensitivePayloadKeys) /\
        safe_value (depth + 1) kv.2) (fun kv => node_count kv.2)).
    + tauto.
    + intros x Hx. apply node_count_pos.
    + intros [k x] Hx b b'. specialize (IH _ Hx). simpl in *.
      rewrite !guard_bind_Ok, IH, negb_true_iff. unfold mem_str.
      rewrite bool_decide_eq_false. tauto.
Qed.

(** Property names are distinct in every object of the tree. *)
Fixpoint wf_value (v : jsv) : Prop :=
  match v with
  | VArr l => fold_right (fun x P => wf_value x /\ P) True l
  | VObj _ l => NoDup l.*1 /\ fold_right (fun kv P => wf_value kv.2 /\ P) True l
  | _ => True
  end.

Lemma safe_canonical_data v depth :
  wf_value v -> safe_value depth v -> canonical_data v.
Proof.
  revert depth. induction v as [| |b|n|s|f|i|z|l IH|p l IH] using jsv_nested_ind;
    intros depth Hw [_ Hs]; try done; cbn [wf_value canonical_data] in *.
  - rewrite fold_right_Forall in *. clear -IH Hw Hs.
    induction IH; inversion Hw; inversion Hs; subst; constructor; eauto.
  - destruct Hw as [Hnd Hw]. split; [done|]. clear Hnd.
    rewrite fold_right_Forall in *. clear -IH Hw Hs.
    induction IH; inversion Hw; inversion Hs as [|? ? (_ & _ & ?)]; subst;
      constructor; eauto.
Qed.

Lemma length_join_comma l :
  length (join_comma l) = (sum_list_with (fun p => S (length p)) l - 1)%nat.
Proof.
  induction l as [|x l IH]; [done|]. destruct l as [|y l]; [simpl; lia|].
  rewrite join_comma_cons by done. rewrite !length_app, IH. simpl. lia.
Qed.

Lemma sum_list_Forall2 {A B} (f : A -> nat) (g : B -> nat) l1 l2 :
  Forall2 (fun x y => f x <= g y)%nat l1 l2 ->
  (sum_list_with f l1 <= sum_list_with g l2)%nat.
Proof. induction 1; simpl; lia. Qed.

Lemma sum_list_with_fmap {A B} (f : A -> B) (g : B -> nat) l :
  sum_list_with g (f <$> l) = sum_list_with (fun x => g (f x)) l.
Proof. induction l as [|x l IH]; [done|]. cbn [fmap list_fmap sum_list_with]. by f_equal. Qed.

Lemma sum_list_with_double {A} (f g : A -> nat) l :
  (forall x, f x + 2 <= 2 * g x)%nat ->
  (sum_list_with f l + 2 * length l <= 2 * sum_list_with g l)%nat.
Proof.
  intros H. induction l as [|x l IH]; [done|]. cbn [sum_list_with length].
  specialize (H x). lia.
Qed.

(** The fuel [json_parse] starts with covers any canonical text. *)
Lemma jsize_bound v c :
  canonical_data v -> canonicalizeValue v = Ok c -> (jsize v <= 2 * length c)%nat.
Proof.
  revert c. induction v as [| |b|n|s|f|i|z|l IH|p l IH] using jsv_nested_ind;
    intros c Hd Hc; try done; cbn [canonicalizeValue] in Hc;
    try (injection Hc as <-; simpl; lia).
  - injection Hc as <-. destruct b; simpl; lia.
  - destruct Hd as [z Hz]. pose proof (is_safe_integer_VNum _ _ Hz) as ->.
    injection Hc as <-. rewrite number_to_string_int by done.
    destruct (string_of_Z_head z) as (x & q & -> & _). simpl. lia.
  - change (js "[") with [91%N] in Hc. change (js "]") with [93%N] in Hc.
    inv_ok. rename r into parts, Hr into Hparts. apply map_res_Ok in Hparts.
    apply fold_right_Forall in Hd.
    assert (sum_list_with (fun x => S (jsize x)) l
      <= sum_list_with (fun p => S (2 * length p)) parts)%nat as Hsum.
    { apply sum_list_Forall2. clear -IH Hd Hparts. induction Hparts; [constructor|].
      inversion IH; inversion Hd; subst. constructor; [|auto].
      apply le_n_S. auto. }
    cbn [length app]. rewrite length_app, length_join_comma. cbn [length jsize].
    assert (sum_list_with (fun p => S (2 * length p)) parts + length parts
      = 2 * sum_list_with (fun p => S (length p)) parts)%nat
      by (clear; induction parts; cbn [sum_list_with length]; lia). lia.
  - change (js "{") with [123%N] in Hc. change (js "}") with [125%N] in Hc.
    inv_ok. rename r into parts, Hr into Hparts. apply canonical_entries in Hparts.
    destruct Hd as [_ Hd]. apply fold_right_Forall in Hd.
    assert (sum_list_with (fun kv => S (jsize kv.2)) l
      <= sum_list_with (fun kp => S (2 * length kp.2)) parts)%nat as Hsum.
    { apply sum_list_Forall2. clear -IH Hd Hparts. induction Hparts as [|? ? ? ? []]; [constructor|].
      inversion IH; inversion Hd; subst. constructor; [|auto]. apply le_n_S. auto. }
    cbn [length app]. rewrite length_app, length_join_comma, sum_list_with_fmap.
    cbn [length jsize]. rewrite sort_by_perm.
    match goal with |- context [sum_list_with ?g parts] =>
      pose proof (sum_list_with_double (fun kp => S (2 * length kp.2)) g parts) as Hm end.
    destruct parts; [simpl in *; lia|]. cbn [length] in Hm.
    specialize (Hm ltac:(intros [k q]; simpl; rewrite ?length_app; simpl; rewrite ?length_app; simpl; lia)). lia.
Qed.

Lemma skip_ws_nil : skip_ws [] = [].
Proof. done. Qed.

Lemma json_parse_canonical v c :
  canonical_data v -> canonicalizeValue v = Ok c -> json_parse c = Some (normalize v).
Proof.
  intros Hd Hc. pose proof (jsize_bound v c Hd Hc).
  destruct (canonical_reads_back v c Hd Hc) as [_ Hr].
  specialize (Hr [] (2 * length c + 2)%nat I). rewrite app_nil_r in Hr.
  unfold json_parse. by rewrite Hr by lia.
Qed.

Lemma canonicalizePayload_Ok payload c :
  canonicalizePayload payload = Ok c <->
  is_record payload = true /\ safe_value 0 payload /\ node_count payload <= 1000 /\
  canonicalizeValue payload = Ok c /\ (utf8_length c <= MAX_CANONICAL_BYTES)%N.
Proof.
  unfold canonicalizePayload, payloadAssert. rewrite guard_bind_Ok, bind_Ok.
  setoid_rewrite validateSafeValue_spec. setoid_rewrite bind_Ok.
  setoid_rewrite guard_bind_Ok. setoid_rewrite N.leb_le. split.
  - intros (? & r & (? & ? & ?) & c' & ? & ? & [= ->]). done.
  - intros (? & ? & ? & ? & ?). split; [done|]. eexists; split; [done|].
    by exists c.
Qed.

(** ** Properties *)

(** Every value without unsupported parts is rendered. *)
Lemma safe_canonicalizes v depth : safe_value depth v -> exists c, canonicalizeValue v = Ok c.
Proof.
  revert depth. induction v as [| |b|n|s|f|i|z|l IH|p l IH] using jsv_nested_ind;
    intros depth [_ Hd]; cbn [canonicalizeValue]; try by eauto; try done.
  - apply fold_right_Forall in Hd.
    assert (exists parts, map_res canonicalizeValue l = Ok parts) as [parts ->]; [|by eauto].
    induction IH as [|x l Hx _ IHl]; [by exists []|]. inversion Hd; subst.
    destruct (Hx _ H1) as [c Hc]. destruct IHl as [ps Hps]; [done|].
    exists (c :: ps). simpl. by rewrite Hc, Hps.
  - apply fold_right_Forall in Hd.
    match goal with |- context [map_res ?g l] =>
      assert (exists parts, map_res g l = Ok parts) as [parts ->]; [|by eauto] end.
    induction IH as [|[k x] l Hx _ IHl]; [by exists []|]. inversion Hd as [|? ? (_ & _ & H1) H2]; subst.
    destruct (Hx _ H1) as [c Hc]. destruct IHl as [ps Hps]; [done|].
    exists ((k, c) :: ps). simpl in *. by rewrite Hc, Hps.
Qed.

Definition is_payload_error (e : jserr) : Prop := err_cls e = PayloadErr.

Lemma validateSafeValue_throws v depth rem :
  throws_only is_payload_error (validateSafeValue v depth rem).
Proof.
  revert depth rem. induction v as [| |b|n|s|f|i|z|l IH|p l IH] using jsv_nested_ind;
    intros depth rem; cbn [validateSafeValue]; unfold payloadAssert;
    do 2 (apply throws_only_bind; [by apply throws_only_guard|]; intros _ _); try done;
    try (apply throws_only_bind; [by apply throws_only_guard|]; by intros _ _).
  - apply throws_only_fold_res. intros a s Ha. rewrite Forall_forall in IH. by apply IH.
  - apply throws_only_fold_res. intros [k a] s Ha.
    do 2 (apply throws_only_bind; [by apply throws_only_guard|]; intros _ _).
    rewrite Forall_forall in IH. by apply (IH _ Ha).
Qed.

Lemma canonicalizePayload_throws v : throws_only is_payload_error (canonicalizePayload v).
Proof.
  unfold canonicalizePayload, payloadAssert. apply throws_only_bind; [by apply throws_only_guard|].
  intros _ _. apply throws_only_bind; [apply validateSafeValue_throws|].
  intros r (Hs & _ & _)%validateSafeValue_spec. destruct (safe_canonicalizes v 0 Hs) as [c ->].
  cbn [mbind res_bind]. apply throws_only_bind; [by apply throws_only_guard|]. by intros _ _.
Qed.

Lemma canonicalize_total v :
  canonical_data v -> exists c, canonicalizeValue v = Ok c.
Proof.
  induction v as [| |b|n|s|f|i|z|l IH|p l IH] using jsv_nested_ind;
    intros Hd; cbn [canonicalizeValue]; try by eauto; try done.
  - apply fold_right_Forall in Hd.
    assert (exists parts, map_res canonicalizeValue l = Ok parts) as [parts ->]; [|by eauto].
    induction IH as [|x l Hx _ IHl]; [by exists []|]. inversion Hd; subst.
    destruct Hx as [c Hc]; [done|]. destruct IHl as [ps Hps]; [done|].
    exists (c :: ps). simpl. by rewrite Hc, Hps.
  - destruct Hd as [_ Hd]. apply fold_right_Forall in Hd.
    match goal with |- context [map_res ?g l] =>
      assert (exists parts, map_res g l = Ok parts) as [parts ->]; [|by eauto] end.
    induction IH as [|[k x] l Hx _ IHl]; [by exists []|]. inversion Hd; subst.
    destruct Hx as [c Hc]; [done|]. destruct IHl as [ps Hps]; [done|].
    exists ((k, c) :: ps). simpl in *. by rewrite Hc, Hps.
Qed.

Lemma entry_leb_total {V} (a b : jsstr * V) :
  entry_leb a b = true \/ entry_leb b a = true.
Proof. apply str_leb_total. Qed.
Lemma entry_leb_trans {V} (a b c : jsstr * V) :
  entry_leb a b = true -> entry_leb b c = true -> entry_leb a c = true.
Proof. apply str_leb_trans. Qed.

Lemma map_res_sort {A B} (f : A -> res B) (la : A -> A -> bool) (lb : B -> B -> bool) l l' :
  (forall x y x' y', f x = Ok y -> f x' = Ok y' -> la x x' = lb y y') ->
  map_res f l = Ok l' -> map_res f (sort_by la l) = Ok (sort_by lb l').
Proof.
  intros Hc H%map_res_Ok. apply map_res_Ok. by apply sort_by_Forall2.
Qed.

(** The canonical text is a function of the normal form: the order of the
    properties and the normalisation form of the strings do not show. *)
Lemma canonicalize_normalize v c :
  canonicalizeValue v = Ok c -> canonicalizeValue (normalize v) = Ok c.
Proof.
  revert c. induction v as [| |b|n|s|f|i|z|l IH|p l IH] using jsv_nested_ind;
    intros c Hc; cbn [normalize]; try done.
  - cbn [canonicalizeValue] in *. by rewrite nfc_idemp.
  - cbn [canonicalizeValue] in *. apply bind_Ok in Hc as (parts & Hp & Hc).
    apply bind_Ok. exists parts. split; [|done].
    apply map_res_Ok in Hp. apply map_res_Ok. apply Forall2_fmap_l.
    clear Hc. induction Hp; [constructor|]. inversion IH; subst. constructor; auto.
  - cbn [canonicalizeValue] in *. apply bind_Ok in Hc as (parts & Hp & Hc).
    apply bind_Ok. exists (sort_by entry_leb parts). split.
    + apply (map_res_sort _ entry_leb entry_leb).
      * intros [k x] [k' y] [k2 x2] [k2' y2] H1 H2. inv_ok. simplify_eq. done.
      * apply map_res_Ok in Hp. apply map_res_Ok. apply Forall2_fmap_l. clear Hc.
        induction Hp as [|[k x] [k' y] l l' Hx _ IHl]; [constructor|].
        inversion IH; subst. constructor; [|auto].
        apply bind_Ok in Hx as (part & Hx & [= <- <-]). simpl in *.
        by erewrite H1 by done.
    + injection Hc as <-. do 5 f_equal. apply sort_by_sorted_id, sort_by_sorted;
        eauto using entry_leb_total, entry_leb_trans.
Qed.
End canonical.

Section properties.
Context `{SH : !StringHost, HH : !HashHost}.

(** C18: the text [canonicalizePayload] returns parses back, by [JSON.parse], to
    the payload itself up to property order and NFC of its strings. *)
Theorem canonicalizePayload_roundtrip payload canonical :
  wf_value payload -> canonicalizePayload payload = Ok canonical ->
  json_parse canonical = Some (normalize payload).
Proof.
  intros Hw (_ & Hs & _ & Hc & _)%canonicalizePayload_Ok.
  eauto using json_parse_canonical, safe_canonical_data.
Qed.

(** C19: [canonicalizePayload] succeeds exactly on the objects whose nesting is
    at most 8, whose nodes are at most 1000, whose strings, numbers and keys
    are within the limits, which hold no sensitive key at any depth, and whose
    canonical text takes at most 16 KiB of UTF-8; every other payload throws. *)
Theorem canonicalizePayload_accepts payload :
  wf_value payload ->
  (exists canonical, canonicalizePayload payload = Ok canonical) <->
  is_record payload = true /\ safe_value 0 payload /\ node_count payload <= 1000 /\
  (forall text, canonicalizeValue payload = Ok text ->
     (utf8_length text <= MAX_CANONICAL_BYTES)%N).
Proof.
  intros Hw. setoid_rewrite canonicalizePayload_Ok. split.
  - intros (c & ? & ? & ? & Hc & ?). repeat split; try done. intros t Ht. congruence.
  - intros (? & ? & ? & Hlen).
    destruct (canonicalize_total payload) as [c Hc]; [by eapply safe_canonical_data|].
    exists c. eauto 10.
Qed.

(** two payloads commit to the same hash only if they have the same normal
    form, or their two canonical texts are a SHA-256 collision. *)
Theorem commitPayload_binding payload1 payload2 c1 c2 :
  wf_value payload1 -> wf_value payload2 ->
  commitPayload payload1 = Ok c1 -> commitPayload payload2 = Ok c2 ->
  payloadHash c1 = payloadHash c2 ->
  normalize payload1 = normalize payload2 \/
  (canonicalPayload c1 <> canonicalPayload c2 /\
   sha256Hex (canonicalPayload c1) = sha256Hex (canonicalPayload c2)).
Proof.
  intros W1 W2 (t1 & H1 & [= <-])%bind_Ok (t2 & H2 & [= <-])%bind_Ok Heq. simpl in *.
  destruct (decide (t1 = t2)) as [->|Hne]; [left|by right].
  apply canonicalizePayload_Ok in H1 as (_ & S1 & _ & C1 & _).
  apply canonicalizePayload_Ok in H2 as (_ & S2 & _ & C2 & _).
  apply json_parse_canonical in C1, C2; eauto using safe_canonical_data. congruence.
Qed.

(** the canonical text is the same for all presentations of one payload:
    two values with the same normal form render alike. *)
Theorem canonicalizeValue_presentation v1 v2 :
  canonical_data v1 -> canonical_data v2 ->
  canonicalizeValue v1 = canonicalizeValue v2 <-> normalize v1 = normalize v2.
Proof.
  intros H1 H2. destruct (canonicalize_total v1 H1) as [c1 E1].
  destruct (canonicalize_total v2 H2) as [c2 E2]. split; intros Heq.
  - pose proof (json_parse_canonical _ _ H1 E1). rewrite Heq in E1.
    pose proof (json_parse_canonical _ _ H2 E1). congruence.
  - pose proof (canonicalize_normalize _ _ E1) as N1.
    pose proof (canonicalize_normalize _ _ E2) as N2. congruence.
Qed.
End properties.

Section witnesses.
#[local] Existing Instances plain_string_host checksum_hash_host.

Definition sample_payload : jsv :=
  VObj PObject [(js "threshold", VNum (NInt 42)); (js "asset", VStr (js "BTC"));
                (js "legs", VArr [VNull; VBool true; VNum (NInt (-7))])].
(** The same payload written in another order. *)
Definition sample_payload_reordered : jsv :=
  VObj PNull [(js "legs", VArr [VNull; VBool true; VNum (NInt (-7))]);
              (js "threshold", VNum (NInt 42)); (js "asset", VStr (js "BTC"))].

Lemma sample_payload_wf : wf_value sample_payload.
Proof. cbn. repeat split; decide_now. Qed.
Lemma sample_payload_reordered_wf : wf_value sample_payload_reordered.
Proof. cbn. repeat split; decide_now. Qed.

Lemma canonicalizePayload_roundtrip_witness :
  exists canonical, canonicalizePayload sample_payload = Ok canonical /\
    json_parse canonical = Some (normalize sample_payload).
Proof.
  eexists. split; [vm_compute; reflexivity|].
  apply (canonicalizePayload_roundtrip sample_payload);
    [apply sample_payload_wf|vm_compute; reflexivity].
Defined.

Lemma canonicalizePayload_accepts_witness :
  exists canonical, canonicalizePayload sample_payload = Ok canonical.
Proof.
  apply (canonicalizePayload_accepts sample_payload sample_payload_wf).
  split; [done|]. split.
  { cbn. repeat split; try lia; try (by eexists); decide_now. }
  split; [vm_compute; discriminate|]. intros text Ht. vm_compute in Ht.
  injection Ht as <-. vm_compute. discriminate.
Defined.

Lemma commitPayload_binding_witness :
  exists c1 c2, commitPayload sample_payload = Ok c1 /\
    commitPayload sample_payload_reordered = Ok c2 /\
    (normalize sample_payload = normalize sample_payload_reordered \/
     (canonicalPayload c1 <> canonicalPayload c2 /\
      sha256Hex (canonicalPayload c1) = sha256Hex (canonicalPayload c2))).
Proof.
  do 2 eexists. split; [vm_compute; reflexivity|]. split; [vm_compute; reflexivity|].
  apply (commitPayload_binding sample_payload sample_payload_reordered);
    [apply sample_payload_wf|apply sample_payload_reordered_wf|vm_compute; reflexivity..].
Defined.

Lemma canonicalizeValue_presentation_witness :
  canonicalizeValue sample_payload = canonicalizeValue sample_payload_reordered <->
  normalize sample_payload = normalize sample_payload_reordered.
Proof.
  apply (canonicalizeValue_presentation sample_payload sample_payload_reordered);
    cbn; repeat split; try (by eexists); decide_now.
Defined.
End witnesses.
