(* ===== verification/Receipt.v ===== *)
(** * Wire receipts, public commitments and anchor records

    Models the receipt half of [sdk/typescript/swisstokint-proof.mjs].  The
    random identifiers, the current time and the transport MAC are arguments;
    the network call of [submitReceipt] and [verifyStoredReceipt] are not
    modelled. *)
From S2P Require Import Prelude JsDate JsValue ProofSdk Canonical.

(** [/(Z|[+-]\d{2}:\d{2})$/] *)
Definition has_offset (s : jsstr) : bool :=
  ends_with s (js "Z") ||
  match drop (length s - 6) s with
  | [sign; h1; h2; colon; m1; m2] =>
      is_one_of "+-" sign && is_digit h1 && is_digit h2 && (colon =? 58)%N
      && is_digit m1 && is_digit m2
  | _ => false
  end.

(** The code units [String.prototype.trim] removes. *)
Definition is_js_space (c : N) : bool :=
  in_range 9 13 c || in_range 8192 8202 c ||
  bool_decide (c ∈ [32; 160; 5760; 8232; 8233; 8239; 8287; 12288; 65279]%N).
(** [s.trim().length >= 1] *)
Definition trim_nonempty (s : jsstr) : bool := existsb (fun c => negb (is_js_space c)) s.

(** [/^[A-Za-z0-9][A-Za-z0-9._:/-]{1,63}$/] *)
Definition network_pattern : jsstr -> bool :=
  re_head_class is_alnum (fun c => is_alnum c || is_one_of "._:/-" c) 1 63.
(** [/^pom-[a-f0-9]{24}$/] *)
Definition batch_ref_pattern : jsstr -> bool :=
  re_prefixed (js "pom-") (re_class is_hex 24 24).
(** [/^\d{10}$/] *)
Definition timestamp_pattern : jsstr -> bool := re_class is_digit 10 10.

Record wire_receipt := {
  w_receipt_id : jsstr; w_kind : jsstr; w_subject_ref : jsstr;
  w_method_hash : jsstr; w_risk_policy_hash : jsstr; w_payload_hash : jsstr;
  w_occurred_at : jsstr; w_nonce : jsstr; w_source_key_id : jsstr;
}.

Definition wire_receipt_keys : list jsstr := js <$>
  ["schema_version"; "receipt_id"; "kind"; "subject_ref"; "method_hash";
   "risk_policy_hash"; "payload_hash"; "occurred_at"; "nonce"; "source_key_id"].

(** The object [validateWireReceipt] returns. *)
Definition wire_receipt_value (r : wire_receipt) : jsv := VObj PObject
  [(js "schema_version", VStr RECEIPT_SCHEMA_VERSION);
   (js "receipt_id", VStr (w_receipt_id r)); (js "kind", VStr (w_kind r));
   (js "subject_ref", VStr (w_subject_ref r));
   (js "method_hash", VStr (w_method_hash r));
   (js "risk_policy_hash", VStr (w_risk_policy_hash r));
   (js "payload_hash", VStr (w_payload_hash r));
   (js "occurred_at", VStr (w_occurred_at r)); (js "nonce", VStr (w_nonce r));
   (js "source_key_id", VStr (w_source_key_id r))].

Record anchor_record := {
  a_adapter_id : jsstr; a_network : jsstr; a_batch_ref : jsstr;
  a_merkle_root : jsstr; a_transaction_ref : jsstr; a_block_ref : jsstr;
  a_anchored_at : jsstr; a_observed_at : jsstr; a_status : jsstr;
  a_confirmations : Z;
}.

Definition anchor_record_keys : list jsstr := js <$>
  ["schema_version"; "adapter_id"; "network"; "batch_ref"; "merkle_root";
   "transaction_ref"; "block_ref"; "anchored_at"; "observed_at"; "status";
   "confirmations"].

Definition anchor_record_value (a : anchor_record) : jsv := VObj PObject
  [(js "schema_version", VStr ANCHOR_RECORD_SCHEMA_VERSION);
   (js "adapter_id", VStr (a_adapter_id a)); (js "network", VStr (a_network a));
   (js "batch_ref", VStr (a_batch_ref a)); (js "merkle_root", VStr (a_merkle_root a));
   (js "transaction_ref", VStr (a_transaction_ref a));
   (js "block_ref", VStr (a_block_ref a));
   (js "anchored_at", VStr (a_anchored_at a));
   (js "observed_at", VStr (a_observed_at a)); (js "status", VStr (a_status a));
   (js "confirmations", VNum (NInt (a_confirmations a)))].

(** [typeof v === 'string' && test(v)], or throw [message]. *)
Definition string_where (test : jsstr -> bool) (v : jsv) (message : jsstr) : res jsstr :=
  match str_that test v with
  | Some s => Ok s
  | None => Throw (type_error message)
  end.

Lemma string_where_Ok test v message s :
  string_where test v message = Ok s <-> v = VStr s /\ test s = true.
Proof.
  unfold string_where, str_that. destruct v as [| | | |t| | | | |];
    try (split; [done|by intros []]).
  destruct (test t) eqn:E; split; try done.
  - by intros [= ->].
  - by intros [[= ->] _].
  - intros [[= ->] ?]. congruence.
Qed.

Lemma string_where_str test s message :
  test s = true -> string_where test (VStr s) message = Ok s.
Proof. intros. by apply string_where_Ok. Qed.

Section receipts.
Context `{SH : !StringHost, HH : !HashHost, DH : !DateHost}.

Definition assertHash (value : jsv) (field : string) : res jsstr :=
  string_where hash_pattern value (js field ++ js " must be a lowercase SHA-256 hash").

Definition assertIdentifier (value : jsv) (field : string) (pattern : jsstr -> bool)
  : res jsstr :=
  string_where pattern value (js field ++ js " has an invalid format").

Definition normalizeOccurredAt (value : jsv) : res jsstr :=
  match value with
  | VStr s =>
      match date_parse s with
      | Some t => Ok (to_iso_string t)
      | None => Throw (type_error (js "occurred_at must be an ISO date-time"))
      end
  | _ => Throw (type_error (js "occurred_at must be an ISO date-time"))
  end.

Definition normalizeDateTime (value : jsv) (field : string) : res jsstr :=
  s ← string_where has_offset value (js field ++ js " must include an offset");
  match date_parse s with
  | Some t => Ok (to_iso_string t)
  | None => Throw (type_error (js field ++ js " must be an ISO date-time"))
  end.

Definition validateWireReceipt (receipt : jsv) : res wire_receipt :=
  _ ← assert (is_record receipt) (js "Receipt must be an object");
  _ ← assert (same_keys (keys_of receipt) wire_receipt_keys)
        (js "Receipt has missing or unknown fields");
  let field k := get (js k) receipt in
  _ ← assert (is_str (field "schema_version") RECEIPT_SCHEMA_VERSION)
        (js "Unsupported receipt schema version");
  receipt_id ← assertIdentifier (field "receipt_id") "receipt_id" id_pattern;
  kind ← string_where (fun s => mem_str s KINDS) (field "kind")
           (js "Unsupported receipt kind");
  subject_ref ← string_where (fun s => trim_nonempty s && (length s <=? 128)%nat)
           (field "subject_ref") (js "subject_ref has an invalid length");
  method_hash ← assertHash (field "method_hash") "method_hash";
  risk_policy_hash ← assertHash (field "risk_policy_hash") "risk_policy_hash";
  payload_hash ← assertHash (field "payload_hash") "payload_hash";
  nonce ← assertIdentifier (field "nonce") "nonce" id_pattern;
  source_key_id ← assertIdentifier (field "source_key_id") "source_key_id"
           source_key_id_pattern;
  occurred_at ← normalizeOccurredAt (field "occurred_at");
  Ok {| w_receipt_id := receipt_id; w_kind := kind; w_subject_ref := nfc subject_ref;
        w_method_hash := method_hash; w_risk_policy_hash := risk_policy_hash;
        w_payload_hash := payload_hash; w_occurred_at := occurred_at;
        w_nonce := nonce; w_source_key_id := source_key_id |}.

(** [a ?? b] *)
Definition nullish (a b : jsv) : jsv :=
  match a with VUndef | VNull => b | _ => a end.

(** [uuid1], [uuid2] are the two [crypto.randomUUID()] values and [now] the
    current time, used where the event leaves the field out. *)
Definition createWireReceipt (event defaultSourceKeyId : jsv) (uuid1 uuid2 : jsstr)
    (now : Z) : res wire_receipt :=
  _ ← assert (is_record event) (js "Event must be an object");
  let field k := get (js k) event in
  committed ← commitPayload (field "payload");
  validateWireReceipt (VObj PObject
    [(js "schema_version", VStr RECEIPT_SCHEMA_VERSION);
     (js "receipt_id", nullish (field "receipt_id") (VStr uuid1));
     (js "kind", field "kind"); (js "subject_ref", field "subject_ref");
     (js "method_hash", field "method_hash");
     (js "risk_policy_hash", field "risk_policy_hash");
     (js "payload_hash", VStr (payloadHash committed));
     (js "occurred_at", nullish (field "occurred_at") (VStr (to_iso_string now)));
     (js "nonce", nullish (field "nonce") (VStr uuid2));
     (js "source_key_id", nullish (field "source_key_id")
        (nullish defaultSourceKeyId (VStr (js "proof-sdk-v2"))))]).

Definition publicCommitment (receipt : wire_receipt) : jsv := VObj PObject
  [(js "version", VNum (NInt 2));
   (js "schema_version", VStr RECEIPT_SCHEMA_VERSION);
   (js "receipt_id", VStr (w_receipt_id receipt)); (js "kind", VStr (w_kind receipt));
   (js "subject_ref", VStr (w_subject_ref receipt));
   (js "method_hash", VStr (w_method_hash receipt));
   (js "risk_policy_hash", VStr (w_risk_policy_hash receipt));
   (js "payload_hash", VStr (w_payload_hash receipt));
   (js "nonce_hash", VStr (sha256Hex (w_nonce receipt)));
   (js "occurred_at", VStr (w_occurred_at receipt));
   (js "source_key_id", VStr (w_source_key_id receipt))].

(** The commitment text and its hash. *)
Definition prepareCommitment (wireReceipt : jsv) : res (jsstr * jsstr) :=
  receipt ← validateWireReceipt wireReceipt;
  commitment ← canonicalizeValue (publicCommitment receipt);
  Ok (commitment, sha256Hex commitment).

(** [hmac key message] is [createHmac('sha256', key).update(message).digest('hex')];
    [timestamp] is the default, the current Unix time, or a caller's string. *)
Definition signTransport (hmac : jsstr -> jsstr -> jsstr) (rawBody secret : jsv)
    (timestamp : jsstr) : res (jsstr * jsstr) :=
  rawBody ← string_where (fun _ => true) rawBody (js "rawBody must be a string");
  secret ← string_where (fun s => 32 <=? length s)%nat secret
      (js "Transport secret must contain at least 32 characters");
  timestamp ← string_where timestamp_pattern (VStr timestamp)
      (js "Transport timestamp must contain 10 digits");
  Ok (timestamp, hmac secret (timestamp ++ js "." ++ rawBody)).

Definition validateAnchorRecord (record : jsv) : res anchor_record :=
  _ ← assert (is_record record) (js "Anchor record must be an object");
  _ ← assert (same_keys (keys_of record) anchor_record_keys)
        (js "Anchor record has missing or unknown fields");
  let field k := get (js k) record in
  _ ← assert (is_str (field "schema_version") ANCHOR_RECORD_SCHEMA_VERSION)
        (js "Unsupported anchor record schema version");
  adapter_id ← assertIdentifier (field "adapter_id") "adapter_id" ADAPTER_ID_PATTERN;
  network ← assertIdentifier (field "network") "network" network_pattern;
  batch_ref ← assertIdentifier (field "batch_ref") "batch_ref" batch_ref_pattern;
  merkle_root ← assertHash (field "merkle_root") "merkle_root";
  let bounded s := (1 <=? length s)%nat && (length s <=? 256)%nat && negb (has_control s) in
  transaction_ref ← assertIdentifier (field "transaction_ref") "transaction_ref" bounded;
  block_ref ← assertIdentifier (field "block_ref") "block_ref" bounded;
  status ← string_where
      (fun s => mem_str s (js <$> ["observed"; "finalized"; "revoked"; "orphaned"]))
      (field "status") (js "Unsupported anchor status");
  confirmations ← match is_safe_integer (field "confirmations") with
    | Some z => if (0 <=? z) && (z <=? 1000000000) then Ok z else
        Throw (type_error (js "confirmations must be a non-negative safe integer"))
    | None => Throw (type_error (js "confirmations must be a non-negative safe integer"))
    end;
  _ ← assert (negb (str_eqb status (js "finalized")) || (1 <=? confirmations))
        (js "A finalized anchor requires at least one confirmation");
  anchoredAt ← normalizeDateTime (field "anchored_at") "anchored_at";
  observedAt ← normalizeDateTime (field "observed_at") "observed_at";
  _ ← assert (str_leb anchoredAt observedAt) (js "observed_at cannot precede anchored_at");
  Ok {| a_adapter_id := adapter_id; a_network := nfc network; a_batch_ref := batch_ref;
        a_merkle_root := merkle_root; a_transaction_ref := nfc transaction_ref;
        a_block_ref := nfc block_ref; a_anchored_at := anchoredAt;
        a_observed_at := observedAt; a_status := status;
        a_confirmations := confirmations |}.

(** The record, its canonical text and the domain-separated hash of it. *)
Definition commitAnchorRecord (record : jsv) : res (anchor_record * jsstr * jsstr) :=
  normalized ← validateAnchorRecord record;
  canonicalRecord ← canonicalizeValue (anchor_record_value normalized);
  Ok (normalized, canonicalRecord,
      sha256Hex (js "swisstokint:pom-anchor-record:v1:" ++ canonicalRecord)).
End receipts.
