(* ===== verification/Normal.v ===== *)
(** * Normal forms of records

    What the binding theorems of the receipt modules share: the strings the
    patterns of the source accept are fixed by NFC, and a property of an object
    can be read off its normal form. *)
From S2P Require Import Prelude JsDate JsValue ProofSdk Canonical Receipt.

(** ** ASCII *)

Lemma forallb_impl {A} (f g : A -> bool) l :
  (forall x, f x = true -> g x = true) -> forallb f l = true -> forallb g l = true.
Proof. intros H. rewrite !forallb_forall. eauto. Qed.

Lemma is_one_of_impl (P : N -> bool) chars c :
  forallb P (js chars) = true -> is_one_of chars c = true -> P c = true.
Proof.
  unfold is_one_of. rewrite bool_decide_eq_true, forallb_forall.
  intros H Hc. by apply H, list_elem_of_In.
Qed.

(** The classes are unions of ranges and literals of ASCII. *)
Ltac ascii_class :=
  intros ?; cbv [is_alnum is_alpha is_lower is_upper is_digit is_hex in_range is_ascii];
  rewrite ?orb_true_iff, ?andb_true_iff, ?N.leb_le;
  let H := fresh in intros H;
  repeat match goal with
  | H : _ \/ _ |- _ => destruct H
  end; first
    [ by apply N.ltb_lt; lia
    | match goal with H : is_one_of ?chars ?c = true |- _ =>
        exact (is_one_of_impl is_ascii chars c eq_refl H) end ].

Lemma re_class_ascii cls lo hi s :
  (forall c, cls c = true -> is_ascii c = true) ->
  re_class cls lo hi s = true -> forallb is_ascii s = true.
Proof.
  intros Hc. unfold re_class. rewrite !andb_true_iff. intros [_ Hs].
  by eapply forallb_impl.
Qed.

Lemma re_head_class_ascii first rest lo hi s :
  (forall c, first c = true -> is_ascii c = true) ->
  (forall c, rest c = true -> is_ascii c = true) ->
  re_head_class first rest lo hi s = true -> forallb is_ascii s = true.
Proof.
  intros Hf Hr. destruct s as [|c s]; [done|]. simpl. rewrite !andb_true_iff.
  intros [? ?]. split; [auto|]. by eapply re_class_ascii.
Qed.

Lemma re_prefixed_ascii prefix re s :
  forallb is_ascii prefix = true ->
  (forall t, re t = true -> forallb is_ascii t = true) ->
  re_prefixed prefix re s = true -> forallb is_ascii s = true.
Proof.
  intros Hp Hr. unfold re_prefixed. rewrite andb_true_iff, str_eqb_eq. intros [Ht Hd].
  rewrite <- (take_drop (length prefix) s), forallb_app, Ht, Hp. by apply Hr.
Qed.

Lemma hash_pattern_ascii s : hash_pattern s = true -> forallb is_ascii s = true.
Proof. apply re_class_ascii. ascii_class. Qed.
Lemma id_pattern_ascii s : id_pattern s = true -> forallb is_ascii s = true.
Proof. apply re_head_class_ascii; ascii_class. Qed.
Lemma source_key_id_pattern_ascii s :
  source_key_id_pattern s = true -> forallb is_ascii s = true.
Proof. apply re_head_class_ascii; ascii_class. Qed.
Lemma key_id_pattern_ascii s : key_id_pattern s = true -> forallb is_ascii s = true.
Proof. apply re_prefixed_ascii; [done|]. intros t. apply re_class_ascii. ascii_class. Qed.

Lemma digits_ascii n z : forallb is_ascii (digits n z) = true.
Proof.
  apply forallb_forall. intros c Hc. pose proof (digits_is_digit n z) as H.
  rewrite List.Forall_forall in H. specialize (H c Hc).
  unfold is_digit, in_range in H. apply andb_true_iff in H as [_ H%N.leb_le].
  apply N.ltb_lt. lia.
Qed.

Lemma to_iso_string_ascii t : forallb is_ascii (to_iso_string t) = true.
Proof.
  unfold to_iso_string, year_string.
  repeat (rewrite forallb_app || rewrite digits_ascii || case_match); reflexivity.
Qed.

Lemma normalizeDateTime_Ok `{DateHost} v f s :
  normalizeDateTime v f = Ok s <->
  exists t u, v = VStr t /\ has_offset t = true /\ date_parse t = Some u /\
    s = to_iso_string u.
Proof.
  unfold normalizeDateTime. rewrite bind_Ok. setoid_rewrite string_where_Ok. split.
  - intros (t & (-> & ?) & Ht). destruct (date_parse t) as [u|] eqn:E; [|done].
    injection Ht as <-. eauto 10.
  - intros (t & u & -> & ? & Hu & ->). exists t. by rewrite Hu.
Qed.

Lemma has_offset_iso t : has_offset (to_iso_string t) = true.
Proof. unfold has_offset. by rewrite to_iso_ends_with_Z. Qed.

(** A normalised instant is its own normalisation. *)
Lemma normalizeDateTime_iso `{DateHost} t f :
  time_valid t = true ->
  normalizeDateTime (VStr (to_iso_string t)) f = Ok (to_iso_string t).
Proof.
  intros Ht. apply normalizeDateTime_Ok. eexists _, t. split; [done|].
  split; [apply has_offset_iso|]. by rewrite date_parse_iso.
Qed.

Section normal.
Context `{SH : !StringHost}.

Definition nfc_fixed (s : jsstr) : Prop := nfc s = s.

Lemma ascii_nfc_fixed s : forallb is_ascii s = true -> nfc_fixed s.
Proof. apply nfc_ascii. Qed.
Lemma nfc_nfc_fixed s : nfc_fixed (nfc s).
Proof. apply nfc_idemp. Qed.

(** ** Reading a property of a normal form *)

Lemma alist_get_None {V} k (l : list (jsstr * V)) : alist_get k l = None <-> k ∉ l.*1.
Proof.
  rewrite <- alist_get_is_Some, eq_None_not_Some. done.
Qed.

Lemma alist_get_elem {V} k (v : V) l :
  NoDup l.*1 -> (k, v) ∈ l -> alist_get k l = Some v.
Proof.
  induction l as [|[k' v'] l IH]; simpl; intros Hnd Hin; [by apply not_elem_of_nil in Hin|].
  apply NoDup_cons in Hnd as [Hk Hnd]. apply elem_of_cons in Hin as [[= -> ->]|Hin].
  - by rewrite str_eqb_refl.
  - destruct (str_eqb k' k) eqn:E; [|auto]. apply str_eqb_eq in E as ->.
    destruct Hk. apply list_elem_of_fmap. by exists (k, v).
Qed.

Lemma alist_get_perm {V} k (l1 l2 : list (jsstr * V)) :
  NoDup l1.*1 -> l1 ≡ₚ l2 -> alist_get k l1 = alist_get k l2.
Proof.
  intros Hnd Hp. destruct (alist_get k l1) as [v|] eqn:E; symmetry.
  - apply alist_get_elem; [by rewrite <- Hp|]. rewrite <- Hp. by apply alist_get_Some.
  - apply alist_get_None. rewrite <- Hp. by apply alist_get_None.
Qed.

Lemma alist_get_normalize k (l : list (jsstr * jsv)) :
  alist_get k ((fun '(k, v) => (k, normalize v)) <$> l) = normalize <$> alist_get k l.
Proof.
  induction l as [|[k' v'] l IH]; simpl; [done|]. by destruct (str_eqb k' k).
Qed.

Lemma get_normalize k p l :
  NoDup l.*1 -> get k (normalize (VObj p l)) = normalize (get k (VObj p l)).
Proof.
  intros Hnd. cbn [normalize get].
  rewrite <- (alist_get_perm k ((fun '(k, v) => (k, normalize v)) <$> l)).
  - rewrite alist_get_normalize. by destruct (alist_get k l).
  - replace (((fun '(k, v) => (k, normalize v)) <$> l).*1) with (l.*1); [done|].
    rewrite <- list_fmap_compose. apply list_fmap_ext. by intros ? [].
  - symmetry. apply sort_by_perm.
Qed.

(** Two records with the same normal form agree on every property. *)
Lemma normalize_get_eq k p1 l1 p2 l2 :
  NoDup l1.*1 -> NoDup l2.*1 ->
  normalize (VObj p1 l1) = normalize (VObj p2 l2) ->
  normalize (get k (VObj p1 l1)) = normalize (get k (VObj p2 l2)).
Proof. intros H1 H2 H. rewrite <- !get_normalize by done. by rewrite H. Qed.

Lemma normalize_str_inj s t :
  nfc_fixed s -> nfc_fixed t -> normalize (VStr s) = normalize (VStr t) -> s = t.
Proof. unfold nfc_fixed. simpl. intros -> ->. by intros [= ->]. Qed.
End normal.

(** [field_eq H k]: from [H : normalize v1 = normalize v2], the equality of the
    normal forms of the two [k] properties, in the shape [tac] leaves them. *)
Ltac field_eq H k :=
  let E := fresh "E" in
  pose proof (normalize_get_eq (js k) _ _ _ _ ltac:(decide_now) ltac:(decide_now) H) as E;
  cbv [get alist_get] in E; simpl in E.

(** ** The size of a canonical text

    A plain character is ASCII and stands for itself in a JSON string.  On
    values whose strings are plain the canonical text is ASCII, and [text_size]
    bounds its length: what the 16 KiB limit of [canonicalizePayload] needs. *)

Definition plain_char (c : N) : bool :=
  (32 <=? c)%N && (c <? 127)%N && negb (c =? 34)%N && negb (c =? 92)%N.
Definition plain (s : jsstr) : bool := forallb plain_char s.

Ltac plain_class :=
  intros ?; cbv [is_alnum is_alpha is_lower is_upper is_digit is_hex in_range];
  rewrite ?orb_true_iff, ?andb_true_iff, ?N.leb_le;
  let H := fresh in intros H;
  repeat match goal with
  | H : _ \/ _ |- _ => destruct H
  end; first
    [ unfold plain_char; rewrite !andb_true_iff, !negb_true_iff, N.leb_le, N.ltb_lt, !N.eqb_neq; lia
    | match goal with H : is_one_of ?chars ?c = true |- _ =>
        exact (is_one_of_impl plain_char chars c eq_refl H) end ].

Lemma plain_char_ascii c : plain_char c = true -> is_ascii c = true.
Proof.
  unfold plain_char, is_ascii. rewrite !andb_true_iff, N.leb_le, N.ltb_lt. intros.
  apply N.ltb_lt. lia.
Qed.
Lemma plain_ascii s : plain s = true -> forallb is_ascii s = true.
Proof. apply forallb_impl, plain_char_ascii. Qed.

Lemma re_class_plain cls lo hi s :
  (forall c, cls c = true -> plain_char c = true) ->
  re_class cls lo hi s = true -> plain s = true /\ (length s <= hi)%nat.
Proof.
  intros Hc. unfold re_class. rewrite !andb_true_iff, !Nat.leb_le. intros [[_ Hl] Hs].
  split; [|done]. by eapply forallb_impl.
Qed.

Lemma re_head_class_plain first rest lo hi s :
  (forall c, first c = true -> plain_char c = true) ->
  (forall c, rest c = true -> plain_char c = true) ->
  re_head_class first rest lo hi s = true -> plain s = true /\ (length s <= S hi)%nat.
Proof.
  intros Hf Hr. destruct s as [|c s]; [done|]. simpl. rewrite andb_true_iff. intros [Hc Hs].
  destruct (re_class_plain rest lo hi s Hr Hs) as [Hp ?]. split; [|lia].
  unfold plain in *. simpl. by rewrite Hf.
Qed.

Lemma re_prefixed_plain prefix re n s :
  plain prefix = true -> (forall t, re t = true -> plain t = true /\ (length t <= n)%nat) ->
  re_prefixed prefix re s = true -> plain s = true /\ (length s <= length prefix + n)%nat.
Proof.
  intros Hp Hr. unfold re_prefixed. rewrite andb_true_iff, str_eqb_eq. intros [Ht Hd].
  destruct (Hr _ Hd) as [Hq Hl]. unfold plain in *.
  rewrite <- (take_drop (length prefix) s), forallb_app, length_app, Ht, Hp. split; [done|lia].
Qed.

Lemma hash_pattern_plain s : hash_pattern s = true -> plain s = true /\ (length s <= 64)%nat.
Proof. apply re_class_plain. plain_class. Qed.
Lemma id_pattern_plain s : id_pattern s = true -> plain s = true /\ (length s <= 128)%nat.
Proof. apply re_head_class_plain; plain_class. Qed.
Lemma source_key_id_pattern_plain s :
  source_key_id_pattern s = true -> plain s = true /\ (length s <= 64)%nat.
Proof. apply re_head_class_plain; plain_class. Qed.
Lemma profile_pattern_plain s : profile_pattern s = true -> plain s = true /\ (length s <= 128)%nat.
Proof. apply re_head_class_plain; plain_class. Qed.
Lemma key_id_pattern_plain s : key_id_pattern s = true -> plain s = true /\ (length s <= 40)%nat.
Proof.
  apply (re_prefixed_plain (js "ed25519-") (re_class is_hex 32 32) 32 s eq_refl).
  intros t. apply re_class_plain. plain_class.
Qed.
Lemma capability_id_pattern_plain s :
  capability_id_pattern s = true -> plain s = true /\ (length s <= 36)%nat.
Proof.
  apply (re_prefixed_plain (js "cap-") (re_class is_hex 32 32) 32 s eq_refl).
  intros t. apply re_class_plain. plain_class.
Qed.

Lemma digits_plain n z : plain (digits n z) = true.
Proof.
  apply forallb_forall. intros c Hc. pose proof (digits_is_digit n z) as H.
  rewrite List.Forall_forall in H. specialize (H c Hc). revert c H Hc.
  intros c H _. revert c H. plain_class.
Qed.

Lemma to_iso_string_plain t : plain (to_iso_string t) = true /\ (length (to_iso_string t) <= 27)%nat.
Proof.
  split.
  - unfold plain, to_iso_string, year_string.
    repeat (rewrite forallb_app || (rewrite (digits_plain _ _ : forallb _ _ = true)) || case_match);
      reflexivity.
  - rewrite to_iso_tail, length_app, length_iso_tail. unfold year_string. case_match.
    + rewrite length_digits. lia.
    + rewrite length_app, length_digits. case_match; simpl; lia.
Qed.

Lemma json_chars_plain s : plain s = true -> json_chars s = s.
Proof.
  induction s as [|c s IH]; [done|]. unfold plain in *. cbn [forallb].
  rewrite andb_true_iff. intros [Hc Hs]. cbn [json_chars].
  assert (32 <= c < 127 /\ c <> 34 /\ c <> 92)%N as (? & ? & ?).
  { unfold plain_char in Hc. rewrite !andb_true_iff, !negb_true_iff, N.leb_le, N.ltb_lt,
      !N.eqb_neq in Hc. lia. }
  assert (is_high_surrogate c = false) as -> by
    (unfold is_high_surrogate, in_range; apply andb_false_iff; left; apply N.leb_gt; lia).
  assert (is_low_surrogate c = false) as -> by
    (unfold is_low_surrogate, in_range; apply andb_false_iff; left; apply N.leb_gt; lia).
  rewrite IH by done. assert (json_escape c = [c]) as ->; [|done].
  unfold json_escape. rewrite (proj2 (N.ltb_ge c 32)) by lia.
  repeat case_match; subst; done || lia.
Qed.

Lemma utf8_length_ascii s : forallb is_ascii s = true -> utf8_length s = N.of_nat (length s).
Proof.
  induction s as [|c s IH]; [done|]. cbn [forallb]. rewrite andb_true_iff. intros [Hc Hs].
  cbn [utf8_length length]. unfold is_ascii in Hc. rewrite Hc, IH by done. lia.
Qed.

Fixpoint text_size (v : jsv) : nat :=
  match v with
  | VNull => 4
  | VBool _ => 5
  | VNum _ => 17
  | VStr s => length s + 2
  | VArr l => 2 + sum_list_with (fun x => S (text_size x)) l
  | VObj _ l => 2 + sum_list_with (fun kv => length kv.1 + text_size kv.2 + 4)%nat l
  | _ => 0
  end.

Fixpoint plain_value (v : jsv) : Prop :=
  match v with
  | VStr s => plain s = true
  | VArr l => fold_right (fun x P => plain_value x /\ P) True l
  | VObj _ l => fold_right (fun kv P => (plain kv.1 = true /\ plain_value kv.2) /\ P) True l
  | _ => True
  end.

Lemma join_comma_ascii l :
  Forall (fun p => forallb is_ascii p = true) l -> forallb is_ascii (join_comma l) = true.
Proof.
  induction 1 as [|p l Hp Hl IH]; [done|]. destruct l as [|q l]; [done|].
  rewrite join_comma_cons by done. rewrite !forallb_app, Hp, IH. done.
Qed.

Lemma string_of_Z_size z :
  is_safe_integer (VNum (NInt z)) = Some z ->
  forallb is_ascii (string_of_Z z) = true /\ (length (string_of_Z z) <= 17)%nat.
Proof.
  simpl. case_match eqn:E; [|done]. intros _. apply andb_true_iff in E as [H1%Z.leb_le H2%Z.leb_le].
  unfold max_safe_integer in *.
  assert (forall y, 0 <= y <= 9007199254740991 ->
    forallb is_ascii (string_of_nonneg y) = true /\ (length (string_of_nonneg y) <= 16)%nat) as Hs.
  { intros y Hy. unfold string_of_nonneg. split; [apply digits_ascii|]. rewrite length_digits.
    destruct (dec_length_spec (S (Z.to_nat (Z.log2 y))) y) as (H3 & _ & H4).
    { rewrite Nat2Z.inj_succ, Z2Nat.id by apply Z.log2_nonneg.
      destruct (decide (y = 0)) as [->|]; [done|]. pose proof (Z.log2_spec y). lia. }
    set (n := dec_length _ y) in *. destruct H4 as [[_ ->]|H4]; [lia|].
    destruct (decide (n <= 16)%nat); [done|]. exfalso.
    assert (10 ^ 16 <= 10 ^ (Z.of_nat n - 1)) by (apply Z.pow_le_mono_r; lia). lia. }
  unfold string_of_Z. destruct (Z.ltb_spec z 0).
  - destruct (Hs (- z)) as [Ha Hl]; [lia|]. simpl. rewrite Ha. split; [done|lia].
  - destruct (Hs z) as [Ha Hl]; [lia|]. split; [done|lia].
Qed.

Section text_size.
Context `{SH : !StringHost, HH : !HashHost}.

Lemma json_string_size s :
  plain s = true -> forallb is_ascii (json_string s) = true /\ length (json_string s) = (length s + 2)%nat.
Proof.
  intros H. unfold json_string. rewrite json_chars_plain by done. simpl.
  rewrite length_app, forallb_app, plain_ascii by done. simpl. split; [done|lia].
Qed.

Lemma canonical_size v c :
  plain_value v -> canonical_data v -> canonicalizeValue v = Ok c ->
  forallb is_ascii c = true /\ (length c <= text_size v)%nat.
Proof.
  revert c. induction v as [| |b|n|s|f|i|z|l IH|p l IH] using jsv_nested_ind;
    intros c Hp Hd Hc; try done; cbn [canonicalizeValue] in Hc.
  - injection Hc as <-. by vm_compute; split; [|lia].
  - injection Hc as <-. destruct b; by vm_compute; split; [|lia].
  - destruct Hd as [z Hz]. pose proof (is_safe_integer_VNum _ _ Hz) as ->.
    injection Hc as <-. rewrite number_to_string_int by done. by apply string_of_Z_size.
  - injection Hc as <-. simpl in Hp. rewrite nfc_ascii by by apply plain_ascii.
    destruct (json_string_size s Hp) as [? ->]. split; [done|simpl; lia].
  - change (js "[") with [91%N] in Hc. change (js "]") with [93%N] in Hc.
    inv_ok. rename r into parts, Hr into Hparts. apply map_res_Ok in Hparts.
    cbn [plain_value canonical_data] in *. rewrite fold_right_Forall in *.
    assert (Forall2 (fun x q => forallb is_ascii q = true /\ (length q <= text_size x)%nat) l parts) as Hall.
    { clear -IH Hd Hp Hparts. induction Hparts; [constructor|].
      inversion IH; inversion Hd; inversion Hp; subst. constructor; auto. }
    split.
    + cbn [app forallb]. rewrite forallb_app, join_comma_ascii; [done|].
      eapply Forall2_Forall_r; [exact Hall|]. apply Forall_true. by intros ? ? [? _].
    + cbn [length app text_size]. rewrite length_app, length_join_comma. cbn [length].
      assert (sum_list_with (fun q => S (length q)) parts
        <= sum_list_with (fun x => S (text_size x)) l)%nat; [|lia].
      apply sum_list_Forall2. apply Forall2_flip. eapply Forall2_impl; [exact Hall|].
      intros ? ? [_ ?]. lia.
  - change (js "{") with [123%N] in Hc. change (js "}") with [125%N] in Hc.
    inv_ok. rename r into parts, Hr into Hparts. apply canonical_entries in Hparts.
    cbn [plain_value canonical_data] in *. destruct Hd as [_ Hd]. rewrite fold_right_Forall in *.
    match goal with |- context [join_comma (?g <$> _)] => set (f := g) end.
    assert (forall k q, f (k, q) = json_string k ++ js ":" ++ q) as Hf by done. clearbody f.
    assert (Forall2 (fun kv kq => forallb is_ascii (f kq) = true /\
      (length (f kq) <= length kv.1 + text_size kv.2 + 3)%nat) l parts) as Hall.
    { clear -IH Hd Hp Hparts Hf. induction Hparts as [|[k x] [k' q] ? ? []]; [constructor|].
      inversion IH as [|? ? IHx]; inversion Hd; inversion Hp as [|? ? [Hk Hx]]; subst. constructor; [|auto].
      cbn [fst snd] in *. subst. destruct (IHx q) as [Ha Hl]; [done..|].
      destruct (json_string_size k Hk) as [Hja Hjl].
      rewrite Hf, !forallb_app, !length_app, Hja, Ha, Hjl. split; [done|]. change (length (js ":")) with 1%nat. lia. }
    split.
    + cbn [app forallb]. rewrite forallb_app, join_comma_ascii; [done|]. apply Forall_fmap.
      rewrite (sort_by_perm entry_leb parts).
      eapply Forall2_Forall_r; [exact Hall|]. apply Forall_true. by intros ? ? [? _].
    + cbn [length app text_size]. rewrite length_app, length_join_comma, sum_list_with_fmap.
      cbn [length]. rewrite sort_by_perm.
      assert (sum_list_with (fun kq => S (length (f kq))) parts
        <= sum_list_with (fun kv => length kv.1 + text_size kv.2 + 4)%nat l)%nat; [|lia].
      apply sum_list_Forall2. apply Forall2_flip. eapply Forall2_impl; [exact Hall|].
      intros ? ? [_ ?]. lia.
Qed.

(** A safe plain object within the size limit has a canonical text. *)
Lemma canonicalizePayload_total p entries :
  let v := VObj p entries in
  wf_value v -> safe_value 0 v -> node_count v <= 1000 -> plain_value v ->
  (N.of_nat (text_size v) <= MAX_CANONICAL_BYTES)%N ->
  exists c, canonicalizePayload v = Ok c.
Proof.
  intros v Hw Hs Hn Hp Hsize.
  assert (canonical_data v) as Hd by by eapply safe_canonical_data.
  destruct (canonicalize_total v Hd) as [c Hc]. exists c.
  apply canonicalizePayload_Ok. repeat (split; [done|]).
  destruct (canonical_size v c Hp Hd Hc) as [Ha Hl].
  rewrite utf8_length_ascii by done. lia.
Qed.

(** Keys of the source's own records: ASCII, safe and not sensitive. *)
Definition safe_key (k : jsstr) : bool :=
  forallb is_ascii k && PAYLOAD_KEY_PATTERN k &&
  negb (mem_str (filter (fun c => is_lower c || is_digit c = true) (ascii_lower <$> k))
         sensitivePayloadKeys).

Lemma safe_key_ok k :
  safe_key k = true ->
  PAYLOAD_KEY_PATTERN k = true /\ (normalizedSensitiveKey k ∉ sensitivePayloadKeys) /\ plain k = true.
Proof.
  unfold safe_key, mem_str. rewrite !andb_true_iff, negb_true_iff, bool_decide_eq_false.
  intros [[Ha Hk] Hs]. split; [done|]. split.
  - unfold normalizedSensitiveKey. by rewrite nfkc_ascii, to_lower_ascii.
  - by apply (re_class_plain _ 1 64) in Hk as [? _]; [|plain_class].
Qed.

(** ** Flat records *)

(** A field of the source's own flat records: a string that is plain and short,
    null or a flag. *)
Definition flat_field (v : jsv) : Prop :=
  match v with
  | VStr s => plain s = true /\ (length s <= 128)%nat
  | VNull | VBool _ => True
  | _ => False
  end.

(** The keys of a flat record. *)
Definition flat_keys (keys : list jsstr) : bool :=
  bool_decide (NoDup keys) && forallb (fun k => safe_key k && (length k <=? 40)%nat) keys.

Definition flat_entries (entries : list (jsstr * jsv)) : Prop :=
  flat_keys entries.*1 = true /\ Forall (fun kv => flat_field kv.2) entries.

Lemma flat_entries_Forall entries :
  flat_entries entries ->
  NoDup entries.*1 /\
  Forall (fun kv : jsstr * jsv => (safe_key kv.1 = true /\ (length kv.1 <= 40)%nat) /\
    flat_field kv.2) entries.
Proof.
  intros [[Hn%bool_decide_eq_true Hk]%andb_true_iff Hf]. split; [done|].
  apply Forall_and. split; [|done]. apply List.Forall_forall. intros kv Hin.
  rewrite List.forallb_forall in Hk. specialize (Hk kv.1 (List.in_map fst _ _ Hin)). simpl in Hk.
  by rewrite andb_true_iff, Nat.leb_le in Hk.
Qed.

(** A flat record is far below the limits of a payload, also inside another one. *)
Lemma flat_record_ok p entries depth :
  flat_entries entries -> depth < MAX_DEPTH ->
  wf_value (VObj p entries) /\ safe_value depth (VObj p entries) /\
  node_count (VObj p entries) = 1 + Z.of_nat (length entries) /\ plain_value (VObj p entries).
Proof.
  intros [Hn Hall]%flat_entries_Forall Hd. cbn [wf_value safe_value node_count plain_value]. split_and!; try done; try lia.
  - apply fold_right_Forall. eapply Forall_impl; [exact Hall|]. intros [k v] (_ & Hv). by destruct v.
  - apply fold_right_Forall. eapply Forall_impl; [exact Hall|]. intros [k v] ([Hs _] & Hv). simpl in *.
    destruct (safe_key_ok k Hs) as (? & ? & _). split; [done|]. split; [done|].
    destruct v; simpl in *; try done; (split; [lia|]); try done.
    destruct Hv. unfold MAX_STRING_LENGTH. lia.
  - f_equal. clear -Hall. induction Hall as [|[k v] entries (_ & Hv) _ IH]; [done|].
    cbn [foldr length] in *. rewrite IH. simpl in *. destruct v; simpl; try done; lia.
  - apply fold_right_Forall. eapply Forall_impl; [exact Hall|]. intros [k v] ([Hs _] & Hv). simpl in *.
    destruct (safe_key_ok k Hs) as (_ & _ & ?). split; [done|]. by destruct v; simpl in *; try tauto.
Qed.

Lemma flat_entries_size entries :
  flat_entries entries ->
  (sum_list_with (fun kv : jsstr * jsv => length kv.1 + text_size kv.2 + 4)%nat entries
    <= 174 * length entries)%nat.
Proof.
  intros [_ Hall]%flat_entries_Forall. induction Hall as [|[k v] entries ([_ ?] & Hv) _ IH]; [done|].
  cbn [sum_list_with length] in *. simpl in *.
  assert (text_size v <= 130)%nat by (destruct v; simpl in *; try done; lia). lia.
Qed.

Lemma flat_payload_total p entries :
  flat_entries entries -> (length entries <= 90)%nat ->
  exists c, canonicalizePayload (VObj p entries) = Ok c.
Proof.
  intros H Hl. destruct (flat_record_ok p entries 0 H) as (? & ? & Hn & ?); [done|].
  apply canonicalizePayload_total; try done; [lia|].
  pose proof (flat_entries_size entries H). cbn [text_size]. unfold MAX_CANONICAL_BYTES. lia.
Qed.

(** A flat record with one more field that lists a few flat values. *)
Lemma flat_list_payload_total p entries k items :
  flat_keys (entries.*1 ++ [k]) = true -> Forall (fun kv => flat_field kv.2) entries ->
  Forall flat_field items -> (length items <= 10)%nat -> (length entries <= 40)%nat ->
  exists c, canonicalizePayload (VObj p (entries ++ [(k, VArr items)])) = Ok c.
Proof.
  intros [Hn%bool_decide_eq_true Hk]%andb_true_iff Hf Hi Hli Hle.
  rewrite List.forallb_app, andb_true_iff in Hk. destruct Hk as [Hk Hk'].
  cbn [forallb] in Hk'. rewrite andb_true_r, andb_true_iff, Nat.leb_le in Hk'. destruct Hk' as [Hs Hkl].
  destruct (safe_key_ok k Hs) as (Hpat & Hsens & Hplain).
  assert (flat_entries entries) as He.
  { split; [|done]. unfold flat_keys. rewrite Hk, bool_decide_true; [done|].
    by apply NoDup_app in Hn as (? & _). }
  destruct (flat_record_ok p entries 0 He) as (Hw & Hsafe & Hcount & Hplain'); [done|].
  cbn [wf_value safe_value node_count plain_value] in *.
  destruct Hsafe as [Hd0 Hsafe].
  assert (wf_value (VArr items) /\ safe_value 1 (VArr items) /\ plain_value (VArr items) /\
    node_count (VArr items) = 1 + Z.of_nat (length items) /\
    (text_size (VArr items) <= 2 + 131 * length items)%nat) as (Aw & As & Ap & Ac & At).
  { cbn [wf_value safe_value node_count plain_value text_size]. split_and!; try done.
    - apply fold_right_Forall. eapply Forall_impl; [exact Hi|]. by intros [].
    - apply fold_right_Forall. eapply Forall_impl; [exact Hi|].
      intros [] Hv; simpl in *; try done; (split; [by vm_compute|]); try done.
      destruct Hv. unfold MAX_STRING_LENGTH. lia.
    - apply fold_right_Forall. eapply Forall_impl; [exact Hi|]. intros [] Hv; simpl in *; tauto.
    - f_equal. clear -Hi. induction Hi as [|v items Hv _ IH]; [done|].
      cbn [foldr length] in *. rewrite IH. destruct v; simpl in *; try done; lia.
    - clear -Hi. induction Hi as [|v items Hv _ IH]; [simpl; lia|].
      assert (text_size v <= 130)%nat by (destruct v; simpl in *; try done; lia). simpl. lia. }
  apply canonicalizePayload_total.
  - cbn [wf_value]. rewrite fmap_app. split; [exact Hn|]. apply fold_right_Forall.
    apply Forall_app. split; [by apply fold_right_Forall, Hw|]. by constructor.
  - cbn [safe_value]. split; [done|]. apply fold_right_Forall, Forall_app.
    split; [by apply fold_right_Forall|]. by constructor.
  - cbn [node_count]. rewrite foldr_app. cbn [foldr snd]. rewrite Ac.
    assert (forall z (l : list (jsstr * jsv)), foldr (fun kv n => node_count kv.2 + n) z l
      = foldr (fun kv n => node_count kv.2 + n) 0 l + z) as Hz
      by (intros z l; induction l as [|x l IH]; simpl; [lia|rewrite IH; lia]).
    rewrite Hz. lia.
  - cbn [plain_value]. apply fold_right_Forall, Forall_app. split; [by apply fold_right_Forall|].
    by constructor.
  - cbn [text_size]. rewrite sum_list_with_app. cbn [sum_list_with fst snd].
    pose proof (flat_entries_size entries He). unfold MAX_CANONICAL_BYTES. lia.
Qed.
End text_size.

(** ** Texts of normal records *)

Section normal_records.
Context `{SH : !StringHost}.

(** A value that is its own normal form. *)
Definition is_normal (v : jsv) : Prop := normalize v = v.

Lemma flat_field_normal v : flat_field v -> is_normal v.
Proof.
  unfold is_normal. destruct v; simpl; try done. intros [Hp _].
  by rewrite (ascii_nfc_fixed s) by by apply plain_ascii.
Qed.

Lemma list_normal items : Forall is_normal items -> is_normal (VArr items).
Proof.
  intros H. unfold is_normal. cbn [normalize]. f_equal.
  induction H as [|v items Hv _ IH]; [done|]. cbn. by rewrite Hv, IH.
Qed.

Lemma entries_ext (l1 l2 : list (jsstr * jsv)) :
  l1.*1 = l2.*1 -> NoDup l1.*1 ->
  (forall k, alist_get k l1 = alist_get k l2) -> l1 = l2.
Proof.
  revert l2. induction l1 as [|[k v] l1 IH]; intros [|[k' v'] l2]; try done.
  cbn. intros [= <- Hk] [Hnot Hn]%NoDup_cons H. pose proof (H k) as Hv.
  cbn [alist_get] in Hv. rewrite str_eqb_refl in Hv. injection Hv as <-. f_equal. apply IH; [done..|].
  intros k'. specialize (H k'). cbn [alist_get] in H. destruct (str_eqb k k') eqn:E; [|done].
  apply str_eqb_eq in E as <-. by rewrite !(proj2 (alist_get_None _ _)) by (rewrite <- ?Hk; done).
Qed.

(** Two records of the same keys and normal fields have different texts. *)
Lemma record_text_inj p1 p2 l1 l2 c :
  l1.*1 = l2.*1 -> NoDup l1.*1 ->
  Forall (fun kv => is_normal kv.2 /\ wf_value kv.2) l1 ->
  Forall (fun kv => is_normal kv.2 /\ wf_value kv.2) l2 ->
  canonicalizePayload (VObj p1 l1) = Ok c -> canonicalizePayload (VObj p2 l2) = Ok c -> l1 = l2.
Proof.
  intros Hk Hn [F1 W1]%Forall_and [F2 W2]%Forall_and
    (_ & S1 & _ & C1 & _)%canonicalizePayload_Ok (_ & S2 & _ & C2 & _)%canonicalizePayload_Ok.
  assert (NoDup l2.*1) as Hn2 by (by rewrite <- Hk).
  apply json_parse_canonical in C1, C2;
    try (eapply safe_canonical_data; [|done]; split; [done|by apply fold_right_Forall]).
  rewrite C1 in C2. apply (inj Some) in C2. apply entries_ext; [done..|]. intros k.
  pose proof (normalize_get_eq k _ _ _ _ Hn Hn2 C2) as E. cbn [get] in E.
  destruct (alist_get k l1) as [v1|] eqn:E1, (alist_get k l2) as [v2|] eqn:E2; try done.
  - rewrite Forall_forall in F1, F2. apply alist_get_Some in E1, E2. simpl in E.
    pose proof (F1 _ E1) as Hv1. pose proof (F2 _ E2) as Hv2. simpl in Hv1, Hv2. unfold is_normal in *.
    congruence.
  - apply alist_get_None in E2. rewrite <- Hk in E2. by apply alist_get_None in E2; congruence.
  - apply alist_get_None in E1. rewrite Hk in E1. by apply alist_get_None in E1; congruence.
Qed.
End normal_records.
