(* ===== verification/Merkle.v ===== *)
(** * Merkle batches

    Models [buildMerkleBatch] and [verifyMerkleProof] of
    [sdk/typescript/swisstokint-proof.mjs].  The [while] loop over the levels
    runs on fuel, one unit per level; [buildMerkleBatch] gives it one unit per
    receipt, and [build_levels_single] shows it always reaches one node. *)
From S2P Require Import Prelude JsDate JsValue ProofSdk Receipt Normal.

Record batch_entry := {
  receipt_id : jsstr;
  commitment_hash : jsstr;
  occurred_at : jsstr;
}.

Inductive side := SLeft | SRight.
(** [{ position, hash }] *)
Record proof_step := { position : side; step_hash : jsstr }.
(** [{ hash, descendants }] *)
Record level_node := { node_hash : jsstr; descendants : list nat }.

Record batch_leaf := {
  leaf_entry : batch_entry;
  leaf_index : nat;
  leaf_hash : jsstr;
  leaf_proof : list proof_step;
}.

Record merkle_batch := {
  batch_ref : jsstr;
  leaf_count : nat;
  merkle_root : jsstr;
  leaves : list batch_leaf;
}.

(** The two hash inputs, in their own domains. *)
Definition leaf_input (commitmentHash : jsstr) : jsstr :=
  js "swisstokint:proof-leaf:v1:" ++ commitmentHash.
Definition node_input (left right : jsstr) : jsstr :=
  js "swisstokint:proof-node:v1:" ++ left ++ js ":" ++ right.

(** [for (const d of ds) proofs[d].push(step)] *)
Definition push_all (ds : list nat) (step : proof_step)
    (proofs : list (list proof_step)) : list (list proof_step) :=
  foldl (fun ps d => alter (fun p => p ++ [step]) d ps) proofs ds.

Section merkle.
Context `{SH : !StringHost, HH : !HashHost, DH : !DateHost}.

Definition hashMerkleLeaf (commitmentHash : jsv) : res jsstr :=
  h ← assertHash commitmentHash "commitment_hash";
  Ok (sha256Hex (leaf_input h)).

Definition hashMerkleNode (left right : jsv) : res jsstr :=
  l ← assertHash left "left node";
  r ← assertHash right "right node";
  Ok (sha256Hex (node_input l r)).

Definition batch_entry_keys : list jsstr :=
  js <$> ["receipt_id"; "commitment_hash"; "occurred_at"].

Definition validate_entry (receipt : jsv) : res batch_entry :=
  _ ← assert (is_record receipt || match receipt with VArr _ => true | _ => false end)
        (js "Batch receipt must be an object");
  _ ← assert (same_keys (keys_of receipt) batch_entry_keys)
        (js "Batch receipt has missing or unknown fields");
  id ← assertIdentifier (get (js "receipt_id") receipt) "receipt_id" id_pattern;
  h ← assertHash (get (js "commitment_hash") receipt) "commitment_hash";
  t ← normalizeOccurredAt (get (js "occurred_at") receipt);
  Ok {| receipt_id := id; commitment_hash := h; occurred_at := t |}.

(** [left.occurred_at.localeCompare(right.occurred_at)
     || left.receipt_id.localeCompare(right.receipt_id)], as [<= 0] *)
Definition batch_entry_leb (left right : batch_entry) : bool :=
  if locale_leb (occurred_at left) (occurred_at right) then
    negb (locale_leb (occurred_at right) (occurred_at left))
    || locale_leb (receipt_id left) (receipt_id right)
  else false.

(** One pass of the [for] loop over a level: the next level and the proofs. *)
Fixpoint merge_level (level : list level_node) (proofs : list (list proof_step))
  : res (list level_node * list (list proof_step)) :=
  match level with
  | [] => Ok ([], proofs)
  | [leftNode] =>
      let proofs := push_all (descendants leftNode)
        {| position := SRight; step_hash := node_hash leftNode |} proofs in
      h ← hashMerkleNode (VStr (node_hash leftNode)) (VStr (node_hash leftNode));
      Ok ([{| node_hash := h; descendants := descendants leftNode |}], proofs)
  | leftNode :: rightNode :: rest =>
      let proofs := push_all (descendants leftNode)
        {| position := SRight; step_hash := node_hash rightNode |} proofs in
      let proofs := push_all (descendants rightNode)
        {| position := SLeft; step_hash := node_hash leftNode |} proofs in
      h ← hashMerkleNode (VStr (node_hash leftNode)) (VStr (node_hash rightNode));
      '(next, proofs) ← merge_level rest proofs;
      Ok ({| node_hash := h; descendants := descendants leftNode ++ descendants rightNode |}
          :: next, proofs)
  end.

(** [while (level.length > 1)] *)
Fixpoint build_levels (fuel : nat) (level : list level_node)
    (proofs : list (list proof_step))
  : res (list level_node * list (list proof_step)) :=
  match fuel with
  | O => Ok (level, proofs)
  | S fuel' =>
      if (length level <=? 1)%nat then Ok (level, proofs) else
      '(next, proofs) ← merge_level level proofs;
      build_levels fuel' next proofs
  end.

Definition sort_entries : list batch_entry -> list batch_entry := sort_by batch_entry_leb.

Definition buildMerkleBatch (receipts : jsv) : res merkle_batch :=
  match receipts with
  | VArr items =>
      _ ← assert (0 <? length items)%nat (js "A batch requires at least one receipt");
      _ ← assert (Z.of_nat (length items) <=? 10000) (js "A batch cannot exceed 10,000 receipts");
      entries ← map_res validate_entry items;
      let ordered := sort_entries entries in
      _ ← assert (bool_decide (NoDup (receipt_id <$> ordered)))
            (js "Duplicate receipt_id in batch");
      _ ← assert (bool_decide (NoDup (commitment_hash <$> ordered)))
            (js "Duplicate commitment_hash in batch");
      leafHashes ← map_res (fun e => hashMerkleLeaf (VStr (commitment_hash e))) ordered;
      let proofs := (fun _ => []) <$> ordered in
      let level := imap (fun index hash =>
        {| node_hash := hash; descendants := [index] |}) leafHashes in
      '(level, proofs) ← build_levels (length ordered) level proofs;
      let merkleRoot := default [] (node_hash <$> head level) in
      Ok {| batch_ref := js "pom-" ++ take 24 merkleRoot;
            leaf_count := length ordered;
            merkle_root := merkleRoot;
            leaves := imap (fun index e =>
              {| leaf_entry := e; leaf_index := index;
                 leaf_hash := default [] (leafHashes !! index);
                 leaf_proof := default [] (proofs !! index) |}) ordered |}
  | _ => Throw (type_error (js "A batch requires at least one receipt"))
  end.

(** One element of the [proof] argument: an object with [position] and [hash]. *)
Definition proof_step_of (step : jsv) : res proof_step :=
  let p := get (js "position") step in
  _ ← assert (match step with VUndef | VNull => false | _ => true end
              && (is_str p (js "left") || is_str p (js "right")))
        (js "Invalid Merkle proof position");
  h ← assertHash (get (js "hash") step) "proof hash";
  Ok {| position := if is_str p (js "left") then SLeft else SRight; step_hash := h |}.

Definition apply_step (current : jsstr) (step : proof_step) : res jsstr :=
  match position step with
  | SLeft => hashMerkleNode (VStr (step_hash step)) (VStr current)
  | SRight => hashMerkleNode (VStr current) (VStr (step_hash step))
  end.

Definition verifyMerkleProof (commitmentHash proof merkleRoot : jsv) : bool :=
  match
    _ ← assertHash commitmentHash "commitment_hash";
    root ← assertHash merkleRoot "merkle_root";
    steps ← match proof with
      | VArr steps => if (length steps <=? 32)%nat then Ok steps
                      else Throw (type_error (js "Invalid Merkle proof"))
      | _ => Throw (type_error (js "Invalid Merkle proof"))
      end;
    leaf ← hashMerkleLeaf commitmentHash;
    current ← fold_res (fun step current =>
      step ← proof_step_of step; apply_step current step) steps leaf;
    Ok (str_eqb current root)
  with
  | Ok b => b
  | Throw _ => false
  end.

(** The proof of a leaf as the value [verifyMerkleProof] takes. *)
Definition proof_value (proof : list proof_step) : jsv :=
  VArr ((fun step => VObj PObject
    [(js "position", VStr (match position step with SLeft => js "left" | SRight => js "right" end));
     (js "hash", VStr (step_hash step))]) <$> proof).
End merkle.

(** ** The passes over a level *)

Section merkle_proofs.
Context `{SH : !StringHost, HH : !HashHost, DH : !DateHost}.

Lemma hashMerkleNode_Ok l r h :
  hashMerkleNode (VStr l) (VStr r) = Ok h <->
  hash_pattern l = true /\ hash_pattern r = true /\ h = sha256Hex (node_input l r).
Proof.
  unfold hashMerkleNode, assertHash, string_where, str_that.
  destruct (hash_pattern l), (hash_pattern r); simpl; split;
    try (by intros [= <-]); try (by intros (? & ? & ->)); by intros (? & ? & ?).
Qed.

Lemma hashMerkleLeaf_Ok c h :
  hashMerkleLeaf (VStr c) = Ok h <-> hash_pattern c = true /\ h = sha256Hex (leaf_input c).
Proof.
  unfold hashMerkleLeaf, assertHash, string_where, str_that.
  destruct (hash_pattern c); simpl; split;
    try (by intros [= <-]); try (by intros (? & ->)); by intros (? & ?).
Qed.

(** The hash a node gets from one proof step. *)
Definition step_input (current : jsstr) (step : proof_step) : jsstr :=
  match position step with
  | SLeft => node_input (step_hash step) current
  | SRight => node_input current (step_hash step)
  end.
Definition step_apply (current : jsstr) (step : proof_step) : jsstr :=
  sha256Hex (step_input current step).
Definition run_proof (leaf : jsstr) (proof : list proof_step) : jsstr :=
  foldl step_apply leaf proof.

Definition wf_level (level : list level_node) : Prop :=
  Forall (fun n => hash_pattern (node_hash n) = true) level.
Definition all_descendants (level : list level_node) : list nat :=
  mjoin (descendants <$> level).

Lemma all_descendants_cons n level :
  all_descendants (n :: level) = descendants n ++ all_descendants level.
Proof. done. Qed.

Lemma length_push_all ds st ps : length (push_all ds st ps) = length ps.
Proof.
  revert ps. induction ds as [|d ds IH]; intros ps; [done|].
  unfold push_all in *. simpl. by rewrite IH, length_alter.
Qed.

Lemma lookup_push_all ds st ps i :
  NoDup ds ->
  push_all ds st ps !! i =
  if decide (i ∈ ds) then (fun p => p ++ [st]) <$> ps !! i else ps !! i.
Proof.
  revert ps. induction ds as [|d ds IH]; intros ps Hnd.
  - by rewrite decide_False by apply not_elem_of_nil.
  - apply NoDup_cons in Hnd as [Hd Hnd]. unfold push_all in *. simpl.
    rewrite IH by done. destruct (decide (i = d)) as [->|Hne];
      repeat case_decide; rewrite ?elem_of_cons in *; try tauto.
    + apply list_lookup_alter_eq.
    + by rewrite list_lookup_alter_ne.
    + by rewrite list_lookup_alter_ne.
Qed.

(** What one pass does: each new node hashes two nodes of the level, keeps
    their descendants in order, and extends the proof of each of them by the
    step that leads from its old node to the new one. *)
Record pass_spec (level next : list level_node)
    (proofs proofs' : list (list proof_step)) : Prop := {
  pass_wf : wf_level next;
  pass_desc : all_descendants next = all_descendants level;
  pass_length : (length level <= 2 * length next <= length level + 1)%nat;
  pass_proofs : length proofs' = length proofs;
  pass_frame d : d ∉ all_descendants level -> proofs' !! d = proofs !! d;
  pass_step n d : n ∈ next -> d ∈ descendants n ->
    exists child st, child ∈ level /\ d ∈ descendants child /\
      proofs' !! d = (fun p => p ++ [st]) <$> proofs !! d /\
      hash_pattern (step_hash st) = true /\
      step_apply (node_hash child) st = node_hash n;
}.

Lemma merge_level_spec level proofs :
  wf_level level -> NoDup (all_descendants level) ->
  exists next proofs', merge_level level proofs = Ok (next, proofs') /\
    pass_spec level next proofs proofs'.
Proof.
  remember (length level) as n eqn:Hn. revert level proofs Hn.
  induction n as [n IH] using lt_wf_ind. intros level proofs -> Hwf Hnd.
  destruct level as [|x [|y rest]].
  - exists [], proofs. split; [done|]. split; simpl; try done; [lia|].
    by intros n d ?%not_elem_of_nil.
  - inversion Hwf as [|? ? Hx _]; subst. cbn [merge_level].
    assert (hashMerkleNode (VStr (node_hash x)) (VStr (node_hash x))
      = Ok (sha256Hex (node_input (node_hash x) (node_hash x)))) as ->
      by by apply hashMerkleNode_Ok.
    unfold all_descendants in *. simpl in *. rewrite app_nil_r in *.
    eexists _, _. split; [done|]. split; simpl.
    + repeat constructor. apply sha256_hex_format.
    + unfold all_descendants. simpl. by rewrite ?app_nil_r.
    + lia.
    + apply length_push_all.
    + unfold all_descendants. simpl. intros d Hd. rewrite ?app_nil_r in Hd.
      by rewrite lookup_push_all, decide_False.
    + intros n d ->%list_elem_of_singleton Hd. simpl in *.
      exists x, {| position := SRight; step_hash := node_hash x |}.
      split; [by left|]. split; [done|]. by rewrite lookup_push_all, decide_True.
  - inversion Hwf as [|? ? Hx Hwf']; subst. inversion Hwf' as [|? ? Hy Hrest]; subst.
    rewrite !all_descendants_cons in Hnd.
    apply NoDup_app in Hnd as (Hndx & Hxy & Hnd).
    apply NoDup_app in Hnd as (Hndy & Hyr & Hndr).
    set (px := push_all (descendants x) {| position := SRight; step_hash := node_hash y |} proofs).
    set (py := push_all (descendants y) {| position := SLeft; step_hash := node_hash x |} px).
    destruct (IH (length rest) ltac:(simpl; lia) rest py eq_refl Hrest Hndr)
      as (next & proofs' & Hm & [Wf Desc Len Pl Frame Step]).
    cbn [merge_level]. fold px py. cbn zeta. fold py.
    assert (hashMerkleNode (VStr (node_hash x)) (VStr (node_hash y))
      = Ok (sha256Hex (node_input (node_hash x) (node_hash y)))) as ->
      by by apply hashMerkleNode_Ok.
    cbn [mbind res_bind]. rewrite Hm. cbn [mbind res_bind].
    eexists _, _. split; [done|].
    assert (forall d, d ∈ descendants x -> (d ∉ descendants y) /\ (d ∉ all_descendants rest)) as Dx.
    { intros d Hd. specialize (Hxy d Hd). rewrite elem_of_app in Hxy. tauto. }
    assert (forall d, py !! d = if decide (d ∈ descendants y)
      then (fun p => p ++ [{| position := SLeft; step_hash := node_hash x |}]) <$> px !! d
      else px !! d) as Epy by (intros; by apply lookup_push_all).
    assert (forall d, px !! d = if decide (d ∈ descendants x)
      then (fun p => p ++ [{| position := SRight; step_hash := node_hash y |}]) <$> proofs !! d
      else proofs !! d) as Epx by (intros; by apply lookup_push_all).
    split; simpl.
    + constructor; [apply sha256_hex_format|done].
    + rewrite !all_descendants_cons. simpl. by rewrite Desc, app_assoc.
    + lia.
    + rewrite Pl. unfold py, px. by rewrite !length_push_all.
    + intros d Hd. rewrite !all_descendants_cons, !elem_of_app in Hd.
      rewrite Frame, Epy, decide_False, Epx, decide_False by tauto. done.
    + intros n d [->|Hn]%elem_of_cons Hd; simpl in *.
      * apply elem_of_app in Hd as [Hd|Hd].
        -- destruct (Dx d Hd) as [Hdy Hdr].
           exists x, {| position := SRight; step_hash := node_hash y |}.
           split; [by left|]. split; [done|].
           by rewrite Frame, Epy, decide_False, Epx, decide_True.
        -- exists y, {| position := SLeft; step_hash := node_hash x |}.
           split; [by right; left|]. split; [done|].
           assert (d ∉ descendants x) by (intros Hdx; by destruct (Dx d Hdx)).
           rewrite Frame, Epy, decide_True, Epx, decide_False by (done || by apply Hyr). done.
      * destruct (Step n d Hn Hd) as (child & st & Hc & Hdc & Hp & Hst & Ha).
        exists child, st. split; [by right; right|]. split; [done|]. split; [|done].
        assert (d ∈ all_descendants rest) as Hdr.
        { rewrite <- Desc. unfold all_descendants. apply list_elem_of_join.
          exists (descendants n). split; [done|]. apply list_elem_of_fmap. by exists n. }
        rewrite Hp, Epy, decide_False, Epx, decide_False; [done| |].
        -- intros Hdx. by destruct (Dx d Hdx).
        -- intros Hdy. by apply (Hyr d Hdy).
Qed.

(** The state of the loop: after [k] passes the level still lists the leaves
    in order, and folding a leaf's proof over its hash gives its node. *)
Record level_inv (hashes : list jsstr) (k : nat) (level : list level_node)
    (proofs : list (list proof_step)) : Prop := {
  inv_wf : wf_level level;
  inv_desc : all_descendants level = seq 0 (length hashes);
  inv_proofs : length proofs = length hashes;
  inv_size : 2 ^ Z.of_nat k * (Z.of_nat (length level) - 1) <= Z.of_nat (length hashes) - 1;
  inv_path n d : n ∈ level -> d ∈ descendants n ->
    exists h p, hashes !! d = Some h /\ proofs !! d = Some p /\ length p = k /\
      Forall (fun st => hash_pattern (step_hash st) = true) p /\
      run_proof h p = node_hash n;
}.

Definition initial_level (hashes : list jsstr) : list level_node :=
  imap (fun index hash => {| node_hash := hash; descendants := [index] |}) hashes.

Lemma all_descendants_initial hashes :
  all_descendants (initial_level hashes) = seq 0 (length hashes).
Proof.
  unfold initial_level, all_descendants.
  assert (forall k, mjoin (descendants <$> imap (fun index hash =>
    {| node_hash := hash; descendants := [(k + index)%nat] |}) hashes)
    = seq k (length hashes)) as H; [|exact (H 0%nat)].
  induction hashes as [|h hashes IH]; intros k; simpl; [done|].
  rewrite Nat.add_0_r. f_equal. rewrite <- IH. do 2 f_equal.
  apply imap_ext. intros i x _. simpl. by rewrite Nat.add_succ_r.
Qed.

Lemma level_inv_initial hashes :
  Forall (fun h => hash_pattern h = true) hashes ->
  level_inv hashes 0 (initial_level hashes) ((fun _ => []) <$> hashes).
Proof.
  intros Hh. split.
  - apply Forall_lookup. intros i n Hn. unfold initial_level in Hn.
    rewrite list_lookup_imap in Hn. apply fmap_Some in Hn as (h & Hl & ->).
    by eapply Forall_lookup_1 in Hh.
  - apply all_descendants_initial.
  - by rewrite length_fmap.
  - unfold initial_level. rewrite length_imap. simpl Z.pow. lia.
  - intros n d (i & Hn)%list_elem_of_lookup Hd. unfold initial_level in Hn.
    rewrite list_lookup_imap in Hn. apply fmap_Some in Hn as (h & Hl & ->).
    simpl in Hd. apply list_elem_of_singleton in Hd as ->.
    exists h, []. rewrite list_lookup_fmap, Hl. by repeat constructor.
Qed.

Lemma level_inv_pass hashes k level next proofs proofs' :
  level_inv hashes k level proofs -> pass_spec level next proofs proofs' ->
  level_inv hashes (S k) next proofs'.
Proof.
  intros [Wf Desc Len Size Path] [Wf' Desc' Len' Pl Frame Step].
  split; [done|congruence|congruence| |].
  - rewrite Nat2Z.inj_succ, Z.pow_succ_r by lia.
    pose proof (Z.pow_pos_nonneg 2 (Z.of_nat k)). nia.
  - intros n d Hn Hd. destruct (Step n d Hn Hd) as (child & st & Hc & Hdc & Hp & Hst & Ha).
    destruct (Path child d Hc Hdc) as (h & p & Hh & Hpd & Hk & Hf & Hr).
    exists h, (p ++ [st]). split; [done|]. rewrite Hp, Hpd. split; [done|].
    rewrite length_app. split; [simpl; lia|]. split.
    + apply Forall_app. split; [done|]. by repeat constructor.
    + unfold run_proof in *. rewrite foldl_app. simpl. by rewrite Hr.
Qed.

(** ** The tree without proofs: the reference definition of the root *)

(** The texts hashed in one pass over the hashes of a level. *)
Fixpoint pair_inputs (hashes : list jsstr) : list jsstr :=
  match hashes with
  | [] => []
  | [x] => [node_input x x]
  | x :: y :: rest => node_input x y :: pair_inputs rest
  end.
Definition pair_hashes (hashes : list jsstr) : list jsstr :=
  sha256Hex <$> pair_inputs hashes.

(** All the texts hashed above the leaves, and the root. *)
Fixpoint tree_inputs (fuel : nat) (hashes : list jsstr) : list jsstr :=
  match fuel with
  | O => []
  | S fuel' => if (length hashes <=? 1)%nat then [] else
      pair_inputs hashes ++ tree_inputs fuel' (pair_hashes hashes)
  end.
Fixpoint tree_root (fuel : nat) (hashes : list jsstr) : jsstr :=
  match fuel with
  | O => hd [] hashes
  | S fuel' => if (length hashes <=? 1)%nat then hd [] hashes else
      tree_root fuel' (pair_hashes hashes)
  end.

Lemma merge_level_hashes level proofs next proofs' :
  merge_level level proofs = Ok (next, proofs') ->
  node_hash <$> next = pair_hashes (node_hash <$> level).
Proof.
  remember (length level) as n eqn:Hn. revert level proofs next proofs' Hn.
  induction n as [n IH] using lt_wf_ind. intros level proofs next proofs' -> Hm.
  destruct level as [|x [|y rest]]; cbn [merge_level] in Hm.
  - by injection Hm as <- <-.
  - inv_ok. apply hashMerkleNode_Ok in Hr as (_ & _ & ->). by simplify_eq.
  - inv_ok. apply hashMerkleNode_Ok in Hr as (_ & _ & ->).
    destruct r0 as [next' ps]. simplify_eq/=. unfold pair_hashes. simpl.
    f_equal. eapply (IH (length rest)); [lia|done|exact Hr0].
Qed.

Lemma build_levels_spec hashes fuel k level proofs :
  (1 <= length level <= fuel)%nat -> level_inv hashes k level proofs ->
  Z.of_nat (length hashes) <= 10000 -> (k <= 14)%nat ->
  exists root proofs' k', build_levels fuel level proofs = Ok ([root], proofs') /\
    level_inv hashes k' [root] proofs' /\ (k' <= 14)%nat /\
    node_hash root = tree_root fuel (node_hash <$> level).
Proof.
  revert k level proofs. induction fuel as [|fuel IH]; intros k level proofs Hf Hi Hh Hk; [lia|].
  cbn [build_levels tree_root]. rewrite length_fmap.
  destruct (Nat.leb_spec (length level) 1) as [Hl|Hl].
  - destruct level as [|x [|]]; simpl in *; try lia. by exists x, proofs, k.
  - destruct (merge_level_spec level proofs) as (next & ps & Hm & Hp);
      [by destruct Hi| rewrite (inv_desc _ _ _ _ Hi); apply NoDup_seq|].
    rewrite Hm. cbn [mbind res_bind].
    rewrite <- (merge_level_hashes _ _ _ _ Hm).
    pose proof (pass_length _ _ _ _ Hp). pose proof (inv_size _ _ _ _ Hi).
    apply (IH (S k)); [lia|by eapply level_inv_pass|done|].
    destruct (decide (k = 14%nat)) as [->|]; [|lia].
    change (2 ^ Z.of_nat 14) with 16384 in *. lia.
Qed.

(** ** The batch *)

Lemma validate_entry_hash r e :
  validate_entry r = Ok e -> hash_pattern (commitment_hash e) = true.
Proof.
  unfold validate_entry, assertHash. intros H. inv_ok. simpl.
  by apply string_where_Ok in Hr2 as [_ ?].
Qed.

Definition leaf_hash_of (e : batch_entry) : jsstr :=
  sha256Hex (leaf_input (commitment_hash e)).

Lemma leaf_hashes_Ok (l : list batch_entry) hashes :
  Forall (fun e => hash_pattern (commitment_hash e) = true) l ->
  map_res (fun e => hashMerkleLeaf (VStr (commitment_hash e))) l = Ok hashes <->
  hashes = leaf_hash_of <$> l.
Proof.
  intros Hl. rewrite map_res_Ok. split.
  - intros H. apply list_eq_Forall2, Forall2_fmap_r. apply Forall2_flip.
    eapply Forall2_impl; [exact H|]. intros e h He. by apply hashMerkleLeaf_Ok in He as [_ ->].
  - intros ->. apply Forall2_fmap_r, Forall_Forall2_diag.
    eapply Forall_impl; [exact Hl|]. intros e He. by apply hashMerkleLeaf_Ok.
Qed.

(** What a built batch is, in terms of the entries of its input. *)
Record batch_of (entries : list batch_entry) (b : merkle_batch) : Prop := {
  batch_entries : leaf_entry <$> leaves b = sort_entries entries;
  batch_hashed : Forall (fun e => hash_pattern (commitment_hash e) = true) entries;
  batch_indices i l : leaves b !! i = Some l -> leaf_index l = i;
  batch_root : merkle_root b = tree_root (length entries) (leaf_hash_of <$> sort_entries entries);
  batch_root_format : hash_pattern (merkle_root b) = true;
  batch_count : leaf_count b = length entries;
  batch_named : batch_ref b = js "pom-" ++ take 24 (merkle_root b);
  batch_paths l : l ∈ leaves b ->
    leaf_hash l = leaf_hash_of (leaf_entry l) /\
    (length (leaf_proof l) <= 14)%nat /\
    Forall (fun st => hash_pattern (step_hash st) = true) (leaf_proof l) /\
    run_proof (leaf_hash l) (leaf_proof l) = merkle_root b;
}.

Definition batch_ready (items : list jsv) (entries : list batch_entry) : Prop :=
  1 <= Z.of_nat (length items) <= 10000 /\
  Forall2 (fun r e => validate_entry r = Ok e) items entries /\
  NoDup (receipt_id <$> entries) /\ NoDup (commitment_hash <$> entries).

Lemma length_sort_entries entries : length (sort_entries entries) = length entries.
Proof. apply Permutation_length, sort_by_perm. Qed.

Lemma build_levels_leaves hashes :
  (1 <= length hashes)%nat -> Z.of_nat (length hashes) <= 10000 ->
  Forall (fun h => hash_pattern h = true) hashes ->
  exists root proofs k, build_levels (length hashes) (initial_level hashes)
      ((fun _ => []) <$> hashes) = Ok ([root], proofs) /\
    level_inv hashes k [root] proofs /\ (k <= 14)%nat /\
    node_hash root = tree_root (length hashes) hashes.
Proof.
  intros H1 H2 Hf.
  assert (node_hash <$> initial_level hashes = hashes) as E.
  { unfold initial_level. rewrite fmap_imap. apply list_eq. intros i.
    rewrite list_lookup_imap. by destruct (hashes !! i). }
  destruct (build_levels_spec hashes (length hashes) 0 (initial_level hashes)
    ((fun _ => []) <$> hashes)) as (root & proofs & k & Hb & Hi & Hk & Hr);
    [unfold initial_level; rewrite length_imap; lia|by apply level_inv_initial|done|lia|].
  rewrite E in Hr. by exists root, proofs, k.
Qed.

(** The tree is built without failure on every ready input, and the batch it
    gives is [batch_of] the entries. *)
Lemma buildMerkleBatch_ready items entries :
  batch_ready items entries ->
  exists b, buildMerkleBatch (VArr items) = Ok b /\ batch_of entries b.
Proof.
  intros (Hlen & Hv & Hids & Hcs).
  pose proof (Forall2_length _ _ _ Hv) as Hll.
  assert (Forall (fun e => hash_pattern (commitment_hash e) = true) entries) as Hf.
  { eapply Forall2_Forall_r; [exact Hv|]. apply Forall_true. apply validate_entry_hash. }
  set (ordered := sort_entries entries).
  assert (ordered ≡ₚ entries) as Hperm by apply sort_by_perm.
  set (hashes := leaf_hash_of <$> ordered).
  assert (length hashes = length entries) as Hlh
    by (unfold hashes; rewrite length_fmap; by apply Permutation_length).
  destruct (build_levels_leaves hashes) as (root & proofs & k & Hb & Hi & Hk & Hr);
    [lia|lia|apply Forall_fmap, Forall_true; intros; apply sha256_hex_format|].
  assert (map_res validate_entry items = Ok entries) as E1 by by apply map_res_Ok.
  assert (map_res (fun e => hashMerkleLeaf (VStr (commitment_hash e))) ordered = Ok hashes) as E2.
  { apply leaf_hashes_Ok; [|done]. by rewrite Hperm. }
  unfold buildMerkleBatch, assert.
  replace (0 <? length items)%nat with true by (symmetry; apply Nat.ltb_lt; lia).
  replace (Z.of_nat (length items) <=? 10000) with true by (symmetry; apply Z.leb_le; lia).
  cbn [guard_or mbind res_bind]. rewrite E1. cbn [mbind res_bind]. fold ordered.
  rewrite !bool_decide_true by by rewrite Hperm.
  cbn [guard_or mbind res_bind]. rewrite E2. cbn [mbind res_bind].
  replace (length ordered) with (length hashes) by apply length_fmap.
  replace ((fun _ => []) <$> ordered) with ((fun _ => []) <$> hashes : list (list proof_step))
    by (unfold hashes; by rewrite <- list_fmap_compose).
  fold (initial_level hashes). rewrite Hb. cbn [mbind res_bind].
  eexists. split; [done|]. simpl in Hi.
  assert (forall i e, ordered !! i = Some e -> exists h p, hashes !! i = Some h /\
    h = leaf_hash_of e /\ proofs !! i = Some p /\ length p = k /\
    Forall (fun st => hash_pattern (step_hash st) = true) p /\
    run_proof h p = node_hash root) as Hpath.
  { intros i e He. destruct (inv_path _ _ _ _ Hi root i) as (h & p & Hh & Hp & ?); [by left| |].
    - pose proof (inv_desc _ _ _ _ Hi) as Hd. unfold all_descendants in Hd. simpl in Hd.
      rewrite app_nil_r in Hd. rewrite Hd, elem_of_seq. apply lookup_lt_Some in He.
      unfold hashes. rewrite length_fmap. lia.
    - exists h, p. split; [done|]. split; [|done].
      unfold hashes in Hh. rewrite list_lookup_fmap, He in Hh. by simplify_eq/=. }
  split; cbn [leaves merkle_root leaf_count].
  - rewrite fmap_imap. apply list_eq. intros i. rewrite list_lookup_imap.
    fold ordered. by destruct (ordered !! i).
  - done.
  - intros i l Hl. rewrite list_lookup_imap in Hl.
    apply fmap_Some in Hl as (e & _ & ->). done.
  - rewrite <- Hlh. simpl. exact Hr.
  - simpl. pose proof (inv_wf _ _ _ _ Hi) as Hw. by inversion Hw.
  - done.
  - done.
  - intros l (i & Hl)%list_elem_of_lookup. rewrite list_lookup_imap in Hl.
    apply fmap_Some in Hl as (e & He & ->). cbn [leaf_hash leaf_proof leaf_entry].
    destruct (Hpath i e He) as (h & p & Hh & -> & Hp & <- & Hpf & Hrun).
    rewrite Hh, Hp. simpl. done.
Qed.

Lemma buildMerkleBatch_Ok_ready receipts b :
  buildMerkleBatch receipts = Ok b ->
  exists items entries, receipts = VArr items /\ batch_ready items entries.
Proof.
  unfold buildMerkleBatch, assert. intros H. destruct receipts; try discriminate H.
  apply guard_bind_Ok in H as [H1%Nat.ltb_lt H]. apply guard_bind_Ok in H as [H2%Z.leb_le H].
  apply bind_Ok in H as (entries & He & H). apply guard_bind_Ok in H as [H3%bool_decide_eq_true H].
  apply guard_bind_Ok in H as [H4%bool_decide_eq_true _].
  apply map_res_Ok in He. exists l, entries. split; [done|].
  unfold sort_entries in *. rewrite sort_by_perm in H3, H4.
  split; [lia|]. done.
Qed.

Lemma buildMerkleBatch_spec receipts b :
  buildMerkleBatch receipts = Ok b <->
  exists items entries, receipts = VArr items /\ batch_ready items entries /\
    buildMerkleBatch receipts = Ok b /\ batch_of entries b.
Proof.
  split; [|by intros (? & ? & _ & _ & ? & _)].
  intros H. destruct (buildMerkleBatch_Ok_ready _ _ H) as (items & entries & -> & Hr).
  destruct (buildMerkleBatch_ready _ _ Hr) as (b' & Hb & Ho).
  exists items, entries. repeat (split; [done|]). congruence.
Qed.

(** ** Verification *)

Definition step_ok (st : proof_step) : Prop := hash_pattern (step_hash st) = true.

Lemma apply_step_Ok current st h :
  apply_step current st = Ok h <->
  hash_pattern current = true /\ step_ok st /\ h = step_apply current st.
Proof.
  unfold apply_step, step_apply, step_input, step_ok.
  destruct (position st); rewrite hashMerkleNode_Ok; tauto.
Qed.

Lemma step_apply_format current st : hash_pattern (step_apply current st) = true.
Proof. apply sha256_hex_format. Qed.

Lemma proof_step_of_ok v st : proof_step_of v = Ok st -> step_ok st.
Proof.
  unfold proof_step_of, assertHash. intros H. inv_ok.
  by apply string_where_Ok in Hr0 as [_ ?].
Qed.

Lemma fold_steps_Ok items leaf h :
  hash_pattern leaf = true ->
  fold_res (fun step current => step ← proof_step_of step; apply_step current step)
    items leaf = Ok h <->
  exists steps, map_res proof_step_of items = Ok steps /\ h = run_proof leaf steps.
Proof.
  revert leaf. induction items as [|v items IH]; intros leaf Hl.
  - simpl. split; [intros [= ->]; by exists []|]. by intros (? & [= <-] & ->).
  - rewrite fold_res_cons. split.
    + intros H. inv_ok. apply apply_step_Ok in Hr as (_ & Hs & ->).
      apply IH in H as (steps & Hm & ->); [|apply step_apply_format].
      exists (r0 :: steps). simpl. by rewrite Hr0, Hm.
    + intros (steps & Hm & ->). simpl in Hm. inv_ok.
      rewrite Hr. cbn [mbind res_bind].
      assert (apply_step leaf r = Ok (step_apply leaf r)) as ->
        by (apply apply_step_Ok; eauto using proof_step_of_ok).
      cbn [mbind res_bind]. apply IH; [apply step_apply_format|]. by exists r0.
Qed.

(** When a proof verifies: the arguments are well formed and hashing the
    leaf along the steps ends at the root. *)
Lemma verifyMerkleProof_iff commitment proof root :
  verifyMerkleProof commitment proof root = true <->
  exists c r items steps,
    commitment = VStr c /\ root = VStr r /\ proof = VArr items /\
    hash_pattern c = true /\ hash_pattern r = true /\ (length items <= 32)%nat /\
    map_res proof_step_of items = Ok steps /\
    run_proof (sha256Hex (leaf_input c)) steps = r.
Proof.
  unfold verifyMerkleProof. split.
  - match goal with |- match ?m with _ => _ end = true -> _ => destruct m as [b|] eqn:E end; [|done].
    intros ->. unfold assertHash in E. inv_ok.
    apply string_where_Ok in Hr as [-> Hc], Hr0 as [-> Hr].
    destruct proof as [| | | | | | | |items|]; try discriminate Hr1.
    destruct (Nat.leb_spec (length items) 32); [|discriminate Hr1]. injection Hr1 as ->.
    apply hashMerkleLeaf_Ok in Hr2 as [_ ->].
    apply fold_steps_Ok in Hr3 as (steps & Hm & ->); [|apply sha256_hex_format].
    apply str_eqb_eq in E. by exists r, r0, r1, steps.
  - intros (c & r & items & steps & -> & -> & -> & Hc & Hr & Hl & Hm & Hrun).
    assert (assertHash (VStr c) "commitment_hash" = Ok c) as -> by by apply string_where_Ok.
    assert (assertHash (VStr r) "merkle_root" = Ok r) as -> by by apply string_where_Ok.
    rewrite (proj2 (Nat.leb_le _ _) Hl). cbn [mbind res_bind].
    assert (hashMerkleLeaf (VStr c) = Ok (sha256Hex (leaf_input c))) as ->
      by by apply hashMerkleLeaf_Ok.
    cbn [mbind res_bind].
    rewrite (proj2 (fold_steps_Ok items (sha256Hex (leaf_input c)) r (sha256_hex_format _)));
      [|by exists steps]. apply str_eqb_refl.
Qed.

Lemma proof_value_steps proof :
  Forall step_ok proof ->
  exists items, proof_value proof = VArr items /\ length items = length proof /\
    map_res proof_step_of items = Ok proof.
Proof.
  intros H. eexists. split; [done|]. split; [apply length_fmap|].
  apply map_res_Ok, Forall2_fmap_l, Forall_Forall2_diag.
  eapply Forall_impl; [exact H|]. intros [[] h] Hs; unfold step_ok in Hs; simpl in Hs;
    unfold proof_step_of; cbn;
    change (assertHash _ "proof hash") with (assertHash (VStr h) "proof hash");
    (assert (assertHash (VStr h) "proof hash" = Ok h) as -> by by apply string_where_Ok); done.
Qed.

(** ** The texts of a tree *)

Lemma length_pair_inputs hashes :
  (length hashes <= 2 * length (pair_inputs hashes) <= length hashes + 1)%nat.
Proof.
  remember (length hashes) as n eqn:Hn. revert hashes Hn.
  induction n as [n IH] using lt_wf_ind. intros hashes ->.
  destruct hashes as [|x [|y rest]]; simpl; [lia|lia|].
  specialize (IH (length rest) ltac:(simpl; lia) rest eq_refl). lia.
Qed.

Lemma elem_of_pair_inputs i hashes :
  i ∈ pair_inputs hashes -> exists a b, i = node_input a b /\ a ∈ hashes /\ b ∈ hashes.
Proof.
  remember (length hashes) as n eqn:Hn. revert hashes Hn.
  induction n as [n IH] using lt_wf_ind. intros hashes ->.
  destruct hashes as [|x [|y rest]]; simpl; intros Hi.
  - by apply not_elem_of_nil in Hi.
  - apply list_elem_of_singleton in Hi as ->. exists x, x. split; [done|]. split; left.
  - apply elem_of_cons in Hi as [->|Hi].
    + exists x, y. split; [done|]. split; [left|right; left].
    + destruct (IH (length rest) ltac:(simpl; lia) rest eq_refl Hi) as (a & b & -> & ? & ?).
      exists a, b. split; [done|]. split; by right; right.
Qed.

(** Every node text above the leaves hashes two texts of the tree. *)
Lemma tree_inputs_closed fuel (inputs : list jsstr) i :
  i ∈ tree_inputs fuel (sha256Hex <$> inputs) ->
  exists i1 i2, i = node_input (sha256Hex i1) (sha256Hex i2) /\
    i1 ∈ inputs ++ tree_inputs fuel (sha256Hex <$> inputs) /\
    i2 ∈ inputs ++ tree_inputs fuel (sha256Hex <$> inputs).
Proof.
  revert inputs. induction fuel as [|fuel IH]; intros inputs; cbn [tree_inputs];
    [by intros ?%not_elem_of_nil|].
  case_match; [by intros ?%not_elem_of_nil|].
  intros [Hi|Hi]%elem_of_app.
  - apply elem_of_pair_inputs in Hi as (a & b & -> & Ha & Hb).
    apply list_elem_of_fmap in Ha as (i1 & -> & ?). apply list_elem_of_fmap in Hb as (i2 & -> & ?).
    exists i1, i2. rewrite !elem_of_app. auto.
  - unfold pair_hashes in *.
    destruct (IH _ Hi) as (i1 & i2 & -> & H1 & H2). exists i1, i2.
    rewrite elem_of_app in H1, H2. rewrite !elem_of_app. tauto.
Qed.

Lemma tree_root_input fuel (inputs : list jsstr) :
  (1 <= length inputs <= fuel)%nat ->
  exists i, i ∈ inputs ++ tree_inputs fuel (sha256Hex <$> inputs) /\
    tree_root fuel (sha256Hex <$> inputs) = sha256Hex i.
Proof.
  revert inputs. induction fuel as [|fuel IH]; intros inputs Hl; [lia|].
  cbn [tree_inputs tree_root]. rewrite length_fmap.
  destruct (Nat.leb_spec (length inputs) 1).
  - destruct inputs as [|x []]; simpl in *; try lia. exists x. split; [left|done].
  - unfold pair_hashes. pose proof (length_pair_inputs (sha256Hex <$> inputs)) as Hp.
    rewrite length_fmap in Hp.
    destruct (IH (pair_inputs (sha256Hex <$> inputs))) as (i & Hi & ->); [lia|].
    exists i. rewrite elem_of_app in Hi. rewrite !elem_of_app. tauto.
Qed.

Lemma node_input_inj a b a' b' :
  length a = length a' -> node_input a b = node_input a' b' -> a = a' /\ b = b'.
Proof.
  unfold node_input. intros Hl H. apply app_inv_head in H.
  apply app_inj_1 in H as [-> H]; [|done]. by apply app_inv_head in H.
Qed.

Lemma leaf_not_node c a b : leaf_input c <> node_input a b.
Proof. unfold leaf_input, node_input. vm_compute. congruence. Qed.

(** The texts a verification hashes. *)
Fixpoint proof_inputs (current : jsstr) (steps : list proof_step) : list jsstr :=
  match steps with
  | [] => []
  | st :: steps' => step_input current st :: proof_inputs (step_apply current st) steps'
  end.

Lemma proof_inputs_snoc leaf steps st :
  proof_inputs leaf (steps ++ [st]) =
  proof_inputs leaf steps ++ [step_input (run_proof leaf steps) st].
Proof.
  revert leaf. induction steps as [|st' steps IH]; intros leaf; simpl; [done|].
  by rewrite IH.
Qed.

Definition collision_between (xs ys : list jsstr) : Prop :=
  exists x y, x ∈ xs /\ y ∈ ys /\ x <> y /\ sha256Hex x = sha256Hex y.

Lemma collision_between_mono xs ys xs' ys' :
  xs ⊆ xs' -> ys ⊆ ys' -> collision_between xs ys -> collision_between xs' ys'.
Proof. intros Hx Hy (x & y & ? & ? & ? & ?). exists x, y. auto. Qed.

Definition tree_texts (fuel : nat) (cs : list jsstr) : list jsstr :=
  (leaf_input <$> cs) ++ tree_inputs fuel (sha256Hex <$> (leaf_input <$> cs)).

Definition verify_texts (c : jsstr) (steps : list proof_step) : list jsstr :=
  leaf_input c :: proof_inputs (sha256Hex (leaf_input c)) steps.

Lemma step_input_node current st :
  hash_pattern current = true -> step_ok st ->
  exists a b, step_input current st = node_input a b /\ length a = 64%nat /\
    (current = a \/ current = b).
Proof.
  assert (forall h, hash_pattern h = true -> length h = 64%nat) as Hl.
  { intros h H. unfold hash_pattern, re_class in H.
    rewrite !andb_true_iff, !Nat.leb_le in H. lia. }
  unfold step_input, step_ok. intros Hc Hs. destruct (position st).
  - exists (step_hash st), current. auto.
  - exists current, (step_hash st). auto.
Qed.

Lemma run_proof_format c steps :
  hash_pattern (run_proof (sha256Hex (leaf_input c)) steps) = true.
Proof.
  destruct steps as [|st steps _] using rev_ind; [apply sha256_hex_format|].
  unfold run_proof. rewrite foldl_app. apply step_apply_format.
Qed.

Lemma run_proof_sound fuel cs c steps i :
  i ∈ tree_texts fuel cs -> Forall step_ok steps ->
  run_proof (sha256Hex (leaf_input c)) steps = sha256Hex i ->
  c ∈ cs \/ collision_between (tree_texts fuel cs) (verify_texts c steps).
Proof.
  revert i. induction steps as [|st steps IH] using rev_ind; intros i Hi Hok Hrun.
  - simpl in Hrun. destruct (decide (i = leaf_input c)) as [->|Hne].
    + left. apply elem_of_app in Hi as [(c' & Hc & ?)%list_elem_of_fmap|Hi].
      * unfold leaf_input in Hc. by apply app_inv_head in Hc as ->.
      * apply tree_inputs_closed in Hi as (i1 & i2 & Hl & _). by apply leaf_not_node in Hl.
    + right. exists i, (leaf_input c). repeat split; [done|left|done|done].
  - apply Forall_app in Hok as [Hok [Hst _]%Forall_cons].
    set (current := run_proof (sha256Hex (leaf_input c)) steps) in *.
    unfold run_proof in Hrun. rewrite foldl_app in Hrun.
    change (step_apply current st = sha256Hex i) in Hrun.
    assert (step_input current st ∈ verify_texts c (steps ++ [st])) as Hin.
    { unfold verify_texts. rewrite proof_inputs_snoc. right. apply elem_of_app. right. left. }
    destruct (decide (i = step_input current st)) as [->|Hne].
    + destruct (step_input_node current st (run_proof_format _ _) Hst) as (a & b & E & Hla & Hab).
      rewrite E in Hi. apply elem_of_app in Hi as [(c' & Hc & _)%list_elem_of_fmap|Hi];
        [by apply eq_sym, leaf_not_node in Hc|].
      apply tree_inputs_closed in Hi as (i1 & i2 & Hn & H1 & H2).
      apply node_input_inj in Hn as [-> ->]; [|].
      2: { rewrite Hla. pose proof (sha256_hex_format i1) as Hf.
           unfold hash_pattern, re_class in Hf. rewrite !andb_true_iff, !Nat.leb_le in Hf.
           unfold sha256Hex. lia. }
      assert (exists i', i' ∈ tree_texts fuel cs /\ current = sha256Hex i') as (i' & Hi' & Hc')
        by (destruct Hab; [by exists i1|by exists i2]).
      destruct (IH i' Hi' Hok Hc') as [?|Hcol]; [by left|right].
      eapply collision_between_mono; [done| |exact Hcol].
      unfold verify_texts. rewrite proof_inputs_snoc. set_solver.
    + right. exists i, (step_input current st). repeat split; [done|done|done|].
      unfold step_apply in Hrun. congruence.
Qed.

Definition batch_commitments (b : merkle_batch) : list jsstr :=
  (fun l => commitment_hash (leaf_entry l)) <$> leaves b.

(** The texts hashed to build a batch. *)
Definition batch_texts (b : merkle_batch) : list jsstr :=
  tree_texts (leaf_count b) (batch_commitments b).

Lemma batch_commitments_of entries b :
  batch_of entries b -> batch_commitments b = commitment_hash <$> sort_entries entries.
Proof.
  intros H. rewrite <- (batch_entries _ _ H). unfold batch_commitments.
  by rewrite <- list_fmap_compose.
Qed.

Lemma batch_root_text entries b :
  batch_of entries b -> (1 <= length entries)%nat ->
  exists i, i ∈ batch_texts b /\ merkle_root b = sha256Hex i.
Proof.
  intros H Hl. unfold batch_texts, tree_texts.
  rewrite (batch_commitments_of _ _ H), (batch_root _ _ H), (batch_count _ _ H).
  destruct (tree_root_input (length entries)
    (leaf_input <$> (commitment_hash <$> sort_entries entries))) as (i & Hi & Hr).
  { rewrite !length_fmap, length_sort_entries. lia. }
  exists i. split; [done|]. rewrite <- Hr, <- !list_fmap_compose. done.
Qed.

Lemma verify_leaf entries b l :
  batch_of entries b -> l ∈ leaves b ->
  verifyMerkleProof (VStr (commitment_hash (leaf_entry l))) (proof_value (leaf_proof l))
    (VStr (merkle_root b)) = true.
Proof.
  intros H Hl. destruct (batch_paths _ _ H l Hl) as (Hh & Hlen & Hok & Hrun).
  destruct (proof_value_steps (leaf_proof l) Hok) as (items & Hv & Hli & Hm).
  apply verifyMerkleProof_iff. eexists _, _, items, _.
  repeat (split; [done|]). split.
  { assert (leaf_entry l ∈ entries) as He.
    { rewrite <- (sort_by_perm batch_entry_leb). fold sort_entries.
      change (sort_by batch_entry_leb entries) with (sort_entries entries).
      rewrite <- (batch_entries _ _ H). apply list_elem_of_fmap. by exists l. }
    pose proof (batch_hashed _ _ H) as Hf. rewrite Forall_forall in Hf. by apply Hf. }
  split; [by eapply batch_root_format|]. split; [lia|]. split; [done|].
  rewrite Hh in Hrun. exact Hrun.
Qed.

(** What verifies against the root of a batch: the proof is of steps, and the
    texts that hashing along them takes lead into the tree, or collide with it. *)
Lemma verify_in_batch receipts b c proof :
  buildMerkleBatch receipts = Ok b ->
  verifyMerkleProof (VStr c) proof (VStr (merkle_root b)) = true ->
  exists items steps, proof = VArr items /\ map_res proof_step_of items = Ok steps /\
    run_proof (sha256Hex (leaf_input c)) steps = merkle_root b /\
    (c ∈ batch_commitments b \/ collision_between (batch_texts b) (verify_texts c steps)).
Proof.
  intros (items & entries & -> & Hr & _ & Hb)%buildMerkleBatch_spec
    (? & ? & its & steps & [= <-] & [= <-] & -> & Hc & _ & Hl & Hm & Hrun)%verifyMerkleProof_iff.
  assert (1 <= length entries)%nat.
  { destruct Hr as (Hl' & Hf & _). apply Forall2_length in Hf. lia. }
  exists its, steps. do 3 (split; [done|]). apply map_res_Ok in Hm.
  destruct (batch_root_text _ _ Hb) as (i & Hi & E); [done|]. rewrite E in Hrun.
  apply (run_proof_sound _ _ c steps i Hi); [|done].
  eapply Forall2_Forall_r; [exact Hm|]. apply Forall_true. apply proof_step_of_ok.
Qed.

Lemma batch_of_commitments receipts b :
  buildMerkleBatch receipts = Ok b ->
  exists items entries, receipts = VArr items /\ batch_ready items entries /\
    batch_of entries b.
Proof.
  intros (items & entries & -> & ? & _ & ?)%buildMerkleBatch_spec. by exists items, entries.
Qed.

(** ** Order *)

Definition collated (c : N) : bool := is_alnum c || is_one_of "._-:+" c.
Definition collated_entry (e : batch_entry) : Prop :=
  forallb collated (receipt_id e) = true /\ forallb collated (occurred_at e) = true.

Lemma digits_collated n z : forallb collated (digits n z) = true.
Proof.
  apply forallb_forall. intros c Hc. pose proof (digits_is_digit n z) as H.
  rewrite List.Forall_forall in H. unfold collated, is_alnum. by rewrite (H c Hc), orb_true_r.
Qed.

Lemma to_iso_string_collated t : forallb collated (to_iso_string t) = true.
Proof.
  unfold to_iso_string, year_string.
  repeat (rewrite forallb_app || rewrite digits_collated || case_match); reflexivity.
Qed.

Lemma validate_entry_collated r e : validate_entry r = Ok e -> collated_entry e.
Proof.
  unfold validate_entry, assertIdentifier, normalizeOccurredAt. intros H. inv_ok.
  apply string_where_Ok in Hr1 as [_ Hid]. split; simpl.
  - destruct r2 as [|c s]; [done|]. unfold id_pattern, re_head_class, re_class in Hid.
    rewrite !andb_true_iff in Hid. destruct Hid as (Hc & _ & Hs). simpl.
    apply andb_true_iff. split; [unfold collated; by rewrite Hc|].
    eapply forallb_impl; [|exact Hs]. intros x. simpl. unfold collated, is_one_of.
    rewrite !orb_true_iff, !bool_decide_eq_true. set_solver.
  - repeat case_match; simplify_eq. apply to_iso_string_collated.
Qed.

Lemma batch_entry_leb_total e f : batch_entry_leb e f = true \/ batch_entry_leb f e = true.
Proof.
  unfold batch_entry_leb. pose proof (locale_leb_total (occurred_at e) (occurred_at f)).
  destruct (locale_leb (occurred_at e) (occurred_at f)) eqn:A,
    (locale_leb (occurred_at f) (occurred_at e)) eqn:B; simpl; auto.
  apply locale_leb_total.
Qed.

Lemma batch_entry_leb_trans e f g :
  batch_entry_leb e f = true -> batch_entry_leb f g = true -> batch_entry_leb e g = true.
Proof.
  unfold batch_entry_leb.
  destruct (locale_leb (occurred_at e) (occurred_at f)) eqn:H1; [|done].
  destruct (locale_leb (occurred_at f) (occurred_at g)) eqn:H2; [|done].
  rewrite (locale_leb_trans _ _ _ H1 H2).
  destruct (locale_leb (occurred_at g) (occurred_at e)) eqn:H3; [|done].
  rewrite (locale_leb_trans _ _ _ H2 H3), (locale_leb_trans _ _ _ H3 H1). simpl.
  apply locale_leb_trans.
Qed.

Lemma sort_entries_perm es fs :
  (forall s t, forallb collated s = true -> forallb collated t = true ->
     locale_leb s t = true -> locale_leb t s = true -> s = t) ->
  es ≡ₚ fs -> Forall collated_entry es -> NoDup (receipt_id <$> es) ->
  sort_entries es = sort_entries fs.
Proof.
  intros Hanti Hp Hc Hnd.
  eapply (StronglySorted_unique_strong (fun a b => batch_entry_leb a b = true));
    [|apply sort_by_sorted; eauto using batch_entry_leb_total, batch_entry_leb_trans..
     |unfold sort_entries; by rewrite !sort_by_perm].
  intros e f. unfold sort_entries. rewrite !sort_by_perm, <- Hp. intros He Hf Hef Hfe.
  rewrite Forall_forall in Hc. destruct (Hc e He) as [Hei _], (Hc f Hf) as [Hfi _].
  assert (receipt_id e = receipt_id f) as Hid.
  { unfold batch_entry_leb in Hef, Hfe.
    destruct (locale_leb (occurred_at e) (occurred_at f)); [|done].
    destruct (locale_leb (occurred_at f) (occurred_at e)); [|done]. by apply Hanti. }
  apply list_elem_of_lookup in He as [i He], Hf as [j Hf].
  assert (i = j) as ->; [|congruence].
  eapply NoDup_lookup; [exact Hnd|..]; rewrite list_lookup_fmap.
  - by rewrite He.
  - rewrite Hf. simpl. by rewrite Hid.
Qed.

(** After validation the batch is a function of the sorted entries. *)
Lemma buildMerkleBatch_sorted :
  exists K, forall items entries,
    1 <= Z.of_nat (length items) <= 10000 -> map_res validate_entry items = Ok entries ->
    buildMerkleBatch (VArr items) = K (sort_entries entries).
Proof.
  eexists. intros items entries Hl He. unfold buildMerkleBatch, assert.
  replace (0 <? length items)%nat with true by (symmetry; apply Nat.ltb_lt; lia).
  replace (Z.of_nat (length items) <=? 10000) with true by (symmetry; apply Z.leb_le; lia).
  cbn [guard_or mbind res_bind]. rewrite He. cbn [mbind res_bind].
  generalize (sort_entries entries). intros ordered. reflexivity.
Qed.

(** ** Properties *)

(** The batch of a list of entries: its leaves are these entries, each once, in
    the order of their times and then of their ids; each leaf has its place, the
    hash of its commitment and a path to the root; and the root is the one of
    the reference tree over the leaves in this order. *)
Record batch_over (entries : list batch_entry) (b : merkle_batch) : Prop := {
  bo_entries : leaf_entry <$> leaves b ≡ₚ entries;
  bo_sorted : StronglySorted (fun e f => batch_entry_leb e f = true) (leaf_entry <$> leaves b);
  bo_leaf i l : leaves b !! i = Some l ->
    leaf_index l = i /\ leaf_hash l = sha256Hex (leaf_input (commitment_hash (leaf_entry l))) /\
    (length (leaf_proof l) <= 14)%nat /\ run_proof (leaf_hash l) (leaf_proof l) = merkle_root b;
  bo_count : leaf_count b = length entries;
  bo_root : merkle_root b = tree_root (length entries)
    ((fun e => sha256Hex (leaf_input (commitment_hash e))) <$> (leaf_entry <$> leaves b));
  bo_ref : batch_ref b = js "pom-" ++ take 24 (merkle_root b);
}.

Lemma batch_of_over entries b : batch_of entries b -> batch_over entries b.
Proof.
  intros [He _ Hi Hroot _ Hcount Href Hpaths]. split; rewrite ?He; try done.
  - apply sort_by_perm.
  - apply sort_by_sorted; eauto using batch_entry_leb_total, batch_entry_leb_trans.
  - intros i l Hl. destruct (Hpaths l) as (? & ? & _ & ?); [by eapply list_elem_of_lookup_2|]. eauto.
Qed.

(** C21: A batch is built exactly for an array of 1 to 10,000 well-formed
    entries with distinct receipt ids and distinct commitment hashes; building it
    never runs out of levels.  And what is built is the batch of these entries: its
    leaves are the entries in their sorted order, no more and no fewer, each with
    its index, leaf hash and path to the root, and the root is that of the reference
    tree over them. *)
Theorem buildMerkleBatch_accepts receipts :
  ((exists b, buildMerkleBatch receipts = Ok b) <->
   exists items entries, receipts = VArr items /\ batch_ready items entries) /\
  (forall b items entries,
     buildMerkleBatch receipts = Ok b -> receipts = VArr items ->
     Forall2 (fun r e => validate_entry r = Ok e) items entries -> batch_over entries b).
Proof.
  split.
  - split; [by intros (b & (items & entries & -> & Hr)%buildMerkleBatch_Ok_ready); eauto|].
    intros (items & entries & -> & Hr). destruct (buildMerkleBatch_ready items entries Hr) as (b & Hb & _). eauto.
  - intros b items entries (items' & entries' & E & (_ & Hv & _) & _ & Hb)%buildMerkleBatch_spec -> Hv'.
    injection E as <-. apply map_res_Ok in Hv, Hv'. assert (entries' = entries) as -> by congruence.
    by apply batch_of_over.
Qed.

(** the proof stored with each leaf of a batch verifies against the root. *)
Theorem merkle_complete receipts b l :
  buildMerkleBatch receipts = Ok b -> l ∈ leaves b ->
  verifyMerkleProof (VStr (commitment_hash (leaf_entry l)))
    (proof_value (leaf_proof l)) (VStr (merkle_root b)) = true.
Proof.
  intros (items & entries & -> & _ & _ & Ho)%buildMerkleBatch_spec Hl.
  by eapply verify_leaf.
Qed.

(** C20: Whatever verifies against the root of a batch is one of its
    commitments, or the texts that this verification hashes - the leaf, and then
    one text for each step of the proof it was given - and the texts hashed to
    build the batch exhibit a SHA-256 collision. *)
Theorem merkle_sound receipts b commitment proof :
  buildMerkleBatch receipts = Ok b ->
  verifyMerkleProof commitment proof (VStr (merkle_root b)) = true ->
  exists c items steps,
    commitment = VStr c /\ proof = VArr items /\ map_res proof_step_of items = Ok steps /\
    run_proof (sha256Hex (leaf_input c)) steps = merkle_root b /\
    (c ∈ batch_commitments b \/ collision_between (batch_texts b) (verify_texts c steps)).
Proof.
  intros Hb Hv.
  assert (exists c, commitment = VStr c) as [c ->].
  { apply verifyMerkleProof_iff in Hv as (c & ? & ? & ? & -> & _). by exists c. }
  destruct (verify_in_batch _ _ _ _ Hb Hv) as (items & steps & ?). by exists c, items, steps.
Qed.

(** The collision that a leaf of [ba] would show, were it not of [bb]. *)
Definition leaf_collision (ba bb : merkle_batch) : Prop :=
  exists l, l ∈ leaves ba /\
    collision_between (batch_texts bb) (verify_texts (commitment_hash (leaf_entry l)) (leaf_proof l)).

(** equal roots bind equal sets of commitments: two batches with the same
    root list the same commitments, or a path of one of them shows a SHA-256
    collision with the other. *)
Theorem merkle_root_binds receipts1 receipts2 b1 b2 :
  buildMerkleBatch receipts1 = Ok b1 -> buildMerkleBatch receipts2 = Ok b2 ->
  merkle_root b1 = merkle_root b2 ->
  (forall c, c ∈ batch_commitments b1 <-> c ∈ batch_commitments b2) \/
  leaf_collision b1 b2 \/ leaf_collision b2 b1.
Proof.
  intros H1 H2 Hroot.
  assert (forall ra rb ba bb, buildMerkleBatch ra = Ok ba -> buildMerkleBatch rb = Ok bb ->
    merkle_root ba = merkle_root bb ->
    (forall c, c ∈ batch_commitments ba -> c ∈ batch_commitments bb) \/ leaf_collision ba bb) as Hhalf.
  { clear. intros ra rb ba bb Ha Hb Hroot.
    destruct (decide (Forall (fun c => c ∈ batch_commitments bb) (batch_commitments ba)))
      as [Hall|(c & Hc & Hn)%not_Forall_Exists%Exists_exists]; [| |apply _].
    { left. by apply Forall_forall. }
    right. apply list_elem_of_fmap in Hc as (l & -> & Hl).
    destruct (batch_of_commitments _ _ Ha) as (items & entries & -> & _ & Ho).
    pose proof (verify_leaf _ _ _ Ho Hl) as Hv. rewrite Hroot in Hv.
    destruct (verify_in_batch _ _ _ _ Hb Hv) as (its & steps & E & Hm & _ & [?|?]); [done|].
    exists l. split; [done|]. destruct (batch_paths _ _ Ho l Hl) as (_ & _ & Hok & _).
    destruct (proof_value_steps (leaf_proof l) Hok) as (its' & E' & _ & Hm').
    assert (steps = leaf_proof l) as ->; [|done]. congruence. }
  destruct (Hhalf _ _ _ _ H1 H2 Hroot) as [?|?]; [|by auto].
  destruct (Hhalf _ _ _ _ H2 H1 (eq_sym Hroot)) as [?|?]; [|by auto].
  left. intros c. split; auto.
Qed.

(** where the host's collation separates distinct strings of the
    characters identifiers and timestamps are made of, the batch does not depend
    on the order of its input. *)
Theorem merkle_order_independent items1 items2 b :
  (forall s t, forallb collated s = true -> forallb collated t = true ->
     locale_leb s t = true -> locale_leb t s = true -> s = t) ->
  items1 ≡ₚ items2 ->
  buildMerkleBatch (VArr items1) = Ok b -> buildMerkleBatch (VArr items2) = Ok b.
Proof.
  intros Hanti Hp Hb. destruct buildMerkleBatch_sorted as [K HK].
  destruct (buildMerkleBatch_Ok_ready _ _ Hb) as (? & entries & [= <-] & Hl & Hv & Hids & _).
  apply map_res_Ok in Hv. destruct (map_res_perm _ _ _ _ Hp Hv) as (entries2 & Hv2 & Hpe).
  rewrite (HK _ _ Hl Hv) in Hb. rewrite Hp in Hl. rewrite (HK _ _ Hl Hv2).
  rewrite <- (sort_entries_perm entries entries2); [done|done|done| |done].
  apply map_res_Ok in Hv. eapply Forall2_Forall_r; [exact Hv|].
  apply Forall_true. apply validate_entry_collated.
Qed.
End merkle_proofs.

(** ** A batch of three receipts *)

Section merkle_witness.
#[local] Existing Instances plain_string_host checksum_hash_host iso_date_host.

Definition sample_entry (id : string) (h : N) (t : string) : jsv := VObj PObject
  [(js "receipt_id", VStr (js id)); (js "commitment_hash", VStr (repeat h 64));
   (js "occurred_at", VStr (js t))].
Definition sample_receipts : list jsv :=
  [sample_entry "receipt-0000-0000-0001" 97 "2026-03-02T00:00:00.000Z";
   sample_entry "receipt-0000-0000-0002" 98 "2026-03-01T00:00:00.000Z";
   sample_entry "receipt-0000-0000-0003" 99 "2026-03-03T00:00:00.000Z"].
Definition sample_batch : merkle_batch :=
  Eval vm_compute in
    match buildMerkleBatch (VArr sample_receipts) with
    | Ok b => b
    | Throw _ => Build_merkle_batch [] 0 [] []
    end.

Lemma sample_batch_Ok : buildMerkleBatch (VArr sample_receipts) = Ok sample_batch.
Proof. vm_compute. reflexivity. Qed.

Lemma merkle_complete_witness :
  exists l, l ∈ leaves sample_batch /\ length (leaf_proof l) = 2%nat /\
    verifyMerkleProof (VStr (commitment_hash (leaf_entry l)))
      (proof_value (leaf_proof l)) (VStr (merkle_root sample_batch)) = true.
Proof.
  eexists (List.nth 1 (leaves sample_batch) _). split; [right; left|]. split; [reflexivity|].
  apply (merkle_complete (VArr sample_receipts)); [apply sample_batch_Ok|right; left].
  Unshelve. constructor; [constructor; exact []|exact 0%nat|exact []|exact []].
Defined.

Definition sample_proof : jsv := proof_value (default [] (leaf_proof <$> (leaves sample_batch !! 1%nat))).
Lemma merkle_sound_witness :
  exists c items steps,
    VStr (repeat 97%N 64) = VStr c /\ sample_proof = VArr items /\ map_res proof_step_of items = Ok steps /\
    run_proof (sha256Hex (leaf_input c)) steps = merkle_root sample_batch /\
    (c ∈ batch_commitments sample_batch \/
     collision_between (batch_texts sample_batch) (verify_texts c steps)).
Proof.
  apply (merkle_sound (VArr sample_receipts) sample_batch (VStr (repeat 97%N 64)) sample_proof);
    [apply sample_batch_Ok|vm_compute; reflexivity].
Defined.

(** The leaves of the sample are in the order of their times. *)
Lemma buildMerkleBatch_accepts_witness :
  exists entries, map_res validate_entry sample_receipts = Ok entries /\ batch_over entries sample_batch /\
    leaf_entry <$> leaves sample_batch <> entries.
Proof.
  destruct (map_res validate_entry sample_receipts) as [entries|e] eqn:E; [|by vm_compute in E].
  exists entries. split; [reflexivity|]. split.
  - destruct (buildMerkleBatch_accepts (VArr sample_receipts)) as [_ H].
    apply (H sample_batch sample_receipts entries sample_batch_Ok eq_refl). by apply map_res_Ok.
  - intros Heq. rewrite <- Heq in E. by vm_compute in E.
Defined.

Lemma merkle_root_binds_witness :
  (forall c, c ∈ batch_commitments sample_batch <-> c ∈ batch_commitments sample_batch) \/
  leaf_collision sample_batch sample_batch \/ leaf_collision sample_batch sample_batch.
Proof.
  apply (merkle_root_binds (VArr sample_receipts) (VArr (rev sample_receipts)));
    [apply sample_batch_Ok|vm_compute; reflexivity|reflexivity].
Defined.

Lemma merkle_order_independent_witness :
  buildMerkleBatch (VArr (rev sample_receipts)) = Ok sample_batch.
Proof.
  apply (merkle_order_independent sample_receipts);
    [intros s t _ _; apply plain_locale_antisym|symmetry; apply Permutation_rev|apply sample_batch_Ok].
Defined.
End merkle_witness.
