(* ===== verification/PomRx.v ===== *)
(** * POM-RX receipts and receipt chains

    Models [sdk/typescript/pom-rx.mjs]: the receipt validator, the receipt
    commitment and the chain verifier.  A normalised receipt is the record
    [pom_receipt]; [pom_value] is the object the source returns for it. *)
From S2P Require Import Prelude JsDate JsValue ProofSdk Canonical Receipt Normal.

Definition POM_RX_SCHEMA_VERSION : jsstr := js "pom-rx/0.1".
(** [/^[a-z0-9][a-z0-9._-]{2,63}$/] *)
Definition RULE_ID_PATTERN : jsstr -> bool :=
  re_head_class (fun c => is_lower c || is_digit c)
    (fun c => is_lower c || is_digit c || is_one_of "._-" c) 2 63.

Inductive phase := Preflight | Execution | Reconciliation.
Inductive outcome :=
  Allow | Deny | Accepted | Rejected | Unresolved | Matched | Mismatched.
Inductive proof_mode_kind := Commitment | Public | Zk.
Inductive assertion_result := Pass | Failed | NotEvaluated.

#[export] Instance phase_eq_dec : EqDecision phase.
Proof. solve_decision. Defined.
#[export] Instance outcome_eq_dec : EqDecision outcome.
Proof. solve_decision. Defined.
#[export] Instance assertion_result_eq_dec : EqDecision assertion_result.
Proof. solve_decision. Defined.

Definition phase_name (p : phase) : jsstr :=
  match p with
  | Preflight => js "preflight" | Execution => js "execution"
  | Reconciliation => js "reconciliation"
  end.
Definition outcome_name (o : outcome) : jsstr :=
  match o with
  | Allow => js "allow" | Deny => js "deny" | Accepted => js "accepted"
  | Rejected => js "rejected" | Unresolved => js "unresolved"
  | Matched => js "matched" | Mismatched => js "mismatched"
  end.
Definition proof_mode_name (m : proof_mode_kind) : jsstr :=
  match m with
  | Commitment => js "commitment" | Public => js "public" | Zk => js "zk"
  end.
Definition result_name (r : assertion_result) : jsstr :=
  match r with
  | Pass => js "pass" | Failed => js "fail" | NotEvaluated => js "not_evaluated"
  end.

Definition PHASES : list phase := [Preflight; Execution; Reconciliation].
Definition PROOF_MODES : list proof_mode_kind := [Commitment; Public; Zk].
Definition ASSERTION_RESULTS : list assertion_result := [Pass; Failed; NotEvaluated].
Definition PHASE_OUTCOMES (p : phase) : list outcome :=
  match p with
  | Preflight => [Allow; Deny]
  | Execution => [Accepted; Rejected; Unresolved]
  | Reconciliation => [Matched; Mismatched; Unresolved]
  end.

(** The member of [choices] that [v] names, as [Set.has] finds it. *)
Definition choose {A} (name : A -> jsstr) (choices : list A) (v : jsv) : option A :=
  List.find (fun a => is_str v (name a)) choices.

Definition choice_or {A} (name : A -> jsstr) (choices : list A) (v : jsv)
    (message : jsstr) : res A :=
  match choose name choices v with
  | Some a => Ok a
  | None => Throw (type_error message)
  end.

Record assertion := {
  rule_id : jsstr; rule_hash : jsstr; result : assertion_result;
  proof_mode : proof_mode_kind; evidence_hash : jsstr;
}.

Record pom_receipt := {
  p_receipt_id : jsstr; run_id : jsstr; p_phase : phase; p_outcome : outcome;
  agent_ref : jsstr; subject_ref : jsstr; method_hash : jsstr; policy_hash : jsstr;
  input_commitment : jsstr; action_commitment : jsstr; assertions : list assertion;
  previous_receipt_hash : option jsstr; p_occurred_at : jsstr; source_key_id : jsstr;
}.

Definition assertion_keys : list jsstr :=
  js <$> ["rule_id"; "rule_hash"; "result"; "proof_mode"; "evidence_hash"].

Definition receipt_keys : list jsstr := js <$>
  ["schema_version"; "receipt_id"; "run_id"; "phase"; "outcome"; "agent_ref";
   "subject_ref"; "method_hash"; "policy_hash"; "input_commitment";
   "action_commitment"; "assertions"; "previous_receipt_hash"; "occurred_at";
   "source_key_id"].

Definition assertion_value (a : assertion) : jsv := VObj PObject
  [(js "rule_id", VStr (rule_id a)); (js "rule_hash", VStr (rule_hash a));
   (js "result", VStr (result_name (result a)));
   (js "proof_mode", VStr (proof_mode_name (proof_mode a)));
   (js "evidence_hash", VStr (evidence_hash a))].

Definition opt_value (o : option jsstr) : jsv :=
  match o with Some s => VStr s | None => VNull end.

Definition pom_value (r : pom_receipt) : jsv := VObj PObject
  [(js "schema_version", VStr POM_RX_SCHEMA_VERSION);
   (js "receipt_id", VStr (p_receipt_id r)); (js "run_id", VStr (run_id r));
   (js "phase", VStr (phase_name (p_phase r)));
   (js "outcome", VStr (outcome_name (p_outcome r)));
   (js "agent_ref", VStr (agent_ref r)); (js "subject_ref", VStr (subject_ref r));
   (js "method_hash", VStr (method_hash r)); (js "policy_hash", VStr (policy_hash r));
   (js "input_commitment", VStr (input_commitment r));
   (js "action_commitment", VStr (action_commitment r));
   (js "assertions", VArr (assertion_value <$> assertions r));
   (js "previous_receipt_hash", opt_value (previous_receipt_hash r));
   (js "occurred_at", VStr (p_occurred_at r));
   (js "source_key_id", VStr (source_key_id r))].

Section pom_rx.
Context `{SH : !StringHost, HH : !HashHost, DH : !DateHost}.

Definition assertExactKeys (record : jsv) (expected : list jsstr) (label : string)
  : res unit :=
  _ ← assert (is_record record) (js label ++ js " must be an object");
  assert (same_keys (keys_of record) expected)
    (js label ++ js " has missing or unknown fields").

Definition validateAssertion (a : jsv) : res assertion :=
  _ ← assertExactKeys a assertion_keys "Risk assertion";
  let field k := get (js k) a in
  rule_id ← assertIdentifier (field "rule_id") "rule_id" RULE_ID_PATTERN;
  rule_hash ← assertHash (field "rule_hash") "rule_hash";
  result ← choice_or result_name ASSERTION_RESULTS (field "result")
             (js "Unsupported assertion result");
  proof_mode ← choice_or proof_mode_name PROOF_MODES (field "proof_mode")
             (js "Unsupported proof_mode");
  evidence_hash ← assertHash (field "evidence_hash") "evidence_hash";
  Ok {| rule_id := rule_id; rule_hash := rule_hash; result := result;
        proof_mode := proof_mode; evidence_hash := evidence_hash |}.

(** [left.rule_id.localeCompare(right.rule_id) <= 0] *)
Definition assertion_leb (left right : assertion) : bool :=
  locale_leb (rule_id left) (rule_id right).

(** [agent_ref] and [subject_ref] *)
Definition ref_ok (s : jsstr) : bool :=
  trim_nonempty s && (length s <=? 256)%nat && negb (has_control s).
Definition assertRef (v : jsv) (field : string) : res jsstr :=
  string_where ref_ok v (js field ++ js " has an invalid format").

(** The assertions of a receipt, sorted, and the rules that tie them to the
    phase and the outcome. *)
Definition validateAssertions (v : jsv) : res (list assertion) :=
  match v with
  | VArr items =>
      _ ← assert ((1 <=? length items)%nat && (length items <=? 64)%nat)
            (js "assertions must contain between 1 and 64 entries");
      assertions ← map_res validateAssertion items;
      _ ← assert (bool_decide (NoDup (rule_id <$> assertions)))
            (js "assertions cannot repeat a rule_id");
      Ok (sort_by assertion_leb assertions)
  | _ => Throw (type_error (js "assertions must contain between 1 and 64 entries"))
  end.

Definition validatePrevious (p : phase) (o : outcome) (assertions : list assertion)
    (previous : jsv) : res (option jsstr) :=
  match p with
  | Preflight =>
      _ ← assert (is_null previous) (js "A preflight receipt cannot have a previous receipt");
      _ ← (if bool_decide (o = Allow) then
             assert (forallb (fun a => bool_decide (result a = Pass)) assertions)
               (js "An allow preflight requires every assertion to pass")
           else
             assert (existsb (fun a => bool_decide (result a = Failed)) assertions)
               (js "A deny preflight requires at least one failed assertion"));
      Ok None
  | _ =>
      h ← assertHash previous "previous_receipt_hash";
      Ok (Some h)
  end.

Definition validatePomRxReceipt (receipt : jsv) : res pom_receipt :=
  _ ← assertExactKeys receipt receipt_keys "POM-RX receipt";
  let field k := get (js k) receipt in
  _ ← assert (is_str (field "schema_version") POM_RX_SCHEMA_VERSION)
        (js "Unsupported POM-RX schema version");
  receipt_id ← assertIdentifier (field "receipt_id") "receipt_id" id_pattern;
  run_id ← assertIdentifier (field "run_id") "run_id" id_pattern;
  phase ← choice_or phase_name PHASES (field "phase") (js "Unsupported POM-RX phase");
  outcome ← choice_or outcome_name (PHASE_OUTCOMES phase) (field "outcome")
              (js "Outcome is invalid for this POM-RX phase");
  agent_ref ← assertRef (field "agent_ref") "agent_ref";
  subject_ref ← assertRef (field "subject_ref") "subject_ref";
  method_hash ← assertHash (field "method_hash") "method_hash";
  policy_hash ← assertHash (field "policy_hash") "policy_hash";
  input_commitment ← assertHash (field "input_commitment") "input_commitment";
  action_commitment ← assertHash (field "action_commitment") "action_commitment";
  assertions ← validateAssertions (field "assertions");
  previous ← validatePrevious phase outcome assertions (field "previous_receipt_hash");
  source_key_id ← assertIdentifier (field "source_key_id") "source_key_id"
              source_key_id_pattern;
  occurred_at ← normalizeDateTime (field "occurred_at") "occurred_at";
  Ok {| p_receipt_id := receipt_id; run_id := run_id; p_phase := phase;
        p_outcome := outcome; agent_ref := nfc agent_ref; subject_ref := nfc subject_ref;
        method_hash := method_hash; policy_hash := policy_hash;
        input_commitment := input_commitment; action_commitment := action_commitment;
        assertions := assertions; previous_receipt_hash := previous;
        p_occurred_at := occurred_at; source_key_id := source_key_id |}.

Record committed := {
  c_receipt : pom_receipt;
  canonicalReceipt : jsstr;
  receiptHash : jsstr;
}.

Definition receipt_input (canonical : jsstr) : jsstr :=
  js "swisstokint:pom-rx:v1:" ++ canonical.

Definition commitPomRxReceipt (receipt : jsv) : res committed :=
  normalized ← validatePomRxReceipt receipt;
  canonical ← canonicalizePayload (pom_value normalized);
  Ok {| c_receipt := normalized; canonicalReceipt := canonical;
        receiptHash := sha256Hex (receipt_input canonical) |}.

(** ** Chains *)

(** [PHASES.indexOf] *)
Definition phase_index (p : phase) : nat :=
  match p with Preflight => 0 | Execution => 1 | Reconciliation => 2 end.

Definition sharedFields : list (string * (pom_receipt -> jsstr)) :=
  [("run_id", run_id); ("agent_ref", agent_ref); ("subject_ref", subject_ref);
   ("method_hash", method_hash); ("policy_hash", policy_hash)].

(** The body of the [for] loop for one receipt. *)
Definition check_link (first previous current : committed) : res unit :=
  let cur := c_receipt current in
  let prev := c_receipt previous in
  _ ← assert (phase_index (p_phase cur) =? S (phase_index (p_phase prev)))%nat
        (js "POM-RX phases must be contiguous and ordered");
  _ ← assert (bool_decide (previous_receipt_hash cur = Some (receiptHash previous)))
        (js "POM-RX previous_receipt_hash does not match");
  _ ← assert (str_leb (p_occurred_at prev) (p_occurred_at cur))
        (js "POM-RX receipt time cannot move backwards");
  for_each (fun '(name, field) =>
    assert (str_eqb (field cur) (field (c_receipt first)))
      (js name ++ js " changed within the POM-RX chain")) sharedFields.

Fixpoint check_links (first previous : committed) (rest : list committed) : res unit :=
  match rest with
  | [] => Ok tt
  | current :: rest' =>
      _ ← check_link first previous current;
      check_links first current rest'
  end.

Definition find_phase (p : phase) (chain : list committed) : option committed :=
  List.find (fun c => bool_decide (p_phase (c_receipt c) = p)) chain.
Definition has_outcome (c : option committed) (o : outcome) : bool :=
  match c with Some c => bool_decide (p_outcome (c_receipt c) = o) | None => false end.

(** [assertPomRxChain] after every receipt is committed. *)
Definition check_committed (chain : list committed) (allowPartial : bool)
  : res (list committed) :=
  match chain with
  | [] => Throw (type_error (js "A POM-RX chain requires at least one receipt"))
  | first :: rest =>
      _ ← assert (bool_decide (p_phase (c_receipt first) = Preflight))
            (js "A POM-RX chain must start with preflight");
      _ ← check_links first first rest;
      if bool_decide (p_outcome (c_receipt first) = Deny) then
        _ ← assert (length chain =? 1)%nat
              (js "A denied preflight cannot be followed by execution");
        Ok chain
      else
        _ ← (if negb allowPartial then
               assert (2 <=? length chain)%nat
                 (js "An allowed preflight requires an execution receipt")
             else Ok tt);
        let execution := find_phase Execution chain in
        let reconciliation := find_phase Reconciliation chain in
        _ ← (if has_outcome execution Accepted && negb allowPartial then
               assert (bool_decide (is_Some reconciliation))
                 (js "An accepted execution requires reconciliation")
             else Ok tt);
        _ ← (if has_outcome execution Rejected then
               assert (bool_decide (reconciliation = None))
                 (js "A rejected execution cannot be marked as reconciled")
             else Ok tt);
        Ok chain
  end.

Definition assertPomRxChain (receipts : jsv) (allowPartial : bool) : res (list committed) :=
  items ← match receipts with
    | VArr items => _ ← assert (1 <=? length items)%nat
                          (js "A POM-RX chain requires at least one receipt"); Ok items
    | _ => Throw (type_error (js "A POM-RX chain requires at least one receipt"))
    end;
  _ ← assert (length items <=? length PHASES)%nat
        (js "A POM-RX chain cannot exceed three receipts");
  chain ← map_res commitPomRxReceipt items;
  check_committed chain allowPartial.

(** [{ ok, status, receipt_hashes }] or [{ ok: false, error }] *)
Inductive chain_verdict :=
  | ChainOk (status : jsstr) (receipt_hashes : list jsstr)
  | ChainError (error : jsstr).

Definition verifyPomRxChain (receipts : jsv) (allowPartial : bool) : chain_verdict :=
  match
    chain ← assertPomRxChain receipts allowPartial;
    match last chain with
    | None => Throw (type_error (js "Cannot read properties of undefined (reading 'receipt')"))
    | Some c => Ok (ChainOk (phase_name (p_phase (c_receipt c)) ++ js ":"
                               ++ outcome_name (p_outcome (c_receipt c)))
                      (receiptHash <$> chain))
    end
  with
  | Ok v => v
  | Throw e => ChainError (err_msg e)
  end.
End pom_rx.

(** ** Normalised receipts *)

Lemma choose_Some {A} (name : A -> jsstr) choices v a :
  choose name choices v = Some a -> a ∈ choices /\ v = VStr (name a).
Proof.
  unfold choose. intros [Hin Ha]%find_some. split; [by apply list_elem_of_In|].
  destruct v; try done. by apply str_eqb_eq in Ha as ->.
Qed.

Lemma choose_name {A} (name : A -> jsstr) choices a :
  (forall x y, name x = name y -> x = y) -> a ∈ choices ->
  choose name choices (VStr (name a)) = Some a.
Proof.
  intros Hinj Hin. unfold choose. destruct (List.find _ choices) as [b|] eqn:E.
  - apply find_some in E as [_ Hb]. apply str_eqb_eq in Hb. f_equal. by apply Hinj.
  - apply list_elem_of_In in Hin. pose proof (find_none _ _ E _ Hin) as H. simpl in H.
    by rewrite str_eqb_refl in H.
Qed.

Lemma choice_or_Ok {A} (name : A -> jsstr) choices v m a :
  choice_or name choices v m = Ok a -> a ∈ choices /\ v = VStr (name a).
Proof.
  unfold choice_or. destruct (choose _ _ _) eqn:E; [|done]. intros [= ->].
  by apply choose_Some.
Qed.

Lemma choice_or_name {A} (name : A -> jsstr) choices a m :
  (forall x y, name x = name y -> x = y) -> a ∈ choices ->
  choice_or name choices (VStr (name a)) m = Ok a.
Proof. intros ? ?. unfold choice_or. by rewrite choose_name. Qed.

Lemma phase_name_inj x y : phase_name x = phase_name y -> x = y.
Proof. destruct x, y; vm_compute; congruence. Qed.
Lemma outcome_name_inj x y : outcome_name x = outcome_name y -> x = y.
Proof. destruct x, y; vm_compute; congruence. Qed.
Lemma proof_mode_name_inj x y : proof_mode_name x = proof_mode_name y -> x = y.
Proof. destruct x, y; vm_compute; congruence. Qed.
Lemma result_name_inj x y : result_name x = result_name y -> x = y.
Proof. destruct x, y; vm_compute; congruence. Qed.

Lemma phase_choices p : p ∈ PHASES.
Proof. destruct p; [left|right; left|right; right; left]. Qed.
Lemma result_choices r : r ∈ ASSERTION_RESULTS.
Proof. destruct r; [left|right; left|right; right; left]. Qed.
Lemma proof_mode_choices m : m ∈ PROOF_MODES.
Proof. destruct m; [left|right; left|right; right; left]. Qed.

Section pom_rx_proofs.
Context `{SH : !StringHost, HH : !HashHost, DH : !DateHost}.

Record assertion_wf (a : assertion) : Prop := {
  awf_rule_id : RULE_ID_PATTERN (rule_id a) = true;
  awf_rule_hash : hash_pattern (rule_hash a) = true;
  awf_evidence : hash_pattern (evidence_hash a) = true;
}.

(** What every normalised receipt satisfies. *)
Record receipt_wf (r : pom_receipt) : Prop := {
  wf_receipt_id : id_pattern (p_receipt_id r) = true;
  wf_run_id : id_pattern (run_id r) = true;
  wf_outcome : p_outcome r ∈ PHASE_OUTCOMES (p_phase r);
  wf_agent : nfc_fixed (agent_ref r);
  wf_subject : nfc_fixed (subject_ref r);
  wf_method : hash_pattern (method_hash r) = true;
  wf_policy : hash_pattern (policy_hash r) = true;
  wf_input : hash_pattern (input_commitment r) = true;
  wf_action : hash_pattern (action_commitment r) = true;
  wf_assertion_count : (1 <= length (assertions r) <= 64)%nat;
  wf_assertions : Forall assertion_wf (assertions r);
  wf_rules : NoDup (rule_id <$> assertions r);
  wf_sorted : StronglySorted (fun a b => assertion_leb a b = true) (assertions r);
  wf_preflight : p_phase r = Preflight ->
    previous_receipt_hash r = None /\
    (p_outcome r = Allow -> Forall (fun a => result a = Pass) (assertions r)) /\
    (p_outcome r = Deny -> Exists (fun a => result a = Failed) (assertions r));
  wf_previous : p_phase r <> Preflight ->
    exists h, previous_receipt_hash r = Some h /\ hash_pattern h = true;
  wf_source : source_key_id_pattern (source_key_id r) = true;
  wf_occurred : exists t, time_valid t = true /\ p_occurred_at r = to_iso_string t;
}.

Lemma assertExactKeys_Ok record expected label u :
  assertExactKeys record expected label = Ok u <->
  is_record record = true /\ keys_of record ≡ₚ expected.
Proof.
  unfold assertExactKeys, assert. rewrite guard_bind_Ok, guard_or_Ok, same_keys_iff. done.
Qed.

Lemma validateAssertion_Ok v a :
  validateAssertion v = Ok a <->
  is_record v = true /\ keys_of v ≡ₚ assertion_keys /\ assertion_wf a /\
  get (js "rule_id") v = VStr (rule_id a) /\ get (js "rule_hash") v = VStr (rule_hash a) /\
  get (js "result") v = VStr (result_name (result a)) /\
  get (js "proof_mode") v = VStr (proof_mode_name (proof_mode a)) /\
  get (js "evidence_hash") v = VStr (evidence_hash a).
Proof.
  unfold validateAssertion, assertIdentifier, assertHash. split.
  - intros H. inv_ok. apply assertExactKeys_Ok in Hr as [? ?].
    apply string_where_Ok in Hr0 as [? ?], Hr1 as [? ?], Hr4 as [? ?].
    apply choice_or_Ok in Hr2 as [_ ?], Hr3 as [_ ?]. by repeat split.
  - intros (? & ? & [? ? ?] & E1 & E2 & E3 & E4 & E5).
    rewrite (proj2 (assertExactKeys_Ok v assertion_keys "Risk assertion" tt)) by done.
    cbn [mbind res_bind]. rewrite E1, E2, E3, E4, E5.
    rewrite !string_where_str by done.
    rewrite !choice_or_name by auto using result_name_inj, result_choices,
      proof_mode_name_inj, proof_mode_choices.
    by destruct a.
Qed.

Lemma assertion_leb_total a b : assertion_leb a b = true \/ assertion_leb b a = true.
Proof. apply locale_leb_total. Qed.
Lemma assertion_leb_trans a b c :
  assertion_leb a b = true -> assertion_leb b c = true -> assertion_leb a c = true.
Proof. apply locale_leb_trans. Qed.

Lemma validateAssertions_Ok v l :
  validateAssertions v = Ok l ->
  exists items, v = VArr items /\ (1 <= length l <= 64)%nat /\ Forall assertion_wf l /\
    NoDup (rule_id <$> l) /\ StronglySorted (fun a b => assertion_leb a b = true) l.
Proof.
  unfold validateAssertions. destruct v as [| | | | | | | |items|]; try done.
  intros H. inv_ok. unfold assert in *. apply guard_or_Ok in Hr, Hr1.
  apply andb_true_iff in Hr as [H1%Nat.leb_le H2%Nat.leb_le].
  apply bool_decide_eq_true in Hr1. apply map_res_Ok in Hr0.
  pose proof (Forall2_length _ _ _ Hr0).
  pose proof (sort_by_perm assertion_leb r0) as Hp. exists items.
  pose proof (Permutation_length Hp).
  split; [done|]. split; [lia|]. split; [rewrite Hp|split; [by rewrite Hp|]].
  - eapply Forall2_Forall_r; [exact Hr0|]. apply Forall_true.
    intros x y (_ & _ & ? & _)%validateAssertion_Ok. done.
  - apply sort_by_sorted; eauto using assertion_leb_total, assertion_leb_trans.
Qed.

Lemma validatePrevious_Ok p o l v prev :
  validatePrevious p o l v = Ok prev <->
  (p = Preflight /\ v = VNull /\ prev = None /\
    (o = Allow -> Forall (fun a => result a = Pass) l) /\
    (o <> Allow -> Exists (fun a => result a = Failed) l)) \/
  (p <> Preflight /\ exists h, v = VStr h /\ hash_pattern h = true /\ prev = Some h).
Proof.
  assert (forallb (fun a => bool_decide (result a = Pass)) l = true <->
    Forall (fun a => result a = Pass) l) as Hall.
  { rewrite forallb_forall, List.Forall_forall. by setoid_rewrite bool_decide_eq_true. }
  assert (existsb (fun a => bool_decide (result a = Failed)) l = true <->
    Exists (fun a => result a = Failed) l) as Hex.
  { rewrite existsb_exists, Exists_exists. setoid_rewrite bool_decide_eq_true.
    by setoid_rewrite list_elem_of_In. }
  unfold validatePrevious, assertHash, assert. destruct p.
  - rewrite guard_bind_Ok. case_bool_decide as Ho; rewrite guard_bind_Ok, ?Hall, ?Hex; split.
    1,3: by intros (Hn & ? & [= <-]); left; destruct v.
    all: intros [(_ & -> & -> & ? & ?)|[Hn _]]; [by auto|by destruct Hn].
  - rewrite bind_Ok. setoid_rewrite string_where_Ok. split.
    + intros (h & (-> & ?) & [= <-]). right. split; [done|]. by exists h.
    + intros [[Hn _]|(_ & h & -> & ? & ->)]; [done|]. by exists h.
  - rewrite bind_Ok. setoid_rewrite string_where_Ok. split.
    + intros (h & (-> & ?) & [= <-]). right. split; [done|]. by exists h.
    + intros [[Hn _]|(_ & h & -> & ? & ->)]; [done|]. by exists h.
Qed.

Lemma validateAssertions_list v l :
  validateAssertions v = Ok l <->
  exists items as_, v = VArr items /\ (1 <= length items <= 64)%nat /\
    Forall2 (fun v a => validateAssertion v = Ok a) items as_ /\ NoDup (rule_id <$> as_) /\
    l = sort_by assertion_leb as_.
Proof.
  unfold validateAssertions, assert. split.
  - destruct v as [| | | | | | | |items|]; try done.
    intros [[H1%Nat.leb_le H2%Nat.leb_le]%andb_true_iff H]%guard_bind_Ok.
    apply bind_Ok in H as (as_ & Ha%map_res_Ok & H). apply guard_bind_Ok in H as [Hn%bool_decide_eq_true [= <-]].
    exists items, as_. split_and!; try done; lia.
  - intros (items & as_ & -> & [H1%Nat.leb_le H2%Nat.leb_le] & Hf & Hn & ->).
    apply guard_bind_Ok. split; [by rewrite H1, H2|]. apply bind_Ok. exists as_. split; [by apply map_res_Ok|].
    apply guard_bind_Ok. split; [by apply bool_decide_eq_true|done].
Qed.

(** ** What the validator reads *)

(** The format of a reference: not blank, no control characters, 256 units at most. *)
Definition ref_format (s : jsstr) : Prop :=
  trim_nonempty s = true /\ (length s <= 256)%nat /\ has_control s = false.
(** The reference [s] is the normal form of a text in the format, which it need
    not have itself: it may be longer. *)
Definition reads_ref (v : jsv) (s : jsstr) : Prop :=
  exists t, v = VStr t /\ ref_format t /\ s = nfc t.

Definition reads_assertion (v : jsv) (a : assertion) : Prop :=
  is_record v = true /\ keys_of v ≡ₚ assertion_keys /\
  get (js "rule_id") v = VStr (rule_id a) /\ get (js "rule_hash") v = VStr (rule_hash a) /\
  get (js "result") v = VStr (result_name (result a)) /\
  get (js "proof_mode") v = VStr (proof_mode_name (proof_mode a)) /\
  get (js "evidence_hash") v = VStr (evidence_hash a).

(** [v] is an object with exactly the fields of a receipt, and [r] is what they say. *)
Record reads_receipt (v : jsv) (r : pom_receipt) : Prop := {
  rr_record : is_record v = true /\ keys_of v ≡ₚ receipt_keys;
  rr_version : get (js "schema_version") v = VStr POM_RX_SCHEMA_VERSION;
  rr_receipt_id : get (js "receipt_id") v = VStr (p_receipt_id r);
  rr_run_id : get (js "run_id") v = VStr (run_id r);
  rr_phase : get (js "phase") v = VStr (phase_name (p_phase r));
  rr_outcome : get (js "outcome") v = VStr (outcome_name (p_outcome r));
  rr_agent : reads_ref (get (js "agent_ref") v) (agent_ref r);
  rr_subject : reads_ref (get (js "subject_ref") v) (subject_ref r);
  rr_method : get (js "method_hash") v = VStr (method_hash r);
  rr_policy : get (js "policy_hash") v = VStr (policy_hash r);
  rr_input : get (js "input_commitment") v = VStr (input_commitment r);
  rr_action : get (js "action_commitment") v = VStr (action_commitment r);
  rr_assertions : exists items as_, get (js "assertions") v = VArr items /\
    Forall2 reads_assertion items as_ /\ assertions r = sort_by assertion_leb as_;
  rr_previous : get (js "previous_receipt_hash") v = opt_value (previous_receipt_hash r);
  rr_occurred : exists s t, get (js "occurred_at") v = VStr s /\ has_offset s = true /\
    date_parse s = Some t /\ p_occurred_at r = to_iso_string t;
  rr_source : get (js "source_key_id") v = VStr (source_key_id r);
}.

Lemma assertRef_Ok v field s : assertRef v field = Ok s <-> v = VStr s /\ ref_format s.
Proof.
  unfold assertRef, ref_format, ref_ok. rewrite string_where_Ok, !andb_true_iff, negb_true_iff, Nat.leb_le. tauto.
Qed.

Lemma validateAssertion_reads v a :
  validateAssertion v = Ok a <-> reads_assertion v a /\ assertion_wf a.
Proof. rewrite validateAssertion_Ok. unfold reads_assertion. tauto. Qed.

Lemma validatePomRxReceipt_wf v r : validatePomRxReceipt v = Ok r -> receipt_wf r.
Proof.
  unfold validatePomRxReceipt, assertIdentifier, assertHash, assertRef. intros H. inv_ok.
  repeat match goal with
  | H : string_where _ _ _ = Ok _ |- _ => apply string_where_Ok in H as [_ H]
  | H : choice_or _ _ _ _ = Ok _ |- _ => apply choice_or_Ok in H as [H _]
  | H : validateAssertions _ = Ok _ |- _ =>
      apply validateAssertions_Ok in H as (? & _ & ? & ? & ? & ?)
  | H : normalizeDateTime _ _ = Ok _ |- _ =>
      apply normalizeDateTime_Ok in H as (? & t & _ & _ & ?%date_parse_valid & ->)
  end.
  apply validatePrevious_Ok in Hr12.
  split; simpl; try done; try apply nfc_nfc_fixed.
  - destruct Hr12 as [(_ & _ & -> & Ha & Hd)|[? _]]; [|done]. intros _.
    split; [done|]. split; [done|]. intros ->. by apply Hd.
  - destruct Hr12 as [(-> & _)|(_ & h & _ & ? & ->)]; [done|]. intros _. by exists h.
  - by exists t.
Qed.

Lemma validatePomRxReceipt_reads v r : validatePomRxReceipt v = Ok r -> reads_receipt v r.
Proof.
  unfold validatePomRxReceipt, assertIdentifier, assertHash. intros (? & Hk%assertExactKeys_Ok & H)%bind_Ok.
  cbv zeta in H. apply guard_bind_Ok in H as [Hv%is_str_eq H].
  apply bind_Ok in H as (? & [Fid _]%string_where_Ok & H). apply bind_Ok in H as (? & [Frun _]%string_where_Ok & H).
  apply bind_Ok in H as (? & [_ Fphase]%choice_or_Ok & H). apply bind_Ok in H as (? & [_ Foutcome]%choice_or_Ok & H).
  apply bind_Ok in H as (a & Ha%assertRef_Ok & H). apply bind_Ok in H as (s & Hs%assertRef_Ok & H).
  do 4 apply bind_Ok in H as (? & [?F _]%string_where_Ok & H).
  apply bind_Ok in H as (l & (items & as_ & Fitems & _ & Hf & _ & ->)%validateAssertions_list & H).
  apply bind_Ok in H as (previous & Hp%validatePrevious_Ok & H).
  apply bind_Ok in H as (? & [Fsource _]%string_where_Ok & H).
  apply bind_Ok in H as (? & (text & t & Ft & Hoff & Ht & ->)%normalizeDateTime_Ok & [= <-]).
  split; cbn [p_receipt_id run_id p_phase p_outcome agent_ref subject_ref method_hash policy_hash input_commitment
    action_commitment assertions previous_receipt_hash p_occurred_at source_key_id]; try done.
  - exists a. destruct Ha. by split.
  - exists s. destruct Hs. by split.
  - exists items, as_. split; [done|]. split; [|done]. eapply Forall2_impl; [exact Hf|].
    by intros ? ? [? _]%validateAssertion_reads.
  - by destruct Hp as [(_ & -> & -> & _)|(_ & h & -> & _ & ->)].
  - by exists text, t.
Qed.

Lemma validatePrevious_wf r :
  receipt_wf r ->
  validatePrevious (p_phase r) (p_outcome r) (assertions r) (opt_value (previous_receipt_hash r))
  = Ok (previous_receipt_hash r).
Proof.
  intros W. apply validatePrevious_Ok. destruct (decide (p_phase r = Preflight)) as [E|E].
  - left. destruct (wf_preflight _ W E) as (-> & ? & Hd). repeat (split; [done|]).
    intros Hne. apply Hd. pose proof (wf_outcome _ W) as Ho. rewrite E in Ho.
    apply elem_of_cons in Ho as [?|Hd'%list_elem_of_singleton]; [done|exact Hd'].
  - right. split; [done|]. destruct (wf_previous _ W E) as (h & -> & ?). by exists h.
Qed.

(** A well-formed receipt is read back from any object that says it. *)
Lemma validatePomRxReceipt_accepts v r : reads_receipt v r -> receipt_wf r -> validatePomRxReceipt v = Ok r.
Proof.
  intros [Hk Hv Fid Frun Fphase Foutcome (a & Fa & Ha & Ea) (s & Fs & Hs & Es) Fm Fp Fi Fc
    (items & as_ & Fitems & Hf & Eas) Fprev (text & t & Ft & Hoff & Ht & Eoc) Fsource] W.
  unfold validatePomRxReceipt, assertIdentifier, assertHash.
  rewrite (proj2 (assertExactKeys_Ok v receipt_keys "POM-RX receipt" tt)) by done. cbn [mbind res_bind].
  cbv zeta. apply guard_bind_Ok. split; [by apply is_str_eq|].
  apply bind_Ok. exists (p_receipt_id r). split; [by apply string_where_Ok; split; [|apply W]|].
  apply bind_Ok. exists (run_id r). split; [by apply string_where_Ok; split; [|apply W]|].
  rewrite Fphase, (choice_or_name phase_name) by auto using phase_name_inj, phase_choices. cbn [mbind res_bind].
  rewrite Foutcome, (choice_or_name outcome_name) by first [apply outcome_name_inj|apply W]. cbn [mbind res_bind].
  apply bind_Ok. exists a. split; [by apply assertRef_Ok|]. apply bind_Ok. exists s. split; [by apply assertRef_Ok|].
  apply bind_Ok. exists (method_hash r). split; [by apply string_where_Ok; split; [|apply W]|].
  apply bind_Ok. exists (policy_hash r). split; [by apply string_where_Ok; split; [|apply W]|].
  apply bind_Ok. exists (input_commitment r). split; [by apply string_where_Ok; split; [|apply W]|].
  apply bind_Ok. exists (action_commitment r). split; [by apply string_where_Ok; split; [|apply W]|].
  apply bind_Ok. exists (assertions r). split.
  { pose proof (wf_assertion_count _ W) as Hl. pose proof (wf_assertions _ W) as Hw. pose proof (wf_rules _ W) as Hn.
    rewrite Eas, sort_by_perm in Hl, Hw, Hn. apply validateAssertions_list. exists items, as_.
    rewrite (Forall2_length _ _ _ Hf). split_and!; try done; try lia.
    apply Forall2_same_length_lookup in Hf as [Hll Hf]. apply Forall2_same_length_lookup. split; [done|].
    intros i x y Hx Hy. apply validateAssertion_reads. split; [by eapply Hf|].
    rewrite Forall_lookup in Hw. by eapply Hw. }
  rewrite Fprev, validatePrevious_wf by done. cbn [mbind res_bind].
  apply bind_Ok. exists (source_key_id r). split; [by apply string_where_Ok; split; [|apply W]|].
  apply bind_Ok. exists (to_iso_string t). split; [apply normalizeDateTime_Ok; eauto 10|].
  rewrite <- Ea, <- Es, <- Eoc. by destruct r.
Qed.

Lemma validate_assertion_values l :
  (1 <= length l <= 64)%nat -> Forall assertion_wf l -> NoDup (rule_id <$> l) ->
  validateAssertions (VArr (assertion_value <$> l)) = Ok (sort_by assertion_leb l).
Proof.
  intros [H1 H2] Hf Hnd. unfold validateAssertions. rewrite length_fmap.
  rewrite (proj2 (Nat.leb_le _ _) H1), (proj2 (Nat.leb_le _ _) H2).
  cbn [andb assert guard_or mbind res_bind].
  assert (map_res validateAssertion (assertion_value <$> l) = Ok l) as ->.
  { apply map_res_Ok, Forall2_fmap_l, Forall_Forall2_diag.
    eapply Forall_impl; [exact Hf|]. intros a Ha. by apply validateAssertion_Ok. }
  cbn [mbind res_bind]. by rewrite bool_decide_true.
Qed.

(** A receipt with its assertions in the order of the validator. *)
Definition sort_assertions (r : pom_receipt) : pom_receipt :=
  {| p_receipt_id := p_receipt_id r; run_id := run_id r; p_phase := p_phase r; p_outcome := p_outcome r;
     agent_ref := agent_ref r; subject_ref := subject_ref r; method_hash := method_hash r;
     policy_hash := policy_hash r; input_commitment := input_commitment r;
     action_commitment := action_commitment r; assertions := sort_by assertion_leb (assertions r);
     previous_receipt_hash := previous_receipt_hash r; p_occurred_at := p_occurred_at r;
     source_key_id := source_key_id r |}.

(** A receipt that is well-formed but for the order of its assertions is
    accepted, and comes out sorted. *)
Lemma validate_pom_value r :
  receipt_wf (sort_assertions r) -> ref_ok (agent_ref r) = true -> ref_ok (subject_ref r) = true ->
  validatePomRxReceipt (pom_value r) = Ok (sort_assertions r).
Proof.
  intros W Ha Hs. destruct (wf_occurred _ W) as (t & Ht & Hoc).
  unfold validatePomRxReceipt, assertIdentifier, assertHash, assertRef.
  rewrite (proj2 (assertExactKeys_Ok (pom_value r) receipt_keys "POM-RX receipt" tt)) by done.
  cbn [mbind res_bind].
  change (is_str (get (js "schema_version") (pom_value r)) POM_RX_SCHEMA_VERSION) with true.
  cbn [assert guard_or mbind res_bind].
  change (get (js "receipt_id") (pom_value r)) with (VStr (p_receipt_id r)).
  change (get (js "run_id") (pom_value r)) with (VStr (run_id r)).
  change (get (js "phase") (pom_value r)) with (VStr (phase_name (p_phase r))).
  change (get (js "outcome") (pom_value r)) with (VStr (outcome_name (p_outcome r))).
  change (get (js "agent_ref") (pom_value r)) with (VStr (agent_ref r)).
  change (get (js "subject_ref") (pom_value r)) with (VStr (subject_ref r)).
  change (get (js "method_hash") (pom_value r)) with (VStr (method_hash r)).
  change (get (js "policy_hash") (pom_value r)) with (VStr (policy_hash r)).
  change (get (js "input_commitment") (pom_value r)) with (VStr (input_commitment r)).
  change (get (js "action_commitment") (pom_value r)) with (VStr (action_commitment r)).
  change (get (js "assertions") (pom_value r)) with (VArr (assertion_value <$> assertions r)).
  change (get (js "previous_receipt_hash") (pom_value r))
    with (opt_value (previous_receipt_hash r)).
  change (get (js "occurred_at") (pom_value r)) with (VStr (p_occurred_at r)).
  change (get (js "source_key_id") (pom_value r)) with (VStr (source_key_id r)).
  destruct W. cbn [sort_assertions p_receipt_id run_id p_phase p_outcome agent_ref subject_ref method_hash
    policy_hash input_commitment action_commitment assertions previous_receipt_hash p_occurred_at
    source_key_id] in *.
  rewrite sort_by_perm in wf_assertion_count0, wf_assertions0, wf_rules0.
  rewrite !string_where_str by done. cbn [mbind res_bind].
  rewrite (choice_or_name phase_name) by auto using phase_name_inj, phase_choices.
  cbn [mbind res_bind].
  rewrite (choice_or_name outcome_name) by auto using outcome_name_inj.
  cbn [mbind res_bind].
  rewrite validate_assertion_values by done. cbn [mbind res_bind].
  assert (validatePrevious (p_phase r) (p_outcome r) (sort_by assertion_leb (assertions r))
    (opt_value (previous_receipt_hash r)) = Ok (previous_receipt_hash r)) as ->.
  { apply validatePrevious_Ok. destruct (decide (p_phase r = Preflight)) as [E|E].
    - left. destruct (wf_preflight0 E) as (-> & ? & Hd). repeat (split; [done|]).
      intros Hne. apply Hd. rewrite E in wf_outcome0.
      apply elem_of_cons in wf_outcome0 as [?|Hd'%list_elem_of_singleton]; [done|exact Hd'].
    - right. split; [done|]. destruct (wf_previous0 E) as (h & -> & ?). by exists h. }
  cbn [mbind res_bind]. rewrite Hoc, normalizeDateTime_iso by done. cbn [mbind res_bind].
  rewrite wf_agent0, wf_subject0. rewrite <- Hoc. by destruct r.
Qed.

(** A normalised receipt whose references still pass the format test is its
    own normalisation. *)
Lemma revalidate r :
  receipt_wf r -> ref_ok (agent_ref r) = true -> ref_ok (subject_ref r) = true ->
  validatePomRxReceipt (pom_value r) = Ok r.
Proof.
  intros W Ha Hs. assert (sort_assertions r = r) as E.
  { unfold sort_assertions. rewrite sort_by_sorted_id by apply W. by destruct r. }
  rewrite <- E at 2. apply validate_pom_value; [by rewrite E|done..].
Qed.

(** ** What a receipt hash binds *)

Lemma wf_value_assertions l :
  fold_right (fun x P => wf_value x /\ P) True (assertion_value <$> l).
Proof.
  induction l as [|a l IH]; simpl; [done|]. split; [|done].
  split; [decide_now|done].
Qed.

Lemma wf_pom_value r : wf_value (pom_value r).
Proof.
  split; [decide_now|].
  repeat (split; [first [done|destruct (previous_receipt_hash r); done|apply wf_value_assertions]|]).
  done.
Qed.

Lemma opt_value_inj o1 o2 : 
  (forall h, o1 = Some h -> hash_pattern h = true) ->
  (forall h, o2 = Some h -> hash_pattern h = true) ->
  normalize (opt_value o1) = normalize (opt_value o2) -> o1 = o2.
Proof.
  intros H1 H2. destruct o1, o2; simpl; try done.
  intros [= E]. f_equal. revert E.
  rewrite !nfc_ascii by (apply hash_pattern_ascii; auto). done.
Qed.

Lemma assertion_value_inj a1 a2 :
  assertion_wf a1 -> assertion_wf a2 ->
  normalize (assertion_value a1) = normalize (assertion_value a2) -> a1 = a2.
Proof.
  intros [? ? ?] [? ? ?] H.
  assert (forall a, RULE_ID_PATTERN a = true -> forallb is_ascii a = true) as Hr
    by (intros a; apply re_head_class_ascii; ascii_class).
  assert (forall k, normalize (get (js k) (assertion_value a1)) =
                    normalize (get (js k) (assertion_value a2))) as G
    by (intros k; apply normalize_get_eq; [decide_now|decide_now|exact H]).
  assert (forall s t, forallb is_ascii s = true -> forallb is_ascii t = true ->
    normalize (VStr s) = normalize (VStr t) -> s = t) as I
    by (intros; apply normalize_str_inj; auto using ascii_nfc_fixed).
  destruct a1, a2; simpl in *. f_equal.
  - apply I; auto. exact (G "rule_id").
  - apply I; auto using hash_pattern_ascii. exact (G "rule_hash").
  - apply result_name_inj, I; [by destruct result0|by destruct result1|exact (G "result")].
  - apply proof_mode_name_inj, I; [by destruct proof_mode0|by destruct proof_mode1|exact (G "proof_mode")].
  - apply I; auto using hash_pattern_ascii. exact (G "evidence_hash").
Qed.

Lemma pom_value_inj r1 r2 :
  receipt_wf r1 -> receipt_wf r2 ->
  normalize (pom_value r1) = normalize (pom_value r2) -> r1 = r2.
Proof.
  intros W1 W2 H.
  assert (forall k, normalize (get (js k) (pom_value r1)) =
                    normalize (get (js k) (pom_value r2))) as G
    by (intros k; apply normalize_get_eq; [decide_now|decide_now|exact H]).
  assert (forall s t, forallb is_ascii s = true -> forallb is_ascii t = true ->
    normalize (VStr s) = normalize (VStr t) -> s = t) as I
    by (intros; apply normalize_str_inj; auto using ascii_nfc_fixed).
  assert (forall r, receipt_wf r -> forall h, previous_receipt_hash r = Some h ->
    hash_pattern h = true) as Hprev.
  { intros r W h Hh. destruct (decide (p_phase r = Preflight)) as [E|E].
    - destruct (wf_preflight _ W E) as [E' _]. congruence.
    - destruct (wf_previous _ W E) as (h' & E' & ?). congruence. }
  pose proof (Hprev r1 W1) as Hp1. pose proof (Hprev r2 W2) as Hp2. clear Hprev H.
  destruct W1, W2. destruct wf_occurred0 as (t1 & _ & Ht1), wf_occurred1 as (t2 & _ & Ht2).
  destruct r1, r2; simpl in *. f_equal.
  - apply I; auto using id_pattern_ascii. exact (G "receipt_id").
  - apply I; auto using id_pattern_ascii. exact (G "run_id").
  - apply phase_name_inj, I; [by destruct p_phase0|by destruct p_phase1|exact (G "phase")].
  - apply outcome_name_inj, I; [by destruct p_outcome0|by destruct p_outcome1|exact (G "outcome")].
  - apply normalize_str_inj; auto. exact (G "agent_ref").
  - apply normalize_str_inj; auto. exact (G "subject_ref").
  - apply I; auto using hash_pattern_ascii. exact (G "method_hash").
  - apply I; auto using hash_pattern_ascii. exact (G "policy_hash").
  - apply I; auto using hash_pattern_ascii. exact (G "input_commitment").
  - apply I; auto using hash_pattern_ascii. exact (G "action_commitment").
  - pose proof (G "assertions") as E. cbn -[normalize assertion_value] in E.
    cbn [normalize] in E. injection E as E. apply list_eq_Forall2 in E.
    apply list_eq_Forall2. rewrite Forall2_fmap_l, Forall2_fmap_r in E.
    rewrite Forall2_fmap_l, Forall2_fmap_r in E.
    clear -E wf_assertions0 wf_assertions1 SH.
    induction E as [|x y l l' Hxy _ IH]; [constructor|].
    apply Forall_cons in wf_assertions0 as [? ?], wf_assertions1 as [? ?].
    constructor; [by apply assertion_value_inj|auto].
  - apply opt_value_inj; auto. exact (G "previous_receipt_hash").
  - subst. apply I; auto using to_iso_string_ascii. exact (G "occurred_at").
  - apply I; auto using source_key_id_pattern_ascii. exact (G "source_key_id").
Qed.

Lemma commitPomRxReceipt_Ok v c :
  commitPomRxReceipt v = Ok c <->
  validatePomRxReceipt v = Ok (c_receipt c) /\
  canonicalizePayload (pom_value (c_receipt c)) = Ok (canonicalReceipt c) /\
  receiptHash c = sha256Hex (receipt_input (canonicalReceipt c)).
Proof.
  unfold commitPomRxReceipt. split.
  - intros H. by inv_ok.
  - intros (-> & Hc & Hh). cbn [mbind res_bind]. rewrite Hc. destruct c; simpl in *. by rewrite Hh.
Qed.

Definition committed_ok (c : committed) : Prop :=
  receipt_wf (c_receipt c) /\
  canonicalizePayload (pom_value (c_receipt c)) = Ok (canonicalReceipt c) /\
  receiptHash c = sha256Hex (receipt_input (canonicalReceipt c)).

Lemma commit_committed_ok v c : commitPomRxReceipt v = Ok c -> committed_ok c.
Proof.
  intros (? & ? & ?)%commitPomRxReceipt_Ok.
  split; [by eapply validatePomRxReceipt_wf|done].
Qed.

Lemma canonical_receipt_inj c1 c2 :
  committed_ok c1 -> committed_ok c2 -> canonicalReceipt c1 = canonicalReceipt c2 -> c1 = c2.
Proof.
  intros (W1 & C1 & H1) (W2 & C2 & H2) E.
  apply canonicalizePayload_Ok in C1 as (_ & S1 & _ & C1 & _), C2 as (_ & S2 & _ & C2 & _).
  apply json_parse_canonical in C1, C2; eauto using safe_canonical_data, wf_pom_value.
  rewrite E in C1. rewrite C1 in C2. apply (inj Some) in C2.
  apply pom_value_inj in C2; [|done..]. destruct c1, c2; simpl in *. congruence.
Qed.

Definition receipt_collision (c1 c2 : committed) : Prop :=
  receipt_input (canonicalReceipt c1) <> receipt_input (canonicalReceipt c2) /\
  sha256Hex (receipt_input (canonicalReceipt c1)) = sha256Hex (receipt_input (canonicalReceipt c2)).

Lemma committed_hash_inj c1 c2 :
  committed_ok c1 -> committed_ok c2 -> receiptHash c1 = receiptHash c2 ->
  c1 = c2 \/ receipt_collision c1 c2.
Proof.
  intros H1 H2 E. destruct (decide (canonicalReceipt c1 = canonicalReceipt c2)) as [Hc|Hc].
  - left. by apply canonical_receipt_inj.
  - right. split; [|by destruct H1 as (_ & _ & <-), H2 as (_ & _ & <-)].
    unfold receipt_input. intros Hi. by apply app_inv_head in Hi.
Qed.

(** ** Accepted chains *)

#[local] Arguments js : simpl never.

(** The phases and outcomes of a chain the verifier accepts. *)
Inductive chain_shape (allowPartial : bool) : list (phase * outcome) -> Prop :=
  | shape_deny : chain_shape allowPartial [(Preflight, Deny)]
  | shape_preflight :
      allowPartial = true -> chain_shape allowPartial [(Preflight, Allow)]
  | shape_executed o :
      o ∈ [Rejected; Unresolved] \/ allowPartial = true /\ o = Accepted ->
      chain_shape allowPartial [(Preflight, Allow); (Execution, o)]
  | shape_reconciled o o' :
      o ∈ [Accepted; Unresolved] -> o' ∈ [Matched; Mismatched; Unresolved] ->
      chain_shape allowPartial [(Preflight, Allow); (Execution, o); (Reconciliation, o')].

Definition same_run (r s : pom_receipt) : Prop :=
  run_id s = run_id r /\ agent_ref s = agent_ref r /\ subject_ref s = subject_ref r /\
  method_hash s = method_hash r /\ policy_hash s = policy_hash r.

(** What ties a receipt to the one before it. *)
Definition linked (previous current : committed) : Prop :=
  previous_receipt_hash (c_receipt current) = Some (receiptHash previous) /\
  str_leb (p_occurred_at (c_receipt previous)) (p_occurred_at (c_receipt current)) = true /\
  same_run (c_receipt previous) (c_receipt current).

Definition shape_of (chain : list committed) : list (phase * outcome) :=
  (fun c => (p_phase (c_receipt c), p_outcome (c_receipt c))) <$> chain.

Definition status_of (c : committed) : jsstr :=
  phase_name (p_phase (c_receipt c)) ++ js ":" ++ outcome_name (p_outcome (c_receipt c)).

Lemma check_link_Ok first previous current u :
  check_link first previous current = Ok u <->
  phase_index (p_phase (c_receipt current)) = S (phase_index (p_phase (c_receipt previous))) /\
  previous_receipt_hash (c_receipt current) = Some (receiptHash previous) /\
  str_leb (p_occurred_at (c_receipt previous)) (p_occurred_at (c_receipt current)) = true /\
  same_run (c_receipt first) (c_receipt current).
Proof.
  unfold check_link, assert, same_run.
  rewrite !guard_bind_Ok, Nat.eqb_eq, bool_decide_eq_true, for_each_Ok.
  unfold sharedFields. rewrite !Forall_cons, !guard_or_Ok, !str_eqb_eq.
  split; [tauto|]. intros (? & ? & ? & ? & ? & ? & ? & ?). by repeat split.
Qed.

Lemma phase_outcome_cases c :
  committed_ok c -> p_outcome (c_receipt c) ∈ PHASE_OUTCOMES (p_phase (c_receipt c)).
Proof. intros [W _]. apply (wf_outcome _ W). Qed.

Lemma same_run_trans_iff r s t : same_run r s -> (same_run r t <-> same_run s t).
Proof. unfold same_run. intros (-> & -> & -> & -> & ->). done. Qed.

(** The checks on a chain of one, two or three committed receipts. *)
Definition chain_checks (allowPartial : bool) (chain : list committed) : Prop :=
  chain_shape allowPartial (shape_of chain) /\ Sorted linked chain.

Ltac invert_shape :=
  match goal with H : chain_shape _ _ |- _ => inversion H; subst; clear H end.

Lemma outcome_split_2 (o : outcome) a b : o ∈ [a; b] -> o = a \/ o = b.
Proof. rewrite !elem_of_cons, elem_of_nil. tauto. Qed.
Lemma outcome_split_3 (o : outcome) a b c : o ∈ [a; b; c] -> o = a \/ o = b \/ o = c.
Proof. rewrite !elem_of_cons, elem_of_nil. tauto. Qed.

Lemma check_links_Ok first b rest u :
  check_links first first (b :: rest) = Ok u <->
  phase_index (p_phase (c_receipt b)) = S (phase_index (p_phase (c_receipt first))) /\
  linked first b /\ check_links first b rest = Ok tt.
Proof.
  cbn [check_links]. rewrite bind_Ok. destruct u. split.
  - by intros ([] & (? & ? & ? & ?)%check_link_Ok & ?).
  - intros (? & (? & ? & ?) & ?). exists tt. split; [|done]. by apply check_link_Ok.
Qed.

Lemma check_links_last first b c u :
  linked first b ->
  check_links first b [c] = Ok u <->
  phase_index (p_phase (c_receipt c)) = S (phase_index (p_phase (c_receipt b))) /\ linked b c.
Proof.
  intros (_ & _ & Hs). cbn [check_links]. rewrite bind_Ok. destruct u. split.
  - intros ([] & (? & ? & ? & Hr)%check_link_Ok & _).
    apply (same_run_trans_iff _ _ _ Hs) in Hr. done.
  - intros (? & ? & ? & Hr). exists tt. split; [|done]. apply check_link_Ok.
    repeat (split; [done|]). by apply (same_run_trans_iff _ _ _ Hs).
Qed.

(** Split the outcome of a committed receipt whose phase is known. *)
Ltac split_outcome H E :=
  apply phase_outcome_cases in H; rewrite E in H; cbn [PHASE_OUTCOMES] in H;
  first [ apply outcome_split_2 in H as [H|H] | apply outcome_split_3 in H as [H|[H|H]] ].

Ltac run_checks :=
  unfold check_committed, has_outcome, find_phase, assert, shape_of; cbn;
  repeat (match goal with
    | E : p_phase (c_receipt ?a) = _ |- context [p_phase (c_receipt ?a)] => rewrite E
    | E : p_outcome (c_receipt ?a) = _ |- context [p_outcome (c_receipt ?a)] => rewrite E
    | |- context [bool_decide ?P] =>
        first [ rewrite (bool_decide_true P) by (done || by eexists)
              | rewrite (bool_decide_false P) by (done || by intros [? ?]) ]
    end; cbn).

Lemma Sorted_1 {A} (R : A -> A -> Prop) a : Sorted R [a] <-> True.
Proof. split; [done|]. intros _. by apply Sorted_cons. Qed.
Lemma Sorted_2 {A} (R : A -> A -> Prop) a b : Sorted R [a; b] <-> R a b.
Proof.
  split.
  - intros [_ H]%Sorted_inv. by inversion H.
  - intros H. apply Sorted_cons; [by apply Sorted_1|]. by constructor.
Qed.
Lemma Sorted_3 {A} (R : A -> A -> Prop) a b c : Sorted R [a; b; c] <-> R a b /\ R b c.
Proof.
  split.
  - intros [H1%Sorted_2 H]%Sorted_inv. by inversion H.
  - intros [? ?]. apply Sorted_cons; [by apply Sorted_2|]. by constructor.
Qed.

(** Close a goal [m = Ok chain <-> chain = l /\ shape /\ links] where [m] has
    been computed. *)
Ltac close_shape :=
  split;
    [ intros H; inv_ok; (split; [done|]; split; [|tauto]);
      constructor; rewrite ?elem_of_cons; first [done|tauto]
    | let H := fresh in intros (-> & H & ?); inversion H; subst;
      rewrite ?elem_of_cons, ?elem_of_nil in *; solve [done | intuition congruence] ].

Lemma check_committed_1 a ap chain :
  committed_ok a ->
  check_committed [a] ap = Ok chain <-> chain = [a] /\ chain_checks ap [a].
Proof.
  intros Ha. unfold chain_checks. rewrite Sorted_1. destruct (p_phase (c_receipt a)) eqn:E.
  - split_outcome Ha E; destruct ap; run_checks; close_shape.
  - run_checks; close_shape.
  - run_checks; close_shape.
Qed.

Lemma check_committed_2 a b ap chain :
  committed_ok a -> committed_ok b ->
  check_committed [a; b] ap = Ok chain <-> chain = [a; b] /\ chain_checks ap [a; b].
Proof.
  intros Ha Hb. unfold chain_checks. rewrite Sorted_2.
  destruct (decide (p_phase (c_receipt a) = Preflight /\ p_phase (c_receipt b) = Execution
    /\ linked a b)) as [(Ea & Eb & Hl)|Hn].
  - assert (check_links a a [b] = Ok tt) as Hc
      by (apply check_links_Ok; by rewrite Ea, Eb).
    unfold check_committed. rewrite Hc.
    split_outcome Ha Ea; split_outcome Hb Eb; destruct ap; run_checks; close_shape.
  - split.
    + intros H. destruct Hn. unfold check_committed, assert in H. inv_ok.
      apply bool_decide_eq_true in Hr. apply check_links_Ok in Hr0 as (E & ? & _).
      rewrite Hr in E. by destruct (p_phase (c_receipt b)).
    + intros (_ & H & Hl). destruct Hn. unfold shape_of in H. simpl in H.
      inversion H; subst. done.
Qed.

Lemma check_committed_3 a b c ap chain :
  committed_ok a -> committed_ok b -> committed_ok c ->
  check_committed [a; b; c] ap = Ok chain <->
  chain = [a; b; c] /\ chain_checks ap [a; b; c].
Proof.
  intros Ha Hb Hc. unfold chain_checks. rewrite Sorted_3.
  destruct (decide (p_phase (c_receipt a) = Preflight /\ p_phase (c_receipt b) = Execution
    /\ p_phase (c_receipt c) = Reconciliation)) as [(Ea & Eb & Ec)|Hn].
  - destruct (decide (linked a b /\ linked b c)) as [(Hab & Hbc)|Hl].
    + assert (check_links a a [b; c] = Ok tt) as Hk.
      { apply check_links_Ok. rewrite Ea, Eb. split; [done|]. split; [done|].
        apply check_links_last; [done|]. by rewrite Eb, Ec. }
      unfold check_committed. rewrite Hk.
      split_outcome Ha Ea; split_outcome Hb Eb; split_outcome Hc Ec;
        destruct ap; run_checks; close_shape.
    + split; [|by intros (_ & _ & ?)].
      intros H. destruct Hl. unfold check_committed, assert in H. inv_ok.
      apply check_links_Ok in Hr0 as (_ & Hab & Hk). apply check_links_last in Hk; tauto.
  - split.
    + intros H. destruct Hn. unfold check_committed, assert in H. inv_ok.
      apply bool_decide_eq_true in Hr. apply check_links_Ok in Hr0 as (E & Hab & Hk).
      apply check_links_last in Hk as (E' & _); [|done]. rewrite Hr in E.
      destruct (p_phase (c_receipt b)); try done. by destruct (p_phase (c_receipt c)).
    + intros (_ & H & Hl). destruct Hn. unfold shape_of in H. simpl in H. by inversion H.
Qed.

Lemma assertPomRxChain_Ok receipts ap chain :
  assertPomRxChain receipts ap = Ok chain <->
  exists items, receipts = VArr items /\
    Forall2 (fun v c => commitPomRxReceipt v = Ok c) items chain /\ chain_checks ap chain.
Proof.
  assert (forall chain', Forall committed_ok chain' -> (1 <= length chain' <= 3)%nat ->
    check_committed chain' ap = Ok chain <-> chain = chain' /\ chain_checks ap chain') as Hcheck.
  { intros chain' Hok Hl. destruct chain' as [|a [|b [|c [|]]]]; simpl in Hl; try lia;
      rewrite !Forall_cons in Hok.
    - destruct Hok as (? & _). by apply check_committed_1.
    - destruct Hok as (? & ? & _). by apply check_committed_2.
    - destruct Hok as (? & ? & ? & _). by apply check_committed_3. }
  assert (forall items chain', Forall2 (fun v c => commitPomRxReceipt v = Ok c) items chain' ->
    Forall committed_ok chain') as Hcom.
  { intros items chain' H. eapply Forall2_Forall_r; [exact H|]. apply Forall_true.
    apply commit_committed_ok. }
  unfold assertPomRxChain, assert. split.
  - intros H. destruct receipts; try done. apply bind_Ok in H as (items & Hi & H).
    apply guard_bind_Ok in Hi as [Hr%Nat.leb_le [= <-]].
    apply guard_bind_Ok in H as [Hr0%Nat.leb_le H]. simpl in Hr0.
    apply bind_Ok in H as (chain' & Hm & H). apply map_res_Ok in Hm. exists l.
    pose proof (Forall2_length _ _ _ Hm).
    apply Hcheck in H as [-> Hc]; [done|by eapply Hcom|lia].
  - intros (items & -> & Hf & Hc).
    pose proof (Forall2_length _ _ _ Hf) as Hl.
    assert (1 <= length chain <= 3)%nat as Hlen.
    { destruct Hc as [Hs _]. assert (length (shape_of chain) = length chain) as <-
        by apply length_fmap. inversion Hs; simpl; lia. }
    apply map_res_Ok in Hf as Hm.
    rewrite (proj2 (Nat.leb_le 1 (length items))) by lia. cbn [guard_or mbind res_bind].
    rewrite (proj2 (Nat.leb_le (length items) _)) by (simpl; lia).
    cbn [guard_or mbind res_bind]. rewrite Hm. cbn [mbind res_bind].
    apply Hcheck; [by eapply Hcom|done|done].
Qed.

Lemma verifyPomRxChain_ok receipts ap status hashes :
  verifyPomRxChain receipts ap = ChainOk status hashes <->
  exists chain c, assertPomRxChain receipts ap = Ok chain /\ last chain = Some c /\
    status = status_of c /\ hashes = receiptHash <$> chain.
Proof.
  unfold verifyPomRxChain. destruct (assertPomRxChain receipts ap) as [chain|e]; simpl.
  - destruct (last chain) as [c|] eqn:E; simpl; split; try done.
    + intros [= <- <-]. exists chain, c. by rewrite E.
    + intros (? & c' & [= <-] & Hl & -> & ->). rewrite E in Hl. by injection Hl as <-.
    + intros (? & c' & [= <-] & Hl & _). by rewrite E in Hl.
  - split; [done|]. by intros (? & ? & ? & _).
Qed.
End pom_rx_proofs.

(** ** Properties *)

Section pom_rx_properties.
Context `{SH : !StringHost, HH : !HashHost, DH : !DateHost}.

(** C16: the chain verifier accepts exactly the arrays of receipts that all
    validate and commit, whose phases and outcomes have one of the six shapes
    of [chain_shape], and in which every receipt names the hash of the one
    before it, is not dated before it and belongs to the same run; it then
    reports the last phase and outcome and the receipt hashes. *)
Theorem verifyPomRxChain_iff receipts allowPartial status hashes :
  verifyPomRxChain receipts allowPartial = ChainOk status hashes <->
  exists items chain c, receipts = VArr items /\
    Forall2 (fun v c => commitPomRxReceipt v = Ok c) items chain /\
    chain_shape allowPartial (shape_of chain) /\ Sorted linked chain /\
    last chain = Some c /\ status = status_of c /\ hashes = receiptHash <$> chain.
Proof.
  rewrite verifyPomRxChain_ok. setoid_rewrite assertPomRxChain_Ok. split.
  - intros (chain & c & (items & -> & Hf & ? & ?) & ? & -> & ->).
    exists items, chain, c. done.
  - intros (items & chain & c & -> & Hf & ? & ? & ? & -> & ->).
    exists chain, c. split; [|done]. by exists items.
Qed.

(** C40: The validator returns a receipt exactly for an object with the fields of
    one, in the type of receipts.  Each field of the receipt is the one the object
    has; only the assertions are sorted, the time is written in UTC, and the agent
    and the subject are normal forms (NFC) of texts that are not blank, have no
    control characters and are of 256 units at most - a bound the normal form can
    exceed.  And the receipt is in its type: the formats of its identifiers and
    hashes, an outcome that fits the phase, 1 to 64 well-formed assertions with
    distinct rules, no predecessor exactly for a preflight, all assertions passing
    for an allowed preflight and a failed one for a denied preflight. *)
Theorem validatePomRxReceipt_exact v r :
  validatePomRxReceipt v = Ok r <-> reads_receipt v r /\ receipt_wf r.
Proof.
  split; [intros H; split; [by apply validatePomRxReceipt_reads|by eapply validatePomRxReceipt_wf]|].
  intros [? ?]. by apply validatePomRxReceipt_accepts.
Qed.

(** a normalised receipt whose references keep the length limit commits
    again, to the same text and hash. *)
Theorem commitPomRxReceipt_idempotent v c :
  commitPomRxReceipt v = Ok c ->
  ref_ok (agent_ref (c_receipt c)) = true -> ref_ok (subject_ref (c_receipt c)) = true ->
  commitPomRxReceipt (pom_value (c_receipt c)) = Ok c.
Proof.
  intros (Hv & Hc & Hh)%commitPomRxReceipt_Ok Ha Hs. apply commitPomRxReceipt_Ok.
  split; [|done]. apply revalidate; [by eapply validatePomRxReceipt_wf|done..].
Qed.

(** a receipt hash binds the normalised receipt: two receipts with the same
    hash normalise alike, or their two hashed texts are a SHA-256 collision. *)
Theorem commitPomRxReceipt_binding v1 v2 c1 c2 :
  commitPomRxReceipt v1 = Ok c1 -> commitPomRxReceipt v2 = Ok c2 ->
  receiptHash c1 = receiptHash c2 -> c_receipt c1 = c_receipt c2 \/ receipt_collision c1 c2.
Proof.
  intros H1%commit_committed_ok H2%commit_committed_ok E.
  destruct (committed_hash_inj _ _ H1 H2 E) as [->|?]; [by left|by right].
Qed.

Lemma linked_last_eq l1 l2 x y :
  Forall committed_ok (l1 ++ [x]) -> Forall committed_ok (l2 ++ [y]) ->
  (forall c, head (l1 ++ [x]) = Some c -> previous_receipt_hash (c_receipt c) = None) ->
  (forall c, head (l2 ++ [y]) = Some c -> previous_receipt_hash (c_receipt c) = None) ->
  Sorted linked (l1 ++ [x]) -> Sorted linked (l2 ++ [y]) ->
  receiptHash x = receiptHash y ->
  l1 ++ [x] = l2 ++ [y] \/
  exists c1 c2, c1 ∈ l1 ++ [x] /\ c2 ∈ l2 ++ [y] /\ receipt_collision c1 c2.
Proof.
  assert (forall l a b, Sorted linked ((l ++ [a]) ++ [b]) -> Sorted linked (l ++ [a]) /\ linked a b)
    as Hsplit.
  { induction l as [|z l IH]; intros a b H; simpl in *.
    - apply Sorted_2 in H. split; [by apply Sorted_1|done].
    - apply Sorted_inv in H as [H Hz]. apply IH in H as [H ?]. split; [|done].
      apply Sorted_cons; [done|]. destruct l; simpl in *; by inversion Hz; constructor. }
  revert l2 x y. induction l1 as [|a l1 IH] using rev_ind;
    intros l2 x y F1 F2 N1 N2 S1 S2 E.
  - destruct (committed_hash_inj x y) as [->|Hc].
    + simpl in F1. by apply Forall_cons in F1 as [? _].
    + apply Forall_app in F2 as [_ F2]. by apply Forall_cons in F2 as [? _].
    + done.
    + destruct l2 as [|b l2 _] using rev_ind; [by left|].
      apply Hsplit in S2 as [_ (Hp & _)]. specialize (N1 y eq_refl). congruence.
    + right. exists x, y. split; [left|]. split; [|done]. apply elem_of_app. right. left.
  - destruct (committed_hash_inj x y) as [->|Hc].
    + apply Forall_app in F1 as [_ F1]. by apply Forall_cons in F1 as [? _].
    + apply Forall_app in F2 as [_ F2]. by apply Forall_cons in F2 as [? _].
    + done.
    + apply Hsplit in S1 as [S1 (Hp1 & _)].
      destruct l2 as [|b l2 _] using rev_ind; [specialize (N2 y eq_refl); congruence|].
      apply Hsplit in S2 as [S2 (Hp2 & _)].
      apply Forall_app in F1 as [F1 _], F2 as [F2 _].
      destruct (IH l2 a b) as [->|(c1 & c2 & ? & ? & ?)]; try done.
      * intros c Hc. apply N1. destruct l1; done.
      * intros c Hc. apply N2. destruct l2; done.
      * congruence.
      * by left.
      * right. exists c1, c2. rewrite !(elem_of_app _ [y]). auto.
    + right. exists x, y. rewrite !elem_of_app. split; [right; left|]. split; [right; left|done].
Qed.

Lemma chain_of_ok receipts ap chain :
  assertPomRxChain receipts ap = Ok chain ->
  Forall committed_ok chain /\ Sorted linked chain /\ chain <> [] /\
  (forall c, head chain = Some c -> previous_receipt_hash (c_receipt c) = None).
Proof.
  intros (items & -> & Hf & Hs & Hl)%assertPomRxChain_Ok.
  assert (Forall committed_ok chain) as Hok.
  { eapply Forall2_Forall_r; [exact Hf|]. apply Forall_true. apply commit_committed_ok. }
  split; [done|]. split; [done|]. split.
  - intros ->. inversion Hs.
  - intros c Hc. destruct chain as [|c' chain]; [done|]. injection Hc as ->.
    apply Forall_cons in Hok as [[W _] _].
    assert (p_phase (c_receipt c) = Preflight) as E by (unfold shape_of in Hs; inversion Hs; done).
    by destruct (wf_preflight _ W E).
Qed.

(** C17: the hash of the last receipt binds the whole chain: two accepted chains
    that end in the same hash hold the same receipts, or two of their receipts
    exhibit a SHA-256 collision. *)
Theorem verifyPomRxChain_binds_history receipts1 receipts2 ap1 ap2 chain1 chain2 c1 c2 :
  assertPomRxChain receipts1 ap1 = Ok chain1 -> assertPomRxChain receipts2 ap2 = Ok chain2 ->
  last chain1 = Some c1 -> last chain2 = Some c2 -> receiptHash c1 = receiptHash c2 ->
  chain1 = chain2 \/
  exists d1 d2, d1 ∈ chain1 /\ d2 ∈ chain2 /\ receipt_collision d1 d2.
Proof.
  intros (F1 & S1 & _ & N1)%chain_of_ok (F2 & S2 & _ & N2)%chain_of_ok L1 L2 E.
  apply last_Some in L1 as [l1 ->], L2 as [l2 ->].
  by apply linked_last_eq.
Qed.

(** in an accepted chain whose instants all fall in the years 0 to 9999 the
    instants never decrease.  ([time_order_wraps] shows the bound is needed.) *)
Theorem accepted_chain_chronological receipts ap chain i a b ta tb :
  assertPomRxChain receipts ap = Ok chain ->
  chain !! i = Some a -> chain !! S i = Some b ->
  p_occurred_at (c_receipt a) = to_iso_string ta ->
  p_occurred_at (c_receipt b) = to_iso_string tb ->
  four_digit_year ta -> four_digit_year tb -> ta <= tb.
Proof.
  intros (_ & S & _)%chain_of_ok Ha Hb Ea Eb Ya Yb.
  assert (linked a b) as (_ & Hle & _).
  { revert i Ha Hb. induction S as [|x l S IH Hd]; intros i Ha Hb; [done|].
    destruct i as [|i]; simpl in *.
    - injection Ha as ->. destruct l as [|y l]; [done|]. injection Hb as ->. by inversion Hd.
    - eauto. }
  rewrite Ea, Eb in Hle. unfold str_leb in Hle. rewrite iso_order in Hle by done.
  apply negb_true_iff, Z.ltb_ge in Hle. done.
Qed.
End pom_rx_properties.

(** ** Concrete chains *)

Section pom_rx_witnesses.
#[local] Existing Instances plain_string_host checksum_hash_host iso_date_host.

Definition sample_assertion (id : string) : assertion :=
  {| rule_id := js id; rule_hash := repeat 97%N 64; result := Pass;
     proof_mode := Commitment; evidence_hash := repeat 98%N 64 |}.

Definition sample_receipt (id : string) (p : phase) (o : outcome) (prev : option jsstr)
    (t : string) : pom_receipt :=
  {| p_receipt_id := js id; run_id := js "run-0000000000000001"; p_phase := p; p_outcome := o;
     agent_ref := js "agent:alpha"; subject_ref := js "subject:one";
     method_hash := repeat 99%N 64; policy_hash := repeat 100%N 64;
     input_commitment := repeat 101%N 64; action_commitment := repeat 102%N 64;
     assertions := [sample_assertion "limit.a"; sample_assertion "limit.b"];
     previous_receipt_hash := prev; p_occurred_at := js t;
     source_key_id := js "source-1" |}.

Definition hash_of (r : pom_receipt) : option jsstr :=
  match commitPomRxReceipt (pom_value r) with Ok c => Some (receiptHash c) | Throw _ => None end.

Definition chain_of (t1 t2 t3 : string) : list pom_receipt :=
  let r1 := sample_receipt "receipt-preflight-1" Preflight Allow None t1 in
  let r2 := sample_receipt "receipt-execution-1" Execution Accepted (hash_of r1) t2 in
  let r3 := sample_receipt "receipt-reconcile-1" Reconciliation Matched (hash_of r2) t3 in
  [r1; r2; r3].

Definition sample_chain : list pom_receipt :=
  Eval vm_compute in
    chain_of "2026-03-01T00:00:00.000Z" "2026-03-01T00:00:05.000Z" "2026-03-01T00:01:00.000Z".
Definition sample_receipts : jsv := VArr (pom_value <$> sample_chain).
Definition sample_committed : list committed :=
  Eval vm_compute in
    match assertPomRxChain sample_receipts false with Ok c => c | Throw _ => [] end.

Lemma sample_chain_Ok : assertPomRxChain sample_receipts false = Ok sample_committed.
Proof. vm_compute. reflexivity. Qed.

Definition sample_head : pom_receipt :=
  sample_receipt "receipt-preflight-1" Preflight Allow None "2026-03-01T00:00:00.000Z".
Definition sample_head_committed : committed :=
  Eval vm_compute in
    match commitPomRxReceipt (pom_value sample_head) with
    | Ok c => c
    | Throw _ => Build_committed sample_head [] []
    end.
Lemma sample_head_Ok : commitPomRxReceipt (pom_value sample_head) = Ok sample_head_committed.
Proof. vm_compute. reflexivity. Qed.

Lemma validatePomRxReceipt_exact_witness :
  reads_ref (VStr (js "agent:alpha")) (js "agent:alpha") /\ receipt_wf sample_head.
Proof.
  destruct (proj1 (validatePomRxReceipt_exact (pom_value sample_head) sample_head)) as [Hr Hw];
    [vm_compute; reflexivity|].
  split; [exact (rr_agent _ _ Hr)|exact Hw].
Defined.

Lemma commitPomRxReceipt_idempotent_witness :
  commitPomRxReceipt (pom_value (c_receipt sample_head_committed)) = Ok sample_head_committed.
Proof.
  apply (commitPomRxReceipt_idempotent (pom_value sample_head));
    [apply sample_head_Ok|vm_compute; reflexivity|vm_compute; reflexivity].
Defined.

Lemma commitPomRxReceipt_binding_witness :
  c_receipt sample_head_committed = c_receipt sample_head_committed \/
  receipt_collision sample_head_committed sample_head_committed.
Proof.
  apply (commitPomRxReceipt_binding (pom_value sample_head) (pom_value sample_head));
    [apply sample_head_Ok|apply sample_head_Ok|reflexivity].
Defined.

Lemma verifyPomRxChain_binds_history_witness :
  sample_committed = sample_committed \/
  exists d1 d2, d1 ∈ sample_committed /\ d2 ∈ sample_committed /\ receipt_collision d1 d2.
Proof.
  eapply (verifyPomRxChain_binds_history sample_receipts sample_receipts false false);
    [apply sample_chain_Ok|apply sample_chain_Ok|reflexivity|reflexivity|reflexivity].
Defined.

Lemma accepted_chain_chronological_witness : 1772323200000 <= 1772323205000.
Proof.
  eapply (accepted_chain_chronological sample_receipts false sample_committed 0);
    [apply sample_chain_Ok|reflexivity|reflexivity|vm_compute; reflexivity
    |vm_compute; reflexivity|split; vm_compute; discriminate|split; vm_compute; discriminate].
Defined.

Definition wrapped_receipts : jsv :=
  Eval vm_compute in VArr (pom_value <$> chain_of "+010000-01-01T00:00:00.000Z"
    "2026-03-01T00:00:00.000Z" "2026-03-01T00:01:00.000Z").
Definition wrapped_verdict : chain_verdict :=
  Eval vm_compute in verifyPomRxChain wrapped_receipts false.
Lemma wrapped_verdict_ok :
  verifyPomRxChain wrapped_receipts false = wrapped_verdict.
Proof. vm_compute. reflexivity. Qed.
Definition wrapped_commit (i : nat) : res committed :=
  match wrapped_receipts with
  | VArr items => match items !! i with
                  | Some v => commitPomRxReceipt v
                  | None => Throw (type_error [])
                  end
  | _ => Throw (type_error [])
  end.
Definition occurred_in (m : res committed) : option Z :=
  match m with Ok c => iso_parse (p_occurred_at (c_receipt c)) | Throw _ => None end.

(** beyond the year 9999 the instants are compared as strings that start
    with a sign, so a chain whose execution is dated some eight thousand years
    before its preflight is accepted. *)
Theorem time_order_wraps :
  (exists status hashes, verifyPomRxChain wrapped_receipts false = ChainOk status hashes) /\
  occurred_in (wrapped_commit 0) = Some 253402300800000 /\
  occurred_in (wrapped_commit 1) = Some 1772323200000.
Proof.
  split; [|split; vm_compute; reflexivity].
  rewrite wrapped_verdict_ok. eexists _, _. reflexivity.
Qed.
End pom_rx_witnesses.
