(* ===== verification/JsHeap.v ===== *)
(** * Objects with identity

    The modules of [core/] receive values that other code built and may still
    hold, so their boundary checks are modelled on a heap: proxies, prototypes,
    symbol keys, property attributes, accessors, sparse arrays and aliasing are
    all visible.  Inert values taken from the heap are [jsv] (see [JsValue]).

    A heap is total: every reference denotes an object.  The internal methods
    of a proxy are never reached, since every boundary rejects proxies first;
    the getters and setters of an accessor are never run either, so an accessor
    carries no code. *)
From S2P Require Import Prelude JsDate JsValue.

Definition loc := nat.

Inductive hval :=
  | HUndef
  | HNull
  | HBool (b : bool)
  | HNum (n : jsnum)
  | HStr (s : jsstr)
  | HBig (z : Z)
  | HSym (i : nat)
  | HFun (f : nat)
  | HRef (l : loc).

#[export] Instance hval_eq_dec : EqDecision hval.
Proof. solve_decision. Defined.

(** [Object.getPrototypeOf] of an object, as far as the source tells it apart. *)
Inductive hproto := ObjectPrototype | ArrayPrototype | NullPrototype | OtherPrototype.
#[export] Instance hproto_eq_dec : EqDecision hproto.
Proof. solve_decision. Defined.

(** A property descriptor. *)
Inductive content := Data (v : hval) | Accessor.
Record prop := { p_enumerable : bool; p_content : content }.

(** [o_array] is the [length] of an array exotic object, [o_props] its other own
    properties with string keys, in the order of [getOwnPropertyNames]. *)
Record hobj := {
  o_proxy : bool;
  o_proto : hproto;
  o_array : option Z;
  o_symbols : nat;
  o_props : list (jsstr * prop);
}.

Definition heap := loc -> hobj.

(** [Object.getOwnPropertyNames(o)] *)
Definition own_names (o : hobj) : list jsstr :=
  (o_props o).*1 ++ match o_array o with Some _ => [js "length"] | None => [] end.

(** [isOwnEnumerableDataDescriptor(descriptors[key])] and the value. *)
Definition enumerable_data (d : option prop) : option hval :=
  match d with
  | Some {| p_enumerable := true; p_content := Data v |} => Some v
  | _ => None
  end.

(** [descriptors[key]] for a key that is not ['length'] of an array. *)
Definition own_descriptor (o : hobj) (k : jsstr) : option prop := alist_get k (o_props o).

Lemma enumerable_data_Some d v :
  enumerable_data d = Some v <-> d = Some {| p_enumerable := true; p_content := Data v |}.
Proof.
  destruct d as [[[] [w|]]|]; simpl; split; intros H; simplify_eq; done.
Qed.

(** An object that is not a proxy nor an array, has the default or the null
    prototype and no symbol keys: the boundary every exact record must pass. *)
Definition plain_object (o : hobj) : bool :=
  negb (o_proxy o) && bool_decide (o_array o = None) &&
  bool_decide (o_proto o ∈ [ObjectPrototype; NullPrototype]) &&
  (o_symbols o =? 0)%nat.

(** A snapshot of an object's data properties, in the order of the keys asked
    for.  It is a fresh frozen object, so it is a value. *)
Definition snapshot := list (jsstr * hval).
Definition snap_get (k : jsstr) (s : snapshot) : hval := default HUndef (alist_get k s).

(** [for (const key of keys) snapshot[key] = descriptors[key].value], with
    [fail_at key] thrown where the descriptor is not enumerable data. *)
Definition snapshot_keys (o : hobj) (keys : list jsstr) (fail_at : jsstr -> jserr)
  : res snapshot :=
  map_res (fun key =>
    match enumerable_data (own_descriptor o key) with
    | Some v => Ok (key, v)
    | None => Throw (fail_at key)
    end) keys.

(** [typeof v === 'string' && test(v)] *)
Definition hstr_that (test : jsstr -> bool) (v : hval) : option jsstr :=
  match v with HStr s => if test s then Some s else None | _ => None end.

Lemma hstr_that_Some test v s : hstr_that test v = Some s <-> v = HStr s /\ test s = true.
Proof.
  destruct v as [| | | |t| | | |]; simpl; try (split; [done|by intros []]).
  destruct (test t) eqn:E; split; try done.
  - by intros [= ->].
  - by intros [[= ->] _].
  - intros [[= ->] ?]. congruence.
Qed.

Lemma snapshot_keys_Ok o keys fail_at s :
  snapshot_keys o keys fail_at = Ok s <->
  Forall2 (fun key kv => kv.1 = key /\
    own_descriptor o key = Some {| p_enumerable := true; p_content := Data kv.2 |}) keys s.
Proof.
  unfold snapshot_keys, snapshot in *. rewrite map_res_Ok.
  split; intros H; (eapply Forall2_impl; [exact H|]); intros key [k v]; simpl; clear H.
  - destruct (enumerable_data _) as [w|] eqn:E; [|done].
    intros [= <- <-]. by apply enumerable_data_Some in E.
  - intros [-> H]. apply enumerable_data_Some in H. by rewrite H.
Qed.

(** Read a field of a snapshot. *)
Lemma snap_get_Forall2 o keys s k :
  k ∈ keys ->
  Forall2 (fun key kv => kv.1 = key /\
    own_descriptor o key = Some {| p_enumerable := true; p_content := Data kv.2 |}) keys s ->
  own_descriptor o k = Some {| p_enumerable := true; p_content := Data (snap_get k s) |}.
Proof.
  intros Hk H. induction H as [|key [k' v] keys s [<- Hd] _ IH]; [by apply not_elem_of_nil in Hk|].
  simpl in *. unfold snap_get. simpl. destruct (str_eqb k' k) eqn:E.
  - by apply str_eqb_eq in E as ->.
  - apply str_eqb_neq in E. apply elem_of_cons in Hk as [?|Hk]; [by destruct E|]. by apply IH.
Qed.
