(* ===== verification/PlainData.v ===== *)
(** * Bounded plain-data snapshots

    Models [core/reference-data/plain-data-snapshot.mjs]: the copy of a value
    from the heap into inert data, which every entry point of [core/] makes
    before it looks at its arguments. *)
From S2P Require Import Prelude JsDate JsValue ProofSdk Canonical JsHeap.

(** [REFERENCE_PLAIN_DATA_LIMITS] *)
Definition max_depth : nat := 8.
Definition max_nodes : Z := 1000.
Definition max_string_length : Z := 16384.
Definition max_key_length : nat := 128.
Definition max_array_length : Z := 1000.

(** [/^[A-Za-z0-9_.:/-]{1,128}$/u] *)
Definition SAFE_KEY_PATTERN : jsstr -> bool :=
  re_class (fun c => is_alnum c || is_one_of "_.:/-" c) 1 128.

Definition data_error (code : string) (label : jsstr) (msg : string) : jserr :=
  Err PlainDataErr (js code) (label ++ js msg).

Definition unsafe_key (key : jsstr) : bool :=
  (max_key_length <? length key)%nat || negb (SAFE_KEY_PATTERN key) ||
  mem_str key (js <$> ["__proto__"; "constructor"; "prototype"]).

(** [label[key]] and [label.key] *)
Definition index_label (label key : jsstr) : jsstr := label ++ js "[" ++ key ++ js "]".
Definition field_label (label key : jsstr) : jsstr := label ++ js "." ++ key.

Section capture.
Context (h : heap).

(** [rejectProxy], the prototype check and the symbol check of an object. *)
Definition reject_shape (o : hobj) (protos : list hproto) (label : jsstr) (what : string)
  : res unit :=
  _ ← guard_or (negb (o_proxy o)) (data_error "POMRX_DATA_E_PROXY" label " cannot be a Proxy");
  _ ← guard_or (bool_decide (o_proto o ∈ protos))
        (data_error "POMRX_DATA_E_PROTOTYPE" label what);
  guard_or (o_symbols o =? 0)%nat
    (data_error "POMRX_DATA_E_SYMBOL" label " cannot contain symbol keys").

(** [captureArray]: [capture] is the recursive call on an element with its
    label; the last argument is [budget.remaining]. *)
Definition captureArray (capture : hval -> jsstr -> Z -> res (jsv * Z)) (o : hobj)
    (length : Z) (label : jsstr) (remaining : Z) : res (jsv * Z) :=
  _ ← reject_shape o [ArrayPrototype] label " must use Array.prototype";
  _ ← guard_or ((0 <=? length) && (length <=? max_array_length))
        (data_error "POMRX_DATA_E_ARRAY" label " has an invalid array length");
  _ ← guard_or (length <=? remaining)
        (data_error "POMRX_DATA_E_NODES" label " exceeds the remaining node budget");
  _ ← guard_or (Z.of_nat (List.length (own_names o)) =? length + 1)
        (data_error "POMRX_DATA_E_ARRAY" label " must be a dense undecorated array");
  '(items, remaining) ← fold_res (fun index '(output, remaining) =>
      let key := string_of_Z (Z.of_nat index) in
      d ← match own_descriptor o key with
          | None => Throw (data_error "POMRX_DATA_E_ARRAY" label
                             " must contain every array index as an own property")
          | Some d => Ok d
          end;
      v ← match enumerable_data (Some d) with
          | None => Throw (data_error "POMRX_DATA_E_ARRAY" label
                             " must contain dense data elements only")
          | Some v => Ok v
          end;
      '(captured, remaining) ← capture v (index_label label key) remaining;
      Ok (output ++ [captured], remaining)) (seq 0 (Z.to_nat length)) ([], remaining);
  Ok (VArr items, remaining).

Definition captureObject (capture : hval -> jsstr -> Z -> res (jsv * Z)) (o : hobj)
    (label : jsstr) (remaining : Z) : res (jsv * Z) :=
  _ ← reject_shape o [ObjectPrototype; NullPrototype] label " must be a plain object";
  _ ← guard_or (Z.of_nat (List.length (own_names o)) <=? remaining)
        (data_error "POMRX_DATA_E_NODES" label " exceeds the remaining node budget");
  '(entries, remaining) ← fold_res (fun key '(output, remaining) =>
      _ ← guard_or (negb (unsafe_key key))
            (Err PlainDataErr (js "POMRX_DATA_E_KEY")
               (label ++ js " contains an unsafe key: " ++ key));
      v ← match enumerable_data (own_descriptor o key) with
          | None => Throw (data_error "POMRX_DATA_E_ACCESSOR" (field_label label key)
                             " must be an enumerable data property")
          | Some v => Ok v
          end;
      '(captured, remaining) ← capture v (field_label label key) remaining;
      Ok (output ++ [(key, captured)], remaining)) (own_names o) ([], remaining);
  Ok (VObj PNull entries, remaining).

(** [room] is [max_depth + 1 - depth], so [0] is the depth error. *)
Fixpoint captureValue (room : nat) (value : hval) (label : jsstr) (remaining : Z)
  : res (jsv * Z) :=
  match room with
  | O => Throw (data_error "POMRX_DATA_E_DEPTH" label " exceeds the maximum depth")
  | S room' =>
      _ ← guard_or (0 <? remaining)
            (data_error "POMRX_DATA_E_NODES" label " exceeds the maximum node count");
      let remaining := remaining - 1 in
      match value with
      | HNull => Ok (VNull, remaining)
      | HBool b => Ok (VBool b, remaining)
      | HStr s =>
          _ ← guard_or (Z.of_nat (length s) <=? max_string_length)
                (data_error "POMRX_DATA_E_STRING" label " string is too long");
          Ok (VStr s, remaining)
      | HNum n =>
          _ ← guard_or (bool_decide (is_Some (is_safe_integer (VNum n))))
                (data_error "POMRX_DATA_E_NUMBER" label " must be a safe integer");
          Ok (VNum n, remaining)
      | HUndef | HBig _ | HSym _ | HFun _ =>
          Throw (data_error "POMRX_DATA_E_TYPE" label " contains an unsupported value")
      | HRef l =>
          let o := h l in
          _ ← guard_or (negb (o_proxy o))
                (data_error "POMRX_DATA_E_PROXY" label " cannot be a Proxy");
          match o_array o with
          | Some length => captureArray (captureValue room') o length label remaining
          | None => captureObject (captureValue room') o label remaining
          end
      end
  end.

Definition captureReferencePlainData (value : hval) (label : jsstr) : res jsv :=
  _ ← guard_or ((1 <=? length label)%nat && (length label <=? 128)%nat)
        (type_error (js "plain-data snapshot label must be a non-empty bounded string"));
  fst <$> captureValue (S max_depth) value label max_nodes.
End capture.

(** ** What a capture throws *)

Definition is_data_error (e : jserr) : Prop := err_cls e = PlainDataErr.

Ltac data_error_step := first
  [ exact I | reflexivity | apply throws_only_guard; reflexivity
  | apply throws_only_bind; [|intros ? _] ].

Lemma reject_shape_throws o protos label what :
  throws_only is_data_error (reject_shape o protos label what).
Proof. unfold reject_shape. repeat data_error_step. Qed.

Lemma captureValue_throws h room v label rem :
  throws_only is_data_error (captureValue h room v label rem).
Proof.
  revert v label rem. induction room as [|room IH]; intros v label rem; [reflexivity|].
  cbn [captureValue]. apply throws_only_bind; [by apply throws_only_guard|]. intros _ _.
  destruct v as [| |b|n|s|z|i|f|l]; repeat data_error_step.
  destruct (o_array (h l)) as [len|]; unfold captureArray, captureObject.
  - apply throws_only_bind; [apply reject_shape_throws|]. intros _ _.
    do 3 (apply throws_only_bind; [by apply throws_only_guard|]; intros _ _).
    apply throws_only_bind; [|by intros [] _]. apply throws_only_fold_res.
    intros index [out rem'] _. apply throws_only_bind; [by destruct (own_descriptor _ _)|].
    intros d _. apply throws_only_bind; [by destruct (enumerable_data _)|]. intros w _.
    apply throws_only_bind; [apply IH|]. by intros [] _.
  - apply throws_only_bind; [apply reject_shape_throws|]. intros _ _.
    apply throws_only_bind; [by apply throws_only_guard|]. intros _ _.
    apply throws_only_bind; [|by intros [] _]. apply throws_only_fold_res.
    intros key [out rem'] _. apply throws_only_bind; [by apply throws_only_guard|].
    intros _ _. apply throws_only_bind; [by destruct (enumerable_data _)|]. intros w _.
    apply throws_only_bind; [apply IH|]. by intros [] _.
Qed.

Lemma captureReferencePlainData_throws h v label :
  (1 <= length label <= 128)%nat ->
  throws_only is_data_error (captureReferencePlainData h v label).
Proof.
  intros [H1 H2]. unfold captureReferencePlainData.
  rewrite (proj2 (Nat.leb_le _ _) H1), (proj2 (Nat.leb_le _ _) H2). cbn [andb guard_or mbind res_bind].
  pose proof (captureValue_throws h (S max_depth) v label max_nodes) as H.
  by destruct (captureValue _ _ _ _ _) as [[]|].
Qed.

(** ** What a capture accepts *)

(** A loop that appends one result per element and pays its cost from a
    budget. *)
Lemma fold_res_collect {A B} (f : A -> list B * Z -> res (list B * Z))
    (R : A -> B -> Prop) (cost : B -> Z) l :
  (forall y, 0 <= cost y) ->
  (forall x out rem s, x ∈ l -> 0 <= rem -> f x (out, rem) = Ok s <->
     exists y, R x y /\ cost y <= rem /\ s = (out ++ [y], rem - cost y)) ->
  forall out rem s, 0 <= rem -> fold_res f l (out, rem) = Ok s <->
    exists ys, Forall2 R l ys /\ foldr (fun y n => cost y + n) 0 ys <= rem /\
      s = (out ++ ys, rem - foldr (fun y n => cost y + n) 0 ys).
Proof.
  intros Hpos. induction l as [|x l IH]; intros Hf out rem s Hrem.
  - simpl. split.
    + intros [= <-]. exists []. rewrite app_nil_r. simpl. split; [constructor|].
      split; [lia|]. f_equal. lia.
    + intros (ys & H & _ & ->). inversion H. rewrite app_nil_r. simpl. do 2 f_equal. lia.
  - rewrite fold_res_cons, bind_Ok. split.
    + intros ([out' rem'] & H & Hl). apply Hf in H as (y & Hy & Hle & [= -> ->]); [|left|done].
      apply IH in Hl as (ys & Hys & Hle' & ->);
        [|intros; apply Hf; [by right|done]|lia].
      exists (y :: ys). simpl. split; [by constructor|]. split; [lia|].
      rewrite <- app_assoc. simpl. f_equal. lia.
    + intros (ys & H & Hle & ->). inversion H as [|? y ? ys' Hy Hys]; subst. simpl in *.
      assert (0 <= foldr (fun y n => cost y + n) 0 ys') as Hp0.
      { clear -Hpos. induction ys' as [|z ys' IH]; simpl; [lia|]. specialize (Hpos z). lia. }
      exists (out ++ [y], rem - cost y). split.
      * apply Hf; [left|done|]. exists y. split; [done|]. split; [lia|done].
      * apply IH; [intros; apply Hf; [by right|done]|specialize (Hpos y); lia|].
        exists ys'. split; [done|]. split; [lia|]. rewrite <- app_assoc. simpl. f_equal. lia.
Qed.

Section capture_spec.
Context (h : heap).

(** An object with an admissible prototype, no symbols and no proxy. *)
Definition inert (o : hobj) (protos : list hproto) : Prop :=
  o_proxy o = false /\ o_proto o ∈ protos /\ o_symbols o = 0%nat.

(** [denotes room v d]: within [room] levels, the value [v] of the heap is the
    inert data [d]. *)
Fixpoint denotes (room : nat) (v : hval) (d : jsv) : Prop :=
  match room with
  | O => False
  | S room' =>
      match v, d with
      | HNull, VNull => True
      | HBool b, VBool b' => b = b'
      | HStr s, VStr s' => s = s' /\ Z.of_nat (length s) <= max_string_length
      | HNum n, VNum n' => n = n' /\ is_Some (is_safe_integer (VNum n))
      | HRef l, VArr items =>
          inert (h l) [ArrayPrototype] /\
          o_array (h l) = Some (Z.of_nat (length items)) /\
          Z.of_nat (length items) <= max_array_length /\
          length (o_props (h l)) = length items /\
          Forall2 (fun index item => exists v,
            own_descriptor (h l) (string_of_Z (Z.of_nat index))
              = Some {| p_enumerable := true; p_content := Data v |} /\
            denotes room' v item) (seq 0 (length items)) items
      | HRef l, VObj PNull entries =>
          inert (h l) [ObjectPrototype; NullPrototype] /\ o_array (h l) = None /\
          Forall2 (fun key kv => kv.1 = key /\ unsafe_key key = false /\ exists v,
            own_descriptor (h l) key = Some {| p_enumerable := true; p_content := Data v |} /\
            denotes room' v kv.2) (own_names (h l)) entries
      | _, _ => False
      end
  end.

Definition cost_list (ds : list jsv) : Z := foldr (fun d n => node_count d + n) 0 ds.

Lemma reject_shape_Ok o protos label what u :
  reject_shape o protos label what = Ok u <-> inert o protos.
Proof.
  unfold reject_shape, inert. rewrite !guard_bind_Ok, guard_or_Ok, negb_true_iff,
    bool_decide_eq_true, Nat.eqb_eq. tauto.
Qed.

(** One element of either loop. *)
Lemma capture_step_Ok {A} (room : nat)
    (capture : hval -> jsstr -> Z -> res (jsv * Z)) (mk : jsv -> A) v label out rem s :
  0 <= rem ->
  (forall v label rem d rem', 0 <= rem -> capture v label rem = Ok (d, rem') <->
     denotes room v d /\ node_count d <= rem /\ rem' = rem - node_count d) ->
  ('(captured, remaining) ← capture v label rem; Ok (out ++ [mk captured], remaining)) = Ok s <->
  exists d, denotes room v d /\ node_count d <= rem /\
    s = (out ++ [mk d], rem - node_count d).
Proof.
  intros Hrem Hcap. rewrite bind_Ok. split.
  - intros ([d rem'] & H & [= <-]). apply Hcap in H as (? & ? & ->); [|done]. by exists d.
  - intros (d & ? & ? & ->). exists (d, rem - node_count d). split; [|done]. by apply Hcap.
Qed.

Lemma captureArray_Ok capture room o len label rem d rem' :
  0 <= rem -> o_array o = Some len ->
  (forall v label rem d rem', 0 <= rem -> capture v label rem = Ok (d, rem') <->
     denotes room v d /\ node_count d <= rem /\ rem' = rem - node_count d) ->
  captureArray capture o len label rem = Ok (d, rem') <->
  exists items, d = VArr items /\ inert o [ArrayPrototype] /\
    len = Z.of_nat (length items) /\ len <= max_array_length /\
    length (o_props o) = length items /\
    Forall2 (fun index item => exists v,
      own_descriptor o (string_of_Z (Z.of_nat index))
        = Some {| p_enumerable := true; p_content := Data v |} /\
      denotes room v item) (seq 0 (length items)) items /\
    cost_list items <= rem /\ rem' = rem - cost_list items.
Proof.
  intros Hrem Harr Hcap. unfold captureArray.
  match goal with |- context [fold_res ?f _ _] => set (body := f) end.
  assert (forall n s, fold_res body (seq 0 n) ([], rem) = Ok s <->
    exists items, Forall2 (fun index item => exists v,
        own_descriptor o (string_of_Z (Z.of_nat index))
          = Some {| p_enumerable := true; p_content := Data v |} /\
        denotes room v item) (seq 0 n) items /\
      cost_list items <= rem /\ s = (items, rem - cost_list items)) as Hloop.
  { intros n s. unfold cost_list.
    rewrite (fold_res_collect body (fun index item => exists v,
        own_descriptor o (string_of_Z (Z.of_nat index))
          = Some {| p_enumerable := true; p_content := Data v |} /\ denotes room v item)
      node_count); [done|intros y; pose proof (node_count_pos y); lia| |done].
    intros index out rem0 s0 _ Hrem0. unfold body.
    destruct (own_descriptor _ _) as [p|]; [|split; [done|by intros (? & (? & ? & _) & _)]].
    cbn [mbind res_bind].
    destruct (enumerable_data (Some p)) as [v|] eqn:E; cbn [mbind res_bind].
    - apply enumerable_data_Some in E. injection E as ->.
      rewrite (capture_step_Ok room capture id) by done. split.
      + intros (d0 & ? & ? & ->). exists d0. eauto.
      + intros (d0 & (w & [= <-] & ?) & ? & ->). by exists d0.
    - split; [done|]. intros (? & (w & E' & _) & _). injection E' as ->. done. }
  rewrite bind_Ok. split.
  - intros ([] & Hi%reject_shape_Ok & H).
    apply guard_bind_Ok in H as [[H1%Z.leb_le H2%Z.leb_le]%andb_true_iff H].
    apply guard_bind_Ok in H as [H3%Z.leb_le H]. apply guard_bind_Ok in H as [H4%Z.eqb_eq H].
    apply bind_Ok in H as ([items r] & H & [= <- <-]). apply Hloop in H as (? & Hf & ? & [= <- ->]).
    pose proof (Forall2_length _ _ _ Hf) as Hl. rewrite length_seq in Hl.
    unfold own_names in H4. rewrite Harr, length_app, length_fmap in H4. simpl in H4.
    exists items. replace (length items) with (Z.to_nat len). split; [done|]. split; [done|].
    split; [lia|]. split; [done|]. split; [lia|]. done.
  - intros (items & -> & Hi & -> & Hmax & Hprops & Hf & Hc & ->).
    exists tt. split; [by apply reject_shape_Ok|].
    assert (Z.of_nat (length items) <= cost_list items) as Hcount.
    { clear. induction items as [|d items IH]; simpl; [lia|].
      pose proof (node_count_pos d). lia. }
    rewrite !guard_bind_Ok. split; [apply andb_true_iff; rewrite !Z.leb_le; lia|].
    split; [apply Z.leb_le; lia|]. split.
    { apply Z.eqb_eq. unfold own_names. rewrite Harr, length_app, length_fmap. simpl. lia. }
    rewrite bind_Ok. exists (items, rem - cost_list items). split; [|done].
    apply Hloop. rewrite Nat2Z.id. by exists items.
Qed.

Definition cost_entries (entries : list (jsstr * jsv)) : Z :=
  foldr (fun kv n => node_count kv.2 + n) 0 entries.

Lemma captureObject_Ok capture room o label rem d rem' :
  0 <= rem -> o_array o = None ->
  (forall v label rem d rem', 0 <= rem -> capture v label rem = Ok (d, rem') <->
     denotes room v d /\ node_count d <= rem /\ rem' = rem - node_count d) ->
  captureObject capture o label rem = Ok (d, rem') <->
  exists entries, d = VObj PNull entries /\ inert o [ObjectPrototype; NullPrototype] /\
    Forall2 (fun key kv => kv.1 = key /\ unsafe_key key = false /\ exists v,
      own_descriptor o key = Some {| p_enumerable := true; p_content := Data v |} /\
      denotes room v kv.2) (own_names o) entries /\
    cost_entries entries <= rem /\ rem' = rem - cost_entries entries.
Proof.
  intros Hrem Harr Hcap. unfold captureObject.
  match goal with |- context [fold_res ?f _ _] => set (body := f) end.
  assert (forall s, fold_res body (own_names o) ([], rem) = Ok s <->
    exists entries, Forall2 (fun key kv => kv.1 = key /\ unsafe_key key = false /\ exists v,
        own_descriptor o key = Some {| p_enumerable := true; p_content := Data v |} /\
        denotes room v kv.2) (own_names o) entries /\
      cost_entries entries <= rem /\ s = (entries, rem - cost_entries entries)) as Hloop.
  { intros s. unfold cost_entries.
    rewrite (fold_res_collect body (fun key kv => kv.1 = key /\ unsafe_key key = false /\
        exists v, own_descriptor o key = Some {| p_enumerable := true; p_content := Data v |} /\
        denotes room v kv.2) (fun kv => node_count kv.2));
      [done|intros [k y]; simpl; pose proof (node_count_pos y); lia| |done].
    intros key out rem0 s0 _ Hrem0. unfold body. rewrite guard_bind_Ok, negb_true_iff.
    destruct (enumerable_data (own_descriptor o key)) as [v|] eqn:E; cbn [mbind res_bind].
    - apply enumerable_data_Some in E. rewrite (capture_step_Ok room capture (pair key)) by done.
      split.
      + intros (Hk & d0 & ? & ? & ->). exists (key, d0). simpl. eauto 10.
      + intros ([k d0] & (<- & Hk & w & Hw & ?) & ? & ->). simpl in *. split; [done|].
        exists d0. assert (w = v) as -> by congruence. done.
    - split; [by intros [_ ?]|]. intros (? & (_ & _ & w & Hw & _) & _). by rewrite Hw in E. }
  rewrite bind_Ok. split.
  - intros ([] & Hi%reject_shape_Ok & H).
    apply guard_bind_Ok in H as [H1%Z.leb_le H].
    apply bind_Ok in H as ([entries r] & H & [= <- <-]).
    apply Hloop in H as (? & Hf & ? & [= <- ->]). by exists entries.
  - intros (entries & -> & Hi & Hf & Hc & ->).
    exists tt. split; [by apply reject_shape_Ok|].
    assert (Z.of_nat (length entries) <= cost_entries entries) as Hcount.
    { clear. induction entries as [|[k d] items IH]; simpl; [lia|].
      pose proof (node_count_pos d). lia. }
    pose proof (Forall2_length _ _ _ Hf).
    rewrite guard_bind_Ok. split; [apply Z.leb_le; lia|].
    rewrite bind_Ok. exists (entries, rem - cost_entries entries). split; [|done].
    apply Hloop. by exists entries.
Qed.

Lemma denotes_ref room l d :
  denotes (S room) (HRef l) d <->
  match o_array (h l) with
  | Some len =>
      exists items, d = VArr items /\ inert (h l) [ArrayPrototype] /\
        len = Z.of_nat (length items) /\ len <= max_array_length /\
        length (o_props (h l)) = length items /\
        Forall2 (fun index item => exists v,
          own_descriptor (h l) (string_of_Z (Z.of_nat index))
            = Some {| p_enumerable := true; p_content := Data v |} /\
          denotes room v item) (seq 0 (length items)) items
  | None =>
      exists entries, d = VObj PNull entries /\ inert (h l) [ObjectPrototype; NullPrototype] /\
        Forall2 (fun key kv => kv.1 = key /\ unsafe_key key = false /\ exists v,
          own_descriptor (h l) key = Some {| p_enumerable := true; p_content := Data v |} /\
          denotes room v kv.2) (own_names (h l)) entries
  end.
Proof.
  cbn [denotes]. destruct d as [| | | | | | | |items|[] entries];
    try (by destruct (o_array (h l)); (split; [done|intros (? & ? & _)])).
  - split.
    + intros (Hi & -> & ? & ? & ?). by exists items.
    + destruct (o_array (h l)); [|by intros (? & ? & _)].
      by intros (? & [= <-] & ? & -> & ? & ? & ?).
  - split.
    + intros (? & -> & ?). by exists entries.
    + destruct (o_array (h l)); [by intros (? & ? & _)|]. by intros (? & [= <-] & ? & ?).
Qed.

(** Capturing succeeds exactly on what denotes inert data within the room and
    the budget, and takes one node of the budget for every value. *)
Lemma captureValue_Ok room v label rem d rem' :
  0 <= rem ->
  captureValue h room v label rem = Ok (d, rem') <->
  denotes room v d /\ node_count d <= rem /\ rem' = rem - node_count d.
Proof.
  revert v label rem d rem'. induction room as [|room IH]; intros v label rem d rem' Hrem;
    [by split; [|intros [? _]]|].
  cbn [captureValue]. rewrite guard_bind_Ok, Z.ltb_lt. destruct v as [| |b|n|s|z|i|f|l].
  - split; [by intros [_ ?]|intros [Hd _]; by destruct d as [| | | | | | | | |[]]].
  - split; [intros (? & [= <- <-]); split; [done|simpl; lia]|].
    intros (Hd & Hc & ->). destruct d as [| | | | | | | | |[]]; try done. split; [simpl in *; lia|].
    do 2 f_equal.
  - split; [intros (? & [= <- <-]); split; [done|simpl; lia]|].
    intros (Hd & Hc & ->). destruct d as [| | | | | | | | |[]]; try done. simpl in Hd. subst.
    split; [simpl in *; lia|done].
  - rewrite guard_bind_Ok, bool_decide_eq_true. split.
    + intros (? & ? & [= <- <-]). split; [by split|]. cbn [node_count]. lia.
    + intros (Hd & Hc & ->). destruct d as [| | |n'| | | | | |[]]; try done.
      destruct Hd as [<- ?]. split; [simpl in *; lia|]. by split.
  - rewrite guard_bind_Ok, Z.leb_le. split.
    + intros (? & ? & [= <- <-]). split; [by split|]. cbn [node_count]. lia.
    + intros (Hd & Hc & ->). destruct d as [| | | |s'| | | | |[]]; try done.
      destruct Hd as [<- ?]. split; [simpl in *; lia|]. by split.
  - split; [by intros [_ ?]|intros [Hd _]; by destruct d as [| | | | | | | | |[]]].
  - split; [by intros [_ ?]|intros [Hd _]; by destruct d as [| | | | | | | | |[]]].
  - split; [by intros [_ ?]|intros [Hd _]; by destruct d as [| | | | | | | | |[]]].
  - rewrite denotes_ref, guard_bind_Ok, negb_true_iff. destruct (o_array (h l)) as [len|] eqn:E.
    + split.
      * intros (? & ? & H). apply (captureArray_Ok _ room) in H; [|lia|done|intros; by apply IH].
        destruct H as (items & -> & ? & ? & ? & ? & ? & ? & ->).
        unfold cost_list in *. cbn [node_count]. split; [by exists items|lia].
      * intros ((items & -> & Hi & ? & ? & ? & ?) & Hc & ->). cbn [node_count] in Hc.
        fold (cost_list items) in Hc. assert (0 <= cost_list items).
        { clear. induction items as [|x l IH]; simpl; [lia|]. pose proof (node_count_pos x). lia. }
        split; [lia|]. split; [apply Hi|].
        apply (captureArray_Ok _ room); [lia|done|intros; by apply IH|].
        exists items. repeat (split; [done|]). split; [lia|].
        cbn [node_count]. fold (cost_list items). lia.
    + split.
      * intros (? & ? & H). apply (captureObject_Ok _ room) in H; [|lia|done|intros; by apply IH].
        destruct H as (entries & -> & ? & ? & ? & ->).
        unfold cost_entries in *. cbn [node_count]. split; [by exists entries|lia].
      * intros ((entries & -> & Hi & ?) & Hc & ->). cbn [node_count] in Hc.
        fold (cost_entries entries) in Hc. assert (0 <= cost_entries entries).
        { clear. induction entries as [|x l IH]; simpl; [lia|]. pose proof (node_count_pos x.2). lia. }
        split; [lia|]. split; [apply Hi|].
        apply (captureObject_Ok _ room); [lia|done|intros; by apply IH|].
        exists entries. repeat (split; [done|]). split; [lia|].
        cbn [node_count]. fold (cost_entries entries). lia.
Qed.
End capture_spec.

(** ** Properties *)

Section capture_properties.
Context (h : heap).

(** Inert data within [room] levels and the other limits. *)
Fixpoint bounded_data (room : nat) (d : jsv) : Prop :=
  match room with
  | O => False
  | S room' =>
      match d with
      | VNull | VBool _ => True
      | VStr s => Z.of_nat (length s) <= max_string_length
      | VNum n => is_Some (is_safe_integer (VNum n))
      | VArr items =>
          Z.of_nat (length items) <= max_array_length /\ Forall (bounded_data room') items
      | VObj PNull entries =>
          Forall (fun kv => unsafe_key kv.1 = false /\ bounded_data room' kv.2) entries
      | _ => False
      end
  end.

Lemma denotes_bounded room v d : denotes h room v d -> bounded_data room d.
Proof.
  revert v d. induction room as [|room IH]; intros v d H; [done|].
  destruct v as [| |b|n|s|z|i|f|l];
    try (destruct d as [| | | | | | | | |[]]; try done; by destruct H as [<- ?]).
  apply denotes_ref in H. destruct (o_array (h l)).
  - destruct H as (items & -> & _ & -> & ? & _ & Hf). split; [done|].
    eapply Forall2_Forall_r; [exact Hf|]. apply Forall_true. intros i x (w & _ & Hw). eauto.
  - destruct H as (entries & -> & _ & Hf). cbn [bounded_data].
    eapply Forall2_Forall_r; [exact Hf|]. apply Forall_true.
    intros k [k' x] (<- & Hk & w & _ & Hw). simpl in *. eauto.
Qed.

(** C22: the capture accepts exactly the values that denote inert data within
    8 levels below the root and 1000 nodes: every object on the way is no proxy,
    has the default (or null, for a record) prototype, no symbols, only
    enumerable data properties with safe keys, and every array is dense and
    undecorated; the result is that data. *)
Theorem captureReferencePlainData_iff value label d :
  captureReferencePlainData h value label = Ok d <->
  (1 <= length label <= 128)%nat /\ denotes h (S max_depth) value d /\
  node_count d <= max_nodes.
Proof.
  unfold captureReferencePlainData. rewrite guard_bind_Ok, andb_true_iff, !Nat.leb_le, fmap_Ok.
  split.
  - intros (? & [d' r] & H & <-). apply captureValue_Ok in H; [tauto|done].
  - intros (? & Hd & Hc). split; [done|]. exists (d, max_nodes - node_count d).
    split; [|done]. by apply captureValue_Ok.
Qed.

(** whatever the capture returns is bounded inert data. *)
Theorem captureReferencePlainData_bounded value label d :
  captureReferencePlainData h value label = Ok d ->
  bounded_data (S max_depth) d /\ node_count d <= max_nodes.
Proof.
  unfold captureReferencePlainData. intros (_ & ([d' r] & H & <-)%fmap_Ok)%guard_bind_Ok.
  apply captureValue_Ok in H as (? & ? & _); [|done]. split; [|done]. by eapply denotes_bounded.
Qed.

(** *** Cycles *)

(** The object [l] holds a reference to [l'] in one of its properties. *)
Definition points_to (l l' : loc) : Prop :=
  exists k e, own_descriptor (h l) k = Some {| p_enumerable := e; p_content := Data (HRef l') |}.

(** Own property names are distinct, as in every object. *)
Definition distinct_names : Prop := forall l, NoDup (o_props (h l)).*1.

Lemma string_of_nonneg_inj x y : 0 <= x -> 0 <= y -> string_of_Z x = string_of_Z y -> x = y.
Proof.
  intros Hx Hy. unfold string_of_Z.
  rewrite (proj2 (Z.ltb_ge x 0)), (proj2 (Z.ltb_ge y 0)) by lia. intros E.
  destruct (string_of_nonneg_spec x Hx) as (<- & _), (string_of_nonneg_spec y Hy) as (<- & _).
  by rewrite E.
Qed.

(** A dense undecorated array has no property besides its elements. *)
Lemma array_keys l n k :
  distinct_names -> length (o_props (h l)) = n ->
  (forall i, (i < n)%nat -> is_Some (own_descriptor (h l) (string_of_Z (Z.of_nat i)))) ->
  is_Some (own_descriptor (h l) k) -> exists i, (i < n)%nat /\ k = string_of_Z (Z.of_nat i).
Proof.
  intros Hnd Hlen Hall Hk. unfold own_descriptor in *.
  set (names := (fun i => string_of_Z (Z.of_nat i)) <$> seq 0 n).
  assert (names ≡ₚ (o_props (h l)).*1) as Hp.
  { apply submseteq_length_Permutation.
    - apply NoDup_submseteq.
      + apply NoDup_fmap_2_strong; [|apply NoDup_seq].
        intros x y _ _ E%string_of_nonneg_inj; lia.
      + intros x (i & -> & Hi%elem_of_seq)%list_elem_of_fmap.
        apply alist_get_is_Some. apply Hall. lia.
    - unfold names. rewrite !length_fmap, length_seq. lia. }
  apply alist_get_is_Some in Hk. rewrite <- Hp in Hk.
  apply list_elem_of_fmap in Hk as (i & -> & Hi%elem_of_seq). exists i. split; [lia|done].
Qed.

Lemma denotes_points_to room l d l' :
  distinct_names -> denotes h (S room) (HRef l) d -> points_to l l' ->
  exists d', denotes h room (HRef l') d'.
Proof.
  intros Hnd H (k & e & Hk). apply denotes_ref in H. destruct (o_array (h l)) eqn:Ea.
  - destruct H as (items & -> & _ & -> & _ & Hlen & Hf).
    assert (forall i, (i < length items)%nat -> exists v x,
      own_descriptor (h l) (string_of_Z (Z.of_nat i))
        = Some {| p_enumerable := true; p_content := Data v |} /\ denotes h room v x) as Hel.
    { intros i Hi. destruct (lookup_lt_is_Some_2 items i Hi) as [x Hx].
      eapply Forall2_lookup_r in Hf as (j & Hj & v & Hv & Hd); [|exact Hx].
      apply lookup_seq in Hj as [-> _]. eauto. }
    destruct (array_keys l (length items) k) as (i & Hi & ->); [done|done| |by eexists|].
    { intros i Hi. destruct (Hel i Hi) as (v & x & Hv & _). by eexists. }
    destruct (Hel i Hi) as (v & x & Hv & Hx). rewrite Hk in Hv. injection Hv as -> <-. by exists x.
  - destruct H as (entries & -> & _ & Hf).
    assert (k ∈ own_names (h l)) as Hin.
    { unfold own_names. rewrite Ea, app_nil_r. apply alist_get_is_Some. by eexists. }
    apply list_elem_of_lookup in Hin as [i Hi].
    eapply Forall2_lookup_l in Hf as ([k' x] & _ & Hkk & _ & v & Hv & Hx); [|exact Hi].
    rewrite Hk in Hv. injection Hv as -> <-. by exists x.
Qed.

(** a value that can reach itself through its properties is never
    captured: the depth limit cuts every cycle. *)
Theorem captureReferencePlainData_acyclic l label d :
  distinct_names -> tc points_to l l -> captureReferencePlainData h (HRef l) label <> Ok d.
Proof.
  intros Hnd Hcyc. unfold captureReferencePlainData.
  intros (_ & ([d' r] & H & <-)%fmap_Ok)%guard_bind_Ok.
  apply captureValue_Ok in H as (Hd & _ & _); [|done]. clear r label.
  assert (forall a b, tc points_to a b -> forall room d, denotes h room (HRef a) d ->
    exists room' d', (room' < room)%nat /\ denotes h room' (HRef b) d') as Hdown.
  { induction 1 as [a b Hab|a b c Hab _ IH]; intros [|room] d0 H0; try done.
    - destruct (denotes_points_to _ _ _ _ Hnd H0 Hab) as [d1 H1]. exists room, d1. auto with lia.
    - destruct (denotes_points_to _ _ _ _ Hnd H0 Hab) as [d1 H1].
      destruct (IH _ _ H1) as (room' & d2 & ? & ?). exists room', d2. split; [lia|done]. }
  revert Hd. generalize (S max_depth). intros room. revert d'.
  induction room as [room IH] using lt_wf_ind. intros d' Hd.
  destruct (Hdown l l Hcyc room d' Hd) as (room' & d2 & Hlt & H2). by eapply IH.
Qed.
End capture_properties.

(** ** A small heap *)

Section capture_witness.

Definition data_prop (v : hval) : prop := {| p_enumerable := true; p_content := Data v |}.

(** [0] is [{ items: [1, "a"], self: <1> }] and [1] is an object that holds
    itself. *)
Definition sample_heap : heap := fun l =>
  match l with
  | O => {| o_proxy := false; o_proto := ObjectPrototype; o_array := None; o_symbols := 0;
      o_props := [(js "items", data_prop (HRef 2%nat))] |}
  | S O => {| o_proxy := false; o_proto := NullPrototype; o_array := None; o_symbols := 0;
      o_props := [(js "self", data_prop (HRef 1%nat))] |}
  | _ => {| o_proxy := false; o_proto := ArrayPrototype; o_array := Some 2; o_symbols := 0;
      o_props := [(js "0", data_prop (HNum (NInt 1))); (js "1", data_prop (HStr (js "a")))] |}
  end.

Definition sample_data : jsv :=
  VObj PNull [(js "items", VArr [VNum (NInt 1); VStr (js "a")])].

Lemma captureReferencePlainData_bounded_witness :
  bounded_data (S max_depth) sample_data /\ node_count sample_data <= max_nodes.
Proof.
  apply (captureReferencePlainData_bounded sample_heap (HRef 0%nat) (js "value")).
  vm_compute. reflexivity.
Defined.

Lemma captureReferencePlainData_acyclic_witness :
  captureReferencePlainData sample_heap (HRef 1%nat) (js "value") <> Ok sample_data.
Proof.
  apply captureReferencePlainData_acyclic.
  - intros l. destruct l as [|[|l]]; decide_now.
  - apply tc_once. exists (js "self"), true. reflexivity.
Defined.
End capture_witness.
