(* ===== verification/Authorization.v ===== *)
(** * Exact authorization bindings

    Models [core/authorization/reference-exact-authorization.mjs].  Inputs are
    objects of the heap; a binding is the snapshot taken of one, with its
    fields in the order of [BINDING_KEYS]. *)
From S2P Require Import Prelude JsDate JsValue ProofSdk Canonical Receipt Normal JsHeap.

Definition POM_RX_EXACT_AUTHORIZATION_SCHEMA_VERSION : jsstr :=
  js "pom-rx-exact-authorization/0.1".
Definition POM_RX_EXACT_AUTHORIZATION_COMMIT_DOMAIN : jsstr :=
  js "swisstokint:pom-rx-exact-authorization:v1:".
Definition MAX_LIFETIME_MS : Z := 300000.
Definition MIN_LIFETIME_MS : Z := 1000.

Definition INPUT_KEYS : list jsstr := js <$>
  ["binding_profile"; "run_id"; "agent_ref"; "subject_ref"; "method_hash";
   "policy_hash"; "action_commitment"; "context_commitment";
   "preflight_receipt_hash"; "witness_ack_hash"; "source_key_id";
   "witness_key_id"; "verification_profile"; "verifier_version";
   "implementation_artifact_sha256"; "effective_verification_policy_sha256";
   "issued_at"; "expires_at"].
Definition BINDING_KEYS : list jsstr :=
  js "schema_version" :: js "capability_id" :: INPUT_KEYS.
Definition PREPARE_OPTION_KEYS : list jsstr := js <$> ["witnessValidUntil"; "capabilityId"].

Definition capability_error (code : string) (msg : jsstr) : jserr :=
  Err CapabilityErr (js code) msg.
Definition mismatch (msg : jsstr) : jserr := capability_error "POMRX_GATE_E_BINDING_MISMATCH" msg.
Definition time_invalid (msg : jsstr) : jserr := capability_error "POMRX_GATE_E_TIME_INVALID" msg.

(** The non-proxy object a value refers to, when it is one. *)
Definition object_of (h : heap) (v : hval) : option hobj :=
  match v with
  | HRef l => if o_proxy (h l) then None else Some (h l)
  | _ => None
  end.

Section snapshots.
Context (h : heap).

Definition assertPlainObjectBoundary (value : hval) (label : string) : res hobj :=
  o ← match object_of h value with
      | Some o => Ok o
      | None => Throw (mismatch (js label ++ js " must be a non-Proxy object"))
      end;
  _ ← guard_or (bool_decide (o_array o = None)) (mismatch (js label ++ js " must be an object"));
  _ ← guard_or (bool_decide (o_proto o ∈ [ObjectPrototype; NullPrototype]))
        (mismatch (js label ++ js " must be a plain object"));
  _ ← guard_or (o_symbols o =? 0)%nat
        (mismatch (js label ++ js " cannot contain symbol keys"));
  Ok o.

Definition snapshotExactDataObject (value : hval) (expectedKeys : list jsstr)
    (label : string) : res snapshot :=
  o ← assertPlainObjectBoundary value label;
  _ ← guard_or (same_keys (own_names o) expectedKeys)
        (mismatch (js label ++ js " has missing or unknown fields"));
  snapshot_keys o expectedKeys (fun key =>
    mismatch (js label ++ js "." ++ key ++ js " must be an enumerable data property")).

(** [{ witnessValidUntil, capabilityId }]; [options] defaults to [{}]. *)
Definition snapshotPrepareOptions (value : hval) : res (hval * hval) :=
  match value with
  | HUndef => Ok (HUndef, HUndef)
  | _ =>
      let label := "Reference exact authorization options"%string in
      o ← assertPlainObjectBoundary value label;
      _ ← for_each (fun key =>
        _ ← guard_or (mem_str key PREPARE_OPTION_KEYS)
              (mismatch (js "Reference exact authorization options have unknown fields"));
        guard_or (bool_decide (is_Some (enumerable_data (own_descriptor o key))))
          (mismatch (js label ++ js "." ++ key ++ js " must be an enumerable data property")))
        (own_names o);
      let field k := default HUndef (enumerable_data (own_descriptor o (js k))) in
      Ok (field "witnessValidUntil", field "capabilityId")
  end.
End snapshots.

Definition assertStringPattern (value : hval) (pattern : jsstr -> bool) (field : jsstr)
  : res jsstr :=
  match hstr_that pattern value with
  | Some s => Ok s
  | None => Throw (mismatch (field ++ js " has an invalid format"))
  end.

Definition canonicalUtcInstant `{DateHost} (value : hval) (field : jsstr) : res Z :=
  match value with
  | HStr s =>
      match canonical_instant s with
      | Some t => Ok t
      | None => Throw (time_invalid (field ++ js " must be a canonical UTC instant"))
      end
  | _ => Throw (time_invalid (field ++ js " must be a canonical UTC instant"))
  end.

(** The formats checked before and after the identity test. *)
Definition identity_patterns : list (jsstr * (jsstr -> bool)) :=
  [(js "capability_id", capability_id_pattern); (js "binding_profile", profile_pattern);
   (js "run_id", id_pattern); (js "agent_ref", id_pattern); (js "subject_ref", id_pattern);
   (js "verification_profile", profile_pattern); (js "verifier_version", profile_pattern);
   (js "source_key_id", key_id_pattern); (js "witness_key_id", key_id_pattern)].
Definition hash_fields : list jsstr := js <$>
  ["method_hash"; "policy_hash"; "action_commitment"; "context_commitment";
   "preflight_receipt_hash"; "witness_ack_hash"; "implementation_artifact_sha256";
   "effective_verification_policy_sha256"].

Section authorization.
Context `{SH : !StringHost, HH : !HashHost, DH : !DateHost}.

(** [issuedAt] and [expiresAt] of a valid binding. *)
Definition validateBindingSnapshot (binding : snapshot) : res (Z * Z) :=
  let field k := snap_get (js k) binding in
  _ ← guard_or (bool_decide (field "schema_version" = HStr POM_RX_EXACT_AUTHORIZATION_SCHEMA_VERSION))
        (mismatch (js "Unsupported exact authorization schema version"));
  _ ← for_each (fun '(key, pattern) =>
        _ ← assertStringPattern (snap_get key binding) pattern key; Ok tt) identity_patterns;
  _ ← guard_or (negb (bool_decide (field "source_key_id" = field "witness_key_id")))
        (mismatch (js "Source and witness identities must be distinct"));
  _ ← for_each (fun key =>
        _ ← assertStringPattern (snap_get key binding) hash_pattern key; Ok tt) hash_fields;
  issuedAt ← canonicalUtcInstant (field "issued_at") (js "issued_at");
  expiresAt ← canonicalUtcInstant (field "expires_at") (js "expires_at");
  let lifetimeMs := expiresAt - issuedAt in
  _ ← guard_or (negb ((lifetimeMs <? MIN_LIFETIME_MS) || (MAX_LIFETIME_MS <? lifetimeMs)))
        (time_invalid (js "Reference capability lifetime must be between 1 second and 5 minutes"));
  Ok (issuedAt, expiresAt).

Definition snapshotAndValidateBinding (h : heap) (binding : hval) : res (snapshot * (Z * Z)) :=
  snapshot ← snapshotExactDataObject h binding BINDING_KEYS "Exact authorization binding";
  times ← validateBindingSnapshot snapshot;
  Ok (snapshot, times).

(** A primitive or object of the heap as a payload; a validated binding holds
    strings only. *)
Definition payload_of (v : hval) : jsv :=
  match v with
  | HUndef => VUndef | HNull => VNull | HBool b => VBool b | HNum n => VNum n
  | HStr s => VStr s | HBig z => VBig z | HSym i => VSym i | HFun f => VFun f
  | HRef _ => VUndef
  end.
Definition binding_value (binding : snapshot) : jsv :=
  VObj PNull ((fun '(k, v) => (k, payload_of v)) <$> binding).

Definition commit_input (canonicalBinding : jsstr) : jsstr :=
  POM_RX_EXACT_AUTHORIZATION_COMMIT_DOMAIN ++ canonicalBinding.

(** [{ canonicalBinding, authorizationCommitment }] *)
Definition commitValidatedBinding (binding : snapshot) : res (jsstr * jsstr) :=
  canonicalBinding ← canonicalizePayload (binding_value binding);
  Ok (canonicalBinding, sha256Hex (commit_input canonicalBinding)).

Definition commitExactAuthorizationBinding (h : heap) (binding : hval) : res (jsstr * jsstr) :=
  '(snapshot, _) ← snapshotAndValidateBinding h binding;
  commitValidatedBinding snapshot.

Record authorization_evidence := {
  ev_binding : snapshot;
  authorization_commitment : jsstr;
  reference_only : bool;
  authorization_eligible : bool;
  authorization_proved : bool;
}.

(** The record for an input and the snapshot of the options (evaluated after
    that of the input). *)
Definition prepareWithOptions (h : heap) (bindingInput : hval) (options : res (hval * hval))
  : res (snapshot * authorization_evidence) :=
  inputSnapshot ← snapshotExactDataObject h bindingInput INPUT_KEYS
      "Reference exact authorization input";
  '(witnessValidUntil, capabilityId) ← options;
  _ ← assertStringPattern capabilityId capability_id_pattern (js "capability_id");
  witnessExpiry ← canonicalUtcInstant witnessValidUntil (js "witness_valid_until");
  let binding := (js "schema_version", HStr POM_RX_EXACT_AUTHORIZATION_SCHEMA_VERSION)
    :: (js "capability_id", capabilityId) :: inputSnapshot in
  '(_, expiresAt) ← validateBindingSnapshot binding;
  _ ← guard_or (expiresAt <=? witnessExpiry)
        (time_invalid (js "Reference capability expiry cannot exceed witness validity"));
  '(_, commitment) ← commitValidatedBinding binding;
  Ok (binding, {| ev_binding := binding; authorization_commitment := commitment;
                  reference_only := true; authorization_eligible := false;
                  authorization_proved := false |}).

Definition prepareReferenceExactAuthorizationRecord (h : heap) (bindingInput options : hval)
  : res (snapshot * authorization_evidence) :=
  prepareWithOptions h bindingInput (snapshotPrepareOptions h options).
End authorization.

(** ** Valid bindings *)

(** A string of the formats a binding uses. *)
Definition short_plain (s : jsstr) : Prop := plain s = true /\ (length s <= 128)%nat.

Lemma short_plain_ascii s : short_plain s -> forallb is_ascii s = true.
Proof. intros [H _]. by apply plain_ascii. Qed.

Lemma identity_patterns_plain k p s :
  (k, p) ∈ identity_patterns -> p s = true -> short_plain s.
Proof.
  assert (Forall (fun '(k, p) => forall s, p s = true -> short_plain s) identity_patterns) as H.
  { unfold identity_patterns, short_plain.
    repeat (apply List.Forall_cons; [intros t Ht;
      first [ apply capability_id_pattern_plain in Ht as [? ?]
            | apply profile_pattern_plain in Ht as [? ?] | apply id_pattern_plain in Ht as [? ?]
            | apply key_id_pattern_plain in Ht as [? ?] ]; split; (done || lia)|]).
    constructor. }
  rewrite Forall_forall in H. intros Hin. apply (H (k, p) Hin).
Qed.

Definition string_field (pattern : jsstr -> bool) (b : snapshot) (k : jsstr) : Prop :=
  exists s, snap_get k b = HStr s /\ pattern s = true.
Definition instant_field (b : snapshot) (k : jsstr) (t : Z) : Prop :=
  snap_get k b = HStr (to_iso_string t) /\ time_valid t = true.

(** A binding whose fields all have their formats, whose two identities differ
    and whose lifetime is between one second and five minutes. *)
Record binding_wf (b : snapshot) (issued expires : Z) : Prop := {
  bw_schema : snap_get (js "schema_version") b
              = HStr POM_RX_EXACT_AUTHORIZATION_SCHEMA_VERSION;
  bw_identities : Forall (fun '(k, p) => string_field p b k) identity_patterns;
  bw_distinct : snap_get (js "source_key_id") b <> snap_get (js "witness_key_id") b;
  bw_hashes : Forall (string_field hash_pattern b) hash_fields;
  bw_issued : instant_field b (js "issued_at") issued;
  bw_expires : instant_field b (js "expires_at") expires;
  bw_lifetime : MIN_LIFETIME_MS <= expires - issued <= MAX_LIFETIME_MS;
}.

Lemma assertStringPattern_Ok v p f s :
  assertStringPattern v p f = Ok s <-> v = HStr s /\ p s = true.
Proof.
  unfold assertStringPattern. destruct (hstr_that p v) as [t|] eqn:E.
  - apply hstr_that_Some in E as [-> ?]. split; [by intros [= <-]|by intros [[= ->] _]].
  - split; [done|]. intros H%hstr_that_Some. congruence.
Qed.

Lemma assert_string_field v p f u :
  (_ ← assertStringPattern v p f; Ok tt) = Ok u <-> exists s, v = HStr s /\ p s = true.
Proof.
  destruct u. rewrite bind_Ok. setoid_rewrite assertStringPattern_Ok.
  split; [intros (s & H & _); by exists s|intros (s & H); exists s; by split].
Qed.

Lemma canonicalUtcInstant_Ok `{DateHost} v f t :
  canonicalUtcInstant v f = Ok t <-> v = HStr (to_iso_string t) /\ time_valid t = true.
Proof.
  unfold canonicalUtcInstant. destruct v; try (split; [done|by intros [? _]]).
  destruct (canonical_instant s) as [u|] eqn:E.
  - apply canonical_instant_Some in E as [? ->]. split.
    + by intros [= <-].
    + intros [[= Ht] ?]. apply to_iso_string_inj in Ht; [by subst|done|done].
  - split; [done|]. intros [[= ->] Hv].
    assert (canonical_instant (to_iso_string t) = Some t) by by apply canonical_instant_Some.
    congruence.
Qed.

Section authorization_proofs.
Context `{SH : !StringHost, HH : !HashHost, DH : !DateHost}.

Lemma validateBindingSnapshot_Ok b i e :
  validateBindingSnapshot b = Ok (i, e) <-> binding_wf b i e.
Proof.
  unfold validateBindingSnapshot. rewrite guard_bind_Ok, bool_decide_eq_true. split.
  - intros (Hs & H). apply bind_Ok in H as ([] & Hid & H). apply for_each_Ok in Hid.
    apply guard_bind_Ok in H as [Hd H]. apply bind_Ok in H as ([] & Hh & H).
    apply for_each_Ok in Hh. apply bind_Ok in H as (i' & Hi & H).
    apply bind_Ok in H as (e' & He & H). apply guard_bind_Ok in H as [Hl [= <- <-]].
    apply canonicalUtcInstant_Ok in Hi, He.
    split; try done.
    + eapply Forall_impl; [exact Hid|]. intros [k p] Hk. by apply assert_string_field in Hk.
    + by apply negb_true_iff, bool_decide_eq_false in Hd.
    + eapply Forall_impl; [exact Hh|]. intros k Hk. by apply assert_string_field in Hk.
    + apply negb_true_iff, orb_false_iff in Hl. lia.
  - intros [Hs Hid Hd Hh Hi He Hl]. split; [done|]. rewrite bind_Ok. exists tt. split.
    { apply for_each_Ok. eapply Forall_impl; [exact Hid|]. intros [k p] ?.
      by apply assert_string_field. }
    rewrite guard_bind_Ok, negb_true_iff, bool_decide_eq_false. split; [done|].
    rewrite bind_Ok. exists tt. split.
    { apply for_each_Ok. eapply Forall_impl; [exact Hh|]. intros k ?.
      by apply assert_string_field. }
    rewrite bind_Ok. exists i. split; [by apply canonicalUtcInstant_Ok|].
    rewrite bind_Ok. exists e. split; [by apply canonicalUtcInstant_Ok|].
    rewrite guard_bind_Ok. split; [|done]. apply negb_true_iff, orb_false_iff. lia.
Qed.

(** Every field of a valid binding is a short plain string. *)
Lemma binding_strings b i e k :
  binding_wf b i e -> k ∈ BINDING_KEYS ->
  exists s, snap_get k b = HStr s /\ short_plain s.
Proof.
  intros W Hk.
  assert (Forall (fun k => k = js "schema_version" \/ k ∈ identity_patterns.*1 \/
    k ∈ hash_fields \/ k = js "issued_at" \/ k = js "expires_at") BINDING_KEYS) as Hall by decide_now.
  rewrite Forall_forall in Hall.
  destruct (Hall k Hk) as [->|[Hid|[Hh|[-> | ->]]]].
  - eexists. split; [apply W|]. split; [done|vm_compute; lia].
  - apply list_elem_of_fmap in Hid as ([k' p] & -> & Hin).
    pose proof (bw_identities _ _ _ W) as Hf. rewrite Forall_forall in Hf.
    destruct (Hf _ Hin) as (s & Hs & Hp). exists s. split; [done|].
    by eapply identity_patterns_plain.
  - pose proof (bw_hashes _ _ _ W) as Hf. rewrite Forall_forall in Hf.
    destruct (Hf _ Hh) as (s & Hs & Hp). exists s. split; [done|].
    apply hash_pattern_plain in Hp as [? ?]. split; [done|lia].
  - destruct (bw_issued _ _ _ W) as [E _]. eexists. split; [done|].
    destruct (to_iso_string_plain i). split; [done|lia].
  - destruct (bw_expires _ _ _ W) as [E _]. eexists. split; [done|].
    destruct (to_iso_string_plain e). split; [done|lia].
Qed.

Lemma snap_get_lookup (b : snapshot) k v :
  NoDup b.*1 -> (k, v) ∈ b -> snap_get k b = v.
Proof. intros Hnd Hin. unfold snap_get. by rewrite (alist_get_elem k v). Qed.

Lemma snap_ext (b1 b2 : snapshot) :
  b1.*1 = b2.*1 -> NoDup b1.*1 ->
  (forall k, k ∈ b1.*1 -> snap_get k b1 = snap_get k b2) -> b1 = b2.
Proof.
  unfold snapshot in *. intros Hk Hnd Heq. assert (NoDup b2.*1) as Hnd2 by by rewrite <- Hk.
  apply list_eq. intros i.
  pose proof (f_equal (lookup i) Hk) as Hi. rewrite !list_lookup_fmap in Hi.
  destruct (b1 !! i) as [[k v]|] eqn:E1, (b2 !! i) as [[k' v']|] eqn:E2; try done.
  simpl in Hi. injection Hi as <-. do 2 f_equal.
  rewrite <- (snap_get_lookup b1 k v), <- (snap_get_lookup b2 k v');
    [|done|by eapply list_elem_of_lookup_2|done|by eapply list_elem_of_lookup_2].
  apply Heq. apply list_elem_of_fmap. exists (k, v). split; [done|]. by eapply list_elem_of_lookup_2.
Qed.

Lemma binding_value_keys b : ((fun '(k, v) => (k, payload_of v)) <$> b : list (jsstr * jsv)).*1 = b.*1.
Proof. rewrite <- list_fmap_compose. apply list_fmap_ext. by intros ? []. Qed.

Lemma get_binding_value b k : get k (binding_value b) = payload_of (snap_get k b).
Proof.
  unfold binding_value, snap_get. cbn [get].
  induction b as [|[k' v] b IH]; simpl; [done|]. by destruct (str_eqb k' k).
Qed.

Lemma BINDING_KEYS_NoDup : NoDup BINDING_KEYS.
Proof. decide_now. Qed.

Lemma binding_value_wf b i e :
  b.*1 = BINDING_KEYS -> binding_wf b i e -> wf_value (binding_value b).
Proof.
  intros Hk W. unfold binding_value. cbn [wf_value]. rewrite binding_value_keys, Hk.
  split; [apply BINDING_KEYS_NoDup|]. apply fold_right_Forall.
  apply Forall_fmap, Forall_forall. intros [k v] Hin. simpl.
  assert (v = snap_get k b) as ->.
  { symmetry. apply snap_get_lookup; [rewrite Hk; apply BINDING_KEYS_NoDup|done]. }
  destruct (binding_strings b i e k W) as (s & -> & _); [|done].
  rewrite <- Hk. apply list_elem_of_fmap. by eexists (k, _).
Qed.

Lemma binding_value_inj b1 b2 i1 e1 i2 e2 :
  b1.*1 = BINDING_KEYS -> b2.*1 = BINDING_KEYS ->
  binding_wf b1 i1 e1 -> binding_wf b2 i2 e2 ->
  normalize (binding_value b1) = normalize (binding_value b2) -> b1 = b2.
Proof.
  intros K1 K2 W1 W2 H. apply snap_ext; [congruence|rewrite K1; apply BINDING_KEYS_NoDup|].
  rewrite K1. intros k Hk.
  assert (normalize (get k (binding_value b1)) = normalize (get k (binding_value b2))) as G.
  { apply normalize_get_eq; [| |exact H]; rewrite binding_value_keys;
      rewrite ?K1, ?K2; apply BINDING_KEYS_NoDup. }
  rewrite !get_binding_value in G.
  destruct (binding_strings b1 i1 e1 k W1 Hk) as (s1 & E1 & A1).
  destruct (binding_strings b2 i2 e2 k W2 Hk) as (s2 & E2 & A2).
  rewrite E1, E2 in *. f_equal.
  apply normalize_str_inj; auto using ascii_nfc_fixed, short_plain_ascii.
Qed.

Lemma binding_keys_safe : forallb (fun k => safe_key k && (length k <=? 40)%nat) BINDING_KEYS = true.
Proof. vm_compute. reflexivity. Qed.

(** A valid binding always has a commitment: it is far below the limits of
    [canonicalizePayload]. *)
Lemma commitValidatedBinding_total b i e :
  b.*1 = BINDING_KEYS -> binding_wf b i e ->
  exists c, commitValidatedBinding b = Ok (c, sha256Hex (commit_input c)).
Proof.
  intros Hk W.
  assert (Forall (fun kv => safe_key kv.1 = true /\ (length kv.1 <= 40)%nat /\
    exists s, kv.2 = HStr s /\ short_plain s) b) as Hall.
  { apply Forall_forall. intros [k v] Hin. simpl.
    assert (k ∈ BINDING_KEYS) as Hkk
      by (rewrite <- Hk; apply list_elem_of_fmap; by exists (k, v)).
    pose proof binding_keys_safe as Hs. rewrite forallb_forall in Hs.
    specialize (Hs k (proj1 (list_elem_of_In _ _) Hkk)).
    apply andb_true_iff in Hs as [? ?%Nat.leb_le]. split; [done|]. split; [done|].
    assert (snap_get k b = v) as <- by
      (apply snap_get_lookup; [rewrite Hk; apply BINDING_KEYS_NoDup|done]).
    by eapply binding_strings. }
  assert (length b = 20%nat) as Hlen
    by (rewrite <- (length_fmap fst), Hk; reflexivity).
  destruct (canonicalizePayload_total PNull ((fun '(k, v) => (k, payload_of v)) <$> b)) as [c Hc].
  - by eapply binding_value_wf.
  - cbn [safe_value]. split; [done|]. apply fold_right_Forall, Forall_fmap.
    eapply Forall_impl; [exact Hall|]. intros [k v] (Hs & _ & s & Hv & Hp & Hl).
    simpl in Hv. subst. destruct (safe_key_ok k Hs) as (? & ? & _).
    split; [done|]. split; [done|]. split; [done|]. simpl. unfold MAX_STRING_LENGTH. lia.
  - cbn [node_count]. clear -Hall Hlen.
    assert (foldr (fun kv n => node_count kv.2 + n) 0 ((fun '(k, v) => (k, payload_of v)) <$> b)
      = Z.of_nat (length b)) as ->; [|rewrite Hlen; lia].
    clear Hlen. induction Hall as [|[k v] b (_ & _ & s & Hv & _) _ IH]; [done|].
    cbn [fmap list_fmap foldr length] in *. simpl in Hv. subst. rewrite IH. simpl. lia.
  - cbn [plain_value]. apply fold_right_Forall, Forall_fmap.
    eapply Forall_impl; [exact Hall|]. intros [k v] (Hs & _ & s & Hv & Hp & Hl).
    simpl in Hv. subst. by destruct (safe_key_ok k Hs) as (_ & _ & ?).
  - cbn [text_size]. rewrite sum_list_with_fmap.
    assert (sum_list_with (fun kv : jsstr * hval =>
      let '(k, v) := (fun '(k, v) => (k, payload_of v)) kv in (length k + text_size v + 4)%nat) b
      <= 174 * length b)%nat as Hle; [|rewrite Hlen in Hle; unfold MAX_CANONICAL_BYTES].
    { clear -Hall. induction Hall as [|[k v] b (_ & Hkl & s & Hv & _ & Hl) _ IH]; [done|].
      cbn [sum_list_with length] in *. simpl in Hv, Hkl. subst. cbn [payload_of text_size]. lia. }
    match goal with |- context [sum_list_with ?g b] =>
      assert (sum_list_with g b <= 174 * 20)%nat as Hg end.
    { etrans; [|exact Hle]. apply sum_list_Forall2, Forall_Forall2_diag, Forall_true.
      by intros [k v]. }
    lia.
  - exists c. unfold commitValidatedBinding, binding_value. by rewrite Hc.
Qed.

(** Two valid bindings with the same commitment are equal or collide. *)
Lemma commitValidatedBinding_inj b1 b2 i1 e1 i2 e2 c1 c2 h :
  b1.*1 = BINDING_KEYS -> b2.*1 = BINDING_KEYS ->
  binding_wf b1 i1 e1 -> binding_wf b2 i2 e2 ->
  commitValidatedBinding b1 = Ok (c1, h) -> commitValidatedBinding b2 = Ok (c2, h) ->
  b1 = b2 \/ (commit_input c1 <> commit_input c2 /\
              sha256Hex (commit_input c1) = sha256Hex (commit_input c2)).
Proof.
  intros K1 K2 W1 W2 (t1 & T1 & [= <- H1])%bind_Ok (t2 & T2 & [= <- H2])%bind_Ok.
  destruct (decide (t1 = t2)) as [->|Hne].
  - left. apply canonicalizePayload_Ok in T1 as (_ & S1 & _ & C1 & _), T2 as (_ & S2 & _ & C2 & _).
    apply json_parse_canonical in C1, C2; eauto using safe_canonical_data, binding_value_wf.
    rewrite C1 in C2. apply (inj Some) in C2. by eapply binding_value_inj.
  - right. split; [|congruence]. unfold commit_input. intros E. by apply app_inv_head in E.
Qed.

Lemma snapshotExactDataObject_Ok h v keys label s :
  snapshotExactDataObject h v keys label = Ok s <->
  exists l, v = HRef l /\ plain_object (h l) = true /\ own_names (h l) ≡ₚ keys /\
    Forall2 (fun key kv => kv.1 = key /\
      own_descriptor (h l) key = Some {| p_enumerable := true; p_content := Data kv.2 |}) keys s.
Proof.
  unfold snapshotExactDataObject, assertPlainObjectBoundary, plain_object. split.
  - intros (o & Ho & H)%bind_Ok. apply guard_bind_Ok in H as [Hk%same_keys_iff H].
    apply bind_Ok in Ho as (o' & Ho' & Ho). destruct v as [| | | | | | | |l]; try done.
    simpl in Ho'. destruct (o_proxy (h l)) eqn:Ep; [done|]. injection Ho' as <-.
    apply guard_bind_Ok in Ho as [H1 Ho]. apply guard_bind_Ok in Ho as [H2 Ho].
    apply guard_bind_Ok in Ho as [H3 [= <-]]. exists l. apply snapshot_keys_Ok in H.
    rewrite Ep, H1, H2, H3. done.
  - intros (l & -> & Hp & Hk & Hf). rewrite !andb_true_iff in Hp. destruct Hp as [[[H0 H1] H2] H3].
    apply negb_true_iff in H0. simpl. rewrite H0. cbn [mbind res_bind].
    rewrite H1. cbn [guard_or mbind res_bind]. rewrite H2. cbn [guard_or mbind res_bind].
    rewrite H3. cbn [guard_or mbind res_bind]. apply same_keys_iff in Hk. rewrite Hk.
    cbn [guard_or mbind res_bind]. by apply snapshot_keys_Ok.
Qed.

Lemma snapshot_key_list o keys s :
  Forall2 (fun key kv => kv.1 = key /\
    own_descriptor o key = Some {| p_enumerable := true; p_content := Data kv.2 |}) keys s ->
  s.*1 = keys.
Proof.
  induction 1 as [|k [k' v] keys s [Hk _] _ IH]; [done|].
  rewrite fmap_cons. by f_equal.
Qed.
End authorization_proofs.

(** ** Properties *)

Section authorization_properties.
Context `{SH : !StringHost, HH : !HashHost, DH : !DateHost}.

Lemma prepare_keys h input s :
  snapshotExactDataObject h input INPUT_KEYS "Reference exact authorization input" = Ok s ->
  forall v, ((js "schema_version", HStr POM_RX_EXACT_AUTHORIZATION_SCHEMA_VERSION)
    :: (js "capability_id", v) :: s : snapshot).*1 = BINDING_KEYS.
Proof.
  intros (l & _ & _ & _ & Hf)%snapshotExactDataObject_Ok v.
  unfold BINDING_KEYS. rewrite !fmap_cons. do 2 f_equal. by eapply snapshot_key_list.
Qed.

Lemma prepareWithOptions_inv h i o b ev :
  prepareWithOptions h i o = Ok (b, ev) ->
  b.*1 = BINDING_KEYS /\ (exists t u, binding_wf b t u) /\
  exists c, commitValidatedBinding b = Ok (c, authorization_commitment ev).
Proof.
  unfold prepareWithOptions. intros (s & Hs & H)%bind_Ok. apply bind_Ok in H as ([w c] & _ & H).
  apply bind_Ok in H as (cap & _ & H). apply bind_Ok in H as (witness & _ & H).
  apply bind_Ok in H as ([t u] & Hv%validateBindingSnapshot_Ok & H).
  apply guard_bind_Ok in H as [_ H]. apply bind_Ok in H as ([can h'] & Hc & [= <- <-]).
  split; [by eapply prepare_keys|]. split; [by exists t, u|]. by exists can.
Qed.

(** C23: an authorization is prepared exactly for a plain object with the 18
    input fields as enumerable data, whose fields all have their formats, whose
    source and witness identities differ, and whose validity window lasts one
    second to five minutes and ends no later than the witness acknowledgement;
    the record is then the binding and the hash of its canonical text, and it
    never claims an authorization. *)
Theorem prepareReferenceExactAuthorizationRecord_iff h input options b ev :
  prepareReferenceExactAuthorizationRecord h input options = Ok (b, ev) <->
  exists s witness capability issued expires canonical,
    snapshotExactDataObject h input INPUT_KEYS "Reference exact authorization input" = Ok s /\
    snapshotPrepareOptions h options = Ok (HStr (to_iso_string witness), HStr capability) /\
    time_valid witness = true /\ capability_id_pattern capability = true /\
    b = (js "schema_version", HStr POM_RX_EXACT_AUTHORIZATION_SCHEMA_VERSION)
        :: (js "capability_id", HStr capability) :: s /\
    binding_wf b issued expires /\ expires <= witness /\
    canonicalizePayload (binding_value b) = Ok canonical /\
    ev = {| ev_binding := b; authorization_commitment := sha256Hex (commit_input canonical);
            reference_only := true; authorization_eligible := false;
            authorization_proved := false |}.
Proof.
  unfold prepareReferenceExactAuthorizationRecord, prepareWithOptions. split.
  - intros (s & Hs & H)%bind_Ok. apply bind_Ok in H as ([w c] & Ho & H).
    apply bind_Ok in H as (cap & (-> & Hcap)%assertStringPattern_Ok & H).
    apply bind_Ok in H as (witness & (-> & Hw)%canonicalUtcInstant_Ok & H).
    apply bind_Ok in H as ([i e] & Hv%validateBindingSnapshot_Ok & H).
    apply guard_bind_Ok in H as [Hle%Z.leb_le H].
    apply bind_Ok in H as ([can h'] & Hc & [= <- <-]).
    apply bind_Ok in Hc as (can' & Hc & [= <- <-]).
    exists s, witness, cap, i, e, can'. done.
  - intros (s & witness & cap & i & e & can & Hs & Ho & Hw & Hcap & -> & Wf & Hle & Hc & ->).
    rewrite Hs. cbn [mbind res_bind]. rewrite Ho. cbn [mbind res_bind].
    assert (assertStringPattern (HStr cap) capability_id_pattern (js "capability_id") = Ok cap)
      as -> by by apply assertStringPattern_Ok.
    cbn [mbind res_bind].
    assert (canonicalUtcInstant (HStr (to_iso_string witness)) (js "witness_valid_until")
      = Ok witness) as -> by by apply canonicalUtcInstant_Ok.
    cbn [mbind res_bind]. apply validateBindingSnapshot_Ok in Wf. rewrite Wf.
    cbn [mbind res_bind]. apply Z.leb_le in Hle. rewrite Hle. cbn [guard_or mbind res_bind].
    unfold commitValidatedBinding. by rewrite Hc.
Qed.

(** every valid input is committed: once the fields are checked the record
    is produced, the canonical form being always within its limits. *)
Theorem prepareReferenceExactAuthorizationRecord_total h input options s w c i e :
  snapshotExactDataObject h input INPUT_KEYS "Reference exact authorization input" = Ok s ->
  snapshotPrepareOptions h options = Ok (HStr (to_iso_string w), HStr c) ->
  time_valid w = true ->
  binding_wf ((js "schema_version", HStr POM_RX_EXACT_AUTHORIZATION_SCHEMA_VERSION)
    :: (js "capability_id", HStr c) :: s) i e -> e <= w ->
  exists r, prepareReferenceExactAuthorizationRecord h input options = Ok r.
Proof.
  intros Hs Ho Hw Wf Hle. unfold prepareReferenceExactAuthorizationRecord, prepareWithOptions.
  rewrite Hs. cbn [mbind res_bind]. rewrite Ho. cbn [mbind res_bind].
  assert (assertStringPattern (HStr c) capability_id_pattern (js "capability_id") = Ok c) as ->.
  { apply assertStringPattern_Ok. split; [done|].
    pose proof (bw_identities _ _ _ Wf) as Hf. apply Forall_cons in Hf as [(t & [= <-] & ?) _]. done. }
  cbn [mbind res_bind].
  assert (canonicalUtcInstant (HStr (to_iso_string w)) (js "witness_valid_until") = Ok w)
    as -> by by apply canonicalUtcInstant_Ok.
  cbn [mbind res_bind].
  destruct (commitValidatedBinding_total _ _ _ (prepare_keys _ _ _ Hs _) Wf) as [can Hc].
  apply validateBindingSnapshot_Ok in Wf as Hv. rewrite Hv. cbn [mbind res_bind].
  apply Z.leb_le in Hle. rewrite Hle. cbn [guard_or mbind res_bind]. rewrite Hc. by eexists.
Qed.

(** the authorization commitment binds all twenty fields: two prepared
    records with the same commitment have the same binding, or their two
    committed texts are a SHA-256 collision. *)
Theorem authorization_commitment_binding h1 in1 o1 b1 ev1 h2 in2 o2 b2 ev2 :
  prepareReferenceExactAuthorizationRecord h1 in1 o1 = Ok (b1, ev1) ->
  prepareReferenceExactAuthorizationRecord h2 in2 o2 = Ok (b2, ev2) ->
  authorization_commitment ev1 = authorization_commitment ev2 ->
  b1 = b2 \/ exists t1 t2, commit_input t1 <> commit_input t2 /\
    sha256Hex (commit_input t1) = sha256Hex (commit_input t2).
Proof.
  intros (K1 & (i1 & e1 & W1) & c1 & C1)%prepareWithOptions_inv (K2 & (i2 & e2 & W2) & c2 & C2)%prepareWithOptions_inv E.
  rewrite E in C1.
  destruct (commitValidatedBinding_inj _ _ _ _ _ _ _ _ _ K1 K2 W1 W2 C1 C2) as [->|[? ?]];
    [by left|right]. by exists c1, c2.
Qed.
End authorization_properties.

(** ** A concrete authorization *)

Section authorization_witness.
#[local] Existing Instances plain_string_host checksum_hash_host iso_date_host.

Definition data_entry (k : string) (s : jsstr) : jsstr * prop :=
  (js k, {| p_enumerable := true; p_content := Data (HStr s) |}).

Definition sample_input : list (jsstr * prop) :=
  [data_entry "binding_profile" (js "profile/v1"); data_entry "run_id" (js "run-0000000000000001");
   data_entry "agent_ref" (js "agent-00000000000001"); data_entry "subject_ref" (js "subject-000000000001");
   data_entry "method_hash" (repeat 97%N 64); data_entry "policy_hash" (repeat 98%N 64);
   data_entry "action_commitment" (repeat 99%N 64); data_entry "context_commitment" (repeat 100%N 64);
   data_entry "preflight_receipt_hash" (repeat 101%N 64); data_entry "witness_ack_hash" (repeat 102%N 64);
   data_entry "source_key_id" (js "ed25519-" ++ repeat 97%N 32);
   data_entry "witness_key_id" (js "ed25519-" ++ repeat 98%N 32);
   data_entry "verification_profile" (js "profile/v1"); data_entry "verifier_version" (js "verifier/1");
   data_entry "implementation_artifact_sha256" (repeat 48%N 64);
   data_entry "effective_verification_policy_sha256" (repeat 49%N 64);
   data_entry "issued_at" (js "2026-03-01T00:00:00.000Z");
   data_entry "expires_at" (js "2026-03-01T00:01:00.000Z")].

(** Object 0 is the input, object 1 the options. *)
Definition sample_heap : heap := fun l =>
  {| o_proxy := false; o_proto := ObjectPrototype; o_array := None; o_symbols := 0;
     o_props := match l with
       | O => sample_input
       | _ => [data_entry "witnessValidUntil" (js "2026-03-01T00:02:00.000Z");
               data_entry "capabilityId" (js "cap-" ++ repeat 97%N 32)]
       end |}.

Definition sample_prepared : snapshot * authorization_evidence :=
  Eval vm_compute in
    match prepareReferenceExactAuthorizationRecord sample_heap (HRef 0%nat) (HRef 1%nat) with
    | Ok r => r
    | Throw _ => ([], Build_authorization_evidence [] [] true true true)
    end.
Lemma sample_prepared_Ok :
  prepareReferenceExactAuthorizationRecord sample_heap (HRef 0%nat) (HRef 1%nat) = Ok sample_prepared.
Proof. vm_compute. reflexivity. Qed.

Definition sample_snapshot : snapshot :=
  Eval vm_compute in
    match snapshotExactDataObject sample_heap (HRef 0%nat) INPUT_KEYS
            "Reference exact authorization input" with
    | Ok s => s
    | Throw _ => []
    end.

Lemma prepareReferenceExactAuthorizationRecord_total_witness :
  exists r, prepareReferenceExactAuthorizationRecord sample_heap (HRef 0%nat) (HRef 1%nat) = Ok r.
Proof.
  apply (prepareReferenceExactAuthorizationRecord_total sample_heap (HRef 0%nat) (HRef 1%nat)
    sample_snapshot 1772323320000 (js "cap-" ++ repeat 97%N 32) 1772323200000 1772323260000).
  - vm_compute. reflexivity.
  - vm_compute. reflexivity.
  - reflexivity.
  - apply validateBindingSnapshot_Ok. vm_compute. reflexivity.
  - lia.
Defined.

Lemma authorization_commitment_binding_witness :
  sample_prepared.1 = sample_prepared.1 \/ exists t1 t2, commit_input t1 <> commit_input t2 /\
    sha256Hex (commit_input t1) = sha256Hex (commit_input t2).
Proof.
  apply (authorization_commitment_binding sample_heap (HRef 0%nat) (HRef 1%nat) _ sample_prepared.2
    sample_heap (HRef 0%nat) (HRef 1%nat) _ sample_prepared.2);
    [apply sample_prepared_Ok|apply sample_prepared_Ok|reflexivity].
Defined.
End authorization_witness.
