(* ===== verification/Gate.v ===== *)
(** * The single-use Gate

    Models [core/gate/reference-single-use-gate.mjs].  [consume] is an async
    function that gives up control where it calls a bootstrap dependency: the
    clock, the observer, the downstream executor.  Between two such points it
    runs to completion, so a consumption is a task whose state is one of the
    [consume_pc] points and whose segments are the [consume_...] functions; any
    other call may run while a task waits, including one the dependency makes
    itself.  [step] is one such segment or call. *)
From S2P Require Import Prelude JsDate JsValue ProofSdk Canonical JsHeap PlainData Authorization.

Definition OBSERVED_KEYS : list jsstr :=
  js <$> ["binding_profile"; "action_commitment"; "context_commitment"; "prepared_execution"].
Definition HARNESS_KEYS : list jsstr :=
  js <$> ["executeDownstream"; "observeBinding"; "trustedClock"].

Definition gateError (code msg : string) : jserr := Err GateErr (js code) (js msg).
Definition observer_failed (msg : string) : jserr :=
  gateError "POMRX_GATE_E_OBSERVER_FAILED" msg.

(** [snapshotExactReferences] *)
Definition snapshotExactReferences (h : heap) (value : hval) (expectedKeys : list jsstr)
    (label : string) : res snapshot :=
  let fail msg := type_error (js label ++ js msg) in
  o ← match object_of h value with
      | Some o => if bool_decide (o_array o = None) then Ok o
                  else Throw (fail " must be an exact plain data object")
      | None => Throw (fail " must be an exact plain data object")
      end;
  _ ← guard_or (bool_decide (o_proto o ∈ [ObjectPrototype; NullPrototype]))
        (fail " must use Object.prototype or a null prototype");
  _ ← guard_or (o_symbols o =? 0)%nat (fail " cannot contain symbol keys");
  _ ← guard_or (length (own_names o) =? length expectedKeys)%nat
        (fail " has missing, hidden or unknown fields");
  _ ← for_each (fun key => guard_or (bool_decide (is_Some (own_descriptor o key)))
        (fail " has missing, hidden or unknown fields")) expectedKeys;
  snapshot_keys o expectedKeys (fun _ => fail " fields must be enumerable data properties").

(** The bootstrap of [createReferenceSingleUseGateHarness]: the clock, the
    observer and the executor, as function identities. *)
Definition gate_bootstrap (h : heap) (options : hval) : res (nat * nat * nat) :=
  b ← snapshotExactReferences h options HARNESS_KEYS "Reference Gate harness bootstrap";
  match snap_get (js "trustedClock") b, snap_get (js "observeBinding") b,
        snap_get (js "executeDownstream") b with
  | HFun c, HFun o, HFun d => Ok (c, o, d)
  | _, _, _ => Throw (type_error
      (js "Reference Gate harness bootstrap dependencies must be functions"))
  end.

Definition snapshotObservedRecord (h : heap) (value : hval) : res snapshot :=
  o ← match object_of h value with
      | Some o => if bool_decide (o_array o = None) then Ok o
                  else Throw (observer_failed "Trusted binding observer returned an invalid record")
      | None => Throw (observer_failed "Trusted binding observer returned an invalid record")
      end;
  _ ← guard_or (bool_decide (o_proto o ∈ [ObjectPrototype; NullPrototype]))
        (observer_failed "Trusted binding observer record must be plain data");
  _ ← guard_or (o_symbols o =? 0)%nat
        (observer_failed "Trusted binding observer record cannot contain symbol keys");
  _ ← guard_or (length (own_names o) =? length OBSERVED_KEYS)%nat
        (observer_failed "Trusted binding observer returned an invalid record");
  _ ← for_each (fun key => guard_or (bool_decide (is_Some (own_descriptor o key)))
        (observer_failed "Trusted binding observer returned an invalid record")) OBSERVED_KEYS;
  snapshot_keys o OBSERVED_KEYS (fun _ =>
    observer_failed "Trusted binding observer fields must be enumerable data properties").

(** What a call of [trustedClock] does; for an object, what [typeof value.then]
    then gives. *)
Inductive thenable := ThenFunction | ThenOther | ThenThrew (e : jserr).
Inductive clock_reading :=
  | ClockThrew
  | ClockReturned (v : hval) (t : thenable).

(** How an awaited call ends: a value, or an exception or rejection. *)
Inductive settled := Resolved (v : hval) | RejectedWith (e : jserr).

Record observed_binding := {
  ob_profile : jsstr;
  ob_action : jsstr;
  ob_context : jsstr;
  ob_prepared : jsv;
}.

Inductive cap_state :=
  AVAILABLE | VALIDATING | REJECTED | CONSUMING | CONSUMED_SUCCESS | CONSUMED_ERROR.
#[export] Instance cap_state_eq_dec : EqDecision cap_state.
Proof. solve_decision. Defined.

Record capability_record := { cr_state : cap_state; cr_binding : snapshot }.

(** The private state of one Gate. *)
Record gate := {
  capabilityState : gmap loc capability_record;
  lastTrustedTimeMs : option Z;
}.

Definition stale (msg : string) : jserr := gateError "POMRX_GATE_E_CAPABILITY_STALE" msg.

(** A waiting or settled call of [consume]. *)
Inductive consume_pc :=
  | AwaitFirstClock (cap : loc) (binding : snapshot)
  | AwaitObserver (cap : loc) (binding : snapshot)
  | AwaitSecondClock (cap : loc) (binding : snapshot) (observed : observed_binding)
  | AwaitDownstream (cap : loc)
  | Settled (result : res hval).

Section gate_ops.
Context `{SH : !StringHost, HH : !HashHost, DH : !DateHost}.

Definition canonicalClockInstant (value : hval) : res Z :=
  match value with
  | HStr s =>
      match canonical_instant s with
      | Some t => Ok t
      | None => Throw (gateError "POMRX_GATE_E_TIME_INVALID" "Trusted clock returned an invalid instant")
      end
  | _ => Throw (gateError "POMRX_GATE_E_TIME_INVALID" "Trusted clock returned an invalid instant")
  end.

Definition sampleTrustedClock (reading : clock_reading) : res Z :=
  match reading with
  | ClockThrew => Throw (gateError "POMRX_GATE_E_TIME_INVALID" "Trusted clock failed")
  | ClockReturned (HRef _) (ThenThrew e) => Throw e
  | ClockReturned (HRef _) ThenFunction =>
      Throw (gateError "POMRX_GATE_E_TIME_INVALID" "Trusted clock must be synchronous")
  | ClockReturned v _ => canonicalClockInstant v
  end.

(** [sampleGateClock]: the instant, and the Gate with its new last time. *)
Definition sampleGateClock (g : gate) (reading : clock_reading) : res (gate * Z) :=
  nowMs ← sampleTrustedClock reading;
  _ ← guard_or (match lastTrustedTimeMs g with
                | Some last => last <=? nowMs
                | None => true
                end)
        (gateError "POMRX_GATE_E_TIME_ROLLBACK" "Trusted clock moved backwards");
  Ok ({| capabilityState := capabilityState g; lastTrustedTimeMs := Some nowMs |}, nowMs).

Definition validateObservedBinding (h : heap) (value : hval) : res observed_binding :=
  s ← snapshotObservedRecord h value;
  profile ← match hstr_that profile_pattern (snap_get (js "binding_profile") s) with
    | Some p => Ok p
    | None => Throw (observer_failed "Trusted binding observer returned an invalid profile")
    end;
  let commitment field :=
    match hstr_that hash_pattern (snap_get (js field) s) with
    | Some c => Ok c
    | None => Throw (observer_failed "Trusted binding observer returned an invalid commitment")
    end in
  action ← commitment "action_commitment";
  context ← commitment "context_commitment";
  prepared ← catch (captureReferencePlainData h (snap_get (js "prepared_execution") s)
                      (js "trusted Gate prepared execution"))
    (fun _ => Throw (observer_failed
       "Trusted binding observer returned non-inert or out-of-bounds prepared data"));
  Ok {| ob_profile := profile; ob_action := action; ob_context := context;
        ob_prepared := prepared |}.

(** [new Date(binding[k]).getTime()]; [None] is [NaN]. *)
Definition binding_time (binding : snapshot) (k : string) : option Z :=
  match snap_get (js k) binding with HStr s => date_parse s | _ => None end.

(** A comparison with [NaN] is false. *)
Definition lt_opt (a : Z) (b : option Z) : bool :=
  match b with Some b => a <? b | None => false end.
Definition ge_opt (a : Z) (b : option Z) : bool :=
  match b with Some b => b <=? a | None => false end.

Definition assertCapabilityActive (binding : snapshot) (nowMs : Z) : res unit :=
  _ ← guard_or (negb (lt_opt nowMs (binding_time binding "issued_at")))
        (gateError "POMRX_GATE_E_CAPABILITY_NOT_YET_VALID" "Reference capability is not yet valid");
  guard_or (negb (ge_opt nowMs (binding_time binding "expires_at")))
    (gateError "POMRX_GATE_E_CAPABILITY_EXPIRED" "Reference capability is expired").

Definition normalizeCapabilityError (error : jserr) : jserr :=
  match err_cls error with
  | GateErr => error
  | CapabilityErr => Err GateErr (err_code error) (err_msg error)
  | _ => gateError "POMRX_GATE_E_CAPABILITY_REQUIRED" "A branded reference capability is required"
  end.

Definition exactBindingMatches (binding : snapshot) (observed : observed_binding) : bool :=
  bool_decide (snap_get (js "binding_profile") binding = HStr (ob_profile observed)) &&
  bool_decide (snap_get (js "action_commitment") binding = HStr (ob_action observed)) &&
  bool_decide (snap_get (js "context_commitment") binding = HStr (ob_context observed)).

(** ** The capability lifecycle *)

Definition set_state (g : gate) (cap : loc) (st : cap_state) : gate :=
  {| capabilityState :=
       alter (fun r => {| cr_state := st; cr_binding := cr_binding r |}) cap (capabilityState g);
     lastTrustedTimeMs := lastTrustedTimeMs g |}.

(** [weakMapGet] of any value *)
Definition find_capability (g : gate) (capability : hval) : option (loc * capability_record) :=
  match capability with
  | HRef l => pair l <$> capabilityState g !! l
  | _ => None
  end.

Definition issueReferenceAuthorizationForTest (g : gate) (h : heap)
    (bindingInput witnessValidUntil : hval) (randomHex : jsstr) (fresh : loc)
  : res (gate * authorization_evidence) :=
  '(binding, evidence) ← prepareWithOptions h bindingInput
      (Ok (witnessValidUntil, HStr (js "cap-" ++ randomHex)));
  Ok ({| capabilityState :=
           <[fresh := {| cr_state := AVAILABLE; cr_binding := binding |}]> (capabilityState g);
         lastTrustedTimeMs := lastTrustedTimeMs g |}, evidence).

Definition inspectCapabilityStateForTest (g : gate) (capability : hval) : option cap_state :=
  (fun '(_, r) => cr_state r) <$> find_capability g capability.

Definition reserveCapability (g : gate) (capability : hval) : res (gate * (loc * snapshot)) :=
  match find_capability g capability with
  | None => Throw (gateError "POMRX_GATE_E_CAPABILITY_REQUIRED"
                     "A capability from this reference Gate is required")
  | Some (l, record) =>
      _ ← guard_or (bool_decide (cr_state record = AVAILABLE))
            (stale "Reference capability is no longer available");
      Ok (set_state g l VALIDATING, (l, cr_binding record))
  end.

(** Move a capability on from the state it must be in. *)
Definition transition (g : gate) (cap : loc) (from to : cap_state) (msg : string) : res gate :=
  match capabilityState g !! cap with
  | Some record =>
      _ ← guard_or (bool_decide (cr_state record = from)) (stale msg);
      Ok (set_state g cap to)
  | None => Throw (stale msg)
  end.
Definition rejectCapability (g : gate) (cap : loc) : res gate :=
  transition g cap VALIDATING REJECTED
    "Reference capability cannot be rejected from its current state".
Definition beginConsumption (g : gate) (cap : loc) : res gate :=
  transition g cap VALIDATING CONSUMING "Reference capability cannot begin consumption".
Definition completeConsumption (g : gate) (cap : loc) (success : bool) : res gate :=
  transition g cap CONSUMING (if success then CONSUMED_SUCCESS else CONSUMED_ERROR)
    "Reference capability is not consuming".

(** [rejectCapability(capability); throw error] *)
Definition reject_with (g : gate) (cap : loc) (error : jserr) : gate * consume_pc :=
  match rejectCapability g cap with
  | Ok g' => (g', Settled (Throw error))
  | Throw e => (g, Settled (Throw e))
  end.

(** ** The segments of [consume] *)

(** Up to the first call of the clock. *)
Definition consume_start (g : gate) (capability : hval) : gate * consume_pc :=
  match reserveCapability g capability with
  | Ok (g', (cap, binding)) => (g', AwaitFirstClock cap binding)
  | Throw e => (g, Settled (Throw (normalizeCapabilityError e)))
  end.

(** From the first clock reading to the call of the observer.  A sampled time
    is remembered even when the window test then fails. *)
Definition consume_first_clock (g : gate) (cap : loc) (binding : snapshot)
    (reading : clock_reading) : gate * consume_pc :=
  match sampleGateClock g reading with
  | Ok (g', now) =>
      match assertCapabilityActive binding now with
      | Ok _ => (g', AwaitObserver cap binding)
      | Throw e => reject_with g' cap (normalizeCapabilityError e)
      end
  | Throw e => reject_with g cap (normalizeCapabilityError e)
  end.

(** From the observer's answer to the second call of the clock. *)
Definition consume_observed (g : gate) (cap : loc) (binding : snapshot) (h : heap)
    (answer : settled) : gate * consume_pc :=
  match
    match answer with
    | Resolved v => validateObservedBinding h v
    | RejectedWith e =>
        if bool_decide (err_cls e = GateErr) then Throw e
        else Throw (observer_failed "Trusted binding observer failed")
    end
  with
  | Throw e => reject_with g cap e
  | Ok observed =>
      if exactBindingMatches binding observed then (g, AwaitSecondClock cap binding observed)
      else reject_with g cap (gateError "POMRX_GATE_E_BINDING_MISMATCH"
             "Observed execution binding does not match authorization")
  end.

(** From the second clock reading to the downstream call; the last component is
    the time and the data of that call. *)
Definition consume_second_clock (g : gate) (cap : loc) (binding : snapshot)
    (observed : observed_binding) (reading : clock_reading)
  : gate * consume_pc * option (Z * jsv) :=
  match sampleGateClock g reading with
  | Ok (g', now) =>
      match assertCapabilityActive binding now with
      | Ok _ =>
          match beginConsumption g' cap with
          | Ok g'' => (g'', AwaitDownstream cap, Some (now, ob_prepared observed))
          | Throw e => (g', Settled (Throw e), None)
          end
      | Throw e => (reject_with g' cap (normalizeCapabilityError e), None)
      end
  | Throw e => (reject_with g cap (normalizeCapabilityError e), None)
  end.

Definition downstream_failed : jserr :=
  gateError "POMRX_GATE_E_DOWNSTREAM_FAILED" "Downstream execution failed".

(** From the downstream answer to the end. *)
Definition consume_downstream (g : gate) (cap : loc) (answer : settled) : gate * consume_pc :=
  let failed g :=
    match completeConsumption g cap false with
    | Ok g' => (g', Settled (Throw downstream_failed))
    | Throw e => (g, Settled (Throw e))
    end in
  match answer with
  | Resolved v =>
      match completeConsumption g cap true with
      | Ok g' => (g', Settled (Ok v))
      | Throw _ => failed g
      end
  | RejectedWith _ => failed g
  end.

(** ** Interleavings *)

(** What an observer outside can see: the instants the Gate accepted and the
    downstream calls. *)
Inductive gate_event :=
  | Sampled (t : Z)
  | Forwarded (cap : loc) (binding : snapshot) (observed : observed_binding) (t : Z)
      (prepared : jsv).

Record system := {
  sys_gate : gate;
  sys_tasks : gmap nat consume_pc;
  sys_log : list gate_event;   (* latest first *)
}.

Inductive gate_label :=
  | LIssue (h : heap) (bindingInput witnessValidUntil : hval) (randomHex : jsstr) (fresh : loc)
  | LConsume (task : nat) (capability : hval)
  | LClock (task : nat) (reading : clock_reading)
  | LObserver (task : nat) (h : heap) (answer : settled)
  | LDownstream (task : nat) (answer : settled).

Definition new_samples (g g' : gate) : list gate_event :=
  match lastTrustedTimeMs g' with
  | Some t => if bool_decide (lastTrustedTimeMs g = Some t) then [] else [Sampled t]
  | None => []
  end.

Definition set_task (s : system) (task : nat) (next : gate * consume_pc)
    (events : list gate_event) : system :=
  {| sys_gate := next.1; sys_tasks := <[task := next.2]> (sys_tasks s);
     sys_log := events ++ new_samples (sys_gate s) next.1 ++ sys_log s |}.

(** One call or one continuation; [None] when the label is not enabled. *)
Definition step (s : system) (l : gate_label) : option system :=
  match l with
  | LIssue h input witness hex fresh =>
      match capabilityState (sys_gate s) !! fresh with
      | Some _ => None
      | None =>
          match issueReferenceAuthorizationForTest (sys_gate s) h input witness hex fresh with
          | Ok (g, _) => Some {| sys_gate := g; sys_tasks := sys_tasks s; sys_log := sys_log s |}
          | Throw _ => Some s
          end
      end
  | LConsume task capability =>
      match sys_tasks s !! task with
      | Some _ => None
      | None => Some (set_task s task (consume_start (sys_gate s) capability) [])
      end
  | LClock task reading =>
      match sys_tasks s !! task with
      | Some (AwaitFirstClock cap binding) =>
          Some (set_task s task (consume_first_clock (sys_gate s) cap binding reading) [])
      | Some (AwaitSecondClock cap binding observed) =>
          let '(next, forward) :=
            consume_second_clock (sys_gate s) cap binding observed reading in
          Some (set_task s task next
            match forward with
            | Some (t, prepared) => [Forwarded cap binding observed t prepared]
            | None => []
            end)
      | _ => None
      end
  | LObserver task h answer =>
      match sys_tasks s !! task with
      | Some (AwaitObserver cap binding) =>
          Some (set_task s task (consume_observed (sys_gate s) cap binding h answer) [])
      | _ => None
      end
  | LDownstream task answer =>
      match sys_tasks s !! task with
      | Some (AwaitDownstream cap) =>
          Some (set_task s task (consume_downstream (sys_gate s) cap answer) [])
      | _ => None
      end
  end.

Definition initial_system : system :=
  {| sys_gate := {| capabilityState := ∅; lastTrustedTimeMs := None |};
     sys_tasks := ∅; sys_log := [] |}.

Inductive reachable : system -> Prop :=
  | reach_init : reachable initial_system
  | reach_step s l s' : reachable s -> step s l = Some s' -> reachable s'.
End gate_ops.

(** ** The invariant *)

Section gate_invariant.
Context `{SH : !StringHost, HH : !HashHost, DH : !DateHost}.

(** The capability a waiting task holds. *)
Definition owned (pc : consume_pc) : option loc :=
  match pc with
  | AwaitFirstClock c _ | AwaitObserver c _ | AwaitSecondClock c _ _ | AwaitDownstream c => Some c
  | Settled _ => None
  end.

(** States in which the downstream call was made. *)
Definition was_forwarded (st : cap_state) : bool :=
  match st with CONSUMING | CONSUMED_SUCCESS | CONSUMED_ERROR => true | _ => false end.
Definition terminal (st : cap_state) : bool :=
  match st with REJECTED | CONSUMED_SUCCESS | CONSUMED_ERROR => true | _ => false end.

(** The window test passed: [issued <= t < expires]. *)
Definition active_at (binding : snapshot) (t : Z) : Prop :=
  exists issued expires, binding_wf binding issued expires /\ issued <= t < expires.

Definition observed_ok (o : observed_binding) : Prop :=
  bounded_data (S max_depth) (ob_prepared o) /\ node_count (ob_prepared o) <= max_nodes.

Definition pc_ok (g : gate) (pc : consume_pc) : Prop :=
  match pc with
  | AwaitFirstClock c b | AwaitObserver c b =>
      capabilityState g !! c = Some {| cr_state := VALIDATING; cr_binding := b |}
  | AwaitSecondClock c b o =>
      capabilityState g !! c = Some {| cr_state := VALIDATING; cr_binding := b |} /\
      exactBindingMatches b o = true /\ observed_ok o
  | AwaitDownstream c =>
      exists b, capabilityState g !! c = Some {| cr_state := CONSUMING; cr_binding := b |}
  | Settled _ => True
  end.

Definition forward_ok (g : gate) (e : gate_event) : Prop :=
  match e with
  | Sampled _ => True
  | Forwarded c b o t p =>
      (exists st, capabilityState g !! c = Some {| cr_state := st; cr_binding := b |}) /\
      exactBindingMatches b o = true /\ observed_ok o /\ active_at b t /\ p = ob_prepared o
  end.

Definition is_forward (c : loc) (e : gate_event) : bool :=
  match e with Forwarded c' _ _ _ _ => bool_decide (c' = c) | Sampled _ => false end.
Definition forwards (c : loc) (log : list gate_event) : nat :=
  length (filter (fun e => is_forward c e = true) log).
Definition samples (log : list gate_event) : list Z :=
  omap (fun e => match e with Sampled t => Some t | Forwarded _ _ _ _ _ => None end) log.

Record gate_inv (s : system) : Prop := {
  gi_tasks t pc : sys_tasks s !! t = Some pc -> pc_ok (sys_gate s) pc;
  gi_owner t1 t2 pc1 pc2 c :
    sys_tasks s !! t1 = Some pc1 -> sys_tasks s !! t2 = Some pc2 ->
    owned pc1 = Some c -> owned pc2 = Some c -> t1 = t2;
  gi_bindings c r : capabilityState (sys_gate s) !! c = Some r ->
    exists i e, binding_wf (cr_binding r) i e;
  gi_forwards c : forwards c (sys_log s) =
    match capabilityState (sys_gate s) !! c with
    | Some r => if was_forwarded (cr_state r) then 1%nat else 0%nat
    | None => 0%nat
    end;
  gi_log e : e ∈ sys_log s -> forward_ok (sys_gate s) e;
  gi_clock : StronglySorted Z.ge (samples (sys_log s));
  gi_last : lastTrustedTimeMs (sys_gate s) = head (samples (sys_log s));
}.

Definition clock_ok (last last' : option Z) : Prop :=
  last' = last \/ exists t, last' = Some t /\ forall l, last = Some l -> l <= t.

Lemma set_state_insert g c r st :
  capabilityState g !! c = Some r ->
  capabilityState (set_state g c st) =
    <[c := {| cr_state := st; cr_binding := cr_binding r |}]> (capabilityState g).
Proof.
  intros H. unfold set_state. simpl. apply map_eq. intros i.
  destruct (decide (c = i)) as [->|].
  - by rewrite lookup_alter_eq, H, lookup_insert_eq.
  - by rewrite lookup_alter_ne, lookup_insert_ne.
Qed.

Lemma samples_app l1 l2 : samples (l1 ++ l2) = samples l1 ++ samples l2.
Proof. apply omap_app. Qed.
Lemma forwards_app c l1 l2 : forwards c (l1 ++ l2) = (forwards c l1 + forwards c l2)%nat.
Proof. unfold forwards. by rewrite filter_app, length_app. Qed.
Lemma forwards_one c c' b o t p :
  forwards c [Forwarded c' b o t p] = if decide (c' = c) then 1%nat else 0%nat.
Proof.
  unfold forwards. rewrite filter_cons. simpl. destruct (decide (c' = c)) as [->|Hne].
  - by rewrite bool_decide_true, decide_True.
  - by rewrite bool_decide_false, decide_False.
Qed.
Lemma forwards_new_samples c g g' : forwards c (new_samples g g') = 0%nat.
Proof. unfold new_samples. repeat case_match; done. Qed.

Lemma new_samples_sorted g g' log :
  clock_ok (lastTrustedTimeMs g) (lastTrustedTimeMs g') ->
  StronglySorted Z.ge (samples log) -> lastTrustedTimeMs g = head (samples log) ->
  StronglySorted Z.ge (samples (new_samples g g' ++ log)) /\
  lastTrustedTimeMs g' = head (samples (new_samples g g' ++ log)).
Proof.
  intros Hc Hs Hl. unfold new_samples. destruct (lastTrustedTimeMs g') as [t|] eqn:Et.
  - case_bool_decide as E; [by rewrite E in Hl|].
    destruct Hc as [?|(t' & [= <-] & Hle)]; [congruence|].
    rewrite samples_app. simpl. split; [|done]. constructor; [done|].
    destruct (samples log) as [|u rest] eqn:Eu; [done|]. simpl in Hl.
    specialize (Hle u Hl). apply StronglySorted_inv in Hs as [_ Hall].
    constructor; [lia|]. eapply Forall_impl; [exact Hall|]. intros. lia.
  - destruct Hc as [Hc|(? & ? & _)]; [|done]. simpl. by rewrite Hc.
Qed.

(** The bookkeeping of one segment of task [t] on the capability [c] it holds
    or just reserved. *)
Lemma inv_update s t g' pc' ev c b st st' :
  gate_inv s ->
  capabilityState (sys_gate s) !! c = Some {| cr_state := st; cr_binding := b |} ->
  (forall t' pc, sys_tasks s !! t' = Some pc -> owned pc = Some c -> t' = t) ->
  capabilityState g' = <[c := {| cr_state := st'; cr_binding := b |}]> (capabilityState (sys_gate s)) ->
  clock_ok (lastTrustedTimeMs (sys_gate s)) (lastTrustedTimeMs g') ->
  pc_ok g' pc' -> (owned pc' = None \/ owned pc' = Some c) ->
  (ev = [] /\ was_forwarded st' = was_forwarded st \/
   (exists o u, ev = [Forwarded c b o u (ob_prepared o)] /\ was_forwarded st = false /\
      was_forwarded st' = true /\ exactBindingMatches b o = true /\ observed_ok o /\ active_at b u)) ->
  gate_inv (set_task s t (g', pc') ev).
Proof.
  intros I Hc Hown Hcaps Hclock Hpc Howned Hev.
  assert (forall e, forward_ok (sys_gate s) e -> forward_ok g' e) as Hfwd.
  { intros [u|c' b' o' u' p'] He; [done|]. destruct He as ((st0 & Hst) & He).
    split; [|done]. rewrite Hcaps. destruct (decide (c = c')) as [->|].
    - rewrite lookup_insert_eq. rewrite Hc in Hst. injection Hst as <- <-. by eexists.
    - rewrite lookup_insert_ne by done. by exists st0. }
  destruct (new_samples_sorted (sys_gate s) g' (sys_log s) Hclock (gi_clock _ I) (gi_last _ I))
    as [Hsorted Hlast].
  split; unfold set_task; cbn [sys_gate sys_tasks sys_log fst snd].
  - intros t' pc Ht. destruct (decide (t = t')) as [->|Hne].
    + rewrite lookup_insert_eq in Ht. by injection Ht as <-.
    + rewrite lookup_insert_ne in Ht by done. pose proof (gi_tasks _ I _ _ Ht) as Hok.
      assert (owned pc <> Some c) as Hno by (intros Ho; by destruct Hne; symmetry; apply (Hown _ _ Ht)).
      destruct pc; simpl in *; rewrite ?Hcaps, ?lookup_insert_ne by congruence; done.
  - intros t1 t2 pc1 pc2 c0 H1 H2 O1 O2.
    destruct (decide (t = t1)) as [E1|N1], (decide (t = t2)) as [E2|N2]; [congruence|subst t1|subst t2|].
    + rewrite lookup_insert_eq in H1. injection H1 as <-. rewrite lookup_insert_ne in H2 by done.
      destruct Howned as [?|Ho]; [congruence|]. assert (c0 = c) as -> by congruence.
      symmetry. by eapply Hown.
    + rewrite lookup_insert_eq in H2. injection H2 as <-. rewrite lookup_insert_ne in H1 by done.
      destruct Howned as [?|Ho]; [congruence|]. assert (c0 = c) as -> by congruence.
      by eapply Hown.
    + rewrite lookup_insert_ne in H1, H2 by done. by eapply (gi_owner _ I).
  - intros c' r Hr. rewrite Hcaps in Hr. destruct (decide (c = c')) as [->|].
    + rewrite lookup_insert_eq in Hr. injection Hr as <-. simpl.
      exact (gi_bindings _ I _ _ Hc).
    + rewrite lookup_insert_ne in Hr by done. exact (gi_bindings _ I _ _ Hr).
  - intros c'. rewrite !forwards_app, forwards_new_samples, (gi_forwards _ I c'), Hcaps.
    destruct (decide (c = c')) as [->|Hne].
    + rewrite lookup_insert_eq, Hc. cbn [cr_state].
      destruct Hev as [[-> ->]|(o & u & -> & -> & -> & _)]; [done|].
      by rewrite forwards_one, decide_True.
    + rewrite lookup_insert_ne by done. destruct Hev as [[-> _]|(o & u & -> & _)]; [done|].
      by rewrite forwards_one, decide_False.
  - intros e. rewrite !elem_of_app. intros [He|[He|He]].
    + destruct Hev as [[-> _]|(o & u & -> & _ & _ & ? & ? & ?)]; [by apply not_elem_of_nil in He|].
      apply list_elem_of_singleton in He as ->. simpl. rewrite Hcaps, lookup_insert_eq.
      split; [by eexists|]. done.
    + unfold new_samples in He. repeat case_match; try by apply not_elem_of_nil in He.
      by apply list_elem_of_singleton in He as ->.
    + apply Hfwd. by apply (gi_log _ I).
  - destruct Hev as [[-> _]|(o & u & -> & _)]; done.
  - destruct Hev as [[-> _]|(o & u & -> & _)]; done.
Qed.

(** ** Every segment keeps the invariant *)

Lemma owned_pc_ok g pc c :
  pc_ok g pc -> owned pc = Some c ->
  exists r, capabilityState g !! c = Some r /\ (cr_state r = VALIDATING \/ cr_state r = CONSUMING).
Proof.
  destruct pc as [c' b|c' b|c' b o|c'|r]; simpl; intros H [= ->].
  - eexists. split; [done|]. by left.
  - eexists. split; [done|]. by left.
  - destruct H as [H _]. eexists. split; [done|]. by left.
  - destruct H as [b H]. eexists. split; [done|]. by right.
Qed.

Lemma transition_Ok g c from to msg g' :
  transition g c from to msg = Ok g' <->
  exists b, capabilityState g !! c = Some {| cr_state := from; cr_binding := b |} /\
    g' = set_state g c to.
Proof.
  unfold transition. destruct (capabilityState g !! c) as [[st b]|] eqn:E.
  - rewrite guard_bind_Ok, bool_decide_eq_true. cbn [cr_state]. split.
    + intros [-> [= <-]]. by exists b.
    + intros (b' & [= -> ->] & ->). done.
  - split; [done|]. by intros (? & ? & _).
Qed.

Lemma sampleGateClock_Ok g reading g' t :
  sampleGateClock g reading = Ok (g', t) ->
  capabilityState g' = capabilityState g /\ lastTrustedTimeMs g' = Some t /\
  clock_ok (lastTrustedTimeMs g) (Some t).
Proof.
  unfold sampleGateClock. intros (u & _ & H)%bind_Ok. apply guard_bind_Ok in H as [Hle [= <- <-]].
  repeat split; [done..|]. right. exists u. split; [done|]. intros l Hl. rewrite Hl in Hle. lia.
Qed.

Lemma binding_time_wf b i e :
  binding_wf b i e ->
  binding_time b "issued_at" = Some i /\ binding_time b "expires_at" = Some e.
Proof.
  intros W. destruct (bw_issued _ _ _ W) as [Ei Vi], (bw_expires _ _ _ W) as [Ee Ve].
  unfold binding_time. rewrite Ei, Ee. by rewrite !date_parse_iso.
Qed.

Lemma assertCapabilityActive_Ok b i e t u :
  binding_wf b i e -> assertCapabilityActive b t = Ok u <-> i <= t < e.
Proof.
  intros W. destruct (binding_time_wf _ _ _ W) as [Ei Ee]. unfold assertCapabilityActive.
  rewrite Ei, Ee, guard_bind_Ok, guard_or_Ok, !negb_true_iff. simpl. lia.
Qed.

Lemma reject_with_validating g c b e :
  capabilityState g !! c = Some {| cr_state := VALIDATING; cr_binding := b |} ->
  reject_with g c e = (set_state g c REJECTED, Settled (Throw e)).
Proof.
  intros H. unfold reject_with. assert (rejectCapability g c = Ok (set_state g c REJECTED)) as ->;
    [|done]. apply transition_Ok. by exists b.
Qed.

Lemma validateObservedBinding_ok h v o :
  validateObservedBinding h v = Ok o -> observed_ok o.
Proof.
  unfold validateObservedBinding. intros (s & _ & H)%bind_Ok.
  apply bind_Ok in H as (p & _ & H). apply bind_Ok in H as (a & _ & H).
  apply bind_Ok in H as (x & _ & H). apply bind_Ok in H as (d & Hd & [= <-]).
  apply catch_Ok in Hd as [Hd|(? & _ & ?)]; [|done].
  unfold captureReferencePlainData in Hd. apply guard_bind_Ok in Hd as [_ Hd].
  apply fmap_Ok in Hd as ([d' r] & Hd & <-). apply captureValue_Ok in Hd as (? & ? & _); [|done].
  split; [by eapply denotes_bounded|done].
Qed.

Section segments.
Context (s : system) (I : gate_inv s).
Let g := sys_gate s.

(** The holder of a capability is unique. *)
Lemma unique_owner t pc c :
  sys_tasks s !! t = Some pc -> owned pc = Some c ->
  forall t' pc', sys_tasks s !! t' = Some pc' -> owned pc' = Some c -> t' = t.
Proof. intros H O t' pc' H' O'. by eapply (gi_owner _ I). Qed.

(** A task that gives up its validating capability. *)
Lemma inv_reject t pc c b e g' :
  sys_tasks s !! t = Some pc -> owned pc = Some c ->
  capabilityState g !! c = Some {| cr_state := VALIDATING; cr_binding := b |} ->
  capabilityState g' = capabilityState g -> clock_ok (lastTrustedTimeMs g) (lastTrustedTimeMs g') ->
  gate_inv (set_task s t (reject_with g' c e) []).
Proof.
  intros Ht Ho Hc Hcaps Hclock.
  rewrite (reject_with_validating _ _ b) by by rewrite Hcaps.
  eapply (inv_update s t _ _ _ c b VALIDATING REJECTED);
    [done|done|by eapply unique_owner| |done|done|by left|by left].
  rewrite (set_state_insert _ _ {| cr_state := VALIDATING; cr_binding := b |})
    by by rewrite Hcaps. by rewrite Hcaps.
Qed.

(** A task that goes on, its capability still in state [st]. *)
Lemma inv_continue t pc c b st pc' g' :
  sys_tasks s !! t = Some pc -> owned pc = Some c ->
  capabilityState g !! c = Some {| cr_state := st; cr_binding := b |} ->
  capabilityState g' = capabilityState g -> clock_ok (lastTrustedTimeMs g) (lastTrustedTimeMs g') ->
  pc_ok g' pc' -> owned pc' = Some c ->
  gate_inv (set_task s t (g', pc') []).
Proof.
  intros Ht Ho Hc Hcaps Hclock Hpc Ho'.
  eapply (inv_update s t _ _ _ c b st st);
    [done|done|by eapply unique_owner| |done|done|by right|by left].
  rewrite Hcaps. by rewrite insert_id.
Qed.

Lemma inv_start t capability :
  sys_tasks s !! t = None -> gate_inv (set_task s t (consume_start g capability) []).
Proof.
  intros Ht. unfold consume_start. destruct (reserveCapability g capability) as [[g' [c b]]|e] eqn:E.
  - unfold reserveCapability in E. destruct (find_capability g capability) as [[l r]|] eqn:Ef; [|done].
    apply guard_bind_Ok in E as [Hst%bool_decide_eq_true [= <- <- <-]].
    assert (capabilityState g !! l = Some {| cr_state := AVAILABLE; cr_binding := cr_binding r |}) as Hc.
    { destruct capability; try done. simpl in Ef. apply fmap_Some in Ef as (r' & Hr & [= <- <-]).
      rewrite Hr, <- Hst. by destruct r. }
    eapply (inv_update s t _ _ _ l (cr_binding r) AVAILABLE VALIDATING);
      [done|done| |by apply (set_state_insert _ _ _ _ Hc)|by left| |by right|by left].
    + intros t' pc Ht' Ho. exfalso.
      destruct (owned_pc_ok _ _ _ (gi_tasks _ I _ _ Ht') Ho) as (r' & Hr' & [Hs|Hs]);
        unfold g in Hc; rewrite Hc in Hr'; by injection Hr' as <-.
    + simpl. rewrite lookup_alter_eq. unfold g in *. by rewrite Hc.
  - destruct I as [Ht' Ho' Hb' Hf' Hl' Hc' Hla'].
    assert (new_samples (sys_gate s) g = []) as En.
    { unfold new_samples, g. destruct (lastTrustedTimeMs (sys_gate s)); [|done].
      by rewrite bool_decide_true. }
    unfold set_task. cbn [fst snd]. rewrite En. split; cbn [sys_gate sys_tasks sys_log app]; try done.
    + intros t' pc Hpc. apply lookup_insert_Some in Hpc as [[<- <-]|[_ Hpc]]; [done|]. by eapply Ht'.
    + intros t1 t2 pc1 pc2 c H1 H2 O1 O2.
      apply lookup_insert_Some in H1 as [[<- <-]|[_ H1]]; [done|].
      apply lookup_insert_Some in H2 as [[<- <-]|[_ H2]]; [done|]. by eapply Ho'.
Qed.

Lemma inv_first_clock t c b reading :
  sys_tasks s !! t = Some (AwaitFirstClock c b) ->
  gate_inv (set_task s t (consume_first_clock g c b reading) []).
Proof.
  intros Ht. pose proof (gi_tasks _ I _ _ Ht) as Hc. simpl in Hc. unfold consume_first_clock.
  destruct (sampleGateClock g reading) as [[g' now]|e] eqn:E.
  - apply sampleGateClock_Ok in E as (Hcaps & Hl & Hclock).
    destruct (assertCapabilityActive b now) as [[]|e].
    + eapply inv_continue; [done|done|done|done|by rewrite Hl| |done]. simpl. by rewrite Hcaps.
    + eapply inv_reject; [done|done|done|done|by rewrite Hl].
  - eapply inv_reject; [done|done|done|done|by left].
Qed.

Lemma inv_observed t c b h answer :
  sys_tasks s !! t = Some (AwaitObserver c b) ->
  gate_inv (set_task s t (consume_observed g c b h answer) []).
Proof.
  intros Ht. pose proof (gi_tasks _ I _ _ Ht) as Hc. simpl in Hc. unfold consume_observed.
  match goal with |- context [match ?m with Ok _ => _ | Throw _ => _ end] => destruct m as [o|e] eqn:E end.
  - assert (observed_ok o) as Ho.
    { destruct answer as [v|e]; [by eapply validateObservedBinding_ok|]. by case_bool_decide. }
    destruct (exactBindingMatches b o) eqn:Em.
    + eapply inv_continue; [done|done|done|done|by left|done|done].
    + eapply inv_reject; [done|done|done|done|by left].
  - eapply inv_reject; [done|done|done|done|by left].
Qed.

Lemma inv_second_clock t c b o reading :
  sys_tasks s !! t = Some (AwaitSecondClock c b o) ->
  let '(next, forward) := consume_second_clock g c b o reading in
  gate_inv (set_task s t next
    match forward with Some (u, p) => [Forwarded c b o u p] | None => [] end).
Proof.
  intros Ht. pose proof (gi_tasks _ I _ _ Ht) as (Hc & Hm & Hob). unfold consume_second_clock.
  destruct (sampleGateClock g reading) as [[g' now]|e] eqn:E.
  - apply sampleGateClock_Ok in E as (Hcaps & Hl & Hclock).
    destruct (assertCapabilityActive b now) as [[]|e] eqn:Ea.
    + assert (beginConsumption g' c = Ok (set_state g' c CONSUMING)) as ->.
      { apply transition_Ok. exists b. by rewrite Hcaps. }
      destruct (gi_bindings _ I _ _ Hc) as (i & e & W). simpl in W.
      assert (capabilityState (set_state g' c CONSUMING)
        = <[c := {| cr_state := CONSUMING; cr_binding := b |}]> (capabilityState g)) as Hset.
      { rewrite (set_state_insert _ _ {| cr_state := VALIDATING; cr_binding := b |})
          by by rewrite Hcaps. by rewrite Hcaps. }
      eapply (inv_update s t _ _ _ c b VALIDATING CONSUMING);
        [done|done|by eapply unique_owner|done|simpl; by rewrite Hl| |by right|].
      * simpl. exists b. unfold set_state in Hset. simpl in Hset. by rewrite Hset, lookup_insert_eq.
      * right. exists o, now. repeat (split; [done|]). exists i, e. split; [done|].
        by apply (assertCapabilityActive_Ok _ _ _ _ _ W) in Ea.
    + eapply inv_reject; [done|done|done|done|by rewrite Hl].
  - eapply inv_reject; [done|done|done|done|by left].
Qed.

Lemma inv_downstream t c answer :
  sys_tasks s !! t = Some (AwaitDownstream c) ->
  gate_inv (set_task s t (consume_downstream g c answer) []).
Proof.
  intros Ht. pose proof (gi_tasks _ I _ _ Ht) as (b & Hc). unfold consume_downstream.
  assert (forall ok, completeConsumption g c ok
    = Ok (set_state g c (if ok then CONSUMED_SUCCESS else CONSUMED_ERROR))) as Hok
    by (intros ok; apply transition_Ok; by exists b).
  rewrite !Hok. destruct answer.
  - eapply (inv_update s t _ _ _ c b CONSUMING CONSUMED_SUCCESS);
      [done|done|by eapply unique_owner|by apply (set_state_insert _ _ _ _ Hc)|by left|done|by left|by left].
  - eapply (inv_update s t _ _ _ c b CONSUMING CONSUMED_ERROR);
      [done|done|by eapply unique_owner|by apply (set_state_insert _ _ _ _ Hc)|by left|done|by left|by left].
Qed.
End segments.

Lemma inv_issue s h input witness hex fresh g ev :
  gate_inv s -> capabilityState (sys_gate s) !! fresh = None ->
  issueReferenceAuthorizationForTest (sys_gate s) h input witness hex fresh = Ok (g, ev) ->
  gate_inv {| sys_gate := g; sys_tasks := sys_tasks s; sys_log := sys_log s |}.
Proof.
  intros I Hf ([b ev'] & Hp & [= <- <-])%bind_Ok.
  apply prepareWithOptions_inv in Hp as (_ & Hwf & _).
  destruct I as [Ht Ho Hb Hfw Hl Hc Hla]. split; cbn [sys_gate sys_tasks sys_log]; try done.
  - intros t pc Hpc. specialize (Ht t pc Hpc).
    destruct pc; simpl in *; rewrite ?lookup_insert_ne; try done;
      try (intros ->; rewrite Hf in Ht; naive_solver).
    all: try (destruct Ht as [Ht ?]; intros ->; rewrite Hf in Ht; done).
  - intros c r Hr. cbn [capabilityState] in Hr.
    apply lookup_insert_Some in Hr as [[<- <-]|[_ Hr]]; [done|]. by eapply Hb.
  - intros c. rewrite Hfw. simpl. destruct (decide (fresh = c)) as [->|].
    + by rewrite lookup_insert_eq, Hf.
    + by rewrite lookup_insert_ne.
  - intros e He. specialize (Hl e He). destruct e as [|c b' o t p]; [done|].
    destruct Hl as ((st & Hst) & Hrest). split; [|done]. exists st. simpl.
    rewrite lookup_insert_ne; [done|]. intros ->. by rewrite Hf in Hst.
Qed.

Lemma gate_inv_step s l s' : gate_inv s -> step s l = Some s' -> gate_inv s'.
Proof.
  intros I Hs. destruct l as [h input witness hex fresh|t cap|t reading|t h answer|t answer];
    cbn [step] in Hs.
  - destruct (capabilityState _ !! fresh) eqn:Ef; [done|].
    destruct (issueReferenceAuthorizationForTest _ _ _ _ _ _) as [[g ev]|e] eqn:E.
    + injection Hs as <-. by eapply inv_issue.
    + by injection Hs as <-.
  - destruct (sys_tasks s !! t) eqn:Et; [done|]. injection Hs as <-. by apply inv_start.
  - destruct (sys_tasks s !! t) as [[c b|c b|c b o|c|r]|] eqn:Et; try done.
    + injection Hs as <-. by apply inv_first_clock.
    + pose proof (inv_second_clock s I t c b o reading Et) as H.
      destruct (consume_second_clock _ _ _ _ _) as [next forward]. by injection Hs as <-.
  - destruct (sys_tasks s !! t) as [[c b|c b|c b o|c|r]|] eqn:Et; try done.
    injection Hs as <-. by apply inv_observed.
  - destruct (sys_tasks s !! t) as [[c b|c b|c b o|c|r]|] eqn:Et; try done.
    injection Hs as <-. by apply inv_downstream.
Qed.

Lemma gate_inv_initial : gate_inv initial_system.
Proof.
  split; cbn [initial_system sys_gate sys_tasks sys_log capabilityState lastTrustedTimeMs].
  - intros t pc H. by rewrite lookup_empty in H.
  - intros t1 t2 pc1 pc2 c H. by rewrite lookup_empty in H.
  - intros c r H. by rewrite lookup_empty in H.
  - intros c. by rewrite lookup_empty.
  - intros e H. by apply not_elem_of_nil in H.
  - constructor.
  - done.
Qed.

Lemma reachable_inv s : reachable s -> gate_inv s.
Proof. induction 1; [apply gate_inv_initial|by eapply gate_inv_step]. Qed.
End gate_invariant.

(** ** Properties *)

Section gate_properties.
Context `{SH : !StringHost, HH : !HashHost, DH : !DateHost}.

(** C8: however the calls interleave, a capability reaches the downstream
    executor at most once. *)
Theorem gate_single_use s c : reachable s -> (forwards c (sys_log s) <= 1)%nat.
Proof.
  intros Hr. rewrite (gi_forwards _ (reachable_inv s Hr)). repeat case_match; lia.
Qed.

(** C9: every downstream call is made for an issued capability whose binding
    equals the observed profile, action and context, at an accepted instant
    inside the capability's window, with exactly the inert data captured from
    the observer. *)
Theorem gate_forward_authorized s c b o t p :
  reachable s -> Forwarded c b o t p ∈ sys_log s ->
  (exists st, capabilityState (sys_gate s) !! c = Some {| cr_state := st; cr_binding := b |}) /\
  snap_get (js "binding_profile") b = HStr (ob_profile o) /\
  snap_get (js "action_commitment") b = HStr (ob_action o) /\
  snap_get (js "context_commitment") b = HStr (ob_context o) /\
  active_at b t /\ p = ob_prepared o /\
  bounded_data (S max_depth) p /\ node_count p <= max_nodes.
Proof.
  intros Hr Hin. destruct (gi_log _ (reachable_inv s Hr) _ Hin) as (Hst & Hm & (Hb & Hc) & Ha & ->).
  unfold exactBindingMatches in Hm. rewrite !andb_true_iff, !bool_decide_eq_true in Hm. tauto.
Qed.

(** the instants a Gate accepts never go back, over all its calls. *)
Theorem gate_clock_monotone s : reachable s -> StronglySorted Z.ge (samples (sys_log s)).
Proof. intros Hr. apply (gi_clock _ (reachable_inv s Hr)). Qed.

(** The moves of a capability. *)
Inductive cap_move : cap_state -> cap_state -> Prop :=
  | move_reserve : cap_move AVAILABLE VALIDATING
  | move_reject : cap_move VALIDATING REJECTED
  | move_begin : cap_move VALIDATING CONSUMING
  | move_success : cap_move CONSUMING CONSUMED_SUCCESS
  | move_error : cap_move CONSUMING CONSUMED_ERROR.

(** A change of the state of [c], keeping its binding. *)
Definition moves (c : loc) (g g' : gate) : Prop :=
  forall r, capabilityState g !! c = Some r ->
  exists r', capabilityState g' !! c = Some r' /\ cr_binding r' = cr_binding r /\
    (cr_state r' = cr_state r \/ cap_move (cr_state r) (cr_state r')).

Lemma moves_refl c g g' : capabilityState g' = capabilityState g -> moves c g g'.
Proof. intros E r Hr. exists r. rewrite E. auto. Qed.

Lemma moves_trans_same c g1 g2 g3 :
  capabilityState g2 = capabilityState g1 -> moves c g2 g3 -> moves c g1 g3.
Proof. intros E H r Hr. apply H. by rewrite E. Qed.

Lemma moves_set_state c g d st :
  (forall r, capabilityState g !! d = Some r -> cap_move (cr_state r) st) ->
  moves c g (set_state g d st).
Proof.
  intros Hm r Hr. destruct (decide (d = c)) as [->|Hne].
  - rewrite (set_state_insert _ _ _ _ Hr). eexists. rewrite lookup_insert_eq. split; [done|].
    split; [done|]. right. by apply Hm.
  - exists r. unfold set_state. simpl. rewrite lookup_alter_ne by done. auto.
Qed.

Lemma moves_transition c g d from to msg g' :
  transition g d from to msg = Ok g' -> cap_move from to -> moves c g g'.
Proof.
  intros (b & Hd & ->)%transition_Ok Hm. apply moves_set_state. intros r Hr.
  rewrite Hd in Hr. by injection Hr as <-.
Qed.

Lemma moves_reject c g d e : moves c g (reject_with g d e).1.
Proof.
  unfold reject_with. destruct (rejectCapability g d) as [g'|e'] eqn:E; simpl.
  - eapply moves_transition; [exact E|constructor].
  - by apply moves_refl.
Qed.

Lemma moves_second_clock c g d b o r : moves c g (consume_second_clock g d b o r).1.1.
Proof.
  unfold consume_second_clock. destruct (sampleGateClock g r) as [[g' t]|e] eqn:E;
    [|apply moves_reject]. apply sampleGateClock_Ok in E as (Hc & _ & _).
  apply (moves_trans_same _ _ g'); [done|].
  destruct (assertCapabilityActive b t) as [[]|e]; [|apply moves_reject].
  destruct (beginConsumption g' d) as [g''|e] eqn:Eb; simpl.
  - eapply moves_transition; [exact Eb|constructor].
  - by apply moves_refl.
Qed.

Lemma moves_downstream c g d answer : moves c g (consume_downstream g d answer).1.
Proof.
  assert (moves c g (match completeConsumption g d false with
    | Ok g' => (g', Settled (Throw downstream_failed) : consume_pc)
    | Throw e => (g, Settled (Throw e)) end).1) as Hf.
  { destruct (completeConsumption g d false) as [g'|e] eqn:E; simpl.
    - eapply moves_transition; [exact E|constructor].
    - by apply moves_refl. }
  unfold consume_downstream. destruct answer; [|done].
  destruct (completeConsumption g d true) as [g'|e] eqn:E; simpl; [|done].
  eapply moves_transition; [exact E|constructor].
Qed.

(** a step never changes the binding of an issued capability and moves its
    state, if at all, one edge forward: reserved, then rejected or consuming,
    then consumed; the terminal states are never left. *)
Theorem gate_lifecycle s l s' c r :
  step s l = Some s' -> capabilityState (sys_gate s) !! c = Some r ->
  exists r', capabilityState (sys_gate s') !! c = Some r' /\ cr_binding r' = cr_binding r /\
    (cr_state r' = cr_state r \/ cap_move (cr_state r) (cr_state r')) /\
    (terminal (cr_state r) = true -> cr_state r' = cr_state r).
Proof.
  intros Hs Hr.
  assert (moves c (sys_gate s) (sys_gate s')) as Hm.
  { destruct l as [h input witness hex fresh|t cap|t reading|t h answer|t answer]; cbn [step] in Hs.
    - destruct (capabilityState _ !! fresh) eqn:Ef; [done|].
      destruct (issueReferenceAuthorizationForTest _ _ _ _ _ _) as [[g ev]|e] eqn:E;
        injection Hs as <-; [|by apply moves_refl].
      apply bind_Ok in E as ([b ev'] & _ & [= <- <-]). intros r0 Hr0. exists r0. simpl.
      rewrite lookup_insert_ne by (intros ->; congruence). auto.
    - destruct (sys_tasks s !! t); [done|]. injection Hs as <-. simpl. unfold consume_start.
      destruct (reserveCapability _ _) as [[g' [d b]]|e] eqn:E; [|by apply moves_refl].
      unfold reserveCapability in E. destruct (find_capability _ cap) as [[d' r']|] eqn:Ef; [|done].
      apply guard_bind_Ok in E as [Hst%bool_decide_eq_true [= <- _ _]]. simpl.
      apply moves_set_state. intros r0 Hr0. destruct cap; try done. simpl in Ef.
      apply fmap_Some in Ef as (r1 & Hr1 & [= -> ->]). rewrite Hr1 in Hr0. injection Hr0 as <-.
      rewrite Hst. constructor.
    - destruct (sys_tasks s !! t) as [[d b|d b|d b o|d|res]|]; try done.
      + injection Hs as <-. simpl. unfold consume_first_clock.
        destruct (sampleGateClock _ _) as [[g' now]|e] eqn:E; [|apply moves_reject].
        apply sampleGateClock_Ok in E as (Hc & _ & _). apply (moves_trans_same _ _ g'); [done|].
        destruct (assertCapabilityActive b now); [by apply moves_refl|apply moves_reject].
      + pose proof (moves_second_clock c (sys_gate s) d b o reading) as H.
        destruct (consume_second_clock _ _ _ _ _) as [next forward]. by injection Hs as <-.
    - destruct (sys_tasks s !! t) as [[d b|d b|d b o|d|res]|]; try done. injection Hs as <-. simpl.
      unfold consume_observed. repeat case_match; try apply moves_reject; by apply moves_refl.
    - destruct (sys_tasks s !! t) as [[d b|d b|d b o|d|res]|]; try done. injection Hs as <-.
      apply moves_downstream. }
  destruct (Hm r Hr) as (r' & H1 & H2 & H3). exists r'. repeat (split; [done|]).
  intros Ht. destruct H3 as [?|H3]; [done|]. by inversion H3 as [E|E|E|E|E]; rewrite <- E in Ht.
Qed.

(** The calls a waiting consumption still has to make. *)
Definition pending (pc : consume_pc) : nat :=
  match pc with
  | AwaitFirstClock _ _ => 4 | AwaitObserver _ _ => 3 | AwaitSecondClock _ _ _ => 2
  | AwaitDownstream _ => 1 | Settled _ => 0
  end.
(** [l] is an answer to the call that [pc] waits for. *)
Definition answers (t : nat) (pc : consume_pc) (l : gate_label) : Prop :=
  match pc, l with
  | (AwaitFirstClock _ _ | AwaitSecondClock _ _ _), LClock t' _ => t' = t
  | AwaitObserver _ _, LObserver t' _ _ => t' = t
  | AwaitDownstream _, LDownstream t' _ => t' = t
  | _, _ => False
  end.

(** The end of a consumption: a value, or an error of the Gate. *)
Definition settled_ok (pc : consume_pc) : Prop :=
  match pc with Settled (Throw e) => err_cls e = GateErr | _ => True end.

Lemma normalize_gate e : err_cls (normalizeCapabilityError e) = GateErr.
Proof. unfold normalizeCapabilityError. destruct (err_cls e) eqn:E; done. Qed.

Ltac gate_thrown H :=
  unfold guard_or in H; repeat case_match; try discriminate H; injection H as <-.

Lemma observed_error_gate h v e : validateObservedBinding h v = Throw e -> err_cls e = GateErr.
Proof.
  unfold validateObservedBinding.
  intros [H|(s & _ & H)]%bind_Throw.
  - unfold snapshotObservedRecord in H.
    apply bind_Throw in H as [H|(o & _ & H)]; [by gate_thrown H|].
    apply bind_Throw in H as [H|([] & _ & H)]; [by gate_thrown H|].
    apply bind_Throw in H as [H|([] & _ & H)]; [by gate_thrown H|].
    apply bind_Throw in H as [H|([] & _ & H)]; [by gate_thrown H|].
    apply bind_Throw in H as [H|([] & _ & H)].
    + revert H. generalize OBSERVED_KEYS. induction l as [|k l IH]; [done|]. simpl. unfold guard_or.
      case_match; simpl; [done|]. by intros [= <-].
    + revert H. unfold snapshot_keys. generalize OBSERVED_KEYS.
      induction l as [|k l IH]; [done|]. simpl. destruct (enumerable_data _); simpl.
      * intros [H|(? & _ & ?)]%bind_Throw; [auto|done].
      * by intros [= <-].
  - apply bind_Throw in H as [H|(p & _ & H)]; [by gate_thrown H|].
    apply bind_Throw in H as [H|(a & _ & H)]; [by gate_thrown H|].
    apply bind_Throw in H as [H|(x & _ & H)]; [by gate_thrown H|].
    apply bind_Throw in H as [H|(d & _ & H)]; [|done].
    destruct (captureReferencePlainData _ _ _); [done|]. by injection H as <-.
Qed.

(** A capability given up from VALIDATING is terminal, and the error is the
    Gate's. *)
Lemma reject_settles g c b e :
  capabilityState g !! c = Some {| cr_state := VALIDATING; cr_binding := b |} ->
  err_cls e = GateErr ->
  let '(g', pc') := reject_with g c e in
  pending pc' = 0%nat /\ settled_ok pc' /\
  exists r, capabilityState g' !! c = Some r /\ terminal (cr_state r) = true.
Proof.
  intros Hc He. rewrite (reject_with_validating _ _ b) by done.
  split; [done|]. split; [done|]. rewrite (set_state_insert _ _ _ _ Hc), lookup_insert_eq.
  by eexists.
Qed.

(** What a segment owes to its task: the next point, or the end. *)
Definition advances (pc : consume_pc) (c : loc) (next : gate * consume_pc) : Prop :=
  (pending next.2 < pending pc)%nat /\ settled_ok next.2 /\
  (pending next.2 = 0%nat ->
     exists r, capabilityState next.1 !! c = Some r /\ terminal (cr_state r) = true).

Lemma reject_advances pc g c b e :
  (0 < pending pc)%nat ->
  capabilityState g !! c = Some {| cr_state := VALIDATING; cr_binding := b |} ->
  err_cls e = GateErr -> advances pc c (reject_with g c e).
Proof.
  intros Hp Hc He. pose proof (reject_settles g c b e Hc He) as H.
  destruct (reject_with g c e) as [g' pc']. destruct H as (H0 & H1 & H2).
  split; [simpl; lia|]. by split.
Qed.

(** C24: every answer a consumption waits for takes it strictly closer to its
    end, whatever the answer is; a consumption that fails fails with an error of
    the Gate, and one that ends leaves its capability in a terminal state. *)
Theorem consume_progress s t pc c l :
  reachable s -> sys_tasks s !! t = Some pc -> owned pc = Some c -> answers t pc l ->
  exists s' pc', step s l = Some s' /\ sys_tasks s' !! t = Some pc' /\
    advances pc c (sys_gate s', pc').
Proof.
  intros Hr Ht Ho Ha. pose proof (gi_tasks _ (reachable_inv s Hr) _ _ Ht) as Hpc.
  destruct pc as [d b|d b|d b o|d|res]; simpl in Ho; try done; injection Ho as ->;
    destruct l; simpl in Ha; try done; subst; cbn [step]; rewrite Ht; simpl in Hpc.
  - eexists _, _. split; [done|]. split; [apply lookup_insert_eq|].
    change (advances (AwaitFirstClock c b) c (consume_first_clock (sys_gate s) c b reading)).
    unfold consume_first_clock.
    destruct (sampleGateClock _ _) as [[g' now]|e] eqn:E.
    + apply sampleGateClock_Ok in E as (Hcaps & _ & _).
      destruct (assertCapabilityActive b now); [split; [simpl; lia|done]|].
      eapply reject_advances; [simpl; lia|by rewrite Hcaps|apply normalize_gate].
    + eapply reject_advances; [simpl; lia|done|apply normalize_gate].
  - eexists _, _. split; [done|]. split; [apply lookup_insert_eq|].
    change (advances (AwaitObserver c b) c (consume_observed (sys_gate s) c b h answer)).
    unfold consume_observed. destruct answer as [v|e].
    + destruct (validateObservedBinding h v) as [o|e] eqn:E.
      * destruct (exactBindingMatches b o); [split; [simpl; lia|done]|].
        eapply reject_advances; [simpl; lia|done|done].
      * eapply reject_advances; [simpl; lia|done|by eapply observed_error_gate].
    + case_bool_decide; eapply reject_advances; simpl; (lia || done).
  - destruct Hpc as (Hc & _ & _).
    destruct (consume_second_clock (sys_gate s) c b o reading) as [next forward] eqn:E.
    eexists _, _. split; [done|]. split; [apply lookup_insert_eq|].
    cut (advances (AwaitSecondClock c b o) c next); [by destruct next|].
    replace next with (consume_second_clock (sys_gate s) c b o reading).1 by by rewrite E.
    clear E. unfold consume_second_clock.
    destruct (sampleGateClock _ _) as [[g' now]|e] eqn:E.
    + apply sampleGateClock_Ok in E as (Hcaps & _ & _).
      destruct (assertCapabilityActive b now).
      * assert (beginConsumption g' c = Ok (set_state g' c CONSUMING)) as ->.
        { apply transition_Ok. exists b. by rewrite Hcaps. }
        split; [simpl; lia|done].
      * eapply reject_advances; [simpl; lia|by rewrite Hcaps|apply normalize_gate].
    + eapply reject_advances; [simpl; lia|done|apply normalize_gate].
  - destruct Hpc as (b & Hc). eexists _, _. split; [done|]. split; [apply lookup_insert_eq|].
    change (advances (AwaitDownstream c) c (consume_downstream (sys_gate s) c answer)).
    unfold consume_downstream.
    assert (forall ok, completeConsumption (sys_gate s) c ok
      = Ok (set_state (sys_gate s) c (if ok then CONSUMED_SUCCESS else CONSUMED_ERROR))) as Hok
      by (intros ok; apply transition_Ok; by exists b).
    rewrite !Hok.
    destruct answer; (split; [simpl; lia|]); (split; [done|]); intros _; cbn [fst];
      rewrite (set_state_insert _ _ _ _ Hc), lookup_insert_eq; by eexists.
Qed.

(** a call of [consume] reserves exactly an available capability of this
    Gate; any other argument fails at once, without changing the Gate, with the
    stale error for a capability that was used before. *)
Theorem consume_start_spec g capability :
  match find_capability g capability with
  | Some (c, r) =>
      if decide (cr_state r = AVAILABLE)
      then consume_start g capability = (set_state g c VALIDATING, AwaitFirstClock c (cr_binding r))
      else consume_start g capability =
        (g, Settled (Throw (stale "Reference capability is no longer available")))
  | None => consume_start g capability =
      (g, Settled (Throw (gateError "POMRX_GATE_E_CAPABILITY_REQUIRED"
                            "A capability from this reference Gate is required")))
  end.
Proof.
  unfold consume_start, reserveCapability.
  destruct (find_capability g capability) as [[c r]|]; [|done].
  destruct (decide (cr_state r = AVAILABLE)).
  - by rewrite bool_decide_true.
  - by rewrite bool_decide_false.
Qed.
End gate_properties.

(** ** A run *)

Section gate_witness.
#[local] Existing Instances plain_string_host checksum_hash_host iso_date_host.

(** Object 2 is the record the observer returns. *)
Definition observer_heap : heap := fun l =>
  {| o_proxy := false; o_proto := ObjectPrototype; o_array := None; o_symbols := 0;
     o_props := match l with
       | 2%nat =>
           [data_entry "binding_profile" (js "profile/v1");
            data_entry "action_commitment" (repeat 99%N 64);
            data_entry "context_commitment" (repeat 100%N 64);
            (js "prepared_execution",
              {| p_enumerable := true; p_content := Data (HRef 3%nat) |})]
       | _ => [data_entry "call" (js "transfer")]
       end |}.

Definition sample_issue : gate_label :=
  LIssue Authorization.sample_heap (HRef 0%nat) (HStr (js "2026-03-01T00:02:00.000Z"))
    (repeat 97%N 32) 7%nat.
Definition sample_tick (task : nat) (t : string) : gate_label :=
  LClock task (ClockReturned (HStr (js t)) ThenOther).

(** Two consumptions of one capability: the second one fails, the first one
    forwards. *)
Definition sample_run : list gate_label :=
  [sample_issue; LConsume 0 (HRef 7%nat); LConsume 1 (HRef 7%nat);
   sample_tick 0 "2026-03-01T00:00:10.000Z"; LObserver 0 observer_heap (Resolved (HRef 2%nat));
   sample_tick 0 "2026-03-01T00:00:11.000Z"].

Fixpoint run (s : system) (ls : list gate_label) : option system :=
  match ls with
  | [] => Some s
  | l :: ls' => match step s l with Some s' => run s' ls' | None => None end
  end.

Lemma run_reachable s ls s' : reachable s -> run s ls = Some s' -> reachable s'.
Proof.
  revert s. induction ls as [|l ls IH]; intros s Hr H; simpl in H; [by injection H as <-|].
  destruct (step s l) as [s1|] eqn:E; [|done]. eapply IH; [|exact H]. by eapply reach_step.
Qed.

Definition sample_prefix : system :=
  default initial_system (run initial_system (take 3 sample_run)).
Definition sample_system : system := default initial_system (run initial_system sample_run).

Lemma sample_prefix_reachable : reachable sample_prefix.
Proof.
  apply (run_reachable initial_system (take 3 sample_run)); [constructor|].
  vm_compute. reflexivity.
Qed.
Lemma sample_system_reachable : reachable sample_system.
Proof.
  apply (run_reachable initial_system sample_run); [constructor|]. vm_compute. reflexivity.
Qed.

Lemma gate_single_use_witness :
  forwards 7%nat (sys_log sample_system) = 1%nat /\ (forwards 7%nat (sys_log sample_system) <= 1)%nat.
Proof.
  split; [vm_compute; reflexivity|]. apply (gate_single_use sample_system 7%nat).
  apply sample_system_reachable.
Defined.

Lemma gate_clock_monotone_witness :
  samples (sys_log sample_system) = [1772323211000; 1772323210000] /\
  StronglySorted Z.ge (samples (sys_log sample_system)).
Proof.
  split; [vm_compute; reflexivity|]. apply gate_clock_monotone. apply sample_system_reachable.
Defined.

Lemma gate_forward_authorized_witness :
  exists c b o t p, Forwarded c b o t p ∈ sys_log sample_system /\
    p = ob_prepared o /\ active_at b t.
Proof.
  assert (exists c b o t p l, sys_log sample_system = Forwarded c b o t p :: l)
    as (c & b & o & t & p & l & E) by (eexists _, _, _, _, _, _; vm_compute; reflexivity).
  exists c, b, o, t, p. assert (Forwarded c b o t p ∈ sys_log sample_system) as Hin
    by (rewrite E; left).
  destruct (gate_forward_authorized sample_system c b o t p sample_system_reachable Hin)
    as (_ & _ & _ & _ & H1 & H2 & _).
  exact (conj Hin (conj H2 H1)).
Defined.

Lemma gate_lifecycle_witness :
  exists s' r r', step sample_prefix (sample_tick 0 "2026-03-01T00:00:10.000Z") = Some s' /\
    capabilityState (sys_gate sample_prefix) !! 7%nat = Some r /\
    capabilityState (sys_gate s') !! 7%nat = Some r' /\ cr_binding r' = cr_binding r.
Proof.
  destruct (step sample_prefix (sample_tick 0 "2026-03-01T00:00:10.000Z")) as [s'|] eqn:E;
    [|vm_compute in E; discriminate E].
  destruct (capabilityState (sys_gate sample_prefix) !! 7%nat) as [r|] eqn:Er;
    [|vm_compute in Er; discriminate Er].
  destruct (gate_lifecycle _ _ _ 7%nat r E Er) as (r' & H1 & H2 & _).
  exists s', r, r'. exact (conj eq_refl (conj eq_refl (conj H1 H2))).
Defined.

Lemma consume_progress_witness :
  exists s' pc', step sample_prefix (sample_tick 0 "2026-03-01T00:00:10.000Z") = Some s' /\
    sys_tasks s' !! 0%nat = Some pc'.
Proof.
  destruct (sys_tasks sample_prefix !! 0%nat) as [[c b| | | |]|] eqn:E;
    try (vm_compute in E; discriminate E).
  destruct (consume_progress sample_prefix 0%nat (AwaitFirstClock c b) c
    (sample_tick 0 "2026-03-01T00:00:10.000Z") sample_prefix_reachable E eq_refl eq_refl)
    as (s' & pc' & H1 & H2 & _).
  exists s', pc'. exact (conj H1 H2).
Defined.
End gate_witness.
