(* ===== verification/Diagnostics.v ===== *)
(** * Strict diagnostics

    Models [sdk/typescript/internal/pom-rx-v01-diagnostics.mjs]: the diagnostic
    records, their registry, and the ordered and deduplicated list every strict
    verdict carries.  The [details] of a thrown error are not modelled. *)
From S2P Require Import Prelude JsDate JsValue ProofSdk PomRx.

#[local] Arguments js : simpl never.

Definition PROFILE_LIMITATIONS : list jsstr := js <$>
  ["POMRX_V01_L_OPAQUE_COMMITMENT_CONTENT_UNPROVED"; "POMRX_V01_L_NATIVE_EXECUTION_UNPROVED";
   "POMRX_V01_L_CROSS_CHAIN_REPLAY_UNPROVED"; "POMRX_V01_L_SIGNED_WITNESS_UNPROVED";
   "POMRX_V01_L_GATE_AUTHORIZATION_UNPROVED"; "POMRX_V01_L_MALICIOUS_LOCAL_RUNTIME_UNPROVED"].

Definition ERROR_CODES : list jsstr := js <$>
  ["POMRX_V01_E_PROFILE_REQUIRED"; "POMRX_V01_E_PROFILE_UNSUPPORTED";
   "POMRX_V01_E_DOWNGRADE_FORBIDDEN"; "POMRX_V01_E_POLICY_CAPABILITY_REQUIRED";
   "POMRX_V01_E_POLICY_CAPABILITY_STALE"; "POMRX_V01_E_POLICY_INVALID";
   "POMRX_V01_E_POLICY_TIME_UNAVAILABLE"; "POMRX_V01_E_ARTIFACT_MANIFEST_INVALID";
   "POMRX_V01_E_VERIFIER_NOT_ALLOWED"; "POMRX_V01_E_VERIFIER_WITHDRAWN";
   "POMRX_V01_E_IMPLEMENTATION_ARTIFACT_MISMATCH"; "POMRX_V01_E_RUNTIME_ENVIRONMENT_UNSUPPORTED";
   "POMRX_V01_E_SCHEMA_INVALID"; "POMRX_V01_E_CANONICALIZATION_FAILED";
   "POMRX_V01_E_RECEIPT_HASH_LINK_INVALID"; "POMRX_V01_E_CHAIN_PHASE_INVALID";
   "POMRX_V01_E_CHAIN_TIMESTAMP_INVALID"; "POMRX_V01_E_CHAIN_SHARED_FIELD_CHANGED";
   "POMRX_V01_E_PARTIAL_CHAIN_FORBIDDEN"; "POMRX_V01_E_ACTION_CONTINUITY";
   "POMRX_V01_E_INPUT_CONTINUITY"; "POMRX_V01_E_EXECUTION_ASSERTION_CONFLICT";
   "POMRX_V01_E_RECONCILIATION_ASSERTION_CONFLICT"; "POMRX_V01_E_DUPLICATE_RECEIPT_ID";
   "POMRX_V01_E_PROFILE_INCOMPLETE"; "POMRX_V01_E_INTERNAL_VERIFIER_ERROR"].
Definition WARNING_CODES : list jsstr := [js "POMRX_V01_W_LEGACY_NON_AUTHORIZING"].
Definition MAX_DIAGNOSTIC_FIELD_LENGTH : nat := 256.
Definition MAX_DIAGNOSTIC_MESSAGE_LENGTH : Z := 2048.

Definition DEFECT_CODE_MAP : list (jsstr * jsstr) :=
  [(js "POMRX-001-ACTION-PREFLIGHT-EXECUTION", js "POMRX_V01_E_ACTION_CONTINUITY");
   (js "POMRX-001-ACTION-EXECUTION-RECONCILIATION", js "POMRX_V01_E_ACTION_CONTINUITY");
   (js "POMRX-001-INPUT-PREFLIGHT-EXECUTION", js "POMRX_V01_E_INPUT_CONTINUITY");
   (js "POMRX-001-INPUT-EXECUTION-RECONCILIATION", js "POMRX_V01_E_INPUT_CONTINUITY");
   (js "POMRX-006-EXECUTION-FAIL-ASSERTION", js "POMRX_V01_E_EXECUTION_ASSERTION_CONFLICT");
   (js "POMRX-006-RECONCILIATION-FAIL-ASSERTION",
      js "POMRX_V01_E_RECONCILIATION_ASSERTION_CONFLICT");
   (js "POMRX-007-DUPLICATE-RECEIPT-ID", js "POMRX_V01_E_DUPLICATE_RECEIPT_ID")].

(** [/^POMRX-\d{3}-[A-Z0-9-]+$/u] *)
Definition defect_pattern (s : jsstr) : bool :=
  str_eqb (take 6 s) (js "POMRX-") && re_class is_digit 3 3 (take 3 (drop 6 s)) &&
  str_eqb (take 1 (drop 9 s)) (js "-") && (1 <=? length (drop 10 s))%nat &&
  forallb (fun c => is_upper c || is_digit c || (c =? 45)%N) (drop 10 s).

Inductive severity := SevError | SevWarning.
#[export] Instance severity_eq_dec : EqDecision severity.
Proof. solve_decision. Defined.
Definition severity_name (s : severity) : jsstr :=
  match s with SevError => js "error" | SevWarning => js "warning" end.

Record diagnostic := {
  defect_id : option jsstr;
  diagnostic_code : jsstr;
  d_severity : severity;
  d_phase : option phase;
  receipt_index : option Z;
  d_field : option jsstr;
  d_message : jsstr;
}.
#[export] Instance diagnostic_eq_dec : EqDecision diagnostic.
Proof. solve_decision. Defined.

(** The argument of [makePomRxV01Diagnostic]; [VUndef] where a field is left
    out. *)
Record diagnostic_input := {
  in_defect : jsv; in_code : jsv; in_severity : jsv; in_phase : jsv;
  in_index : jsv; in_field : jsv; in_message : jsv;
}.

Definition strict_error (code : string) (msg : jsstr) : jserr := Err StrictErr (js code) msg.
(** [fail] *)
Definition internal_error (msg : string) : jserr :=
  strict_error "POMRX_V01_E_INTERNAL_VERIFIER_ERROR" (js msg).

(** [throwPomRxV01Strict] *)
Definition throwPomRxV01Strict {A} (code : string) (message : jsstr) : res A :=
  if mem_str (js code) ERROR_CODES then Throw (strict_error code message)
  else Throw (internal_error "Attempted to throw an unregistered strict error").

(** [= null] in the parameter list: [undefined] becomes [null]. *)
Definition or_null (v : jsv) : jsv := match v with VUndef => VNull | _ => v end.

(** A value that is [null] or a string that passes the test. *)
Definition null_or (test : jsstr -> bool) (v : jsv) (msg : string) : res (option jsstr) :=
  match v with
  | VNull => Ok None
  | _ => match str_that test v with
         | Some s => Ok (Some s)
         | None => Throw (internal_error msg)
         end
  end.

Definition diagnostic_phase (v : jsv) : res (option phase) :=
  match v with
  | VNull => Ok None
  | _ => match choose phase_name PHASES v with
         | Some p => Ok (Some p)
         | None => Throw (internal_error "Diagnostic phase is invalid")
         end
  end.

Definition diagnostic_index (v : jsv) : res (option Z) :=
  match v with
  | VNull => Ok None
  | _ => match is_safe_integer v with
         | Some z => if 0 <=? z then Ok (Some z)
                     else Throw (internal_error "Diagnostic receipt_index is invalid")
         | None => Throw (internal_error "Diagnostic receipt_index is invalid")
         end
  end.

Definition makePomRxV01Diagnostic (d : diagnostic_input) : res diagnostic :=
  let unknown := internal_error "Unknown POM-RX v0.1 strict diagnostic code" in
  let is_error v := match v with VStr c => mem_str c ERROR_CODES | _ => false end in
  let severityValue := match in_severity d with
    | VUndef => VStr (if is_error (in_code d) then js "error" else js "warning")
    | v => v
    end in
  code ← match in_code d with
    | VStr c => if mem_str c ERROR_CODES || mem_str c WARNING_CODES then Ok c else Throw unknown
    | _ => Throw unknown
    end;
  severity ← match choose severity_name [SevError; SevWarning] severityValue with
    | Some SevError => if mem_str code ERROR_CODES then Ok SevError
        else Throw (internal_error "Diagnostic severity does not match its registry class")
    | Some SevWarning => if mem_str code WARNING_CODES then Ok SevWarning
        else Throw (internal_error "Diagnostic severity does not match its registry class")
    | None => Throw (internal_error "Diagnostic severity does not match its registry class")
    end;
  defect ← null_or defect_pattern (or_null (in_defect d)) "Diagnostic defect_id is invalid";
  _ ← guard_or (match defect with
                | Some i => bool_decide (alist_get i DEFECT_CODE_MAP = Some code)
                | None => true
                end)
        (internal_error "Diagnostic defect_id and code do not match the stable registry");
  phase ← diagnostic_phase (or_null (in_phase d));
  index ← diagnostic_index (or_null (in_index d));
  field ← null_or (fun s => (1 <=? length s)%nat && (length s <=? MAX_DIAGNOSTIC_FIELD_LENGTH)%nat
                            && negb (has_control s))
            (or_null (in_field d)) "Diagnostic field is invalid";
  message ← match str_that (fun s => (1 <=? length s)%nat
                  && (Z.of_nat (length s) <=? MAX_DIAGNOSTIC_MESSAGE_LENGTH)
                  && negb (has_control s)) (in_message d) with
    | Some s => Ok s
    | None => Throw (internal_error "Diagnostic message is invalid")
    end;
  Ok {| defect_id := defect; diagnostic_code := code; d_severity := severity; d_phase := phase;
        receipt_index := index; d_field := field; d_message := message |}.

(** ** The order *)

(** [Array.from(s, c => c.codePointAt(0))] *)
Fixpoint code_points (s : jsstr) : list N :=
  match s with
  | [] => []
  | c :: s' =>
      match s' with
      | d :: s'' =>
          if is_high_surrogate c && is_low_surrogate d
          then (65536 + (c - 55296) * 1024 + (d - 56320))%N :: code_points s''
          else c :: code_points s'
      | [] => [c]
      end
  end.

(** The sign of a comparator, as [Lt], [Eq] or [Gt]. *)
Definition compareUnicodeScalars (left right : jsstr) : comparison :=
  let a := code_points left in
  let b := code_points right in
  if str_ltb a b then Lt else if str_ltb b a then Gt else Eq.

Definition compareNullable {A} (comparator : A -> A -> comparison) (left right : option A)
  : comparison :=
  match left, right with
  | None, None => Eq
  | None, _ => Gt
  | _, None => Lt
  | Some a, Some b => comparator a b
  end.

(** [first || second] on comparator results *)
Definition lex (first second : comparison) : comparison :=
  match first with Eq => second | _ => first end.

Definition compare_phase (a b : phase) : comparison :=
  Nat.compare (phase_index a) (phase_index b).

Definition compare_diagnostics (left right : diagnostic) : comparison :=
  lex (compareNullable compare_phase (d_phase left) (d_phase right)) $
  lex (compareNullable Z.compare (receipt_index left) (receipt_index right)) $
  lex (compareUnicodeScalars (diagnostic_code left) (diagnostic_code right)) $
  lex (compareNullable compareUnicodeScalars (d_field left) (d_field right)) $
  compareNullable compareUnicodeScalars (defect_id left) (defect_id right).

Definition diagnostic_leb (left right : diagnostic) : bool :=
  match compare_diagnostics left right with Gt => false | _ => true end.

(** The identity two diagnostics are compared by; [JSON.stringify] of it tells
    apart what the tuple tells apart. *)
Definition identity (d : diagnostic) :=
  (d_phase d, receipt_index d, diagnostic_code d, d_field d, defect_id d).

(** Keep the first diagnostic of every identity. *)
Fixpoint dedup_from (seen : list (option phase * option Z * jsstr * option jsstr * option jsstr))
    (ds : list diagnostic) : list diagnostic :=
  match ds with
  | [] => []
  | d :: ds' =>
      if bool_decide (identity d ∈ seen) then dedup_from seen ds'
      else d :: dedup_from (identity d :: seen) ds'
  end.

Definition phase_value (p : option phase) : jsv := opt_value (phase_name <$> p).
Definition index_value (i : option Z) : jsv :=
  match i with Some z => VNum (NInt z) | None => VNull end.

Definition diagnostic_value_input (d : diagnostic) : diagnostic_input :=
  {| in_defect := opt_value (defect_id d); in_code := VStr (diagnostic_code d);
     in_severity := VStr (severity_name (d_severity d));
     in_phase := phase_value (d_phase d); in_index := index_value (receipt_index d);
     in_field := opt_value (d_field d); in_message := VStr (d_message d) |}.

Definition orderPomRxV01Diagnostics (diagnostics : list diagnostic_input)
  : res (list diagnostic) :=
  normalized ← map_res makePomRxV01Diagnostic diagnostics;
  Ok (dedup_from [] (sort_by diagnostic_leb normalized)).

(** ** The comparator is a total preorder *)

Record good_comparison {A} (cmp : A -> A -> comparison) : Prop := {
  cmp_opp x y : cmp y x = CompOpp (cmp x y);
  cmp_eq x y z : cmp x y = Eq -> cmp x z = cmp y z;
  cmp_trans x y z : cmp x y = Lt -> cmp y z = Lt -> cmp x z = Lt;
}.

Lemma good_lex {A} (c1 c2 : A -> A -> comparison) :
  good_comparison c1 -> good_comparison c2 ->
  good_comparison (fun x y => lex (c1 x y) (c2 x y)).
Proof.
  intros [o1 e1 t1] [o2 e2 t2]. split; intros x y.
  - rewrite o1, o2. by destruct (c1 x y).
  - intros z. destruct (c1 x y) eqn:E; simpl; try done. intros E2.
    by rewrite (e1 _ _ z E), (e2 _ _ z E2).
  - intros z. pose proof (e1 x y z) as He. pose proof (t1 x y z) as Ht.
    pose proof (o1 y z) as Ho. pose proof (e1 z y x) as He'. rewrite Ho, (o1 x y), (o1 x z) in He'.
    destruct (c1 x y); simpl; try done.
    + rewrite He by done. destruct (c1 y z); simpl; try done. apply t2.
    + intros _. destruct (c1 y z); simpl in *; try done.
      * intros _. specialize (He' eq_refl). by destruct (c1 x z).
      * intros _. by rewrite Ht.
Qed.

Lemma good_map {A B} (f : A -> B) cmp :
  good_comparison cmp -> good_comparison (fun x y => cmp (f x) (f y)).
Proof. intros [? ? ?]. split; eauto. Qed.

Lemma good_nullable {A} (cmp : A -> A -> comparison) :
  good_comparison cmp -> good_comparison (compareNullable cmp).
Proof.
  intros [o e t]. split.
  - intros [x|] [y|]; simpl; auto.
  - intros [x|] [y|] [z|]; simpl; try done. apply e.
  - intros [x|] [y|] [z|]; simpl; try done. apply t.
Qed.

Lemma good_Z : good_comparison Z.compare.
Proof.
  split.
  - intros x y. apply Z.compare_antisym.
  - intros x y z ->%Z.compare_eq. done.
  - intros x y z. rewrite !Z.compare_lt_iff. lia.
Qed.

Lemma good_nat : good_comparison Nat.compare.
Proof.
  split.
  - intros x y. apply Nat.compare_antisym.
  - intros x y z ->%Nat.compare_eq. done.
  - intros x y z. rewrite !Nat.compare_lt_iff. lia.
Qed.

Lemma good_str :
  good_comparison (fun a b => if str_ltb a b then Lt else if str_ltb b a then Gt else Eq).
Proof.
  assert (forall a b, str_ltb a b = false -> str_ltb b a = false -> a = b) as Heq.
  { intros a b H1 H2. destruct (str_ltb_trichotomy a b) as [|[|]]; congruence. }
  split.
  - intros x y. destruct (str_ltb x y) eqn:E1, (str_ltb y x) eqn:E2; try done.
    by rewrite (str_ltb_asym _ _ E1) in E2.
  - intros x y z. destruct (str_ltb x y) eqn:E1, (str_ltb y x) eqn:E2; try done.
    by rewrite (Heq _ _ E1 E2).
  - intros x y z. destruct (str_ltb x y) eqn:E1; [|by destruct (str_ltb y x)].
    destruct (str_ltb y z) eqn:E2; [|by destruct (str_ltb z y)].
    by rewrite (str_ltb_trans _ _ _ E1 E2).
Qed.

Lemma good_unicode : good_comparison compareUnicodeScalars.
Proof. apply (good_map code_points _ good_str). Qed.

Lemma good_diagnostics : good_comparison compare_diagnostics.
Proof.
  unfold compare_diagnostics.
  repeat apply good_lex; first
    [ apply (good_map d_phase), good_nullable, (good_map phase_index), good_nat
    | apply (good_map receipt_index), good_nullable, good_Z
    | apply (good_map diagnostic_code), good_unicode
    | apply (good_map d_field), good_nullable, good_unicode
    | apply (good_map defect_id), good_nullable, good_unicode ].
Qed.

Lemma diagnostic_leb_total a b : diagnostic_leb a b = true \/ diagnostic_leb b a = true.
Proof.
  unfold diagnostic_leb. rewrite (cmp_opp _ good_diagnostics a b).
  destruct (compare_diagnostics a b); auto.
Qed.

Lemma diagnostic_leb_trans a b c :
  diagnostic_leb a b = true -> diagnostic_leb b c = true -> diagnostic_leb a c = true.
Proof.
  unfold diagnostic_leb. destruct good_diagnostics as [o e t].
  pose proof (e a b c) as E1. pose proof (e c b a) as E2. pose proof (t a b c) as T.
  rewrite (o b c), (o a b), (o a c) in E2.
  destruct (compare_diagnostics a b), (compare_diagnostics b c); try done; intros _ _.
  - by rewrite E1.
  - by rewrite E1.
  - specialize (E2 eq_refl). by destruct (compare_diagnostics a c).
  - by rewrite T.
Qed.

(** ** Deduplication *)

Lemma elem_of_dedup_from seen ds d : d ∈ dedup_from seen ds -> d ∈ ds /\ identity d ∉ seen.
Proof.
  revert seen. induction ds as [|x ds IH]; intros seen; simpl; [by intros ?%not_elem_of_nil|].
  case_bool_decide as Hs.
  - intros [? ?]%IH. split; [by right|done].
  - intros [->|H]%elem_of_cons; [split; [left|done]|].
    apply IH in H as [? Hn]. split; [by right|]. intros ?. apply Hn. by right.
Qed.

Lemma dedup_from_NoDup seen ds : NoDup (identity <$> dedup_from seen ds).
Proof.
  revert seen. induction ds as [|x ds IH]; intros seen; simpl; [constructor|].
  case_bool_decide as Hs; [apply IH|]. rewrite fmap_cons. constructor; [|apply IH].
  intros (d & E & Hd)%list_elem_of_fmap. apply elem_of_dedup_from in Hd as [_ Hd].
  apply Hd. rewrite E. left.
Qed.

Lemma dedup_from_identities seen ds i :
  i ∈ (identity <$> dedup_from seen ds) <-> (i ∉ seen) /\ i ∈ (identity <$> ds).
Proof.
  revert seen. induction ds as [|x ds IH]; intros seen; cbn [dedup_from].
  - split; [by intros ?%not_elem_of_nil|]. by intros [_ ?%not_elem_of_nil].
  - rewrite fmap_cons, elem_of_cons. case_bool_decide as Hs.
    + rewrite IH. split; [tauto|]. intros [? [->|?]]; done.
    + rewrite fmap_cons, elem_of_cons, IH, elem_of_cons.
      destruct (decide (i = identity x)) as [->|]; tauto.
Qed.

Lemma dedup_from_sorted seen ds (R : diagnostic -> diagnostic -> Prop) :
  StronglySorted R ds -> StronglySorted R (dedup_from seen ds).
Proof.
  intros H. revert seen. induction H as [|x ds _ IH Hx]; intros seen; simpl; [constructor|].
  case_bool_decide; [apply IH|]. constructor; [apply IH|]. apply Forall_forall.
  intros d [Hd _]%elem_of_dedup_from. rewrite Forall_forall in Hx. auto.
Qed.

Lemma dedup_from_id seen ds :
  NoDup (identity <$> ds) -> (forall d, d ∈ ds -> identity d ∉ seen) -> dedup_from seen ds = ds.
Proof.
  revert seen. induction ds as [|x ds IH]; intros seen Hn Hs; simpl; [done|].
  rewrite fmap_cons in Hn. apply NoDup_cons in Hn as [Hx Hn].
  rewrite bool_decide_false by (apply Hs; left). f_equal. apply IH; [done|].
  intros d Hd [E|H]%elem_of_cons.
  - apply Hx. rewrite <- E. by apply list_elem_of_fmap_2.
  - by apply (Hs d); [right|].
Qed.

(** ** The registry *)

Definition severity_codes (s : severity) : list jsstr :=
  match s with SevError => ERROR_CODES | SevWarning => WARNING_CODES end.

Definition field_ok (s : jsstr) : bool :=
  (1 <=? length s)%nat && (length s <=? MAX_DIAGNOSTIC_FIELD_LENGTH)%nat && negb (has_control s).
Definition message_ok (s : jsstr) : bool :=
  (1 <=? length s)%nat && (Z.of_nat (length s) <=? MAX_DIAGNOSTIC_MESSAGE_LENGTH)
  && negb (has_control s).

(** What every diagnostic satisfies. *)
Record diagnostic_wf (d : diagnostic) : Prop := {
  dwf_code : diagnostic_code d ∈ severity_codes (d_severity d);
  dwf_defect i : defect_id d = Some i ->
    defect_pattern i = true /\ alist_get i DEFECT_CODE_MAP = Some (diagnostic_code d);
  dwf_index z : receipt_index d = Some z -> 0 <= z <= max_safe_integer;
  dwf_field s : d_field d = Some s -> field_ok s = true;
  dwf_message : message_ok (d_message d) = true;
}.

Lemma null_or_Ok test v msg o :
  null_or test v msg = Ok o <-> v = opt_value o /\ (forall s, o = Some s -> test s = true).
Proof.
  unfold null_or, str_that. split.
  - destruct v as [| | | |s| | | | |]; try done.
    + by intros [= <-].
    + destruct (test s) eqn:E; [|done]. intros [= <-]. split; [done|]. by intros ? [= <-].
  - intros [-> H]. destruct o as [s|]; simpl; [|done]. by rewrite H.
Qed.

Lemma severity_name_inj x y : severity_name x = severity_name y -> x = y.
Proof. destruct x, y; vm_compute; congruence. Qed.

Lemma or_null_opt o v : or_null v = opt_value o -> or_null (or_null v) = opt_value o.
Proof. by destruct v. Qed.

Lemma is_safe_integer_Some v z :
  is_safe_integer v = Some z <->
  v = VNum (NInt z) /\ - max_safe_integer <= z <= max_safe_integer.
Proof.
  unfold is_safe_integer. destruct v as [| | |[n| | |]| | | | | |]; try (split; [done|by intros []]).
  destruct (_ && _) eqn:E; split.
  - intros [= ->]. rewrite andb_true_iff, !Z.leb_le in E. split; [done|lia].
  - by intros [[= ->] _].
  - done.
  - intros [[= ->] ?]. rewrite andb_false_iff, !Z.leb_gt in E. lia.
Qed.

Lemma diagnostic_phase_value p : diagnostic_phase (or_null (phase_value p)) = Ok p.
Proof. by destruct p as [[]|]. Qed.

Lemma diagnostic_index_Ok v i :
  diagnostic_index v = Ok i <-> v = index_value i /\ (forall z, i = Some z -> 0 <= z <= max_safe_integer).
Proof.
  unfold diagnostic_index. split.
  - destruct v; try done; [by intros [= <-]|].
    destruct (is_safe_integer _) as [y|] eqn:E; [|done]. destruct (Z.leb_spec 0 y); [|done].
    intros [= <-]. apply is_safe_integer_Some in E as [-> ?]. split; [done|].
    intros z [= <-]. lia.
  - intros [-> Hi]. destruct i as [z|]; [|done]. cbn [index_value].
    specialize (Hi z eq_refl).
    rewrite (proj2 (is_safe_integer_Some (VNum (NInt z)) z)) by (split; [done|lia]).
    by rewrite (proj2 (Z.leb_le 0 z)) by lia.
Qed.

Lemma warning_not_error s : s ∈ WARNING_CODES -> mem_str s ERROR_CODES = false.
Proof. intros ->%list_elem_of_singleton. vm_compute. done. Qed.

Lemma makePomRxV01Diagnostic_wf input d :
  makePomRxV01Diagnostic input = Ok d -> diagnostic_wf d.
Proof.
  unfold makePomRxV01Diagnostic. intros H. apply bind_Ok in H as (code & Hcode & H).
  apply bind_Ok in H as (sev & Hsev & H). apply bind_Ok in H as (defect & Hdef & H).
  apply guard_bind_Ok in H as [Hmap H]. apply bind_Ok in H as (ph & Hph & H).
  apply bind_Ok in H as (idx & Hidx & H). apply bind_Ok in H as (fld & Hfld & H).
  apply bind_Ok in H as (msg & Hmsg & [= <-]).
  apply null_or_Ok in Hdef as [_ Hdef], Hfld as [_ Hfld]. split; simpl.
  - destruct (choose _ _ _) as [[]|]; [..|done].
    + destruct (mem_str code ERROR_CODES) eqn:E; [|done]. injection Hsev as <-.
      by apply mem_str_true in E.
    + destruct (mem_str code WARNING_CODES) eqn:E; [|done]. injection Hsev as <-.
      by apply mem_str_true in E.
  - intros i ->. apply bool_decide_eq_true in Hmap. auto.
  - intros z ->. apply diagnostic_index_Ok in Hidx as [_ Hidx]. by apply Hidx.
  - intros s ->. by apply Hfld.
  - destruct (in_message input) as [| | | |m| | | | |]; try done. simpl in Hmsg.
    destruct (_ && _) eqn:E; [|done]. by injection Hmsg as <-.
Qed.

Lemma makePomRxV01Diagnostic_again d :
  diagnostic_wf d -> makePomRxV01Diagnostic (diagnostic_value_input d) = Ok d.
Proof.
  intros [Hc Hd Hi Hf Hm]. unfold makePomRxV01Diagnostic. destruct d as [def code sev ph idx fld msg].
  unfold diagnostic_value_input. simpl in Hc, Hd, Hi, Hf, Hm.
  cbn [in_defect in_code in_severity in_phase in_index in_field in_message
    defect_id diagnostic_code d_severity d_phase receipt_index d_field d_message].
  assert (mem_str code ERROR_CODES || mem_str code WARNING_CODES = true) as ->.
  { apply orb_true_iff. destruct sev; [left|right]; by apply mem_str_true. }
  cbn [mbind res_bind].
  rewrite choose_name by (done || apply severity_name_inj || (destruct sev; [left|right; left])).
  apply mem_str_true in Hc.
  assert (null_or defect_pattern (opt_value def) "Diagnostic defect_id is invalid" = Ok def) as Edef
    by (apply null_or_Ok; split; [done|]; intros s E; by apply Hd).
  assert (null_or field_ok (opt_value fld) "Diagnostic field is invalid" = Ok fld) as Efld
    by (by apply null_or_Ok).
  assert (or_null (opt_value def) = opt_value def) as -> by by destruct def.
  assert (or_null (opt_value fld) = opt_value fld) as -> by by destruct fld.
  fold field_ok. rewrite Edef, Efld. unfold message_ok in Hm. cbn [str_that]. rewrite Hm.
  assert (match def with Some i => bool_decide (alist_get i DEFECT_CODE_MAP = Some code)
    | None => true end = true) as Emap.
  { destruct def as [i|]; [|done]. apply bool_decide_eq_true. by apply Hd. }
  assert (diagnostic_index (or_null (index_value idx)) = Ok idx) as Eidx.
  { apply diagnostic_index_Ok. split; [by destruct idx|done]. }
  rewrite diagnostic_phase_value, Eidx.
  destruct sev; simpl in Hc; rewrite Hc; cbn [mbind res_bind]; by rewrite Emap.
Qed.

(** ** Properties *)

(** the diagnostics of a verdict are a normal form of the diagnostics found:
    they are in the registry's format and order, no two have the same identity,
    every identity found is present and no other, and ordering them again
    changes nothing. *)
Theorem orderPomRxV01Diagnostics_normal_form inputs out :
  orderPomRxV01Diagnostics inputs = Ok out ->
  Forall diagnostic_wf out /\
  StronglySorted (fun a b => diagnostic_leb a b = true) out /\
  NoDup (identity <$> out) /\
  (forall i, i ∈ (identity <$> out) <->
     exists input d, input ∈ inputs /\ makePomRxV01Diagnostic input = Ok d /\ identity d = i) /\
  orderPomRxV01Diagnostics (diagnostic_value_input <$> out) = Ok out.
Proof.
  intros (ds & Hds & [= <-])%bind_Ok. apply map_res_Ok in Hds.
  set (out := dedup_from [] (sort_by diagnostic_leb ds)).
  assert (Forall diagnostic_wf ds) as Hwf.
  { eapply Forall2_Forall_r; [exact Hds|]. apply Forall_true.
    intros ? ?. apply makePomRxV01Diagnostic_wf. }
  assert (Forall diagnostic_wf out) as Hout.
  { apply Forall_forall. intros d [Hd _]%elem_of_dedup_from.
    apply elem_of_sort_by in Hd. rewrite Forall_forall in Hwf. auto. }
  assert (StronglySorted (fun a b => diagnostic_leb a b = true) out) as Hs.
  { apply dedup_from_sorted, sort_by_sorted;
      eauto using diagnostic_leb_total, diagnostic_leb_trans. }
  split; [done|]. split; [done|]. split; [apply dedup_from_NoDup|]. split.
  - intros i. unfold out. rewrite dedup_from_identities, sort_by_perm.
    split.
    + intros [_ (d & -> & Hd)%list_elem_of_fmap].
      apply list_elem_of_lookup in Hd as [k Hk].
      destruct (Forall2_lookup_r _ _ _ _ _ Hds Hk) as (input & Hin & Hm).
      exists input, d. split; [by eapply list_elem_of_lookup_2|done].
    + intros (input & d & Hin & Hm & <-). split; [apply not_elem_of_nil|].
      apply list_elem_of_fmap_2. apply list_elem_of_lookup in Hin as [k Hk].
      destruct (Forall2_lookup_l _ _ _ _ _ Hds Hk) as (d' & Hd & Hm').
      assert (d' = d) as -> by congruence. by eapply list_elem_of_lookup_2.
  - unfold orderPomRxV01Diagnostics. apply bind_Ok. exists out. split.
    + apply map_res_Ok, Forall2_fmap_l, Forall_Forall2_diag. eapply Forall_impl; [exact Hout|].
      apply makePomRxV01Diagnostic_again.
    + rewrite sort_by_sorted_id by done. rewrite dedup_from_id; [done|apply dedup_from_NoDup|].
      intros d _. apply not_elem_of_nil.
Qed.

(** ** A concrete list *)

Definition sample_input (defect code phase : string) (index : Z) : diagnostic_input :=
  {| in_defect := VStr (js defect); in_code := VStr (js code); in_severity := VUndef;
     in_phase := VStr (js phase); in_index := VNum (NInt index); in_field := VNull;
     in_message := VStr (js "sample") |}.

Definition sample_inputs : list diagnostic_input :=
  [sample_input "POMRX-007-DUPLICATE-RECEIPT-ID" "POMRX_V01_E_DUPLICATE_RECEIPT_ID"
     "reconciliation" 2;
   sample_input "POMRX-001-ACTION-PREFLIGHT-EXECUTION" "POMRX_V01_E_ACTION_CONTINUITY"
     "execution" 1;
   sample_input "POMRX-001-ACTION-PREFLIGHT-EXECUTION" "POMRX_V01_E_ACTION_CONTINUITY"
     "execution" 1].

Definition sample_ordered : list diagnostic :=
  Eval vm_compute in
    match orderPomRxV01Diagnostics sample_inputs with Ok ds => ds | Throw _ => [] end.

Lemma orderPomRxV01Diagnostics_normal_form_witness :
  orderPomRxV01Diagnostics (diagnostic_value_input <$> sample_ordered) = Ok sample_ordered.
Proof.
  apply (orderPomRxV01Diagnostics_normal_form sample_inputs). vm_compute. reflexivity.
Defined.
