(* ===== verification/StrictChecks.v ===== *)
(** * The invariant checkers of the strict profile

    Models the five checkers of [sdk/typescript/internal/]: action continuity,
    input continuity, execution and reconciliation assertion consistency, and
    receipt-id uniqueness.  Each validates its own input, an array of receipt
    objects, and returns ordered diagnostics. *)
From S2P Require Import Prelude JsDate JsValue ProofSdk Receipt PomRx Diagnostics.

#[local] Arguments js : simpl never.

Definition PREFLIGHT_EXECUTION : jsstr := js "preflight>execution".
Definition EXECUTION_RECONCILIATION : jsstr := js "execution>reconciliation".

(** The text [RegExp.test] matches, for the values whose text can be a SHA-256
    hash: strings, bigints and arrays.  The text of every other value but a
    symbol or an object without a prototype, which throw, has a character outside the pattern or is too short. *)
Fixpoint hash_subject (v : jsv) : res jsstr :=
  match v with
  | VStr s => Ok s
  | VBig z => Ok (string_of_Z z)
  | VArr items =>
      parts ← map_res (fun item => match item with
                       | VNull | VUndef => Ok []
                       | _ => hash_subject item
                       end) items;
      Ok (join_comma parts)
  | VSym _ => Throw (type_error (js "Cannot convert a Symbol value to a string"))
  | VObj PNull _ => Throw (type_error (js "Cannot convert object to primitive value"))
  | _ => Ok []
  end.

(** [a === b] on two commitments; two receipts do not share an array. *)
Definition same_commitment (a b : jsv) : bool :=
  match a, b with
  | VStr s, VStr t => str_eqb s t
  | VBig y, VBig z => Z.eqb y z
  | _, _ => false
  end.

(** [PHASES.indexOf(receipt.phase)] *)
Definition phase_position (receipt : jsv) : Z :=
  match choose phase_name PHASES (get (js "phase") receipt) with
  | Some p => Z.of_nat (phase_index p)
  | None => -1
  end.

Fixpoint contiguous (label : string) (receipts : list jsv) : res unit :=
  match receipts with
  | previous :: ((current :: _) as rest) =>
      _ ← guard_or (phase_position current =? phase_position previous + 1)
            (strict_error "POMRX_V01_E_INTERNAL_VERIFIER_ERROR"
               (js label ++ js " checker requires contiguous ordered phases"));
      contiguous label rest
  | _ => Ok tt
  end.

(** The part of [validateInput] the five files share: [label] is the name in
    the messages, [check phase receipt] the part that differs. *)
Definition validate_input (label : string) (check : phase -> jsv -> res unit) (receipts : jsv)
  : res (list jsv) :=
  let fail (m : string) := strict_error "POMRX_V01_E_INTERNAL_VERIFIER_ERROR" (js label ++ js m) in
  match receipts with
  | VArr items =>
      _ ← guard_or ((1 <=? length items)%nat && (length items <=? 3)%nat)
            (fail " checker requires between one and three receipts");
      _ ← for_each (fun receipt =>
            _ ← guard_or (is_record receipt) (fail " checker received a non-object receipt");
            match choose phase_name PHASES (get (js "phase") receipt) with
            | Some p => check p receipt
            | None => Throw (fail " checker received an unsupported phase")
            end) items;
      _ ← guard_or (match items with
                    | first :: _ => is_str (get (js "phase") first) (js "preflight")
                    | [] => false
                    end)
            (fail " checker requires preflight as the first phase");
      _ ← contiguous label items;
      Ok items
  | _ => Throw (fail " checker requires between one and three receipts")
  end.

Definition phase_text (receipt : jsv) : jsstr :=
  match get (js "phase") receipt with VStr s => s | _ => [] end.

Definition diagnostic_of (defect : jsv) (code phase : jsstr) (index : Z) (field : string)
    (message : jsstr) : diagnostic_input :=
  {| in_defect := defect; in_code := VStr code; in_severity := VUndef; in_phase := VStr phase;
     in_index := VNum (NInt index); in_field := VStr (js field); in_message := VStr message |}.

(** [makePomRxV01Diagnostic] at every step, then [orderPomRxV01Diagnostics]. *)
Definition order_made (inputs : list diagnostic_input) : res (list diagnostic) :=
  made ← map_res makePomRxV01Diagnostic inputs;
  orderPomRxV01Diagnostics (diagnostic_value_input <$> made).

(** ** Continuity of a commitment *)

Section continuity.
Context (label field : string) (code : string) (DEFECT_BY_TRANSITION : list (jsstr * jsstr)).

(** The loop of the two continuity checkers, from receipt [index] on. *)
Fixpoint continuity_from (index : Z) (previous : jsv) (rest : list jsv)
  : res (list diagnostic_input) :=
  match rest with
  | [] => Ok []
  | current :: rest' =>
      if same_commitment (get (js field) current) (get (js field) previous)
      then continuity_from (index + 1) current rest'
      else
        let transition := phase_text previous ++ js ">" ++ phase_text current in
        match alist_get transition DEFECT_BY_TRANSITION with
        | None => Throw (strict_error "POMRX_V01_E_INTERNAL_VERIFIER_ERROR"
                   (js label ++ js " checker reached an unregistered phase transition"))
        | Some defectId =>
            ds ← continuity_from (index + 1) current rest';
            Ok (diagnostic_of (VStr defectId) (js code) (phase_text current) index field
                  (js field ++ js " changed across " ++ transition) :: ds)
        end
  end.

Definition continuity_input : jsv -> res (list jsv) :=
  validate_input label (fun _ receipt =>
    subject ← hash_subject (get (js field) receipt);
    guard_or (hash_pattern subject) (strict_error "POMRX_V01_E_INTERNAL_VERIFIER_ERROR"
      (js label ++ js " checker requires a canonical " ++ js field))).

Definition check_continuity (receipts : jsv) : res (list diagnostic) :=
  items ← continuity_input receipts;
  match items with
  | first :: rest => found ← continuity_from 1 first rest; order_made found
  | [] => order_made []
  end.
End continuity.

Definition ACTION_DEFECT_BY_TRANSITION : list (jsstr * jsstr) :=
  [(PREFLIGHT_EXECUTION, js "POMRX-001-ACTION-PREFLIGHT-EXECUTION");
   (EXECUTION_RECONCILIATION, js "POMRX-001-ACTION-EXECUTION-RECONCILIATION")].
Definition INPUT_DEFECT_BY_TRANSITION : list (jsstr * jsstr) :=
  [(PREFLIGHT_EXECUTION, js "POMRX-001-INPUT-PREFLIGHT-EXECUTION");
   (EXECUTION_RECONCILIATION, js "POMRX-001-INPUT-EXECUTION-RECONCILIATION")].

Definition action_validateInput : jsv -> res (list jsv) :=
  continuity_input "Action-continuity" "action_commitment".
Definition input_validateInput : jsv -> res (list jsv) :=
  continuity_input "Input-continuity" "input_commitment".

Definition checkPomRxV01ActionContinuity : jsv -> res (list diagnostic) :=
  check_continuity "Action-continuity" "action_commitment" "POMRX_V01_E_ACTION_CONTINUITY"
    ACTION_DEFECT_BY_TRANSITION.
Definition checkPomRxV01InputContinuity : jsv -> res (list diagnostic) :=
  check_continuity "Input-continuity" "input_commitment" "POMRX_V01_E_INPUT_CONTINUITY"
    INPUT_DEFECT_BY_TRANSITION.

(** ** Assertion consistency *)

Section assertions.
Context (label : string) (checked_phase : phase) (checked_outcome : outcome)
  (defect code : string).

Definition assertions_input : jsv -> res (list jsv) :=
  validate_input label (fun p receipt =>
    let fail (m : string) :=
      strict_error "POMRX_V01_E_INTERNAL_VERIFIER_ERROR" (js label ++ js m) in
    _ ← guard_or (bool_decide (is_Some
           (choose outcome_name (PHASE_OUTCOMES p) (get (js "outcome") receipt))))
          (fail " checker received an invalid phase outcome");
    match get (js "assertions") receipt with
    | VArr l =>
        _ ← guard_or ((1 <=? length l)%nat && (length l <=? 64)%nat)
              (fail " checker requires between one and 64 assertions");
        for_each (fun a =>
          guard_or (is_record a && bool_decide (is_Some
              (choose result_name ASSERTION_RESULTS (get (js "result") a))))
            (fail " checker received an invalid assertion result")) l
    | _ => Throw (fail " checker requires between one and 64 assertions")
    end).

Definition elements_of (v : jsv) : list jsv := match v with VArr l => l | _ => [] end.

Definition check_assertions (receipts : jsv) : res (list diagnostic) :=
  items ← assertions_input receipts;
  match list_find (fun r => is_str (get (js "phase") r) (phase_name checked_phase) = true) items with
  | None => Ok []
  | Some (index, receipt) =>
      if negb (is_str (get (js "outcome") receipt) (outcome_name checked_outcome)) then Ok []
      else
        let nonPassing := List.filter (fun a => negb (is_str (get (js "result") a) (js "pass")))
                            (elements_of (get (js "assertions") receipt)) in
        if (length nonPassing =? 0)%nat then Ok []
        else
          let hasTrackedFailure :=
            existsb (fun a => is_str (get (js "result") a) (js "fail")) nonPassing in
          order_made
            [diagnostic_of (if hasTrackedFailure then VStr (js defect) else VNull) (js code)
               (phase_name checked_phase) (Z.of_nat index) "assertions"
               (phase_name checked_phase ++ js ":" ++ outcome_name checked_outcome
                  ++ js " requires every assertion to pass")]
  end.
End assertions.

Definition execution_validateInput : jsv -> res (list jsv) :=
  assertions_input "Execution assertion-consistency".
Definition reconciliation_validateInput : jsv -> res (list jsv) :=
  assertions_input "Reconciliation assertion-consistency".

Definition checkPomRxV01ExecutionAssertionConsistency : jsv -> res (list diagnostic) :=
  check_assertions "Execution assertion-consistency" Execution Accepted
    "POMRX-006-EXECUTION-FAIL-ASSERTION" "POMRX_V01_E_EXECUTION_ASSERTION_CONFLICT".
Definition checkPomRxV01ReconciliationAssertionConsistency : jsv -> res (list diagnostic) :=
  check_assertions "Reconciliation assertion-consistency" Reconciliation Matched
    "POMRX-006-RECONCILIATION-FAIL-ASSERTION" "POMRX_V01_E_RECONCILIATION_ASSERTION_CONFLICT".

(** ** Uniqueness of receipt ids *)

Definition receipt_id_validateInput : jsv -> res (list jsv) :=
  validate_input "Receipt-ID uniqueness" (fun _ receipt =>
    guard_or (bool_decide (is_Some (str_that id_pattern (get (js "receipt_id") receipt))))
      (internal_error "Receipt-ID uniqueness checker requires a canonical receipt_id")).

(** [firstIndexByReceiptId] is the association list [first]. *)
Fixpoint duplicates_from (index : Z) (first : list (jsstr * Z)) (receipts : list jsv)
  : list diagnostic_input :=
  match receipts with
  | [] => []
  | receipt :: rest =>
      let id := match get (js "receipt_id") receipt with VStr s => s | _ => [] end in
      match alist_get id first with
      | None => duplicates_from (index + 1) ((id, index) :: first) rest
      | Some firstIndex =>
          diagnostic_of (VStr (js "POMRX-007-DUPLICATE-RECEIPT-ID"))
            (js "POMRX_V01_E_DUPLICATE_RECEIPT_ID") (phase_text receipt) index "receipt_id"
            (js "receipt_id duplicates receipt index " ++ string_of_Z firstIndex)
          :: duplicates_from (index + 1) first rest
      end
  end.

Definition checkPomRxV01ReceiptIdUniqueness (receipts : jsv) : res (list diagnostic) :=
  items ← receipt_id_validateInput receipts;
  order_made (duplicates_from 0 [] items).

(** ** The checkers on the receipts of a chain

    The profiled verifier calls the checkers with the normalised receipts of a
    chain it has already accepted: well-formed and with contiguous phases. *)

Section chain.
Context `{SH : !StringHost, HH : !HashHost, DH : !DateHost}.

Record checkable (rs : list pom_receipt) : Prop := {
  ck_wf : Forall receipt_wf rs;
  ck_length : (1 <= length rs)%nat;
  ck_phases : (p_phase <$> rs) = take (length rs) PHASES;
}.

Lemma checkable_cases rs :
  checkable rs ->
  exists a, p_phase a = Preflight /\ receipt_wf a /\
  (rs = [a] \/ exists b, p_phase b = Execution /\ receipt_wf b /\
  (rs = [a; b] \/ exists c, p_phase c = Reconciliation /\ receipt_wf c /\ rs = [a; b; c])).
Proof.
  intros [W L P]. destruct rs as [|a [|b [|c [|d rs]]]]; simpl in *; try lia; try done;
    rewrite !Forall_cons in W; exists a; injection P; intros; subst.
  - split; [done|]. split; [tauto|]. by left.
  - split; [done|]. split; [tauto|]. right. exists b. split; [done|]. split; [tauto|]. by left.
  - split; [done|]. split; [tauto|]. right. exists b. split; [done|]. split; [tauto|].
    right. exists c. split; [done|]. split; [tauto|done].
Qed.

Lemma get_phase r : get (js "phase") (pom_value r) = VStr (phase_name (p_phase r)).
Proof. done. Qed.
Lemma choose_phase p : choose phase_name PHASES (VStr (phase_name p)) = Some p.
Proof. by destruct p. Qed.
Lemma phase_position_value r : phase_position (pom_value r) = Z.of_nat (phase_index (p_phase r)).
Proof. unfold phase_position. by rewrite get_phase, choose_phase. Qed.

Lemma contiguous_values label rs :
  checkable rs -> contiguous label (pom_value <$> rs) = Ok tt.
Proof.
  intros (a & Ea & _ & [->|(b & Eb & _ & [->|(c & Ec & _ & ->)])])%checkable_cases;
    cbn [fmap list_fmap contiguous]; rewrite ?phase_position_value, ?Ea, ?Eb, ?Ec; done.
Qed.

(** A chain passes the common checks; what remains is the check of the file. *)
Lemma validate_input_values label check rs :
  checkable rs -> (forall r, receipt_wf r -> check (p_phase r) (pom_value r) = Ok tt) ->
  validate_input label check (VArr (pom_value <$> rs)) = Ok (pom_value <$> rs).
Proof.
  intros C Hc. pose proof C as [W L P].
  pose proof (contiguous_values label rs C) as Hcont.
  assert (length rs <= 3)%nat as L3.
  { apply (f_equal length) in P. rewrite length_fmap, length_take in P. simpl in P. lia. }
  unfold validate_input. rewrite length_fmap.
  rewrite (proj2 (Nat.leb_le 1 _)), (proj2 (Nat.leb_le _ 3)) by lia.
  cbn [andb guard_or mbind res_bind].
  match goal with |- (for_each ?f ?l ≫= _) = _ => assert (for_each f l = Ok tt) as -> end.
  { apply for_each_Ok, Forall_fmap. eapply Forall_impl; [exact W|]. intros r Hr. unfold compose. cbv beta.
    change (is_record (pom_value r)) with true. cbn [guard_or mbind res_bind].
    rewrite get_phase, choose_phase. by apply Hc. }
  cbn [mbind res_bind].
  destruct rs as [|a rs]; [simpl in L; lia|]. injection P as Ea _.
  cbn [fmap list_fmap]. rewrite get_phase, Ea.
  change (is_str (VStr (phase_name Preflight)) (js "preflight")) with true.
  cbn [guard_or mbind res_bind]. cbn [fmap list_fmap] in Hcont. by rewrite Hcont.
Qed.

(** The indices, from [i] on, at which [f] differs from the receipt before. *)
Fixpoint changes (f : pom_receipt -> jsstr) (i : Z) (previous : pom_receipt)
    (rest : list pom_receipt) : list Z :=
  match rest with
  | [] => []
  | current :: rest' =>
      (if str_eqb (f current) (f previous) then [] else [i]) ++ changes f (i + 1) current rest'
  end.
Definition changes_of (f : pom_receipt -> jsstr) (rs : list pom_receipt) : list Z :=
  match rs with [] => [] | first :: rest => changes f 1 first rest end.

(** A diagnostic list that reports [code] at exactly these receipts. *)
Definition reports (code : string) (at_ : list Z) (ds : list diagnostic) : Prop :=
  (receipt_index <$> ds) = (Some <$> at_) /\ Forall (fun d => diagnostic_code d = js code) ds.

Lemma reports_nil code at_ ds : reports code at_ ds -> ds = [] <-> at_ = [].
Proof. intros [E _]. destruct ds, at_; done. Qed.

Lemma hash_check label (field : string) f r :
  get (js field) (pom_value r) = VStr (f r) -> hash_pattern (f r) = true ->
  (subject ← hash_subject (get (js field) (pom_value r));
   guard_or (hash_pattern subject) (strict_error "POMRX_V01_E_INTERNAL_VERIFIER_ERROR"
     (js label ++ js " checker requires a canonical " ++ js field))) = Ok tt.
Proof. intros -> H. simpl. by rewrite H. Qed.

Ltac run_checker := vm_compute; eexists; (split; [reflexivity|]); split; [reflexivity|];
  repeat (apply Forall_cons; split; [reflexivity|]); apply List.Forall_nil.

(** Both continuity checkers: pass the input checks, split the chain into its
    three lengths, decide each comparison and compute. *)
Ltac check_continuity_proof field f wf_f :=
  intros C;
  unfold checkPomRxV01ActionContinuity, checkPomRxV01InputContinuity, check_continuity,
    continuity_input;
  rewrite validate_input_values by first
    [done | intros r W; apply (hash_check _ _ f); [done|apply (wf_f r W)]];
  cbn [mbind res_bind];
  assert (forall r, get (js field) (pom_value r) = VStr (f r)) as G by done;
  assert (forall r, phase_text (pom_value r) = phase_name (p_phase r)) as T by done;
  apply checkable_cases in C as (a & Ea & _ & [->|(b & Eb & _ & [->|(c & Ec & _ & ->)])]);
  cbn [fmap list_fmap continuity_from changes_of changes];
  rewrite ?T, ?G, ?Ea, ?Eb, ?Ec; cbn [same_commitment];
  repeat match goal with |- context [str_eqb (f ?x) (f ?y)] => destruct (str_eqb (f x) (f y)) end;
  run_checker.

Lemma check_action rs :
  checkable rs ->
  exists ds, checkPomRxV01ActionContinuity (VArr (pom_value <$> rs)) = Ok ds /\
    reports "POMRX_V01_E_ACTION_CONTINUITY" (changes_of action_commitment rs) ds.
Proof. check_continuity_proof "action_commitment" action_commitment wf_action. Qed.

Lemma check_input rs :
  checkable rs ->
  exists ds, checkPomRxV01InputContinuity (VArr (pom_value <$> rs)) = Ok ds /\
    reports "POMRX_V01_E_INPUT_CONTINUITY" (changes_of input_commitment rs) ds.
Proof. check_continuity_proof "input_commitment" input_commitment wf_input. Qed.

(** The index at which the receipt of a phase claims an outcome that one of
    its assertions does not support. *)
Definition unsupported (p : phase) (o : outcome) (rs : list pom_receipt) : list Z :=
  match list_find (fun r => p_phase r = p) rs with
  | Some (i, r) =>
      if bool_decide (p_outcome r = o) && negb (bool_decide (Forall (fun a => result a = Pass) (assertions r)))
      then [Z.of_nat i] else []
  | None => []
  end.

Lemma assertion_check label p r :
  receipt_wf r -> p_phase r = p ->
  (let fail (m : string) :=
     strict_error "POMRX_V01_E_INTERNAL_VERIFIER_ERROR" (js label ++ js m) in
   _ ← guard_or (bool_decide (is_Some
          (choose outcome_name (PHASE_OUTCOMES p) (get (js "outcome") (pom_value r)))))
         (fail " checker received an invalid phase outcome");
   match get (js "assertions") (pom_value r) with
   | VArr l =>
       _ ← guard_or ((1 <=? length l)%nat && (length l <=? 64)%nat)
             (fail " checker requires between one and 64 assertions");
       for_each (fun a =>
         guard_or (is_record a && bool_decide (is_Some
             (choose result_name ASSERTION_RESULTS (get (js "result") a))))
           (fail " checker received an invalid assertion result")) l
   | _ => Throw (fail " checker requires between one and 64 assertions")
   end) = Ok tt.
Proof.
  intros W <-.
  change (get (js "outcome") (pom_value r)) with (VStr (outcome_name (p_outcome r))).
  change (get (js "assertions") (pom_value r)) with (VArr (assertion_value <$> assertions r)).
  rewrite choose_name by (apply outcome_name_inj || apply (wf_outcome _ W)).
  rewrite bool_decide_true by done. cbv beta iota zeta. cbn [guard_or mbind res_bind].
  rewrite length_fmap. destruct (wf_assertion_count _ W).
  rewrite (proj2 (Nat.leb_le 1 _)), (proj2 (Nat.leb_le _ 64)) by lia.
  cbn [andb guard_or mbind res_bind].
  apply for_each_Ok, Forall_fmap, Forall_true. intros a. unfold compose.
  change (get (js "result") (assertion_value a)) with (VStr (result_name (result a))).
  rewrite choose_name by (apply result_name_inj || apply result_choices).
  by rewrite bool_decide_true.
Qed.

(** The assertions that do not pass, as the checker counts them. *)
Lemma non_passing l :
  length (List.filter (fun a => negb (is_str (get (js "result") a) (js "pass")))
    (assertion_value <$> l)) = 0%nat <-> Forall (fun a => result a = Pass) l.
Proof.
  induction l as [|a l IH]; cbn [fmap list_fmap List.filter]; [by split; [constructor|]|].
  change (get (js "result") (assertion_value a)) with (VStr (result_name (result a))).
  rewrite Forall_cons, <- IH. destruct (result a) eqn:E.
  - change (is_str (VStr (result_name Pass)) (js "pass")) with true. simpl. split; [done|].
    by intros [_ ?].
  - change (is_str (VStr (result_name Failed)) (js "pass")) with false. simpl.
    split; [done|by intros []].
  - change (is_str (VStr (result_name NotEvaluated)) (js "pass")) with false. simpl.
    split; [done|by intros []].
Qed.

Lemma phase_find p rs :
  list_find (fun r => is_str (get (js "phase") r) (phase_name p) = true) (pom_value <$> rs) =
  prod_map id pom_value <$> list_find (fun r => p_phase r = p) rs.
Proof.
  rewrite list_find_fmap. f_equal. apply list_find_ext. intros r. unfold compose.
  rewrite get_phase. cbn [is_str]. rewrite str_eqb_eq. split; [apply phase_name_inj|by intros ->].
Qed.

Lemma outcome_eqb o o' :
  is_str (VStr (outcome_name o)) (outcome_name o') = bool_decide (o = o').
Proof.
  cbn [is_str]. apply eq_true_iff_eq. rewrite str_eqb_eq, bool_decide_eq_true.
  split; [apply outcome_name_inj|by intros ->].
Qed.

(** What an assertion checker does with a chain. *)
Lemma check_assertions_value label p o defect code rs :
  checkable rs ->
  exists tracked : bool,
    check_assertions label p o defect code (VArr (pom_value <$> rs)) =
    match unsupported p o rs with
    | index :: _ => order_made
        [diagnostic_of (if tracked then VStr (js defect) else VNull) (js code) (phase_name p) index
           "assertions"
           (phase_name p ++ js ":" ++ outcome_name o ++ js " requires every assertion to pass")]
    | [] => Ok []
    end.
Proof.
  intros C. unfold check_assertions, assertions_input, unsupported.
  rewrite validate_input_values by first [done | intros r W; by apply assertion_check].
  cbn [mbind res_bind]. rewrite phase_find.
  destruct (list_find (fun r => p_phase r = p) rs) as [[i r]|]; [|by exists true].
  cbn [fmap option_fmap option_map prod_map id fst snd].
  change (get (js "outcome") (pom_value r)) with (VStr (outcome_name (p_outcome r))).
  change (get (js "assertions") (pom_value r)) with (VArr (assertion_value <$> assertions r)).
  rewrite outcome_eqb. cbn [elements_of].
  case_bool_decide as Eo; cbn [negb andb]; [|by exists true].
  pose proof (non_passing (assertions r)) as Hn.
  eexists. case_bool_decide as Hp; cbn [negb andb].
  - apply Hn in Hp. by rewrite Hp.
  - destruct (length _) eqn:E; [by destruct Hp; apply Hn|]. reflexivity.
Qed.

Lemma list_find_phase p rs i r :
  list_find (fun r => p_phase r = p) rs = Some (i, r) -> checkable rs -> i = phase_index p.
Proof.
  intros (Hi & <- & _)%list_find_Some [_ _ P].
  apply (f_equal (lookup i)) in P. rewrite list_lookup_fmap, Hi in P. cbn in P. symmetry in P.
  apply lookup_take_Some in P as [P _]. unfold PHASES in P.
  destruct i as [|[|[|]]]; simpl in P; try (injection P as P; by rewrite <- P); done.
Qed.

Lemma unsupported_index p o rs : checkable rs -> forall i l,
  unsupported p o rs = i :: l -> i = Z.of_nat (phase_index p) /\ l = [].
Proof.
  intros C i l. unfold unsupported. destruct (list_find _ _) as [[j r]|] eqn:E; [|done].
  apply list_find_phase in E as ->; [|done]. destruct (_ && _); [|done]. by intros [= <- <-].
Qed.

Ltac check_assertions_proof p o :=
  intros C; match goal with |- exists ds, ?f _ = _ /\ _ => unfold f end;
  match goal with |- context [check_assertions ?l _ _ ?d ?c _] =>
    destruct (check_assertions_value l p o d c _ C) as [[|] ->] end;
  (destruct (unsupported p o _) as [|i l] eqn:E; [exists []; done|]);
  destruct (unsupported_index p o _ C _ _ E) as [-> ->]; run_checker.

Lemma check_execution rs :
  checkable rs ->
  exists ds, checkPomRxV01ExecutionAssertionConsistency (VArr (pom_value <$> rs)) = Ok ds /\
    reports "POMRX_V01_E_EXECUTION_ASSERTION_CONFLICT" (unsupported Execution Accepted rs) ds.
Proof. check_assertions_proof Execution Accepted. Qed.

Lemma check_reconciliation rs :
  checkable rs ->
  exists ds, checkPomRxV01ReconciliationAssertionConsistency (VArr (pom_value <$> rs)) = Ok ds /\
    reports "POMRX_V01_E_RECONCILIATION_ASSERTION_CONFLICT"
      (unsupported Reconciliation Matched rs) ds.
Proof. check_assertions_proof Reconciliation Matched. Qed.

(** The indices of the receipts whose id an earlier receipt has. *)
Fixpoint repeated (i : Z) (seen : list jsstr) (rs : list pom_receipt) : list Z :=
  match rs with
  | [] => []
  | r :: rs' =>
      if mem_str (p_receipt_id r) seen then i :: repeated (i + 1) seen rs'
      else repeated (i + 1) (p_receipt_id r :: seen) rs'
  end.

Lemma mem_str_nil s : mem_str s [] = false.
Proof. done. Qed.
Lemma mem_str_cons s x l : mem_str s (x :: l) = str_eqb x s || mem_str s l.
Proof.
  apply eq_true_iff_eq. rewrite orb_true_iff, !mem_str_true, str_eqb_eq, elem_of_cons.
  split; intros [->|?]; auto.
Qed.

Lemma check_ids rs :
  checkable rs ->
  exists ds, checkPomRxV01ReceiptIdUniqueness (VArr (pom_value <$> rs)) = Ok ds /\
    reports "POMRX_V01_E_DUPLICATE_RECEIPT_ID" (repeated 0 [] rs) ds.
Proof.
  intros C. unfold checkPomRxV01ReceiptIdUniqueness, receipt_id_validateInput.
  assert (forall r, get (js "receipt_id") (pom_value r) = VStr (p_receipt_id r)) as G by done.
  rewrite validate_input_values by first [done | intros r W; rewrite G; cbn [str_that];
    by rewrite (wf_receipt_id _ W)].
  cbn [mbind res_bind].
  assert (forall r, phase_text (pom_value r) = phase_name (p_phase r)) as T by done.
  apply checkable_cases in C as (a & Ea & _ & [->|(b & Eb & _ & [->|(c & Ec & _ & ->)])]);
    cbn [fmap list_fmap duplicates_from repeated alist_get];
    rewrite ?T, ?G, ?Ea, ?Eb, ?Ec; cbn [alist_get]; rewrite ?mem_str_cons, ?mem_str_nil, ?orb_false_r.
  - run_checker.
  - destruct (str_eqb _ _); run_checker.
  - destruct (str_eqb (p_receipt_id a) (p_receipt_id b));
      cbn [alist_get]; rewrite ?mem_str_cons, ?mem_str_nil, ?orb_false_r.
    + destruct (str_eqb _ _); run_checker.
    + destruct (str_eqb (p_receipt_id b) _), (str_eqb (p_receipt_id a) _); run_checker.
Qed.

(** *** What empty reports mean *)

Lemma changes_nil f i previous rest :
  changes f i previous rest = [] <-> Forall (fun r => f r = f previous) rest.
Proof.
  revert i previous. induction rest as [|r rest IH]; intros i previous; simpl; [by split|].
  rewrite Forall_cons. destruct (str_eqb (f r) (f previous)) eqn:E; simpl.
  - apply str_eqb_eq in E. rewrite (IH _ r), E. split; [done|by intros [_ ?]].
  - apply str_eqb_neq in E. split; [done|by intros []].
Qed.

Definition constant (f : pom_receipt -> jsstr) (rs : list pom_receipt) : Prop :=
  forall r s, r ∈ rs -> s ∈ rs -> f r = f s.

Lemma changes_of_nil f rs : changes_of f rs = [] <-> constant f rs.
Proof.
  unfold constant. destruct rs as [|a rs]; simpl.
  - split; [|done]. by intros _ r s ?%not_elem_of_nil.
  - rewrite changes_nil, Forall_forall. split.
    + intros H r s [->|Hr]%elem_of_cons [->|Hs]%elem_of_cons; try done.
      * by rewrite (H s Hs).
      * by rewrite (H r Hr).
      * by rewrite (H r Hr), (H s Hs).
    + intros H r Hr. apply H; [by right|left].
Qed.

(** Every assertion of a receipt with this phase and outcome passes. *)
Definition supported (p : phase) (o : outcome) (rs : list pom_receipt) : Prop :=
  forall r, r ∈ rs -> p_phase r = p -> p_outcome r = o ->
    Forall (fun a => result a = Pass) (assertions r).

Lemma checkable_unique rs r s :
  checkable rs -> r ∈ rs -> s ∈ rs -> p_phase r = p_phase s -> r = s.
Proof.
  intros [_ _ P] [i Hi]%list_elem_of_lookup [j Hj]%list_elem_of_lookup E.
  assert (NoDup (p_phase <$> rs)) as Hn.
  { rewrite P. eapply sublist_NoDup; [|apply sublist_take]. decide_now. }
  assert (i = j) as ->; [|congruence].
  apply (NoDup_lookup _ _ _ (p_phase r) Hn); rewrite list_lookup_fmap;
    [by rewrite Hi|by rewrite Hj, E].
Qed.

Lemma unsupported_nil p o rs : checkable rs -> unsupported p o rs = [] <-> supported p o rs.
Proof.
  intros C. unfold unsupported, supported.
  destruct (list_find (fun r => p_phase r = p) rs) as [[i r]|] eqn:E.
  - apply list_find_Some in E as (Hi%list_elem_of_lookup_2 & <- & _). split.
    + intros H s Hs Es Eo. rewrite (checkable_unique _ _ _ C Hs Hi Es) in *.
      rewrite bool_decide_true in H by done. case_bool_decide; done.
    + intros H. case_bool_decide as Eo; [|done].
      by rewrite (bool_decide_true (Forall _ _)) by (by apply H).
  - apply list_find_None in E. split; [|done]. intros _ r Hr Ep. rewrite Forall_forall in E.
    by destruct (E r Hr).
Qed.

Lemma repeated_nil i seen rs :
  repeated i seen rs = [] <->
  NoDup (p_receipt_id <$> rs) /\ (forall id, id ∈ (p_receipt_id <$> rs) -> id ∉ seen).
Proof.
  revert i seen. induction rs as [|r rs IH]; intros i seen; cbn [repeated].
  - split; [|done]. intros _. split; [constructor|]. by intros id ?%not_elem_of_nil.
  - rewrite fmap_cons, NoDup_cons. destruct (mem_str _ seen) eqn:E.
    + apply mem_str_true in E. split; [done|]. intros [_ H]. by destruct (H (p_receipt_id r)); [left|].
    + assert (p_receipt_id r ∉ seen) as Hr by (by intros ?%mem_str_true; congruence).
      rewrite IH. setoid_rewrite elem_of_cons. split.
      * intros [Hn H]. split; [split; [|done]|].
        -- intros Hin. apply (H _ Hin). by left.
        -- intros id [->|Hin]; [done|]. intros ?. apply (H _ Hin). by right.
      * intros [[Hn1 Hn2] H]. split; [done|]. intros id Hin [->|?]; [done|].
        by apply (H id); [right|].
Qed.

(** The five invariants of the strict profile. *)
Record strict_invariants (rs : list pom_receipt) : Prop := {
  si_action : constant action_commitment rs;
  si_input : constant input_commitment rs;
  si_execution : supported Execution Accepted rs;
  si_reconciliation : supported Reconciliation Matched rs;
  si_ids : NoDup (p_receipt_id <$> rs);
}.

(** The receipts of an accepted chain are checkable. *)
Lemma accepted_checkable receipts ap chain :
  assertPomRxChain receipts ap = Ok chain -> checkable (c_receipt <$> chain).
Proof.
  intros H. pose proof H as (Hok & _ & Hne & _)%chain_of_ok.
  apply assertPomRxChain_Ok in H as (_ & _ & _ & Hs & _). split.
  - apply Forall_fmap. eapply Forall_impl; [exact Hok|]. by intros c [W _].
  - rewrite length_fmap. destruct chain; [done|simpl; lia].
  - assert (p_phase <$> (c_receipt <$> chain) = (shape_of chain).*1) as ->
      by (unfold shape_of; by rewrite <- !list_fmap_compose).
    assert (length (c_receipt <$> chain) = length (shape_of chain)) as ->
      by (unfold shape_of; by rewrite !length_fmap).
    by inversion Hs.
Qed.

(** ** Properties *)

(** on the receipts of an accepted chain each of the five checkers succeeds
    and reports, under its own code, exactly the receipts at fault: the ones
    whose action (input) commitment differs from the receipt before, the accepted
    execution and the matched reconciliation with an assertion that does not
    pass, and the receipts that repeat an id; so all five report nothing exactly
    when the chain satisfies the invariants of the strict profile. *)
Theorem strict_checkers_exact receipts ap chain :
  assertPomRxChain receipts ap = Ok chain ->
  let rs := c_receipt <$> chain in
  let normalized := VArr (pom_value <$> rs) in
  exists actions inputs executions reconciliations ids,
    checkPomRxV01ActionContinuity normalized = Ok actions /\
    reports "POMRX_V01_E_ACTION_CONTINUITY" (changes_of action_commitment rs) actions /\
    checkPomRxV01InputContinuity normalized = Ok inputs /\
    reports "POMRX_V01_E_INPUT_CONTINUITY" (changes_of input_commitment rs) inputs /\
    checkPomRxV01ExecutionAssertionConsistency normalized = Ok executions /\
    reports "POMRX_V01_E_EXECUTION_ASSERTION_CONFLICT"
      (unsupported Execution Accepted rs) executions /\
    checkPomRxV01ReconciliationAssertionConsistency normalized = Ok reconciliations /\
    reports "POMRX_V01_E_RECONCILIATION_ASSERTION_CONFLICT"
      (unsupported Reconciliation Matched rs) reconciliations /\
    checkPomRxV01ReceiptIdUniqueness normalized = Ok ids /\
    reports "POMRX_V01_E_DUPLICATE_RECEIPT_ID" (repeated 0 [] rs) ids /\
    (actions ++ inputs ++ executions ++ reconciliations ++ ids = [] <-> strict_invariants rs).
Proof.
  intros C%accepted_checkable rs normalized.
  destruct (check_action rs C) as (d1 & H1 & R1), (check_input rs C) as (d2 & H2 & R2),
    (check_execution rs C) as (d3 & H3 & R3), (check_reconciliation rs C) as (d4 & H4 & R4),
    (check_ids rs C) as (d5 & H5 & R5).
  exists d1, d2, d3, d4, d5. repeat (split; [done|]).
  rewrite !app_nil, (reports_nil _ _ _ R1), (reports_nil _ _ _ R2), (reports_nil _ _ _ R3),
    (reports_nil _ _ _ R4), (reports_nil _ _ _ R5), !changes_of_nil, !unsupported_nil,
    repeated_nil by done.
  split.
  - by intros (? & ? & ? & ? & ? & _).
  - intros [? ? ? ? ?]. repeat (split; [done|]). intros ? _. apply not_elem_of_nil.
Qed.
End chain.

(** ** A chain that violates two invariants *)

Section strict_witness.
#[local] Existing Instances plain_string_host checksum_hash_host iso_date_host.

Definition substituted (r : pom_receipt) (id : string) : pom_receipt :=
  {| p_receipt_id := js id; run_id := run_id r; p_phase := p_phase r; p_outcome := p_outcome r;
     agent_ref := agent_ref r; subject_ref := subject_ref r; method_hash := method_hash r;
     policy_hash := policy_hash r; input_commitment := input_commitment r;
     action_commitment := repeat 49%N 64; assertions := assertions r;
     previous_receipt_hash := previous_receipt_hash r; p_occurred_at := p_occurred_at r;
     source_key_id := source_key_id r |}.

(** The execution names another action and reuses the preflight's id. *)
Definition substituted_receipts : jsv :=
  Eval vm_compute in
    let r1 := sample_head in
    let r2 := substituted (sample_receipt "receipt-execution-1" Execution Unresolved
                (hash_of sample_head) "2026-03-01T00:00:05.000Z") "receipt-preflight-1" in
    VArr (pom_value <$> [r1; r2]).
Definition substituted_chain : list committed :=
  Eval vm_compute in
    match assertPomRxChain substituted_receipts false with Ok c => c | Throw _ => [] end.
Lemma substituted_Ok : assertPomRxChain substituted_receipts false = Ok substituted_chain.
Proof. vm_compute. reflexivity. Qed.

Lemma strict_checkers_exact_witness :
  exists actions ids,
    checkPomRxV01ActionContinuity (VArr (pom_value <$> (c_receipt <$> substituted_chain)))
      = Ok actions /\
    reports "POMRX_V01_E_ACTION_CONTINUITY" [1] actions /\
    reports "POMRX_V01_E_DUPLICATE_RECEIPT_ID" [1] ids.
Proof.
  destruct (strict_checkers_exact substituted_receipts false substituted_chain substituted_Ok)
    as (actions & _ & _ & _ & ids & H & R & _ & _ & _ & _ & _ & _ & _ & R' & _).
  exists actions, ids. split; [exact H|]. split; [exact R|exact R'].
Defined.
End strict_witness.
