(* ===== verification/Verdict.v ===== *)
(** * Strict verdicts

    Models [sdk/typescript/internal/pom-rx-v01-verdict.mjs]: the envelope a
    strict verification returns, its builder and its validator.  A verdict is
    the object itself, a [jsv]. *)
From S2P Require Import Prelude JsDate JsValue ProofSdk Json Receipt PomRx Diagnostics StrictChecks.

#[local] Arguments js : simpl never.

Definition STRICT_PROFILE : jsstr := js "pom-rx-v0.1/strict-errata-1".
Definition STRUCTURAL_ERROR_CODES : list jsstr := js <$>
  ["POMRX_V01_E_RECEIPT_HASH_LINK_INVALID"; "POMRX_V01_E_CHAIN_PHASE_INVALID";
   "POMRX_V01_E_CHAIN_TIMESTAMP_INVALID"; "POMRX_V01_E_CHAIN_SHARED_FIELD_CHANGED";
   "POMRX_V01_E_PARTIAL_CHAIN_FORBIDDEN"; "POMRX_V01_E_ACTION_CONTINUITY";
   "POMRX_V01_E_INPUT_CONTINUITY"; "POMRX_V01_E_EXECUTION_ASSERTION_CONFLICT";
   "POMRX_V01_E_RECONCILIATION_ASSERTION_CONFLICT"; "POMRX_V01_E_DUPLICATE_RECEIPT_ID"].

Definition TOP_LEVEL_KEYS : list jsstr := js <$>
  ["verdict_schema_version"; "receipt_schema_version"; "receipt_hashes"; "verifier_profile";
   "verifier_version"; "implementation_artifact_sha256";
   "expected_implementation_artifact_sha256"; "observed_implementation_artifact_sha256";
   "execution_environment"; "effective_policy_id"; "effective_policy_version";
   "effective_policy_sha256"; "qualification"; "assurance"; "authorization_eligible";
   "authorization_proved"; "structural_status"; "structural_prerequisite_satisfied";
   "diagnostics"; "warnings"; "limitations"].
Definition ENVIRONMENT_KEYS : list jsstr := js <$>
  ["node_version"; "icu_version"; "unicode_version"; "locale"; "platform"; "arch"].

Definition VERDICT_SCHEMA_VERSION : jsstr := js "pom-rx-verification-verdict/1".
Definition ASSURANCE : jsstr := js "frozen-v0.1-structural-verification".

(** [a === b] on primitive values.  Two objects are distinct: no verdict holds
    the same object in two fields. *)
Definition strict_eq (a b : jsv) : bool :=
  match a, b with
  | VUndef, VUndef | VNull, VNull => true
  | VBool x, VBool y => eqb x y
  | VNum (NInt x), VNum (NInt y) => x =? y
  | VNum (NFrac n d), VNum (NFrac n' d') => bool_decide (n = n' /\ d = d')
  | VNum (NInf x), VNum (NInf y) => eqb x y
  | VStr s, VStr t => str_eqb s t
  | VFun f, VFun g => (f =? g)%nat
  | VSym i, VSym j => (i =? j)%nat
  | VBig x, VBig y => x =? y
  | _, _ => false
  end.

Definition label_error (label msg : string) : jserr :=
  strict_error "POMRX_V01_E_INTERNAL_VERIFIER_ERROR" (js label ++ js msg).

(** Require an ordered key list. *)
Definition exactKeys (value : jsv) (expected : list jsstr) (label : string) : res unit :=
  _ ← guard_or (is_record value) (label_error label " must be an object");
  guard_or (bool_decide (keys_of value = expected))
    (label_error label " key set or order is invalid").

Definition nonempty_string (v : jsv) : bool :=
  match v with VStr s => (1 <=? length s)%nat | _ => false end.

Definition nullableString (value : jsv) (label : string) : res unit :=
  guard_or (is_null value || nonempty_string value)
    (label_error label " must be null or non-empty string").

(** [HASH_PATTERN.test(value)] *)
Definition hash_test (value : jsv) : res bool :=
  subject ← hash_subject value; Ok (hash_pattern subject).

Definition nullableHash (value : jsv) (label : string) : res unit :=
  if is_null value then Ok tt
  else
    ok ← hash_test value;
    guard_or ok (label_error label " must be null or lowercase SHA-256").

(** [values.some(v => !HASH_PATTERN.test(v))], which stops at the first. *)
Fixpoint some_not_hash (values : list jsv) : res bool :=
  match values with
  | [] => Ok false
  | v :: values' => ok ← hash_test v; match ok with true => some_not_hash values' | false => Ok true end
  end.

(** The elements of an array of hashes. *)
Definition hash_array (value : jsv) : res (list jsv) :=
  match value with
  | VArr l =>
      bad ← some_not_hash l;
      _ ← guard_or (negb bad) (internal_error "receipt_hashes is invalid");
      Ok l
  | _ => Throw (internal_error "receipt_hashes is invalid")
  end.

Definition validateEnvironment (environment : jsv) : res jsv :=
  if is_null environment then Ok VNull
  else
    _ ← exactKeys environment ENVIRONMENT_KEYS "execution_environment";
    _ ← for_each (fun key =>
          guard_or (nonempty_string (get key environment))
            (strict_error "POMRX_V01_E_INTERNAL_VERIFIER_ERROR"
               (js "execution_environment." ++ key ++ js " is invalid")))
          (keys_of environment);
    Ok environment.

Definition qualificationFor (status : jsv) : res jsstr :=
  if is_str status (js "conformant") then Ok (js "STRICT_STRUCTURAL_CONFORMANCE_OBSERVED")
  else if is_str status (js "nonconformant") then
    Ok (js "STRICT_STRUCTURAL_NONCONFORMANCE_OBSERVED")
  else if is_str status (js "indeterminate") then Ok (js "STRICT_VERIFICATION_INDETERMINATE")
  else Throw (internal_error "structural_status is invalid").

Definition is_error (d : diagnostic) : bool := bool_decide (d_severity d = SevError).
Definition is_structural (d : diagnostic) : bool :=
  mem_str (diagnostic_code d) STRUCTURAL_ERROR_CODES.

(** The status a list of diagnostics calls for. *)
Definition requiredStatus (diagnostics : list diagnostic) : jsstr :=
  let errors := List.filter is_error diagnostics in
  if (length errors =? 0)%nat then js "conformant"
  else if existsb (fun d => negb (is_structural d)) errors then js "indeterminate"
  else js "nonconformant".

Definition validateTruthTable (status : jsv) (diagnostics : list diagnostic) : res unit :=
  guard_or (is_str status (requiredStatus diagnostics))
    (internal_error "Strict verdict truth table is invalid").

(** ** Which identities may be filled in *)

Definition validateBindingNullability (verdict : jsv) : res unit :=
  let field k := get (js k) verdict in
  let bound k := negb (is_null (field k)) in
  let policyFields :=
    ["effective_policy_id"; "effective_policy_version"; "effective_policy_sha256"] in
  let policyBound := forallb bound policyFields in
  let implementation := field "implementation_artifact_sha256" in
  let expected := field "expected_implementation_artifact_sha256" in
  let observed := field "observed_implementation_artifact_sha256" in
  let no_hashes := match field "receipt_hashes" with VArr [] => true | _ => false end in
  _ ← guard_or (negb (bound "verifier_profile") || is_str (field "verifier_profile") STRICT_PROFILE)
        (internal_error "verifier_profile is unsupported");
  _ ← guard_or (policyBound || negb (existsb bound policyFields))
        (internal_error "Policy identity fields must populate together");
  _ ← guard_or (is_null expected || policyBound)
        (internal_error "Expected artifact identity requires policy binding");
  _ ← guard_or (is_null observed
                || negb (is_null expected) && negb (is_null (field "execution_environment")))
        (internal_error "Observed artifact identity requires expected identity and measured environment");
  _ ← (if negb (is_null implementation) then
         guard_or (strict_eq expected implementation && strict_eq observed implementation
                   && bound "verifier_version")
           (internal_error "Bound artifact identity requires equal expected and observed digests plus verifier version")
       else guard_or (negb (bound "verifier_version"))
           (internal_error "verifier_version requires a bound artifact identity"));
  _ ← guard_or (negb (bound "verifier_profile") || policyBound && negb (is_null implementation))
        (internal_error "verifier_profile requires policy and artifact binding");
  _ ← (if bound "receipt_schema_version" then
         guard_or (is_str (field "receipt_schema_version") POM_RX_SCHEMA_VERSION
                   && is_str (field "verifier_profile") STRICT_PROFILE && negb no_hashes)
           (internal_error "Receipt identity requires the selected strict profile and complete receipt hashes")
       else guard_or no_hashes
           (internal_error "receipt_hashes must be empty until receipt schema binding completes"));
  guard_or (is_str (field "structural_status") (js "indeterminate") || bound "receipt_schema_version")
    (internal_error "Completed structural status requires validated receipt identity").

(** ** The envelope *)

(** The diagnostic object. *)
Definition diagnostic_value (d : diagnostic) : jsv := VObj PObject
  [(js "defect_id", opt_value (defect_id d)); (js "diagnostic_code", VStr (diagnostic_code d));
   (js "severity", VStr (severity_name (d_severity d))); (js "phase", phase_value (d_phase d));
   (js "receipt_index", index_value (receipt_index d)); (js "field", opt_value (d_field d));
   (js "message", VStr (d_message d))].

(** The fields [orderPomRxV01Diagnostics] reads of an element. *)
Definition read_diagnostic (v : jsv) : res diagnostic_input :=
  match v with
  | VNull | VUndef => Throw (type_error (js "Cannot read properties of null"))
  | _ => Ok
      {| in_defect := get (js "defect_id") v; in_code := get (js "diagnostic_code") v;
         in_severity := get (js "severity") v; in_phase := get (js "phase") v;
         in_index := get (js "receipt_index") v; in_field := get (js "field") v;
         in_message := get (js "message") v |}
  end.

(** [orderPomRxV01Diagnostics] on a value. *)
Definition order_value (diagnostics : jsv) : res (list diagnostic) :=
  match diagnostics with
  | VArr items =>
      made ← map_res (fun v => input ← read_diagnostic v; makePomRxV01Diagnostic input) items;
      Ok (dedup_from [] (sort_by diagnostic_leb made))
  | _ => Throw (internal_error "Diagnostics must be an array")
  end.

Definition has_incomplete (ds : list diagnostic) : bool :=
  existsb (fun d => str_eqb (diagnostic_code d) (js "POMRX_V01_E_PROFILE_INCOMPLETE")) ds.

(** The codes of the warnings, each once, in order. *)
Definition warnings_of (ds : list diagnostic) : list jsstr :=
  foldl (fun warnings d =>
    if bool_decide (d_severity d = SevWarning) && negb (mem_str (diagnostic_code d) warnings)
    then warnings ++ [diagnostic_code d] else warnings) [] ds.

Section verdict.
Context `{SH : !StringHost}.

(** [JSON.stringify(a) === JSON.stringify(b)] *)
Definition same_json (a b : jsv) : res bool :=
  s ← json_stringify a; t ← json_stringify b; Ok (bool_decide (s = t)).

Definition strings_value (l : list jsstr) : jsv := VArr (VStr <$> l).

Definition validatePomRxV01StrictVerdict (verdict : jsv) : res jsv :=
  let field k := get (js k) verdict in
  let status := field "structural_status" in
  _ ← exactKeys verdict TOP_LEVEL_KEYS "strict verdict";
  _ ← guard_or (is_str (field "verdict_schema_version") VERDICT_SCHEMA_VERSION)
        (internal_error "verdict_schema_version is invalid");
  _ ← nullableString (field "receipt_schema_version") "receipt_schema_version";
  _ ← nullableString (field "verifier_profile") "verifier_profile";
  _ ← nullableString (field "verifier_version") "verifier_version";
  _ ← nullableHash (field "implementation_artifact_sha256") "implementation_artifact_sha256";
  _ ← nullableHash (field "expected_implementation_artifact_sha256")
        "expected_implementation_artifact_sha256";
  _ ← nullableHash (field "observed_implementation_artifact_sha256")
        "observed_implementation_artifact_sha256";
  _ ← nullableString (field "effective_policy_id") "effective_policy_id";
  _ ← nullableString (field "effective_policy_version") "effective_policy_version";
  _ ← nullableHash (field "effective_policy_sha256") "effective_policy_sha256";
  _ ← validateEnvironment (field "execution_environment");
  hashes ← hash_array (field "receipt_hashes");
  _ ← validateBindingNullability verdict;
  _ ← guard_or (is_bool (field "authorization_eligible") false
                && is_bool (field "authorization_proved") false)
        (internal_error "Strict verdict can never authorize");
  qualification ← qualificationFor status;
  _ ← guard_or (is_str (field "qualification") qualification)
        (internal_error "Strict verdict qualification does not match status");
  _ ← guard_or (is_bool (field "structural_prerequisite_satisfied")
                  (is_str status (js "conformant")))
        (internal_error "Strict prerequisite flag does not match status");
  _ ← guard_or (if is_str status (js "indeterminate") then is_null (field "assurance")
                else is_str (field "assurance") ASSURANCE)
        (internal_error "Strict assurance does not match status");
  ordered ← order_value (field "diagnostics");
  same ← same_json (VArr (diagnostic_value <$> ordered)) (field "diagnostics");
  _ ← guard_or same (internal_error "Strict diagnostics are not ordered and deduplicated");
  _ ← guard_or (negb (has_incomplete ordered))
        (internal_error "Internal readiness diagnostic leaked into strict verdict");
  _ ← validateTruthTable status ordered;
  same ← same_json (field "warnings") (strings_value (warnings_of ordered));
  _ ← guard_or same (internal_error "Strict verdict warnings projection is invalid");
  same ← same_json (field "limitations") (strings_value PROFILE_LIMITATIONS);
  _ ← guard_or same (internal_error "Strict verdict limitations are invalid");
  warnings ← match field "warnings" with
    | VArr l => Ok (VArr l)
    | _ => Throw (type_error (js "verdict.warnings is not iterable"))
    end;
  Ok (VObj PObject ((fun k => (k,
        if str_eqb k (js "receipt_hashes") then VArr hashes
        else if str_eqb k (js "diagnostics") then VArr (diagnostic_value <$> ordered)
        else if str_eqb k (js "warnings") then warnings
        else if str_eqb k (js "limitations") then strings_value PROFILE_LIMITATIONS
        else get k verdict)) <$> TOP_LEVEL_KEYS)).

(** The argument of the builder; [VUndef] where a field is left out. *)
Record verdict_args := {
  receiptSchemaVersion : jsv; receiptHashes : jsv; verifierProfile : jsv; verifierVersion : jsv;
  implementationArtifactSha256 : jsv; expectedImplementationArtifactSha256 : jsv;
  observedImplementationArtifactSha256 : jsv; executionEnvironment : jsv;
  effectivePolicyId : jsv; effectivePolicyVersion : jsv; effectivePolicySha256 : jsv;
  structuralStatus : jsv; diagnostics_arg : jsv; limitations_arg : jsv;
}.

(** A destructuring default. *)
Definition or_default (d v : jsv) : jsv := match v with VUndef => d | _ => v end.

(** The verdict object the builder makes. *)
Definition verdict_object (a : verdict_args) (status : jsv) (hashes : list jsv)
    (environment : jsv) (qualification : jsstr) (orderedDiagnostics : list diagnostic) : jsv :=
  VObj PObject
    [(js "verdict_schema_version", VStr VERDICT_SCHEMA_VERSION);
     (js "receipt_schema_version", or_null (receiptSchemaVersion a));
     (js "receipt_hashes", VArr hashes);
     (js "verifier_profile", or_null (verifierProfile a));
     (js "verifier_version", or_null (verifierVersion a));
     (js "implementation_artifact_sha256", or_null (implementationArtifactSha256 a));
     (js "expected_implementation_artifact_sha256",
        or_null (expectedImplementationArtifactSha256 a));
     (js "observed_implementation_artifact_sha256",
        or_null (observedImplementationArtifactSha256 a));
     (js "execution_environment", environment);
     (js "effective_policy_id", or_null (effectivePolicyId a));
     (js "effective_policy_version", or_null (effectivePolicyVersion a));
     (js "effective_policy_sha256", or_null (effectivePolicySha256 a));
     (js "qualification", VStr qualification);
     (js "assurance", if is_str status (js "indeterminate") then VNull else VStr ASSURANCE);
     (js "authorization_eligible", VBool false);
     (js "authorization_proved", VBool false);
     (js "structural_status", status);
     (js "structural_prerequisite_satisfied", VBool (is_str status (js "conformant")));
     (js "diagnostics", VArr (diagnostic_value <$> orderedDiagnostics));
     (js "warnings", strings_value (warnings_of orderedDiagnostics));
     (js "limitations", strings_value PROFILE_LIMITATIONS)].

Definition buildPomRxV01StrictVerdict (a : verdict_args) : res jsv :=
  let status := or_default (VStr (js "indeterminate")) (structuralStatus a) in
  let hashes := or_default (VArr []) (receiptHashes a) in
  orderedDiagnostics ← order_value (or_default (VArr []) (diagnostics_arg a));
  _ ← guard_or (negb (has_incomplete orderedDiagnostics))
        (internal_error "Internal readiness diagnostics cannot enter a strict verdict envelope");
  _ ← validateTruthTable status orderedDiagnostics;
  hashes ← hash_array hashes;
  same ← same_json (or_default (strings_value PROFILE_LIMITATIONS) (limitations_arg a))
           (strings_value PROFILE_LIMITATIONS);
  _ ← guard_or same (internal_error "limitations must equal the stable profile registry");
  environment ← validateEnvironment (or_null (executionEnvironment a));
  qualification ← qualificationFor status;
  let verdict := verdict_object a status hashes environment qualification orderedDiagnostics in
  _ ← validateBindingNullability verdict;
  validatePomRxV01StrictVerdict verdict.
End verdict.

(** ** Reading a rebuilt object *)

Lemma alist_get_rebuilt {V} (f : jsstr -> V) k l :
  k ∈ l -> alist_get k ((fun k => (k, f k)) <$> l) = Some (f k).
Proof.
  induction l as [|x l IH]; intros Hk; [by apply not_elem_of_nil in Hk|].
  rewrite fmap_cons. cbn [alist_get]. destruct (str_eqb x k) eqn:E.
  - by apply str_eqb_eq in E as ->.
  - apply str_eqb_neq in E. apply elem_of_cons in Hk as [->|Hk]; [done|]. by apply IH.
Qed.

Lemma get_rebuilt f k l :
  k ∈ l -> get k (VObj PObject ((fun k => (k, f k)) <$> l)) = f k.
Proof. intros Hk. unfold get. by rewrite alist_get_rebuilt. Qed.

Lemma get_outside k v : k ∉ keys_of v -> get k v = VUndef.
Proof.
  destruct v as [| | | | | | | | |p l]; try done. simpl. intros Hk.
  destruct (alist_get k l) as [w|] eqn:E; [|done].
  destruct Hk. apply alist_get_is_Some. by exists w.
Qed.

(** ** Diagnostics as values *)

Lemma read_diagnostic_value d :
  read_diagnostic (diagnostic_value d) = Ok (diagnostic_value_input d).
Proof. done. Qed.

Lemma order_value_Ok v ds :
  order_value v = Ok ds -> exists inputs, orderPomRxV01Diagnostics inputs = Ok ds.
Proof.
  destruct v as [| | | | | | | |items|]; try done. simpl.
  intros (made & Hm & [= <-])%bind_Ok.
  assert (exists inputs, map_res makePomRxV01Diagnostic inputs = Ok made) as [inputs Hi].
  { revert made Hm. induction items as [|v items IH]; intros made; simpl.
    - intros [= <-]. by exists [].
    - intros (d & (input & Hr & Hd)%bind_Ok & (ds & Hds & [= <-])%bind_Ok)%bind_Ok.
      destruct (IH _ Hds) as [inputs Hi]. exists (input :: inputs). simpl. rewrite Hd. simpl.
      by rewrite Hi. }
  exists inputs. unfold orderPomRxV01Diagnostics. by rewrite Hi.
Qed.

(** A list of diagnostics in normal form. *)
Record normal_diagnostics (ds : list diagnostic) : Prop := {
  nd_wf : Forall diagnostic_wf ds;
  nd_sorted : StronglySorted (fun a b => diagnostic_leb a b = true) ds;
  nd_identities : NoDup (identity <$> ds);
}.

Lemma order_normal inputs out :
  orderPomRxV01Diagnostics inputs = Ok out -> normal_diagnostics out.
Proof.
  intros (ds & Hds & [= <-])%bind_Ok. apply map_res_Ok in Hds. split.
  - apply Forall_forall. intros d [Hd%elem_of_sort_by _]%elem_of_dedup_from.
    apply list_elem_of_lookup in Hd as [k Hk].
    destruct (Forall2_lookup_r _ _ _ _ _ Hds Hk) as (input & _ & Hm).
    by eapply makePomRxV01Diagnostic_wf.
  - apply dedup_from_sorted, sort_by_sorted;
      eauto using diagnostic_leb_total, diagnostic_leb_trans.
  - apply dedup_from_NoDup.
Qed.

(** The values of diagnostics in normal form are read back as they are. *)
Lemma order_value_normal ds :
  normal_diagnostics ds -> order_value (VArr (diagnostic_value <$> ds)) = Ok ds.
Proof.
  intros [Hwf Hs Hn]. unfold order_value. apply bind_Ok. exists ds. split.
  - apply map_res_Ok, Forall2_fmap_l, Forall_Forall2_diag. eapply Forall_impl; [exact Hwf|].
    intros d Hd. exact (makePomRxV01Diagnostic_again d Hd).
  - rewrite sort_by_sorted_id by done. rewrite dedup_from_id; [done|done|].
    intros d _. apply not_elem_of_nil.
Qed.

Section verdict_proofs.
Context `{SH : !StringHost}.

Lemma stringify_diagnostic d : exists t, json_stringify (diagnostic_value d) = Ok (Some t).
Proof.
  destruct d as [[] code sev [] [] [] msg]; eexists; reflexivity.
Qed.

Lemma stringify_Forall items :
  Forall (fun v => exists t, json_stringify v = Ok (Some t)) items ->
  exists t, json_stringify (VArr items) = Ok (Some t).
Proof.
  intros H. cbn [json_stringify].
  assert (exists parts, map_res (fun item => default (js "null") <$> json_stringify item) items
    = Ok parts) as [parts ->]; [|by eexists].
  induction H as [|v items [t Ht] _ [parts IH]]; [by exists []|].
  exists (t :: parts). simpl. rewrite Ht. simpl. by rewrite IH.
Qed.

Lemma same_json_refl v t : json_stringify v = Ok (Some t) -> same_json v v = Ok true.
Proof. intros H. unfold same_json. rewrite H. simpl. by rewrite bool_decide_true. Qed.

Lemma same_json_strings l : same_json (strings_value l) (strings_value l) = Ok true.
Proof.
  destruct (stringify_Forall (VStr <$> l)) as [t Ht]; [|by eapply same_json_refl].
  apply Forall_fmap, Forall_true. intros s. by eexists.
Qed.

Lemma same_json_diagnostics ds :
  same_json (VArr (diagnostic_value <$> ds)) (VArr (diagnostic_value <$> ds)) = Ok true.
Proof.
  destruct (stringify_Forall (diagnostic_value <$> ds)) as [t Ht]; [|by eapply same_json_refl].
  apply Forall_fmap, Forall_true. intros d. apply stringify_diagnostic.
Qed.

Lemma hash_array_Ok v l : hash_array v = Ok l -> v = VArr l.
Proof.
  destruct v; try done. simpl. intros H. inv_ok. done.
Qed.

Lemma validateEnvironment_Ok v w : validateEnvironment v = Ok w -> w = v.
Proof. unfold validateEnvironment. destruct v; simpl; intros H; inv_ok; done. Qed.
End verdict_proofs.

Section verdict_valid.
Context `{SH : !StringHost}.

(** What a value that passes the validator satisfies, and what it returns. *)
Record valid_verdict (v : jsv) (hashes : list jsv) (ds : list diagnostic) : Prop := {
  vv_keys : exactKeys v TOP_LEVEL_KEYS "strict verdict" = Ok tt;
  vv_schema : is_str (get (js "verdict_schema_version") v) VERDICT_SCHEMA_VERSION = true;
  vv_receipt_schema :
    nullableString (get (js "receipt_schema_version") v) "receipt_schema_version" = Ok tt;
  vv_profile : nullableString (get (js "verifier_profile") v) "verifier_profile" = Ok tt;
  vv_version : nullableString (get (js "verifier_version") v) "verifier_version" = Ok tt;
  vv_implementation : nullableHash (get (js "implementation_artifact_sha256") v)
    "implementation_artifact_sha256" = Ok tt;
  vv_expected : nullableHash (get (js "expected_implementation_artifact_sha256") v)
    "expected_implementation_artifact_sha256" = Ok tt;
  vv_observed : nullableHash (get (js "observed_implementation_artifact_sha256") v)
    "observed_implementation_artifact_sha256" = Ok tt;
  vv_policy_id : nullableString (get (js "effective_policy_id") v) "effective_policy_id" = Ok tt;
  vv_policy_version :
    nullableString (get (js "effective_policy_version") v) "effective_policy_version" = Ok tt;
  vv_policy_hash :
    nullableHash (get (js "effective_policy_sha256") v) "effective_policy_sha256" = Ok tt;
  vv_environment : validateEnvironment (get (js "execution_environment") v)
    = Ok (get (js "execution_environment") v);
  vv_hashes : hash_array (get (js "receipt_hashes") v) = Ok hashes;
  vv_binding : validateBindingNullability v = Ok tt;
  vv_eligible : get (js "authorization_eligible") v = VBool false;
  vv_proved : get (js "authorization_proved") v = VBool false;
  vv_qualification : exists q, qualificationFor (get (js "structural_status") v) = Ok q /\
    get (js "qualification") v = VStr q;
  vv_prerequisite : get (js "structural_prerequisite_satisfied") v =
    VBool (is_str (get (js "structural_status") v) (js "conformant"));
  vv_assurance : get (js "assurance") v =
    if is_str (get (js "structural_status") v) (js "indeterminate") then VNull else VStr ASSURANCE;
  vv_diagnostics : order_value (get (js "diagnostics") v) = Ok ds;
  vv_same : same_json (VArr (diagnostic_value <$> ds)) (get (js "diagnostics") v) = Ok true;
  vv_incomplete : has_incomplete ds = false;
  vv_status : get (js "structural_status") v = VStr (requiredStatus ds);
  vv_warnings : same_json (get (js "warnings") v) (strings_value (warnings_of ds)) = Ok true;
  vv_warnings_array : exists l, get (js "warnings") v = VArr l;
  vv_limitations :
    same_json (get (js "limitations") v) (strings_value PROFILE_LIMITATIONS) = Ok true;
}.

Definition rebuilt (v : jsv) (hashes : list jsv) (ds : list diagnostic) : jsv :=
  VObj PObject ((fun k => (k,
        if str_eqb k (js "receipt_hashes") then VArr hashes
        else if str_eqb k (js "diagnostics") then VArr (diagnostic_value <$> ds)
        else if str_eqb k (js "warnings") then get (js "warnings") v
        else if str_eqb k (js "limitations") then strings_value PROFILE_LIMITATIONS
        else get k v)) <$> TOP_LEVEL_KEYS).

Lemma is_bool_true v b : is_bool v b = true <-> v = VBool b.
Proof.
  destruct v; simpl; try (split; [done|congruence]). rewrite eqb_true_iff.
  split; [by intros ->|by intros [= ->]].
Qed.

Lemma is_null_true v : is_null v = true <-> v = VNull.
Proof. by destruct v. Qed.

Lemma validatePomRxV01StrictVerdict_Ok v w :
  validatePomRxV01StrictVerdict v = Ok w <->
  exists hashes ds, valid_verdict v hashes ds /\ w = rebuilt v hashes ds.
Proof.
  unfold validatePomRxV01StrictVerdict, validateTruthTable. split.
  - intros H. inv_ok.
    repeat match goal with
    | H : _ && _ = true |- _ => apply andb_true_iff in H as [? ?]
    end.
    apply is_bool_true in H, H0, Hr16. apply is_str_eq in Hr15, Hr22.
    apply validateEnvironment_Ok in Hr10 as E. subst r10.
    apply negb_true_iff in Hr21.
    destruct (get (js "warnings") v) as [| | | | | | | |l|] eqn:Ew; try done. injection Hr27 as <-.
    exists r11, r18. split; [split; rewrite ?Ew; eauto|unfold rebuilt; rewrite Ew; reflexivity].
    destruct (is_str _ (js "indeterminate")); [by apply is_null_true|by apply is_str_eq].
  - intros (hashes & ds & [] & ->). destruct vv_qualification0 as (q & Hq & Eq).
    destruct vv_warnings_array0 as [l Ew].
    rewrite vv_keys0, vv_schema0, vv_receipt_schema0, vv_profile0, vv_version0,
      vv_implementation0, vv_expected0, vv_observed0, vv_policy_id0, vv_policy_version0,
      vv_policy_hash0, vv_environment0, vv_hashes0, vv_binding0, vv_eligible0, vv_proved0, Hq, Eq,
      vv_prerequisite0, vv_diagnostics0, vv_limitations0, Ew.
    rewrite Ew in vv_warnings0.
    cbn [mbind res_bind guard_or andb is_bool eqb is_str]. rewrite str_eqb_refl, eqb_reflx.
    cbn [mbind res_bind guard_or].
    assert ((if is_str (get (js "structural_status") v) (js "indeterminate")
      then is_null (get (js "assurance") v) else is_str (get (js "assurance") v) ASSURANCE) = true)
      as ->.
    { rewrite vv_assurance0. destruct (is_str _ (js "indeterminate")); [done|apply str_eqb_refl]. }
    cbn [mbind res_bind guard_or]. rewrite vv_same0, vv_incomplete0.
    cbn [mbind res_bind guard_or negb].
    rewrite (proj2 (is_str_eq _ _) vv_status0). cbn [mbind res_bind guard_or].
    rewrite vv_warnings0. cbn [mbind res_bind guard_or].
    unfold rebuilt. rewrite Ew. reflexivity.
Qed.
End verdict_valid.

(** ** The validator is idempotent *)

Section verdict_again.
Context `{SH : !StringHost}.

(** A field of the verdict the validator returns. *)
Lemma get_rebuilt_verdict v hashes ds k :
  k ∈ TOP_LEVEL_KEYS ->
  get k (rebuilt v hashes ds) =
    (if str_eqb k (js "receipt_hashes") then VArr hashes
     else if str_eqb k (js "diagnostics") then VArr (diagnostic_value <$> ds)
     else if str_eqb k (js "warnings") then get (js "warnings") v
     else if str_eqb k (js "limitations") then strings_value PROFILE_LIMITATIONS
     else get k v).
Proof. intros Hk. unfold rebuilt. by rewrite get_rebuilt. Qed.

Lemma binding_ext v w :
  (forall k, k ∈ TOP_LEVEL_KEYS -> k <> js "diagnostics" -> k <> js "limitations" ->
     get k w = get k v) ->
  validateBindingNullability w = validateBindingNullability v.
Proof.
  intros H. unfold validateBindingNullability. cbn [forallb existsb].
  rewrite !H by (vm_compute; (repeat (left || right)) || discriminate).
  reflexivity.
Qed.

Lemma rebuilt_valid v hashes ds :
  valid_verdict v hashes ds -> valid_verdict (rebuilt v hashes ds) hashes ds.
Proof.
  intros V.
  assert (forall k, k ∈ TOP_LEVEL_KEYS -> k <> js "diagnostics" -> k <> js "limitations" ->
    get k (rebuilt v hashes ds) = get k v) as G.
  { intros k Hk Hd Hl. rewrite get_rebuilt_verdict by done.
    destruct (str_eqb k (js "receipt_hashes")) eqn:E.
    { apply str_eqb_eq in E as ->. symmetry. apply hash_array_Ok, (vv_hashes _ _ _ V). }
    destruct (str_eqb k (js "diagnostics")) eqn:E1; [by apply str_eqb_eq in E1|].
    destruct (str_eqb k (js "warnings")) eqn:E2; [by apply str_eqb_eq in E2 as ->|].
    destruct (str_eqb k (js "limitations")) eqn:E3; [by apply str_eqb_eq in E3|done]. }
  assert (get (js "diagnostics") (rebuilt v hashes ds) = VArr (diagnostic_value <$> ds)) as Gd
    by reflexivity.
  assert (get (js "limitations") (rebuilt v hashes ds) = strings_value PROFILE_LIMITATIONS) as Gl
    by reflexivity.
  pose proof (vv_diagnostics _ _ _ V) as (inputs & Hn%order_normal)%order_value_Ok.
  assert (forall k, bool_decide (k ∈ TOP_LEVEL_KEYS /\ k <> js "diagnostics" /\ k <> js "limitations")
    = true -> get k (rebuilt v hashes ds) = get k v) as G'.
  { intros k (? & ? & ?)%bool_decide_eq_true. auto. }
  destruct V. split; rewrite ?Gd, ?Gl, ?(binding_ext v _ G); rewrite ?G' by (vm_compute; reflexivity);
    auto using same_json_diagnostics, same_json_strings, order_value_normal.
Qed.

Lemma validate_again v w :
  validatePomRxV01StrictVerdict v = Ok w -> validatePomRxV01StrictVerdict w = Ok w.
Proof.
  intros (hashes & ds & V & ->)%validatePomRxV01StrictVerdict_Ok.
  apply validatePomRxV01StrictVerdict_Ok. exists hashes, ds. split; [by apply rebuilt_valid|].
  pose proof (vv_warnings_array _ _ _ V) as [l Ew]. unfold rebuilt. reflexivity.
Qed.
End verdict_again.

(** ** Properties *)

Section verdict_properties.
Context `{SH : !StringHost}.

(** The rule of the truth table. *)
Inductive status_of_diagnostics (ds : list diagnostic) : string -> Prop :=
  | status_conformant :
      Forall (fun d => d_severity d = SevWarning) ds -> status_of_diagnostics ds "conformant"
  | status_nonconformant d :
      d ∈ ds -> d_severity d = SevError ->
      Forall (fun d => d_severity d = SevError -> diagnostic_code d ∈ STRUCTURAL_ERROR_CODES) ds ->
      status_of_diagnostics ds "nonconformant"
  | status_indeterminate d :
      d ∈ ds -> d_severity d = SevError -> (diagnostic_code d ∉ STRUCTURAL_ERROR_CODES) ->
      status_of_diagnostics ds "indeterminate".

Lemma is_error_true d : is_error d = true <-> d_severity d = SevError.
Proof. apply bool_decide_eq_true. Qed.

Lemma requiredStatus_table ds s :
  requiredStatus ds = js s -> s = "conformant" \/ s = "nonconformant" \/ s = "indeterminate" ->
  status_of_diagnostics ds s.
Proof.
  assert (forall d, d ∈ List.filter is_error ds <-> d ∈ ds /\ d_severity d = SevError) as Hin.
  { intros d. rewrite list_elem_of_In, filter_In, is_error_true, <- list_elem_of_In. done. }
  unfold requiredStatus. destruct (length _ =? 0)%nat eqn:El.
  - intros Es [-> | [-> | ->]]; try discriminate Es. constructor. apply Nat.eqb_eq, length_zero_iff_nil in El.
    apply Forall_forall. intros d Hd. destruct (d_severity d) eqn:E; [|done].
    assert (d ∈ List.filter is_error ds) as H by (by apply Hin). rewrite El in H.
    by apply not_elem_of_nil in H.
  - destruct (existsb _ _) eqn:Ee.
    + intros Es [-> | [-> | ->]]; try discriminate Es. apply existsb_exists in Ee as (d & Hd & Hs).
      apply list_elem_of_In, Hin in Hd as [? ?]. apply (status_indeterminate _ d); [done..|].
      intros ?%mem_str_true. unfold is_structural in Hs. rewrite H1 in Hs. done.
    + intros Es [-> | [-> | ->]]; try discriminate Es.
      destruct (List.filter is_error ds) as [|d errors] eqn:Ef; [done|].
      destruct (proj1 (Hin d)) as [Hd Hs]; [left|].
      apply (status_nonconformant _ d); [done..|]. apply Forall_forall. intros e He Hse.
      assert (e ∈ d :: errors) as Hie by (apply Hin; done).
      apply mem_str_true. destruct (mem_str _ _) eqn:E; [done|].
      assert (existsb (fun d => negb (is_structural d)) (d :: errors) = true) as Ht; [|congruence].
      apply existsb_exists. exists e. split; [by apply list_elem_of_In|].
      unfold is_structural. by rewrite E.
Qed.

(** What a verdict promises. *)
Record verdict_contract (w : jsv) (ds : list diagnostic) : Prop := {
  vc_diagnostics : get (js "diagnostics") w = VArr (diagnostic_value <$> ds);
  vc_normal : normal_diagnostics ds;
  vc_never_authorizes : get (js "authorization_eligible") w = VBool false /\
    get (js "authorization_proved") w = VBool false;
  vc_status : exists s, get (js "structural_status") w = VStr (js s) /\
    status_of_diagnostics ds s /\
    get (js "structural_prerequisite_satisfied") w = VBool (bool_decide (s = "conformant")) /\
    get (js "assurance") w =
      (if bool_decide (s = "indeterminate") then VNull else VStr ASSURANCE);
  vc_completed : get (js "structural_status") w <> VStr (js "indeterminate") ->
    get (js "receipt_schema_version") w = VStr POM_RX_SCHEMA_VERSION /\
    get (js "verifier_profile") w = VStr STRICT_PROFILE /\
    get (js "receipt_hashes") w <> VArr [] /\
    get (js "effective_policy_id") w <> VNull /\
    get (js "effective_policy_version") w <> VNull /\
    get (js "effective_policy_sha256") w <> VNull /\
    get (js "implementation_artifact_sha256") w <> VNull /\
    strict_eq (get (js "expected_implementation_artifact_sha256") w)
      (get (js "implementation_artifact_sha256") w) = true /\
    strict_eq (get (js "observed_implementation_artifact_sha256") w)
      (get (js "implementation_artifact_sha256") w) = true;
}.

Lemma qualification_status v q :
  qualificationFor v = Ok q ->
  exists s, v = VStr (js s) /\ (s = "conformant" \/ s = "nonconformant" \/ s = "indeterminate").
Proof.
  unfold qualificationFor. destruct (is_str v (js "conformant")) eqn:E1.
  { intros _. apply is_str_eq in E1. eauto. }
  destruct (is_str v (js "nonconformant")) eqn:E2.
  { intros _. apply is_str_eq in E2. eauto. }
  destruct (is_str v (js "indeterminate")) eqn:E3; [|done].
  intros _. apply is_str_eq in E3. eauto 6.
Qed.

Lemma negb_null v : negb (is_null v) = true <-> v <> VNull.
Proof. rewrite negb_true_iff. destruct v; simpl; split; done. Qed.

(** The bindings a completed verdict must carry. *)
Lemma binding_completed v :
  validateBindingNullability v = Ok tt ->
  get (js "structural_status") v <> VStr (js "indeterminate") ->
  get (js "receipt_schema_version") v = VStr POM_RX_SCHEMA_VERSION /\
  get (js "verifier_profile") v = VStr STRICT_PROFILE /\
  get (js "receipt_hashes") v <> VArr [] /\
  get (js "effective_policy_id") v <> VNull /\
  get (js "effective_policy_version") v <> VNull /\
  get (js "effective_policy_sha256") v <> VNull /\
  get (js "implementation_artifact_sha256") v <> VNull /\
  strict_eq (get (js "expected_implementation_artifact_sha256") v)
    (get (js "implementation_artifact_sha256") v) = true /\
  strict_eq (get (js "observed_implementation_artifact_sha256") v)
    (get (js "implementation_artifact_sha256") v) = true.
Proof.
  unfold validateBindingNullability. intros H Hs.
  repeat (apply guard_bind_Ok in H as [? H] || (apply bind_Ok in H as ([] & ? & H))).
  apply guard_or_Ok in H. destruct (is_str _ (js "indeterminate")) eqn:Ei in H.
  { by apply is_str_eq in Ei. }
  simpl in H. rewrite H in *. apply guard_or_Ok in H6.
  rewrite !andb_true_iff in H6. destruct H6 as [[Hr Hp] Hh].
  apply is_str_eq in Hr, Hp. rewrite Hp in *. cbn [is_null negb orb] in H5.
  rewrite !andb_true_iff in H5. destruct H5 as [Hpol Hi].
  rewrite Hi in H4. apply guard_or_Ok in H4. rewrite !andb_true_iff in H4.
  cbn [forallb] in Hpol. rewrite !andb_true_iff in Hpol.
  rewrite !negb_null in Hpol. rewrite negb_null in Hi.
  destruct Hpol as (? & ? & ? & _), H4 as [[? ?] _].
  repeat (split; [done|]). split; [intros E; by rewrite E in Hh|]. done.
Qed.

Lemma contract_of v hashes ds : valid_verdict v hashes ds -> verdict_contract (rebuilt v hashes ds) ds.
Proof.
  intros V. pose proof (rebuilt_valid _ _ _ V) as W.
  pose proof (vv_diagnostics _ _ _ V) as (inputs & Hn%order_normal)%order_value_Ok.
  pose proof (vv_status _ _ _ W) as Es. pose proof (vv_prerequisite _ _ _ W) as Ep.
  pose proof (vv_assurance _ _ _ W) as Ea.
  destruct (vv_qualification _ _ _ W) as (q & (s & Eq & Hs)%qualification_status & _).
  assert (requiredStatus ds = js s) as Hr by congruence.
  split; [reflexivity|done|by destruct W| |].
  - exists s. split; [done|]. split; [by apply requiredStatus_table|].
    rewrite Ep, Ea, Eq. by destruct Hs as [-> | [-> | ->]].
  - intros Hc. by apply binding_completed; [apply (vv_binding _ _ _ W)|].
Qed.

(** *** When the builder succeeds *)

(** The fields of a verdict that the builder takes over, each well-formed. *)
Record fields_ok (a : verdict_args) : Prop := {
  fo_receipt_schema :
    nullableString (or_null (receiptSchemaVersion a)) "receipt_schema_version" = Ok tt;
  fo_profile : nullableString (or_null (verifierProfile a)) "verifier_profile" = Ok tt;
  fo_version : nullableString (or_null (verifierVersion a)) "verifier_version" = Ok tt;
  fo_implementation : nullableHash (or_null (implementationArtifactSha256 a))
    "implementation_artifact_sha256" = Ok tt;
  fo_expected : nullableHash (or_null (expectedImplementationArtifactSha256 a))
    "expected_implementation_artifact_sha256" = Ok tt;
  fo_observed : nullableHash (or_null (observedImplementationArtifactSha256 a))
    "observed_implementation_artifact_sha256" = Ok tt;
  fo_policy_id : nullableString (or_null (effectivePolicyId a)) "effective_policy_id" = Ok tt;
  fo_policy_version :
    nullableString (or_null (effectivePolicyVersion a)) "effective_policy_version" = Ok tt;
  fo_policy_hash :
    nullableHash (or_null (effectivePolicySha256 a)) "effective_policy_sha256" = Ok tt;
  fo_limitations : limitations_arg a = VUndef;
}.

Lemma qualification_of_required ds : exists q, qualificationFor (VStr (requiredStatus ds)) = Ok q.
Proof.
  unfold requiredStatus. destruct (_ =? _)%nat; [by eexists|]. destruct (existsb _ _); by eexists.
Qed.

Lemma verdict_object_valid a inputs ds hashes environment q :
  fields_ok a -> orderPomRxV01Diagnostics inputs = Ok ds -> has_incomplete ds = false ->
  hash_array (VArr hashes) = Ok hashes -> validateEnvironment environment = Ok environment ->
  qualificationFor (VStr (requiredStatus ds)) = Ok q ->
  let v := verdict_object a (VStr (requiredStatus ds)) hashes environment q ds in
  validateBindingNullability v = Ok tt -> valid_verdict v hashes ds.
Proof.
  intros [] Hd%order_normal Hi Hh He Hq v Hb.
  split; try done; try (by eexists); try reflexivity.
  - by apply order_value_normal.
  - apply same_json_diagnostics.
  - apply same_json_strings.
Qed.

Lemma buildPomRxV01StrictVerdict_Ok a ds hashes environment :
  fields_ok a ->
  order_value (or_default (VArr []) (diagnostics_arg a)) = Ok ds -> has_incomplete ds = false ->
  or_default (VStr (js "indeterminate")) (structuralStatus a) = VStr (requiredStatus ds) ->
  hash_array (or_default (VArr []) (receiptHashes a)) = Ok hashes ->
  validateEnvironment (or_null (executionEnvironment a)) = Ok environment ->
  (forall q, validateBindingNullability
     (verdict_object a (VStr (requiredStatus ds)) hashes environment q ds) = Ok tt) ->
  exists w, buildPomRxV01StrictVerdict a = Ok w /\ verdict_contract w ds /\
    get (js "structural_status") w = VStr (requiredStatus ds).
Proof.
  intros F Hd Hi Er Hh He Hb. destruct (qualification_of_required ds) as [q Hq].
  assert (validateEnvironment environment = Ok environment) as He'
    by (pose proof He as E; apply validateEnvironment_Ok in E; congruence).
  assert (hash_array (VArr hashes) = Ok hashes) as Hh'
    by (pose proof Hh as E; apply hash_array_Ok in E; congruence).
  pose proof Hd as (inputs & Hn)%order_value_Ok.
  pose proof (verdict_object_valid a inputs ds hashes environment q F Hn Hi Hh' He' Hq (Hb q)) as V.
  exists (rebuilt (verdict_object a (VStr (requiredStatus ds)) hashes environment q ds) hashes ds).
  split; [|split; [by apply contract_of|reflexivity]].
  unfold buildPomRxV01StrictVerdict, validateTruthTable.
  rewrite Hd. cbn [mbind res_bind]. rewrite Hi, Er. cbn [mbind res_bind guard_or negb is_str].
  rewrite str_eqb_refl, Hh, (fo_limitations _ F). cbn [mbind res_bind guard_or or_default].
  rewrite same_json_strings, He, Hq. cbn [mbind res_bind guard_or]. rewrite Hb. cbn [mbind res_bind]. apply validatePomRxV01StrictVerdict_Ok. by exists hashes, ds.
Qed.

(** whatever the verdict validator returns keeps the contract of a verdict:
    it never authorizes, its status is the one the truth table gives for its
    ordered diagnostics, the prerequisite flag and the assurance follow the
    status, and a completed verdict names its receipts, profile, policy and one
    artifact that is both expected and observed; and it validates again,
    unchanged. *)
Theorem validatePomRxV01StrictVerdict_sound v w :
  validatePomRxV01StrictVerdict v = Ok w ->
  (exists ds, verdict_contract w ds) /\ validatePomRxV01StrictVerdict w = Ok w.
Proof.
  intros H. split; [|by apply validate_again with v].
  apply validatePomRxV01StrictVerdict_Ok in H as (hashes & ds & V & ->).
  exists ds. by apply contract_of.
Qed.

(** a verdict the builder returns is one the validator accepts as it is, so
    it keeps the same contract; its diagnostics are the given ones in order, and
    an internal readiness diagnostic is never among them. *)
Theorem buildPomRxV01StrictVerdict_valid a w :
  buildPomRxV01StrictVerdict a = Ok w ->
  validatePomRxV01StrictVerdict w = Ok w /\
  exists ds, order_value (or_default (VArr []) (diagnostics_arg a)) = Ok ds /\
    verdict_contract w ds /\
    Forall (fun d => diagnostic_code d <> js "POMRX_V01_E_PROFILE_INCOMPLETE") ds.
Proof.
  unfold buildPomRxV01StrictVerdict. intros H.
  apply bind_Ok in H as (ds & Hds & H). apply guard_bind_Ok in H as [Hi H].
  do 3 (apply bind_Ok in H as (? & ? & H)). apply guard_bind_Ok in H as [? H].
  do 3 (apply bind_Ok in H as (? & ? & H)).
  split; [by apply validate_again with (1 := H)|]. exists ds. split; [done|].
  apply validatePomRxV01StrictVerdict_Ok in H as (hashes & ds' & V & ->).
  assert (ds' = ds) as ->.
  { pose proof (vv_diagnostics _ _ _ V) as Hd.
    apply order_value_Ok in Hds as (inputs & Hn%order_normal).
    change (order_value (VArr (diagnostic_value <$> ds)) = Ok ds') in Hd.
    rewrite order_value_normal in Hd by done. by injection Hd. }
  split; [by apply contract_of|].
  apply Forall_forall. intros d Hd E. apply negb_true_iff in Hi.
  assert (has_incomplete ds = true); [|congruence].
  apply existsb_exists. exists d. split; [by apply list_elem_of_In|]. by apply str_eqb_eq.
Qed.
End verdict_properties.

(** ** A concrete verdict *)

Section verdict_witness.
#[local] Existing Instances plain_string_host.

Definition sample_hash : jsv := VStr (repeat 97%N 64).
Definition sample_environment : jsv :=
  VObj PObject ((fun k => (k, VStr (js "x"))) <$> ENVIRONMENT_KEYS).
Definition sample_args : verdict_args := {|
  receiptSchemaVersion := VStr POM_RX_SCHEMA_VERSION; receiptHashes := VArr [sample_hash];
  verifierProfile := VStr STRICT_PROFILE; verifierVersion := VStr (js "v1");
  implementationArtifactSha256 := sample_hash;
  expectedImplementationArtifactSha256 := sample_hash;
  observedImplementationArtifactSha256 := sample_hash;
  executionEnvironment := sample_environment; effectivePolicyId := VStr (js "policy");
  effectivePolicyVersion := VStr (js "1"); effectivePolicySha256 := sample_hash;
  structuralStatus := VStr (js "nonconformant");
  diagnostics_arg := VArr (diagnostic_value <$> sample_ordered); limitations_arg := VUndef |}.
Definition sample_verdict : jsv :=
  Eval vm_compute in
    match buildPomRxV01StrictVerdict sample_args with Ok v => v | Throw _ => VNull end.

Lemma validatePomRxV01StrictVerdict_sound_witness :
  (exists ds, verdict_contract sample_verdict ds) /\
  validatePomRxV01StrictVerdict sample_verdict = Ok sample_verdict.
Proof. apply (validatePomRxV01StrictVerdict_sound sample_verdict). vm_compute. reflexivity. Defined.

Lemma buildPomRxV01StrictVerdict_valid_witness :
  validatePomRxV01StrictVerdict sample_verdict = Ok sample_verdict.
Proof. apply (buildPomRxV01StrictVerdict_valid sample_args). vm_compute. reflexivity. Defined.
End verdict_witness.
