(* ===== verification/ExactJson.v ===== *)
(** * Exact JSON

    Models the first part of [sdk/typescript/internal/pom-rx-v01-policy-capability.mjs]:
    the pinned policy and manifest files are read as bytes, decoded as strict
    UTF-8, scanned for repeated keys and parsed.  The scanner and the reference
    parser it is compared with recurse on the same fuel as [jp_value]; the depth
    of the JavaScript stack is not modelled. *)
From S2P Require Import Prelude JsDate JsValue ProofSdk Json Canonical Receipt Normal PomRx Diagnostics.

#[local] Arguments js : simpl never.

(** ** UTF-8

    [new TextDecoder('utf-8', { fatal: true }).decode(bytes)] (WHATWG), without
    the byte order mark, which the caller rejects. *)

Definition is_cont (b : N) : bool := in_range 128 191 b.

(** The UTF-16 code units of a code point. *)
Definition utf16 (c : N) : jsstr :=
  if (c <? 65536)%N then [c]
  else [55296 + (c - 65536) / 1024; 56320 + (c - 65536) mod 1024]%N.

Fixpoint utf8_decode (bytes : list N) : option jsstr :=
  match bytes with
  | [] => Some []
  | a :: rest =>
      if (a <? 128)%N then s ← utf8_decode rest; Some (a :: s)
      else if in_range 194 223 a then
        match rest with
        | b :: rest' =>
            if is_cont b then
              s ← utf8_decode rest'; Some (utf16 ((a - 192) * 64 + (b - 128)) ++ s)%N
            else None
        | _ => None
        end
      else if in_range 224 239 a then
        match rest with
        | b :: c :: rest' =>
            if in_range (if (a =? 224)%N then 160 else 128)%N (if (a =? 237)%N then 159 else 191)%N b
               && is_cont c then
              s ← utf8_decode rest';
              Some (utf16 (((a - 224) * 64 + (b - 128)) * 64 + (c - 128)) ++ s)%N
            else None
        | _ => None
        end
      else if in_range 240 244 a then
        match rest with
        | b :: c :: d :: rest' =>
            if in_range (if (a =? 240)%N then 144 else 128)%N (if (a =? 244)%N then 143 else 191)%N b
               && is_cont c && is_cont d then
              s ← utf8_decode rest';
              Some (utf16 ((((a - 240) * 64 + (b - 128)) * 64 + (c - 128)) * 64 + (d - 128)) ++ s)%N
            else None
        | _ => None
        end
      else None
  end.

(** ** The scanner *)

Section scan.
Context `{SH : !StringHost}.
Context (code label : string).

Definition scan_error (msg : string) : jserr := strict_error code (js label ++ js msg).

(** The characters between the quotes and the text after them, from the text
    after the opening quote. *)
Fixpoint raw_string (s : jsstr) : option (jsstr * jsstr) :=
  match s with
  | [] => None
  | c :: s' =>
      if (c =? 34)%N then Some ([], s')
      else if (c =? 92)%N then
        match s' with
        | [] => None
        | e :: s'' => '(raw, rest) ← raw_string s''; Some (c :: e :: raw, rest)
        end
      else '(raw, rest) ← raw_string s'; Some (c :: raw, rest)
  end.

(** [parseString], from the text after the opening quote. *)
Definition parseString (s : jsstr) : res (jsv * jsstr) :=
  match raw_string s with
  | None => Throw (scan_error " contains an unterminated JSON string")
  | Some (raw, rest) =>
      match json_parse (34%N :: raw ++ [34%N]) with
      | Some key => Ok (key, rest)
      | None => Throw (scan_error " contains an invalid JSON string")
      end
  end.

(** One of the characters [[\s,\]}]], where a bare token ends. *)
Definition ends_token (c : N) : bool :=
  is_js_space c || (c =? 44)%N || (c =? 93)%N || (c =? 125)%N.

Fixpoint skip_token (s : jsstr) : jsstr :=
  match s with
  | c :: s' => if ends_token c then s else skip_token s'
  | [] => []
  end.

(** [text[index] === c] *)
Definition starts (c : N) (s : jsstr) : bool :=
  match s with x :: _ => (x =? c)%N | [] => false end.

Definition same_key (a b : jsv) : bool :=
  match a, b with VStr s, VStr t => str_eqb s t | _, _ => false end.

(** [parseValue], [parseArray] and [parseObject] return the text they leave.
    [seen] are the keys of the object so far. *)
Fixpoint scan_value (fuel : nat) (s : jsstr) {struct fuel} : res jsstr :=
  match fuel with
  | O => Throw (scan_error " contains an invalid JSON value")
  | S fuel' =>
      match skip_ws s with
      | [] => Throw (scan_error " contains an invalid JSON value")
      | c :: r =>
          if (c =? 123)%N then
            if starts 125 (skip_ws r) then Ok (tail (skip_ws r))
            else scan_members fuel' [] (skip_ws r)
          else if (c =? 91)%N then
            if starts 93 (skip_ws r) then Ok (tail (skip_ws r))
            else scan_elements fuel' (skip_ws r)
          else if (c =? 34)%N then '(_, rest) ← parseString r; Ok rest
          else if ends_token c then Throw (scan_error " contains an invalid JSON value")
          else Ok (skip_token (c :: r))
      end
  end
with scan_elements (fuel : nat) (s : jsstr) {struct fuel} : res jsstr :=
  match fuel, s with
  | O, _ | _, [] => Throw (scan_error " contains an unterminated JSON array")
  | S fuel', _ =>
      r ← scan_value fuel' s;
      if starts 93 (skip_ws r) then Ok (tail (skip_ws r))
      else if starts 44 (skip_ws r) then scan_elements fuel' (tail (skip_ws r))
      else Throw (scan_error " contains an invalid JSON array")
  end
with scan_members (fuel : nat) (seen : list jsv) (s : jsstr) {struct fuel} : res jsstr :=
  match fuel, s with
  | O, _ | _, [] => Throw (scan_error " contains an unterminated JSON object")
  | S fuel', _ =>
      _ ← guard_or (starts 34 (skip_ws s)) (scan_error " contains an invalid JSON object key");
      '(key, r1) ← parseString (tail (skip_ws s));
      _ ← guard_or (negb (existsb (same_key key) seen))
            (scan_error " contains a duplicate JSON key");
      _ ← guard_or (starts 58 (skip_ws r1)) (scan_error " contains an invalid JSON object");
      r ← scan_value fuel' (tail (skip_ws r1));
      if starts 125 (skip_ws r) then Ok (tail (skip_ws r))
      else if starts 44 (skip_ws r) then scan_members fuel' (key :: seen) (tail (skip_ws r))
      else Throw (scan_error " contains an invalid JSON object")
  end.

(** Each value, separator and bracket takes a character, so the fuel is never
    the limit. *)
Definition scanObjectKeys (text : jsstr) : res unit :=
  rest ← scan_value (2 * length text + 2) text;
  guard_or (bool_decide (skip_ws rest = [])) (scan_error " contains trailing JSON data").

(** [parsePomRxV01ExactJson] on the bytes of a file *)
Definition parsePomRxV01ExactJson (bytes : list N) (maxBytes : Z) : res jsv :=
  _ ← guard_or ((1 <=? Z.of_nat (length bytes)) && (Z.of_nat (length bytes) <=? maxBytes))
        (scan_error " byte length is invalid");
  _ ← guard_or (negb (bool_decide (take 3 bytes = [239; 187; 191]%N)))
        (scan_error " contains a BOM");
  text ← match utf8_decode bytes with
    | Some text => Ok text
    | None => Throw (scan_error " is not valid UTF-8")
    end;
  _ ← scanObjectKeys text;
  match json_parse text with
  | Some v => Ok v
  | None => Throw (scan_error " is not valid JSON")
  end.
End scan.

(** ** The reference parser

    ECMA-404 with distinct member names. *)
Section strict.
Context `{SH : !StringHost}.

Fixpoint js_value (fuel : nat) (s : jsstr) {struct fuel} : option (jsv * jsstr) :=
  match fuel with
  | O => None
  | S fuel' =>
      match skip_ws s with
      | [] => None
      | c :: r =>
          if (c =? 34)%N then '(t, r') ← jp_string r; Some (VStr t, r')
          else if (c =? 91)%N then
            if starts 93 (skip_ws r) then Some (VArr [], tail (skip_ws r))
            else js_elements fuel' [] r
          else if (c =? 123)%N then
            if starts 125 (skip_ws r) then Some (VObj PObject [], tail (skip_ws r))
            else js_members fuel' [] r
          else if (c =? 110)%N then jp_literal (js "null") VNull (c :: r)
          else if (c =? 116)%N then jp_literal (js "true") (VBool true) (c :: r)
          else if (c =? 102)%N then jp_literal (js "false") (VBool false) (c :: r)
          else jp_number (c :: r)
      end
  end
with js_elements (fuel : nat) (acc : list jsv) (s : jsstr) {struct fuel}
  : option (jsv * jsstr) :=
  match fuel with
  | O => None
  | S fuel' =>
      '(v, r) ← js_value fuel' s;
      if starts 44 (skip_ws r) then js_elements fuel' (acc ++ [v]) (tail (skip_ws r))
      else if starts 93 (skip_ws r) then Some (VArr (acc ++ [v]), tail (skip_ws r))
      else None
  end
with js_members (fuel : nat) (acc : list (jsstr * jsv)) (s : jsstr) {struct fuel}
  : option (jsv * jsstr) :=
  match fuel with
  | O => None
  | S fuel' =>
      if starts 34 (skip_ws s) then
        '(k, r1) ← jp_string (tail (skip_ws s));
        if mem_str k acc.*1 then None
        else if starts 58 (skip_ws r1) then
          '(v, r) ← js_value fuel' (tail (skip_ws r1));
          if starts 44 (skip_ws r) then js_members fuel' (acc ++ [(k, v)]) (tail (skip_ws r))
          else if starts 125 (skip_ws r) then
            Some (VObj PObject (acc ++ [(k, v)]), tail (skip_ws r))
          else None
        else None
      else None
  end.

Definition json_parse_distinct (text : jsstr) : option jsv :=
  match js_value (2 * length text + 2) text with
  | Some (v, r) => match skip_ws r with [] => Some v | _ => None end
  | None => None
  end.
End strict.

(** ** Tokens *)

Lemma skip_ws_idemp s : skip_ws (skip_ws s) = skip_ws s.
Proof.
  induction s as [|c s IH]; [done|]. simpl. destruct (is_json_ws c) eqn:E; [done|].
  simpl. by rewrite E.
Qed.

Lemma json_ws_space c : is_json_ws c = true -> is_js_space c = true.
Proof.
  unfold is_json_ws. rewrite !orb_true_iff, !N.eqb_eq. by intros [[[->| ->]| ->]| ->].
Qed.

(** What may follow a value: a separator, a bracket or the end, after blanks. *)
Definition delimited (r : jsstr) : Prop :=
  match skip_ws r with [] => True | c :: _ => c = 44%N \/ c = 93%N \/ c = 125%N end.

Lemma skip_token_app tok r :
  forallb (fun c => negb (ends_token c)) tok = true -> delimited r -> skip_token (tok ++ r) = r.
Proof.
  induction tok as [|c tok IH]; cbn [forallb app skip_token].
  - intros _. unfold delimited. destruct r as [|c r]; [done|]. simpl.
    destruct (is_json_ws c) eqn:E.
    + intros _. apply json_ws_space in E. unfold ends_token. by rewrite E.
    + intros [->|[->| ->]]; done.
  - intros [Hc Ht]%andb_true_iff Hr. apply negb_true_iff in Hc. rewrite Hc. by apply IH.
Qed.

Definition number_char (c : N) : bool :=
  is_digit c || bool_decide (c ∈ [43; 45; 46; 69; 101]%N).

Lemma number_char_token c : number_char c = true -> ends_token c = false.
Proof.
  unfold number_char. rewrite orb_true_iff, bool_decide_eq_true. intros [H|H].
  - unfold is_digit, in_range in H. rewrite andb_true_iff, !N.leb_le in H.
    destruct (ends_token c) eqn:E; [|done]. exfalso. revert E.
    unfold ends_token, is_js_space, in_range.
    rewrite !orb_true_iff, !andb_true_iff, !N.leb_le, !N.eqb_eq, bool_decide_eq_true,
      !elem_of_cons, elem_of_nil. lia.
  - rewrite !elem_of_cons, elem_of_nil in H. by destruct H as [->|[->|[->|[->|[->|[]]]]]].
Qed.

Lemma number_chars_token tok :
  forallb number_char tok = true -> forallb (fun c => negb (ends_token c)) tok = true.
Proof. apply forallb_impl. intros c H. by rewrite number_char_token. Qed.

Lemma span_digits_split s d r :
  span_digits s = (d, r) -> s = d ++ r /\ forallb number_char d = true.
Proof.
  revert d r. induction s as [|c s IH]; intros d r; simpl; [by intros [= <- <-]|].
  destruct (is_digit c) eqn:E; [|by intros [= <- <-]].
  destruct (span_digits s) as [d' r'] eqn:Es. intros [= <- <-].
  destruct (IH _ _ eq_refl) as [-> H]. split; [done|]. simpl.
  unfold number_char. by rewrite E.
Qed.

Lemma jp_fraction_split s f r :
  jp_fraction s = Some (f, r) -> s = f ++ r /\ forallb number_char f = true.
Proof.
  unfold jp_fraction. destruct s as [|c s]; [by intros [= <- <-]|].
  destruct (decide (c = 46%N)) as [->|Hc].
  - destruct (span_digits s) as [[|x d] r'] eqn:E; [done|]. intros [= <- <-].
    apply span_digits_split in E as [-> H]. split; [done|]. exact H.
  - assert (match (c :: s) with
      | 46%N :: s' => match span_digits s' with ([], _) => None | (d, r) => Some (46%N :: d, r) end
      | _ => Some ([], c :: s)
      end = Some ([], c :: s)) as ->; [|by intros [= <- <-]].
    repeat match goal with |- context [match ?x with _ => _ end] =>
      is_var x; destruct x; try done end.
Qed.

Lemma jp_exponent_split s e r :
  jp_exponent s = Some (e, r) -> s = e ++ r /\ forallb number_char e = true.
Proof.
  unfold jp_exponent. destruct s as [|c s]; [by intros [= <- <-]|].
  destruct ((c =? 69)%N || (c =? 101)%N) eqn:Ec; [|by intros [= <- <-]].
  assert (number_char c = true) as Hc
    by (rewrite orb_true_iff, !N.eqb_eq in Ec; by destruct Ec as [-> | ->]).
  assert (exists sign s'', match s with
      | 43%N :: r => ([43%N], r) | 45%N :: r => ([45%N], r) | _ => ([], s) end = (sign, s'') /\
    s = sign ++ s'' /\ forallb number_char sign = true) as (sign & s'' & -> & -> & Hs).
  { destruct s as [|x s]; [by exists [], []|].
    destruct (decide (x = 43%N)) as [->|]; [by exists [43%N], s|].
    destruct (decide (x = 45%N)) as [->|]; [by exists [45%N], s|].
    exists [], (x :: s). split; [|done].
    repeat match goal with |- context [match ?x with _ => _ end] =>
      is_var x; destruct x; try done end. }
  destruct (span_digits s'') as [[|x d] r'] eqn:E; [done|]. intros [= <- <-].
  apply span_digits_split in E as [-> H].
  split; [cbn [app]; by rewrite <- app_assoc|]. cbn [forallb]. by rewrite forallb_app, Hc, Hs, H.
Qed.

(** A number is a non-empty run of characters that end no token. *)
Lemma jp_number_split `{!StringHost} s v r :
  jp_number s = Some (v, r) ->
  exists tok, s = tok ++ r /\ tok <> [] /\ forallb number_char tok = true.
Proof.
  unfold jp_number.
  assert (exists sign s', match s with 45%N :: r => (true, r) | _ => (false, s) end
      = (bool_decide (sign = [45%N]), s') /\ s = sign ++ s' /\ forallb number_char sign = true)
    as (sign & s' & -> & -> & Hs).
  { destruct s as [|x s]; [by exists [], []|].
    destruct (decide (x = 45%N)) as [->|]; [by exists [45%N], s|].
    exists [], (x :: s). split; [|done].
    repeat match goal with |- context [match ?x with _ => _ end] =>
      is_var x; destruct x; try done end. }
  destruct (span_digits s') as [[|d ds] s2] eqn:Ed; [done|].
  apply span_digits_split in Ed as [-> Hd].
  destruct ((d =? 48)%N && _) eqn:Hz; [done|]. intros Hn.
  apply bind_Some in Hn as ([frac s3] & Hf & Hn).
  apply bind_Some in Hn as ([ex s4] & He & Hn).
  apply jp_fraction_split in Hf as [-> Hf]. apply jp_exponent_split in He as [-> He].
  assert (s4 = r) as -> by (repeat case_match; congruence).
  exists (sign ++ (d :: ds) ++ frac ++ ex). rewrite <- !app_assoc. split; [done|].
  split; [by destruct sign|]. by rewrite !forallb_app, Hs, Hd, Hf, He.
Qed.

Lemma jp_literal_split name v s w r :
  jp_literal name v s = Some (w, r) -> s = name ++ r.
Proof.
  unfold jp_literal. destruct (str_eqb _ _) eqn:E; [|done]. intros [= <- <-].
  apply str_eqb_eq in E. rewrite <- E at 1. by rewrite take_drop.
Qed.

(** ** Strings *)

Lemma hex_value_plain c u :
  hex_value c = Some u -> (c =? 34)%N = false /\ (c =? 92)%N = false.
Proof.
  unfold hex_value, is_digit, in_range. intros H.
  destruct (N.eqb_spec c 34) as [->|]; [done|]. destruct (N.eqb_spec c 92) as [->|]; [done|]. done.
Qed.

(** A string token the parser accepts is one the scanner delimits alike, and
    its text parses on its own to the same string. *)
Lemma jp_string_raw s t r :
  jp_string s = Some (t, r) ->
  exists raw, raw_string s = Some (raw, r) /\ jp_string (raw ++ [34%N]) = Some (t, []).
Proof.
  remember (length s) as n eqn:Hn. assert (length s <= n)%nat as Hle by lia. clear Hn.
  revert s t r Hle. induction n as [|n IH]; intros [|c s] t r Hle H; simpl in Hle;
    try done; try lia.
  cbn [jp_string] in H. cbn [raw_string]. destruct (c =? 34)%N eqn:Eq.
  { injection H as <- <-. by exists []. }
  destruct (c =? 92)%N eqn:Eb.
  - apply N.eqb_eq in Eb as ->. destruct s as [|e s]; [done|]. simpl in Hle.
    destruct (decide (e = 117%N)) as [->|He].
    + assert (forall s', simple_escape 117 = None ->
        (u ← simple_escape 117; '(t, r) ← jp_string s'; Some (u :: t, r)) = Some (t, r) -> False)
        as Hno by done.
      destruct s as [|a [|b [|x [|y s]]]]; try done.
      apply bind_Some in H as (u & Hu & H). apply bind_Some in H as ([t' r'] & Hs & [= <- <-]).
      simpl in Hle. destruct (IH s t' r') as (raw & Hr & Hp); [lia|done|].
      unfold hex4 in Hu. pose proof Hu as Hu'. apply bind_Some in Hu as (? & Ha & Hu).
      apply bind_Some in Hu as (? & Hb & Hu). apply bind_Some in Hu as (? & Hx & Hu).
      apply bind_Some in Hu as (? & Hy & _).
      apply hex_value_plain in Ha as [Ha1 Ha2], Hb as [Hb1 Hb2], Hx as [Hx1 Hx2], Hy as [Hy1 Hy2].
      cbn [raw_string]. rewrite Ha1, Ha2, Hb1, Hb2, Hx1, Hx2, Hy1, Hy2, Hr.
      exists (92 :: 117 :: a :: b :: x :: y :: raw)%N. split; [done|].
      cbn [app jp_string]. change ((92 =? 34)%N) with false. change ((92 =? 92)%N) with true.
      cbv iota. unfold hex4. rewrite Hu'. cbn. by rewrite Hp.
    + assert ((u ← simple_escape e; '(t, r) ← jp_string s; Some (u :: t, r)) = Some (t, r)) as H'.
      { rewrite <- H. repeat match goal with |- context [match ?x with _ => _ end] =>
          is_var x; destruct x; try done end. }
      clear H. apply bind_Some in H' as (u & Hu & H'). apply bind_Some in H' as ([t' r'] & Hs & [= <- <-]).
      destruct (IH s t' r') as (raw & Hr & Hp); [lia|done|]. rewrite Hr.
      exists (92 :: e :: raw)%N. split; [done|].
      assert (jp_string (92%N :: e :: raw ++ [34%N]) =
        (u ← simple_escape e; '(t, r) ← jp_string (raw ++ [34%N]); Some (u :: t, r))) as Eqn.
      { generalize (raw ++ [34%N]). intros l. cbn [jp_string].
        change ((92 =? 34)%N) with false. change ((92 =? 92)%N) with true. cbv iota.
        repeat match goal with |- context [match ?x with _ => _ end] =>
          is_var x; destruct x; try done end. }
      cbn [app]. rewrite Eqn, Hu. cbn. by rewrite Hp.
  - destruct (c <? 32)%N eqn:El; [done|].
    apply bind_Some in H as ([t' r'] & Hs & [= <- <-]).
    destruct (IH s t' r') as (raw & Hr & Hp); [lia|done|]. rewrite Hr.
    exists (c :: raw). split; [done|]. cbn [app jp_string]. rewrite Eq, Eb, El. by rewrite Hp.
Qed.

Section decide.
Context `{SH : !StringHost} (code label : string).

Lemma parseString_of_parser s t r :
  jp_string s = Some (t, r) -> parseString code label s = Ok (VStr t, r).
Proof.
  intros (raw & Hr & Hp)%jp_string_raw. unfold parseString. rewrite Hr.
  unfold json_parse. cbn [length Nat.mul Nat.add].
  rewrite <- plus_n_Sm. cbn [jp_value skip_ws].
  change (is_json_ws 34) with false. cbv iota. change (34 =? 34)%N with true. cbv iota.
  by rewrite Hp.
Qed.

(** Either the scanner reaches where the strict parser does, or both reject. *)
Definition agree (scanned : res jsstr) (parsed strict : option (jsv * jsstr)) : Prop :=
  match parsed with
  | Some (v, r) =>
      (scanned = Ok r /\ strict = Some (v, r)) \/ ((exists e, scanned = Throw e) /\ strict = None)
  | None => True
  end.

(** The keys the scanner has seen are the members the parser has read. *)
Definition same_seen (seen : list jsv) (acc : list (jsstr * jsv)) : Prop :=
  forall k, existsb (same_key (VStr k)) seen = mem_str k acc.*1.

Lemma same_seen_cons seen acc k v :
  same_seen seen acc -> same_seen (VStr k :: seen) (acc ++ [(k, v)]).
Proof.
  intros H k'. cbn [existsb same_key]. rewrite H. apply eq_true_iff_eq.
  rewrite fmap_app, orb_true_iff, !mem_str_true, elem_of_app, str_eqb_eq. simpl.
  rewrite list_elem_of_singleton. split; [intros [->|?]; auto|intros [?| ->]; auto].
Qed.

Lemma bare_token c r r' :
  (exists tok, c :: r = tok ++ r' /\ tok <> [] /\
     forallb (fun c => negb (ends_token c)) tok = true) ->
  delimited r' -> ends_token c = false /\ skip_token (c :: r) = r'.
Proof.
  intros (tok & E & Hne & Ht) Hd. destruct tok as [|x tok]; [done|].
  rewrite E. split; [|by apply skip_token_app].
  injection E as -> _. cbn [forallb] in Ht. apply andb_true_iff in Ht as [Hx _].
  by apply negb_true_iff.
Qed.

(** The parser's literal patterns as tests of the first character. *)
Ltac by_head := repeat match goal with |- context [match ?x with _ => _ end] =>
  is_var x; destruct x; try done end.

Lemma jp_value_S n s :
  jp_value (S n) s =
    match skip_ws s with
    | [] => None
    | c :: r =>
        if (c =? 34)%N then '(t, r') ← jp_string r; Some (VStr t, r')
        else if (c =? 91)%N then
          if starts 93 (skip_ws r) then Some (VArr [], tail (skip_ws r)) else jp_elements n [] r
        else if (c =? 123)%N then
          if starts 125 (skip_ws r) then Some (VObj PObject [], tail (skip_ws r))
          else jp_members n [] r
        else if (c =? 110)%N then jp_literal (js "null") VNull (c :: r)
        else if (c =? 116)%N then jp_literal (js "true") (VBool true) (c :: r)
        else if (c =? 102)%N then jp_literal (js "false") (VBool false) (c :: r)
        else jp_number (c :: r)
    end.
Proof.
  cbn [jp_value]. destruct (skip_ws s) as [|c r]; [done|].
  destruct (c =? 34)%N; [done|]. destruct (c =? 91)%N.
  { unfold starts. destruct (skip_ws r) as [|x l]; [done|]. by_head. }
  destruct (c =? 123)%N; [|done]. unfold starts. destruct (skip_ws r) as [|x l]; [done|]. by_head.
Qed.

Lemma jp_elements_S n acc s :
  jp_elements (S n) acc s =
    '(v, r) ← jp_value n s;
    if starts 44 (skip_ws r) then jp_elements n (acc ++ [v]) (tail (skip_ws r))
    else if starts 93 (skip_ws r) then Some (VArr (acc ++ [v]), tail (skip_ws r))
    else None.
Proof.
  cbn [jp_elements]. destruct (jp_value n s) as [[v r]|]; [|done]. cbn. unfold starts.
  destruct (skip_ws r) as [|x l]; [done|]. by_head.
Qed.

Lemma jp_members_S n acc s :
  jp_members (S n) acc s =
    if starts 34 (skip_ws s) then
      '(k, r1) ← jp_string (tail (skip_ws s));
      if starts 58 (skip_ws r1) then
        '(v, r) ← jp_value n (tail (skip_ws r1));
        if starts 44 (skip_ws r) then jp_members n (alist_set k v acc) (tail (skip_ws r))
        else if starts 125 (skip_ws r) then Some (VObj PObject (alist_set k v acc), tail (skip_ws r))
        else None
      else None
    else None.
Proof.
  cbn [jp_members].
  destruct (skip_ws s) as [|c r0]; [done|]. unfold starts at 1.
  destruct (N.eqb_spec c 34) as [->|Hc].
  - cbn [tail]. destruct (jp_string r0) as [[k r1]|]; [|done]. cbn.
    destruct (skip_ws r1) as [|c r2]; [done|]. cbn [starts tail].
    destruct (N.eqb_spec c 58) as [->|Hc].
    + destruct (jp_value n r2) as [[v r]|]; [|done]. cbn. unfold starts.
      destruct (skip_ws r) as [|x l]; [done|]. by_head.
    + by_head.
  - by_head.
Qed.
Lemma starts_true c s : starts c s = true -> exists r, s = c :: r.
Proof. destruct s as [|x r]; [done|]. intros ->%N.eqb_eq. by exists r. Qed.

Lemma starts_delimited c r : c = 44%N \/ c = 93%N \/ c = 125%N ->
  starts c (skip_ws r) = true -> delimited r.
Proof. intros Hc (t & E)%starts_true. unfold delimited. by rewrite E. Qed.

Lemma scan_elements_S n s :
  skip_ws s <> [] ->
  scan_elements code label (S n) s =
    r ← scan_value code label n s;
    if starts 93 (skip_ws r) then Ok (tail (skip_ws r))
    else if starts 44 (skip_ws r) then scan_elements code label n (tail (skip_ws r))
    else Throw (scan_error code label " contains an invalid JSON array").
Proof. by destruct s. Qed.

Lemma scan_members_S n seen s :
  skip_ws s <> [] ->
  scan_members code label (S n) seen s =
    _ ← guard_or (starts 34 (skip_ws s)) (scan_error code label " contains an invalid JSON object key");
    '(key, r1) ← parseString code label (tail (skip_ws s));
    _ ← guard_or (negb (existsb (same_key key) seen))
          (scan_error code label " contains a duplicate JSON key");
    _ ← guard_or (starts 58 (skip_ws r1)) (scan_error code label " contains an invalid JSON object");
    r ← scan_value code label n (tail (skip_ws r1));
    if starts 125 (skip_ws r) then Ok (tail (skip_ws r))
    else if starts 44 (skip_ws r) then scan_members code label n (key :: seen) (tail (skip_ws r))
    else Throw (scan_error code label " contains an invalid JSON object").
Proof. by destruct s. Qed.

Lemma js_members_S n acc s :
  js_members (S n) acc s =
    if starts 34 (skip_ws s) then
      '(k, r1) ← jp_string (tail (skip_ws s));
      if mem_str k acc.*1 then None
      else if starts 58 (skip_ws r1) then
        '(v, r) ← js_value n (tail (skip_ws r1));
        if starts 44 (skip_ws r) then js_members n (acc ++ [(k, v)]) (tail (skip_ws r))
        else if starts 125 (skip_ws r) then
          Some (VObj PObject (acc ++ [(k, v)]), tail (skip_ws r))
        else None
      else None
    else None.
Proof. done. Qed.

Lemma scan_value_ws n s s' :
  skip_ws s = skip_ws s' -> scan_value code label n s = scan_value code label n s'.
Proof. destruct n as [|n]; [done|]. intros E. cbn [scan_value]. by rewrite E. Qed.

Lemma jp_value_nonempty n s v r : jp_value n s = Some (v, r) -> skip_ws s <> [].
Proof. destruct n as [|n]; [done|]. rewrite jp_value_S. by destruct (skip_ws s). Qed.

(** The step of an array, given that its parts agree. *)
Lemma elements_agree n acc s s' v r :
  (forall s v r, jp_value n s = Some (v, r) -> delimited r ->
     agree (scan_value code label n s) (Some (v, r)) (js_value n s)) ->
  (forall acc s s' v r, skip_ws s = skip_ws s' -> jp_elements n acc s = Some (v, r) ->
     agree (scan_elements code label n s') (Some (v, r)) (js_elements n acc s)) ->
  skip_ws s = skip_ws s' -> jp_elements (S n) acc s = Some (v, r) ->
  agree (scan_elements code label (S n) s') (Some (v, r)) (js_elements (S n) acc s).
Proof.
  intros IHv IHe Hw H. rewrite jp_elements_S in H. apply bind_Some in H as ([w t] & Hv & H).
  pose proof (jp_value_nonempty _ _ _ _ Hv) as Hne. rewrite Hw in Hne.
  rewrite scan_elements_S by done. rewrite <- (scan_value_ws n s s' Hw).
  cbn [js_elements].
  assert (delimited t) as Hd.
  { destruct (starts 44 (skip_ws t)) eqn:E1; [eapply starts_delimited; [|exact E1]; auto|].
    destruct (starts 93 (skip_ws t)) eqn:E2; [eapply starts_delimited; [|exact E2]; auto|done]. }
  destruct (IHv _ _ _ Hv Hd) as [[-> ->]|[[e ->] ->]]; [|right; by split; [eexists|]].
  cbn [mbind res_bind option_bind].
  destruct (starts 44 (skip_ws t)) eqn:E1.
  - assert (starts 93 (skip_ws t) = false) as ->
      by (apply starts_true in E1 as [? ->]; done).
    by apply IHe.
  - destruct (starts 93 (skip_ws t)); [|done]. injection H as <- <-. by left.
Qed.

(** The step of an object. *)
Lemma members_agree n acc seen s s' v r :
  (forall s v r, jp_value n s = Some (v, r) -> delimited r ->
     agree (scan_value code label n s) (Some (v, r)) (js_value n s)) ->
  (forall acc seen s s' v r, skip_ws s = skip_ws s' -> same_seen seen acc ->
     jp_members n acc s = Some (v, r) ->
     agree (scan_members code label n seen s') (Some (v, r)) (js_members n acc s)) ->
  skip_ws s = skip_ws s' -> same_seen seen acc -> jp_members (S n) acc s = Some (v, r) ->
  agree (scan_members code label (S n) seen s') (Some (v, r)) (js_members (S n) acc s).
Proof.
  intros IHv IHm Hw Hseen H. rewrite jp_members_S in H.
  destruct (starts 34 (skip_ws s)) eqn:E34; [|done].
  assert (skip_ws s' <> []) as Hne by (rewrite <- Hw; by destruct (skip_ws s)).
  rewrite scan_members_S, js_members_S by done. rewrite <- Hw, E34. cbn [guard_or mbind res_bind].
  apply bind_Some in H as ([k r1] & Hk & H).
  rewrite (parseString_of_parser _ _ _ Hk), Hk. cbn [mbind res_bind option_bind].
  rewrite Hseen. destruct (mem_str k acc.*1) eqn:Em; cbn [negb guard_or mbind res_bind].
  { right. split; [by eexists|reflexivity]. }
  destruct (starts 58 (skip_ws r1)) eqn:E58; [|done]. cbn [guard_or mbind res_bind].
  apply bind_Some in H as ([w t] & Hv & H).
  assert (delimited t) as Hd.
  { destruct (starts 44 (skip_ws t)) eqn:E1; [eapply starts_delimited; [|exact E1]; auto|].
    destruct (starts 125 (skip_ws t)) eqn:E2; [eapply starts_delimited; [|exact E2]; auto|done]. }
  destruct (IHv _ _ _ Hv Hd) as [[-> ->]|[[e ->] ->]]; [|right; by split; [eexists|]].
  cbn [mbind res_bind option_bind].
  rewrite alist_set_fresh in H by (intros ?%mem_str_true; congruence).
  destruct (starts 44 (skip_ws t)) eqn:E1.
  - assert (starts 125 (skip_ws t) = false) as ->
      by (apply starts_true in E1 as [? ->]; done).
    apply IHm; [done|by apply same_seen_cons|done].
  - destruct (starts 125 (skip_ws t)); [|done]. injection H as <- <-. by left.
Qed.

Lemma scanner_agrees n :
  (forall s v r, jp_value n s = Some (v, r) -> delimited r ->
     agree (scan_value code label n s) (Some (v, r)) (js_value n s)) /\
  (forall acc s s' v r, skip_ws s = skip_ws s' -> jp_elements n acc s = Some (v, r) ->
     agree (scan_elements code label n s') (Some (v, r)) (js_elements n acc s)) /\
  (forall acc seen s s' v r, skip_ws s = skip_ws s' -> same_seen seen acc ->
     jp_members n acc s = Some (v, r) ->
     agree (scan_members code label n seen s') (Some (v, r)) (js_members n acc s)).
Proof.
  induction n as [|n (IHv & IHe & IHm)]; [done|]. split; [|split].
  - intros s v r H Hd. rewrite jp_value_S in H. cbn [scan_value js_value].
    destruct (skip_ws s) as [|c t] eqn:Ew; [done|].
    destruct (N.eqb_spec c 34) as [->|H34].
    { apply bind_Some in H as ([u r'] & Hs & [= <- <-]). left.
      cbn. rewrite (parseString_of_parser _ _ _ Hs), Hs. done. }
    destruct (N.eqb_spec c 91) as [->|H91].
    { change ((91 =? 123)%N) with false. cbv iota. destruct (starts 93 (skip_ws t)) eqn:E.
      - injection H as <- <-. by left.
      - apply IHe; [by rewrite skip_ws_idemp|done]. }
    destruct (N.eqb_spec c 123) as [->|H123].
    { destruct (starts 125 (skip_ws t)) eqn:E.
      - injection H as <- <-. by left.
      - apply IHm; [by rewrite skip_ws_idemp|by intros k|done]. }
    assert (exists tok, c :: t = tok ++ r /\ tok <> [] /\
      forallb (fun c => negb (ends_token c)) tok = true) as Ht.
    { destruct (c =? 110)%N.
      { apply jp_literal_split in H as ->. by eexists. }
      destruct (c =? 116)%N.
      { apply jp_literal_split in H as ->. by eexists. }
      destruct (c =? 102)%N.
      { apply jp_literal_split in H as ->. by eexists. }
      apply jp_number_split in H as (tok & -> & ? & ?). exists tok.
      auto using number_chars_token. }
    destruct (bare_token _ _ _ Ht Hd) as [-> ->]. by left.
  - intros acc s s' v r. by apply elements_agree.
  - intros acc seen s s' v r. by apply members_agree.
Qed.

(** The strict parser only rejects more. *)
Lemma js_subset n :
  (forall s v r, js_value n s = Some (v, r) -> jp_value n s = Some (v, r)) /\
  (forall acc s v r, js_elements n acc s = Some (v, r) -> jp_elements n acc s = Some (v, r)) /\
  (forall acc s v r, js_members n acc s = Some (v, r) -> jp_members n acc s = Some (v, r)).
Proof.
  induction n as [|n (IHv & IHe & IHm)]; [done|]. split; [|split].
  - intros s v r. rewrite jp_value_S. cbn [js_value]. destruct (skip_ws s) as [|c t]; [done|].
    destruct (c =? 34)%N; [done|]. destruct (c =? 91)%N; [destruct (starts _ _); auto|].
    destruct (c =? 123)%N; [destruct (starts _ _); auto|done].
  - intros acc s v r. rewrite jp_elements_S. cbn [js_elements].
    intros ([w t] & ->%IHv & H)%bind_Some. cbn [mbind option_bind].
    destruct (starts 44 _); [by apply IHe|done].
  - intros acc s v r. rewrite jp_members_S. cbn [js_members]. destruct (starts 34 _); [|done].
    intros ([k r1] & -> & H)%bind_Some. cbn [mbind option_bind].
    destruct (mem_str k _) eqn:Em; [done|]. destruct (starts 58 _); [|done].
    apply bind_Some in H as ([w t] & ->%IHv & H). cbn [mbind option_bind].
    rewrite alist_set_fresh by (intros ?%mem_str_true; congruence).
    destruct (starts 44 _); [by apply IHm|done].
Qed.
End decide.

(** ** Fuel *)

Section fuel.
Context `{SH : !StringHost} (code label : string).

Lemma skip_ws_length s : (length (skip_ws s) <= length s)%nat.
Proof. induction s as [|c s IH]; [done|]. simpl. destruct (is_json_ws c); simpl; lia. Qed.

Lemma skip_token_length s : (length (skip_token s) <= length s)%nat.
Proof. induction s as [|c s IH]; [done|]. simpl. destruct (ends_token c); simpl; lia. Qed.

Lemma tail_ws_length c s : starts c (skip_ws s) = true -> (length (tail (skip_ws s)) < length s)%nat.
Proof. intros (t & E)%starts_true. pose proof (skip_ws_length s). rewrite E in *. simpl in *. lia. Qed.

Lemma raw_string_length s raw r : raw_string s = Some (raw, r) -> (length r < length s)%nat.
Proof.
  remember (length s) as n eqn:Hn. assert (length s <= n)%nat as Hle by lia. rewrite Hn. clear Hn.
  revert s raw r Hle. induction n as [|n IH]; intros [|c s] raw r Hle; simpl in Hle; try done; try lia.
  cbn [raw_string]. destruct (c =? 34)%N; [intros [= _ <-]; simpl; lia|].
  destruct (c =? 92)%N.
  - destruct s as [|e s]; [done|]. intros ([raw' r'] & H & [= _ <-])%bind_Some.
    apply IH in H; simpl in *; lia.
  - intros ([raw' r'] & H & [= _ <-])%bind_Some. apply IH in H; simpl in *; lia.
Qed.

Lemma parseString_length s k r :
  parseString code label s = Ok (k, r) -> (length r < length s)%nat.
Proof.
  unfold parseString. destruct (raw_string s) as [[raw r']|] eqn:E; [|done].
  apply raw_string_length in E. destruct (json_parse _); [|done]. by intros [= _ <-].
Qed.

Lemma scan_value_S n s :
  scan_value code label (S n) s =
    match skip_ws s with
    | [] => Throw (scan_error code label " contains an invalid JSON value")
    | c :: r =>
        if (c =? 123)%N then
          if starts 125 (skip_ws r) then Ok (tail (skip_ws r))
          else scan_members code label n [] (skip_ws r)
        else if (c =? 91)%N then
          if starts 93 (skip_ws r) then Ok (tail (skip_ws r))
          else scan_elements code label n (skip_ws r)
        else if (c =? 34)%N then '(_, rest) ← parseString code label r; Ok rest
        else if ends_token c then Throw (scan_error code label " contains an invalid JSON value")
        else Ok (skip_token (c :: r))
    end.
Proof. done. Qed.

Lemma scan_value_blank n s :
  skip_ws s = [] ->
  scan_value code label n s = Throw (scan_error code label " contains an invalid JSON value").
Proof. intros E. destruct n; [done|]. by rewrite scan_value_S, E. Qed.

Lemma scan_elements_blank n s :
  skip_ws s = [] -> s <> [] ->
  scan_elements code label (S n) s =
    Throw (scan_error code label " contains an invalid JSON value").
Proof.
  intros E Hs. destruct s as [|c s]; [done|].
  change (scan_elements code label (S n) (c :: s)) with
    (r ← scan_value code label n (c :: s);
     if starts 93 (skip_ws r) then Ok (tail (skip_ws r))
     else if starts 44 (skip_ws r) then scan_elements code label n (tail (skip_ws r))
     else Throw (scan_error code label " contains an invalid JSON array")).
  by rewrite scan_value_blank.
Qed.

(** A scan that succeeds leaves less text. *)
Lemma scan_shorter n :
  (forall s r, scan_value code label n s = Ok r -> (length r < length s)%nat) /\
  (forall s r, scan_elements code label n s = Ok r -> (length r < length s)%nat) /\
  (forall seen s r, scan_members code label n seen s = Ok r -> (length r < length s)%nat).
Proof.
  induction n as [|n (IHv & IHe & IHm)]; [done|]. split; [|split].
  - intros s r. rewrite scan_value_S. pose proof (skip_ws_length s) as Hl.
    destruct (skip_ws s) as [|c t]; [done|]. simpl in Hl. pose proof (skip_ws_length t).
    destruct (c =? 123)%N.
    { destruct (starts 125 _) eqn:E; [intros [= <-]; apply tail_ws_length in E; lia|].
      intros ?%IHm. lia. }
    destruct (c =? 91)%N.
    { destruct (starts 93 _) eqn:E; [intros [= <-]; apply tail_ws_length in E; lia|].
      intros ?%IHe. lia. }
    destruct (c =? 34)%N.
    { intros ([k r'] & H1 & [= <-])%bind_Ok. apply parseString_length in H1. lia. }
    destruct (ends_token c) eqn:Ee; [done|]. intros [= <-]. simpl. rewrite Ee.
    pose proof (skip_token_length t). lia.
  - intros s r H. assert (skip_ws s <> []) as Hne.
    { intros E. destruct s as [|c s]; [done|]. by rewrite scan_elements_blank in H. }
    rewrite scan_elements_S in H by done. apply bind_Ok in H as (t & Hv%IHv & H).
    destruct (starts 93 _) eqn:E1; [injection H as <-; apply tail_ws_length in E1; lia|].
    destruct (starts 44 _) eqn:E2; [|done]. apply IHe in H. apply tail_ws_length in E2. lia.
  - intros seen s r H. assert (skip_ws s <> []) as Hne.
    { intros E. destruct s as [|c s]; [done|]. cbn [scan_members] in H. rewrite E in H. done. }
    rewrite scan_members_S in H by done. apply guard_bind_Ok in H as [E0 H].
    apply bind_Ok in H as ([k r1] & Hk%parseString_length & H).
    apply guard_bind_Ok in H as [_ H]. apply guard_bind_Ok in H as [E1 H].
    apply bind_Ok in H as (t & Hv%IHv & H).
    apply tail_ws_length in E0, E1.
    destruct (starts 125 _) eqn:E2; [injection H as <-; apply tail_ws_length in E2; lia|].
    destruct (starts 44 _) eqn:E3; [|done]. apply IHm in H. apply tail_ws_length in E3. lia.
Qed.

Lemma res_bind_ext {A B} (m : res A) (f g : A -> res B) :
  (forall a, m = Ok a -> f a = g a) -> (m ≫= f) = (m ≫= g).
Proof. destruct m; simpl; auto. Qed.

(** Fuel beyond twice the length makes no difference. *)
Lemma scan_fuel n :
  (forall s m, (2 * length s + 1 <= n <= m)%nat ->
     scan_value code label n s = scan_value code label m s) /\
  (forall s m, (2 * length s + 2 <= n <= m)%nat ->
     scan_elements code label n s = scan_elements code label m s) /\
  (forall seen s m, (2 * length s + 2 <= n <= m)%nat ->
     scan_members code label n seen s = scan_members code label m seen s).
Proof.
  induction n as [|n (IHv & IHe & IHm)]; [split; [|split]; lia|]. split; [|split].
  - intros s [|m] Hm; [lia|]. rewrite !scan_value_S. pose proof (skip_ws_length s) as Hl.
    destruct (skip_ws s) as [|c t]; [done|]. simpl in Hl. pose proof (skip_ws_length t).
    rewrite (IHm [] (skip_ws t) m), (IHe (skip_ws t) m) by lia. done.
  - intros s [|m] Hm; [lia|]. destruct (decide (skip_ws s = [])) as [E|E].
    + destruct s as [|c s]; [done|]. by rewrite !scan_elements_blank.
    + rewrite !scan_elements_S by done. rewrite (IHv s m) by lia. apply res_bind_ext.
      intros r Hr%(proj1 (scan_shorter m)). destruct (starts 93 _); [done|].
      destruct (starts 44 _) eqn:E2; [|done]. apply tail_ws_length in E2. apply IHe. lia.
  - intros seen s [|m] Hm; [lia|]. destruct (decide (skip_ws s = [])) as [E|E].
    + destruct s as [|c s]; [done|]. cbn [scan_members]. by rewrite E.
    + rewrite !scan_members_S by done. apply res_bind_ext. intros _ E0%guard_or_Ok.
      apply res_bind_ext. intros [k r1] Hk%parseString_length. apply res_bind_ext. intros _ _.
      apply res_bind_ext. intros _ E1%guard_or_Ok. apply tail_ws_length in E0, E1.
      rewrite (IHv _ m) by lia. apply res_bind_ext. intros r Hr%(proj1 (scan_shorter m)).
      destruct (starts 125 _); [done|]. destruct (starts 44 _) eqn:E3; [|done].
      apply tail_ws_length in E3. apply IHm. lia.
Qed.
End fuel.

(** ** Properties *)

Section exact_properties.
Context `{SH : !StringHost} (code label : string).

Lemma exact_iff text v :
  scanObjectKeys code label text = Ok tt /\ json_parse text = Some v <->
  json_parse_distinct text = Some v.
Proof.
  set (n := (2 * length text + 2)%nat).
  assert (forall w r, jp_value n text = Some (w, r) -> skip_ws r = [] ->
    agree (scan_value code label n text) (Some (w, r)) (js_value n text)) as Ha.
  { intros w r H E. apply scanner_agrees; [done|]. unfold delimited. by rewrite E. }
  unfold scanObjectKeys, json_parse, json_parse_distinct. fold n. split.
  - intros [Hs Hp]. destruct (jp_value n text) as [[w r]|] eqn:E; [|done].
    destruct (skip_ws r) eqn:Er; [|done]. injection Hp as <-.
    destruct (Ha w r eq_refl Er) as [[_ ->]|[[e Ht] _]]; [by rewrite Er|by rewrite Ht in Hs].
  - destruct (js_value n text) as [[w r]|] eqn:E; [|done]. destruct (skip_ws r) eqn:Er; [|done].
    intros [= <-]. pose proof (proj1 (js_subset n) _ _ _ E) as Hj. rewrite Hj, Er.
    split; [|done]. destruct (Ha w r Hj Er) as [[-> _]|[_ Hn]]; [|congruence].
    cbn [mbind res_bind]. by rewrite bool_decide_true.
Qed.

(** C34: the pinned bytes are accepted exactly when they are within the size
    limit, start with no byte order mark and are the strict UTF-8 of a JSON text
    in which no object repeats a member name; the value is the one that text
    denotes.  The scanner and the parser, run one after the other, so amount to
    one parser that rejects repeated names. *)
Theorem parsePomRxV01ExactJson_iff bytes maxBytes v :
  parsePomRxV01ExactJson code label bytes maxBytes = Ok v <->
  1 <= Z.of_nat (length bytes) <= maxBytes /\ take 3 bytes <> [239; 187; 191]%N /\
  exists text, utf8_decode bytes = Some text /\ json_parse_distinct text = Some v.
Proof.
  unfold parsePomRxV01ExactJson. setoid_rewrite <- exact_iff.
  rewrite !guard_bind_Ok, andb_true_iff, !Z.leb_le, negb_true_iff, bool_decide_eq_false.
  split.
  - intros (? & ? & H). split; [done|]. split; [done|].
    destruct (utf8_decode bytes) as [text|]; [|done]. exists text. split; [done|].
    simpl in H. apply bind_Ok in H as ([] & Hs & H). destruct (json_parse text); [|done].
    injection H as ->. done.
  - intros (? & ? & text & Hd & Hs & Hp). split; [done|]. split; [done|].
    rewrite Hd. cbn [mbind res_bind]. rewrite Hs. cbn [mbind res_bind]. by rewrite Hp.
Qed.

(** the scanner never runs out of fuel: with any more it does the same. *)
Theorem scanObjectKeys_fuel text n :
  (2 * length text + 2 <= n)%nat ->
  scan_value code label n text = scan_value code label (2 * length text + 2) text.
Proof. intros Hn. symmetry. apply scan_fuel. lia. Qed.
End exact_properties.

Section exact_witness.
#[local] Existing Instances plain_string_host.

Lemma scanObjectKeys_fuel_witness :
  scan_value "CODE" "policy" 100 (js "[1, {}]") =
  scan_value "CODE" "policy" (2 * length (js "[1, {}]") + 2) (js "[1, {}]").
Proof. apply (scanObjectKeys_fuel "CODE" "policy" (js "[1, {}]") 100). simpl. lia. Defined.

(** A repeated key is found behind an escape, which [JSON.parse] alone would
    let override the first. *)
Example repeated_key_escaped :
  is_ok (scanObjectKeys "CODE" "policy"
    ([123; 34; 97; 34; 58; 49; 44; 34; 92; 117; 48; 48; 54; 49; 34; 58; 50; 125]%N)) = false.
Proof. vm_compute. reflexivity. Qed.
End exact_witness.
