(* ===== verification/PolicyCapability.v ===== *)
(** * Local verification policies and their capabilities

    Models the second part of
    [sdk/typescript/internal/pom-rx-v01-policy-capability.mjs]: policy
    validation, and the capabilities and bindings the module brands through two
    weak maps.  A capability or binding object is known to the module by its
    index in [world]; an argument that is none of them is [None].  Absolute
    paths are POSIX paths, and the files read are the argument [files]. *)
From S2P Require Import Prelude JsDate JsValue ProofSdk Json Receipt PomRx Diagnostics StrictChecks Verdict ExactJson.

#[local] Arguments js : simpl never.

Definition MAX_POLICY_BYTES : Z := 64 * 1024.
Definition POLICY_INVALID : string := "POMRX_V01_E_POLICY_INVALID".
Definition RUNTIME_KEYS : list jsstr := js <$>
  ["node_version"; "icu_version"; "unicode_version"; "locale"; "platform"; "arch"].
Definition TUPLE_KEYS : list jsstr := js <$>
  ["receipt_schema_version"; "verifier_profile"; "verifier_version";
   "implementation_artifact_sha256"].

Definition policy_assertExactKeys (value : jsv) (expected : list jsstr) (code label : string)
  : res unit :=
  _ ← guard_or (is_record value) (strict_error code (js label ++ js " must be an object"));
  guard_or (same_keys (keys_of value) expected)
    (strict_error code (js label ++ js " has missing or unknown fields")).

(** [/[*?]|(?:^|\s)[<>=~^]|\.\./] *)
Fixpoint range_from (boundary : bool) (s : jsstr) : bool :=
  match s with
  | [] => false
  | c :: s' => (boundary && is_one_of "<>=~^" c) || range_from (is_js_space c) s'
  end.
Fixpoint double_dot (s : jsstr) : bool :=
  match s with
  | a :: ((b :: _) as s') => ((a =? 46)%N && (b =? 46)%N) || double_dot s'
  | _ => false
  end.
Definition wildcard_or_range (s : jsstr) : bool :=
  existsb (is_one_of "*?") s || range_from true s || double_dot s.

Definition assertString (value : jsv) (code : string) (label : jsstr) (hash : bool) : res jsstr :=
  s ← match str_that (fun s => (1 <=? length s)%nat && (length s <=? 256)%nat
                      && negb (has_control s) && (negb hash || hash_pattern s)) value with
    | Some s => Ok s
    | None => Throw (strict_error code (label ++ js " is invalid"))
    end;
  _ ← guard_or (hash || negb (wildcard_or_range s))
        (strict_error code (label ++ js " cannot contain a wildcard or range"));
  Ok s.

(** The fields of a runtime, in the order of [RUNTIME_KEYS]. *)
Definition runtime := list (jsstr * jsstr).

Definition validateRuntimeConstraints (value : jsv) (code : string) : res runtime :=
  _ ← policy_assertExactKeys value RUNTIME_KEYS code "runtime_constraints";
  map_res (fun key =>
    s ← assertString (get key value) code (js "runtime_constraints." ++ key) false;
    Ok (key, s)) RUNTIME_KEYS.

Record verifier_tuple := {
  t_receipt_schema_version : jsstr; t_verifier_profile : jsstr; t_verifier_version : jsstr;
  t_implementation_artifact_sha256 : jsstr;
}.
#[export] Instance verifier_tuple_eq_dec : EqDecision verifier_tuple.
Proof. solve_decision. Defined.

(** The four fields of a tuple whose keys are checked. *)
Definition tuple_fields (value : jsv) : res verifier_tuple :=
  let str k hash := assertString (get (js k) value) POLICY_INVALID
                      (js "verifier tuple " ++ js k) hash in
  schema ← str "receipt_schema_version" false;
  profile ← str "verifier_profile" false;
  version ← str "verifier_version" false;
  artifact ← str "implementation_artifact_sha256" true;
  Ok {| t_receipt_schema_version := schema; t_verifier_profile := profile;
        t_verifier_version := version; t_implementation_artifact_sha256 := artifact |}.

(** [validateTuple], with and without [runtimeRequired] *)
Definition validateTuple (value : jsv) : res verifier_tuple :=
  _ ← policy_assertExactKeys value TUPLE_KEYS POLICY_INVALID "verifier tuple";
  tuple_fields value.
Definition validateTuple_runtime (value : jsv) : res (verifier_tuple * runtime) :=
  _ ← policy_assertExactKeys value (TUPLE_KEYS ++ [js "runtime_constraints"]) POLICY_INVALID
        "verifier tuple";
  tuple ← tuple_fields value;
  r ← validateRuntimeConstraints (get (js "runtime_constraints") value) POLICY_INVALID;
  Ok (tuple, r).

(** [/^\d{4}-\d{2}-\d{2}T\d{2}:\d{2}:\d{2}\.\d{3}Z$/]: [d] is a digit, another
    character itself. *)
Definition instant_template : jsstr := js "dddd-dd-ddTdd:dd:dd.dddZ".
Definition instant_pattern (s : jsstr) : bool :=
  (length s =? length instant_template)%nat &&
  forallb (fun '(c, t) => if (t =? 100)%N then is_digit c else (c =? t)%N)
    (zip s instant_template).

Section policy.
Context `{SH : !StringHost, DH : !DateHost}.

Definition parseCanonicalInstant (value : jsv) (code : string) : res Z :=
  let malformed :=
    strict_error code (js "Trusted evaluation instant is unavailable or malformed") in
  match str_that instant_pattern value with
  | None => Throw malformed
  | Some s =>
      match date_parse s with
      | Some t => if str_eqb (to_iso_string t) s then Ok t else Throw malformed
      | None => Throw malformed
      end
  end.

Record withdrawal := {
  wd_tuple : verifier_tuple; wd_effective_at : jsstr; effectiveAtMs : Z; wd_status : jsstr;
  wd_replacement : option verifier_tuple; wd_reason_code : jsstr;
}.

Record policy := {
  policy_id : jsstr; policy_version : jsstr; policy_sha256 : jsstr;
  accepted_verifiers : list (verifier_tuple * runtime);
  withdrawn_verifiers : list withdrawal;
}.

Definition policy_error (msg : string) : jserr := strict_error POLICY_INVALID (js msg).

Definition withdrawal_keys : list jsstr :=
  TUPLE_KEYS ++ (js <$> ["effective_at"; "status"; "replacement"; "reason_code"]).

Definition text_of (v : jsv) : jsstr := match v with VStr s => s | _ => [] end.

Definition validateWithdrawal (entry : jsv) : res withdrawal :=
  _ ← policy_assertExactKeys entry withdrawal_keys POLICY_INVALID "withdrawal";
  let field k := get (js k) entry in
  tuple ← validateTuple (VObj PObject ((fun k => (k, get k entry)) <$> TUPLE_KEYS));
  effectiveAtMs ← parseCanonicalInstant (field "effective_at") POLICY_INVALID;
  let is_replacement := is_str (field "status") (js "replacement") in
  _ ← guard_or (is_replacement || is_str (field "status") (js "terminal"))
        (policy_error "Withdrawal status is invalid");
  _ ← guard_or (eqb is_replacement (negb (is_null (field "replacement"))))
        (policy_error "Withdrawal replacement shape is invalid");
  replacement ← (if is_null (field "replacement") then Ok None
                 else Some <$> validateTuple (field "replacement"));
  reason ← assertString (field "reason_code") POLICY_INVALID (js "withdrawal reason_code") false;
  Ok {| wd_tuple := tuple; wd_effective_at := text_of (field "effective_at");
        effectiveAtMs := effectiveAtMs; wd_status := text_of (field "status");
        wd_replacement := replacement; wd_reason_code := reason |}.

Definition policy_keys : list jsstr := js <$>
  ["policy_schema_version"; "policy_id"; "policy_version"; "accepted_verifiers";
   "withdrawn_verifiers"].

(** [tupleIdentity] is the JSON text of the four strings, which tells apart
    what the tuple does, so identities are compared as tuples. *)
Definition validatePolicy (value : jsv) (policySha256 : jsstr) : res policy :=
  _ ← policy_assertExactKeys value policy_keys POLICY_INVALID "policy";
  let field k := get (js k) value in
  _ ← guard_or (is_str (field "policy_schema_version") (js "pom-rx-local-verification-policy/1"))
        (policy_error "Unsupported policy schema version");
  id ← assertString (field "policy_id") POLICY_INVALID (js "policy_id") false;
  version ← assertString (field "policy_version") POLICY_INVALID (js "policy_version") false;
  match field "accepted_verifiers", field "withdrawn_verifiers" with
  | VArr accepted, VArr withdrawn =>
      accepted ← map_res validateTuple_runtime accepted;
      _ ← guard_or (bool_decide (NoDup accepted.*1))
            (policy_error "Policy contains duplicate accepted verifier tuples");
      withdrawn ← map_res validateWithdrawal withdrawn;
      _ ← guard_or (bool_decide (NoDup (wd_tuple <$> withdrawn)))
            (policy_error "Policy contains duplicate withdrawals");
      Ok {| policy_id := id; policy_version := version; policy_sha256 := policySha256;
            accepted_verifiers := accepted; withdrawn_verifiers := withdrawn |}
  | _, _ => Throw (policy_error "Policy verifier sets must be arrays")
  end.

(** [path.isAbsolute] *)
Definition is_absolute (s : jsstr) : bool := match s with 47%N :: _ => true | _ => false end.

(** [files path] is what [readFileSync] returns, if anything. *)
Definition readPinnedJson `{BH : !ByteHashHost} (files : jsstr -> option (list N))
    (filePath expectedSha256 : jsv) (label : string) (maxBytes : Z) : res (jsv * jsstr) :=
  let pin := strict_error POLICY_INVALID (js label ++ js " host pin is invalid") in
  path ← match str_that is_absolute filePath with Some p => Ok p | None => Throw pin end;
  ok ← hash_test expectedSha256;
  _ ← guard_or ok pin;
  bytes ← match files path with
    | Some b => Ok b
    | None => Throw (strict_error POLICY_INVALID (js label ++ js " cannot be read"))
    end;
  let observedSha256 := sha256_bytes bytes in
  _ ← guard_or (is_str expectedSha256 observedSha256)
        (strict_error POLICY_INVALID (js label ++ js " digest differs from its host pin"));
  parsed ← parsePomRxV01ExactJson POLICY_INVALID label bytes maxBytes;
  Ok (parsed, observedSha256).
End policy.

(** ** Capabilities and bindings *)

Record cap_record := {
  cap_active : bool; cap_used : bool; evaluationTimeMs : Z; cap_instant : jsstr;
  cap_policy : policy; artifactManifestPath : jsstr; expectedArtifactManifestSha256 : jsv;
}.

Record policy_binding := {
  effective_policy_id : jsstr; effective_policy_version : jsstr; effective_policy_sha256 : jsstr;
  trusted_evaluation_instant : jsstr; artifact_manifest_path : jsstr;
  expected_artifact_manifest_sha256 : jsv; selected_verifier : verifier_tuple * runtime;
  execution_environment : runtime;
}.

Record binding_record := { b_capability : nat; b_used : bool; b_value : policy_binding }.

(** [capabilityStates] and [bindingStates] *)
Record world := { capabilities : list cap_record; bindings : list binding_record }.

Definition capability_required {A} (what : string) : res A :=
  Throw (strict_error "POMRX_V01_E_POLICY_CAPABILITY_REQUIRED" (js what)).
Definition capability_stale (what : string) : jserr :=
  strict_error "POMRX_V01_E_POLICY_CAPABILITY_STALE" (js what).

Definition set_cap (w : world) (c : nat) (f : cap_record -> cap_record) : world :=
  {| capabilities := alter f c (capabilities w); bindings := bindings w |}.
Definition deactivate (r : cap_record) : cap_record :=
  {| cap_active := false; cap_used := cap_used r; evaluationTimeMs := evaluationTimeMs r;
     cap_instant := cap_instant r; cap_policy := cap_policy r;
     artifactManifestPath := artifactManifestPath r;
     expectedArtifactManifestSha256 := expectedArtifactManifestSha256 r |}.
Definition mark_used (r : cap_record) : cap_record :=
  {| cap_active := cap_active r; cap_used := true; evaluationTimeMs := evaluationTimeMs r;
     cap_instant := cap_instant r; cap_policy := cap_policy r;
     artifactManifestPath := artifactManifestPath r;
     expectedArtifactManifestSha256 := expectedArtifactManifestSha256 r |}.
Definition use_binding (b : binding_record) : binding_record :=
  {| b_capability := b_capability b; b_used := true; b_value := b_value b |}.

(** [capabilityStates.get(capability)] and the freshness test *)
Definition fresh_capability (w : world) (capability : option nat) : res (nat * cap_record) :=
  match (c ← capability; r ← capabilities w !! c; Some (c, r)) with
  | None => capability_required "A branded policy capability is required"
  | Some (c, r) =>
      _ ← guard_or (cap_active r && negb (cap_used r))
            (capability_stale "Policy capability is stale, reused or invalidated");
      Ok (c, r)
  end.

Definition inspectFreshPomRxPolicyCapabilityHostPins (w : world) (capability : option nat)
  : res (jsstr * jsv) :=
  '(_, r) ← fresh_capability w capability;
  Ok (artifactManifestPath r, expectedArtifactManifestSha256 r).

(** The policy's decision on a tuple and a runtime. *)
Definition decide_binding (r : cap_record) (selected measured : jsv) : res policy_binding :=
  tuple ← validateTuple selected;
  env ← validateRuntimeConstraints measured "POMRX_V01_E_RUNTIME_ENVIRONMENT_UNSUPPORTED";
  let p := cap_policy r in
  _ ← guard_or (negb (existsb (fun e => bool_decide (wd_tuple e = tuple) &&
                     (effectiveAtMs e <=? evaluationTimeMs r)) (withdrawn_verifiers p)))
        (strict_error "POMRX_V01_E_VERIFIER_WITHDRAWN" (js "Selected verifier tuple is withdrawn"));
  accepted ← match List.find (fun e => bool_decide (e.1 = tuple)) (accepted_verifiers p) with
    | Some a => Ok a
    | None => Throw (strict_error "POMRX_V01_E_VERIFIER_NOT_ALLOWED"
                       (js "Selected verifier tuple is not allowlisted"))
    end;
  _ ← guard_or (bool_decide (accepted.2 = env))
        (strict_error "POMRX_V01_E_RUNTIME_ENVIRONMENT_UNSUPPORTED"
           (js "Runtime constraints do not match policy"));
  Ok {| effective_policy_id := policy_id p; effective_policy_version := policy_version p;
        effective_policy_sha256 := policy_sha256 p; trusted_evaluation_instant := cap_instant r;
        artifact_manifest_path := artifactManifestPath r;
        expected_artifact_manifest_sha256 := expectedArtifactManifestSha256 r;
        selected_verifier := accepted; execution_environment := env |}.

(** The world is returned with an error too: the capability is used up before
    the policy is consulted. *)
Definition bindFreshPomRxPolicyCapability (w : world) (capability : option nat)
    (selectedVerifierTuple measuredRuntime : jsv) : res nat * world :=
  match fresh_capability w capability with
  | Throw e => (Throw e, w)
  | Ok (c, r) =>
      let w := set_cap w c mark_used in
      match decide_binding r selectedVerifierTuple measuredRuntime with
      | Throw e => (Throw e, w)
      | Ok value =>
          (Ok (length (bindings w)),
           {| capabilities := capabilities w;
              bindings := bindings w ++ [{| b_capability := c; b_used := false; b_value := value |}] |})
      end
  end.

Definition consumeFreshPomRxPolicyBinding (w : world) (binding : option nat)
  : res policy_binding * world :=
  match (b ← binding; r ← bindings w !! b; Some (b, r)) with
  | None => (capability_required "A branded policy binding is required", w)
  | Some (b, r) =>
      let active := match capabilities w !! b_capability r with
                    | Some c => cap_active c
                    | None => false
                    end in
      if negb active || b_used r
      then (Throw (capability_stale "Policy binding is stale, reused or invalidated"), w)
      else (Ok (b_value r),
            {| capabilities := capabilities w; bindings := alter use_binding b (bindings w) |})
  end.

Section fresh.
Context `{SH : !StringHost, DH : !DateHost, BH : !ByteHashHost}.

Definition config_keys : list jsstr := js <$>
  ["policyPath"; "expectedPolicySha256"; "trustedEvaluationInstant"; "artifactManifestPath";
   "expectedArtifactManifestSha256"].

(** The capability [withFreshPomRxPolicyCapability] gives its callback. *)
Definition fresh_state (files : jsstr -> option (list N)) (config : jsv) (is_function : bool)
  : res cap_record :=
  _ ← policy_assertExactKeys config config_keys POLICY_INVALID "trusted bootstrap config";
  let field k := get (js k) config in
  _ ← guard_or is_function (policy_error "Capability callback is required");
  '(parsed, observed) ← readPinnedJson files (field "policyPath") (field "expectedPolicySha256")
      "local verification policy" MAX_POLICY_BYTES;
  validatedPolicy ← validatePolicy parsed observed;
  evaluationTimeMs ← parseCanonicalInstant (field "trustedEvaluationInstant")
      "POMRX_V01_E_POLICY_TIME_UNAVAILABLE";
  path ← match str_that is_absolute (field "artifactManifestPath") with
    | Some p => Ok p
    | None => Throw (policy_error "Artifact manifest host pin is invalid")
    end;
  ok ← hash_test (field "expectedArtifactManifestSha256");
  _ ← guard_or ok (policy_error "Artifact manifest host pin is invalid");
  Ok {| cap_active := true; cap_used := false; evaluationTimeMs := evaluationTimeMs;
        cap_instant := text_of (field "trustedEvaluationInstant"); cap_policy := validatedPolicy;
        artifactManifestPath := path;
        expectedArtifactManifestSha256 := field "expectedArtifactManifestSha256" |}.

(** What the callback returns: its value and whether it is a thenable. *)
Definition withFreshPomRxPolicyCapability {A} (files : jsstr -> option (list N)) (config : jsv)
    (callback : option (nat -> world -> res (A * bool) * world)) (w : world) : res A * world :=
  match fresh_state files config (bool_decide (is_Some callback)), callback with
  | Ok r, Some callback =>
      let capability := length (capabilities w) in
      let w := {| capabilities := capabilities w ++ [r]; bindings := bindings w |} in
      let '(result, w) := callback capability w in
      (match result with
       | Throw e => Throw e
       | Ok (_, true) =>
           Throw (capability_stale "Policy capability callback must be synchronous")
       | Ok (value, false) => Ok value
       end, set_cap w capability deactivate)
  | Throw e, _ => (Throw e, w)
  | Ok _, None => (Throw (policy_error "Capability callback is required"), w)
  end.
End fresh.

(** ** The life of a capability

    One step is one call of the module, or the end of a
    [withFreshPomRxPolicyCapability]; calls nest and interleave freely. *)

Section lifecycle.
Context `{SH : !StringHost, DH : !DateHost, BH : !ByteHashHost} (files : jsstr -> option (list N)).

Inductive cap_step (w : world) : world -> Prop :=
  | step_enter config r :
      fresh_state files config true = Ok r ->
      cap_step w {| capabilities := capabilities w ++ [r]; bindings := bindings w |}
  | step_exit c : cap_step w (set_cap w c deactivate)
  | step_bind capability selected measured :
      cap_step w (bindFreshPomRxPolicyCapability w capability selected measured).2
  | step_consume binding : cap_step w (consumeFreshPomRxPolicyBinding w binding).2.

Definition cap_reachable (w : world) : Prop :=
  rtc cap_step {| capabilities := []; bindings := [] |} w.

(** What never changes of a capability, and what only goes one way. *)
Record cap_later (r r' : cap_record) : Prop := {
  cl_policy : cap_policy r' = cap_policy r;
  cl_time : evaluationTimeMs r' = evaluationTimeMs r;
  cl_active : cap_active r' = true -> cap_active r = true;
  cl_used : cap_used r = true -> cap_used r' = true;
}.
Record binding_later (b b' : binding_record) : Prop := {
  bl_capability : b_capability b' = b_capability b;
  bl_value : b_value b' = b_value b;
  bl_used : b_used b = true -> b_used b' = true;
}.
#[local] Hint Constructors cap_later binding_later : core.

Record world_later (w w' : world) : Prop := {
  wl_capabilities c r : capabilities w !! c = Some r ->
    exists r', capabilities w' !! c = Some r' /\ cap_later r r';
  wl_bindings b r : bindings w !! b = Some r ->
    exists r', bindings w' !! b = Some r' /\ binding_later r r';
}.

#[local] Instance cap_later_preorder : PreOrder cap_later.
Proof.
  split; [by constructor|]. intros x y z [P1 T1 A1 U1] [P2 T2 A2 U2].
  split; [congruence|congruence|auto|auto].
Qed.
#[local] Instance binding_later_preorder : PreOrder binding_later.
Proof.
  split; [by constructor|]. intros x y z [P1 T1 U1] [P2 T2 U2].
  split; [congruence|congruence|auto].
Qed.
#[local] Instance world_later_preorder : PreOrder world_later.
Proof.
  split; [split; eauto|]. intros x y z [C1 B1] [C2 B2]. split.
  - intros c r (r' & H & ?)%C1. apply C2 in H as (r'' & ? & ?). exists r''.
    split; [done|]. by etrans.
  - intros c r (r' & H & ?)%B1. apply B2 in H as (r'' & ? & ?). exists r''.
    split; [done|]. by etrans.
Qed.

Lemma set_cap_lookup w c f d :
  capabilities (set_cap w c f) !! d =
    (if decide (c = d) then f <$> capabilities w !! d else capabilities w !! d).
Proof.
  simpl. destruct (decide (c = d)) as [->|]; [by rewrite list_lookup_alter_eq|].
  by rewrite list_lookup_alter_ne.
Qed.

Lemma set_cap_later w c f : (forall r, cap_later r (f r)) -> world_later w (set_cap w c f).
Proof.
  intros Hf. split; [|by eauto]. intros d r Hd. rewrite set_cap_lookup, Hd.
  destruct (decide _); simpl; eauto.
Qed.

Lemma mark_used_later r : cap_later r (mark_used r).
Proof. by destruct r; constructor. Qed.
Lemma deactivate_later r : cap_later r (deactivate r).
Proof. by destruct r; constructor. Qed.

Lemma step_later w w' : cap_step w w' -> world_later w w'.
Proof.
  destruct 1 as [config r _|c|capability selected measured|binding].
  - split; simpl; [|by eauto]. intros c r' Hc. exists r'.
    split; [by apply lookup_app_l_Some|done].
  - apply set_cap_later, deactivate_later.
  - unfold bindFreshPomRxPolicyCapability. destruct (fresh_capability _ _) as [[c r]|]; [|done].
    pose proof (set_cap_later w c mark_used mark_used_later) as Hl.
    destruct (decide_binding _ _ _) as [v|]; [|done]. etrans; [exact Hl|].
    split; simpl; [by eauto|]. intros b r' Hb. exists r'. split; [by apply lookup_app_l_Some|done].
  - unfold consumeFreshPomRxPolicyBinding.
    destruct (b ← binding; r ← bindings w !! b; Some (b, r)) as [[b r]|]; [|done].
    destruct (_ || _); [done|]. split; simpl; [by eauto|]. intros d r' Hd.
    destruct (decide (b = d)) as [->|].
    + rewrite list_lookup_alter_eq, Hd. simpl. eexists. split; [done|]. by destruct r'; constructor.
    + rewrite list_lookup_alter_ne by done. by exists r'.
Qed.

Lemma steps_later w w' : rtc cap_step w w' -> world_later w w'.
Proof. induction 1 as [|x y z ?%step_later _ ?]; [done|]. by etrans. Qed.

(** What the policy of a capability allows. *)
Record decided (r : cap_record) (v : policy_binding) : Prop := {
  de_accepted : selected_verifier v ∈ accepted_verifiers (cap_policy r);
  de_runtime : execution_environment v = (selected_verifier v).2;
  de_withdrawn : Forall (fun e => wd_tuple e = (selected_verifier v).1 ->
    evaluationTimeMs r < effectiveAtMs e) (withdrawn_verifiers (cap_policy r));
  de_policy : effective_policy_id v = policy_id (cap_policy r) /\
    effective_policy_version v = policy_version (cap_policy r) /\
    effective_policy_sha256 v = policy_sha256 (cap_policy r);
}.

Lemma decide_binding_decided r selected measured v :
  decide_binding r selected measured = Ok v ->
  decided r v /\ validateTuple selected = Ok (selected_verifier v).1 /\
  validateRuntimeConstraints measured "POMRX_V01_E_RUNTIME_ENVIRONMENT_UNSUPPORTED"
    = Ok (execution_environment v).
Proof.
  unfold decide_binding. intros (tuple & Ht & H)%bind_Ok.
  apply bind_Ok in H as (env & He & H). apply guard_bind_Ok in H as [Hw H].
  apply bind_Ok in H as (accepted & Ha & H). apply guard_bind_Ok in H as [Hr [= <-]].
  apply bool_decide_eq_true in Hr. apply negb_true_iff in Hw. simpl.
  destruct (List.find _ _) as [a|] eqn:E; [|done]. injection Ha as ->.
  apply find_some in E as [Hin Heq%bool_decide_eq_true].
  split; [|by rewrite Heq]. split; simpl.
  - by apply list_elem_of_In.
  - done.
  - apply Forall_forall. intros e Hine Hwd. apply Z.nle_gt. intros Hle.
    assert (existsb (fun e => bool_decide (wd_tuple e = tuple) &&
      (effectiveAtMs e <=? evaluationTimeMs r)) (withdrawn_verifiers (cap_policy r)) = true);
      [|congruence].
    apply existsb_exists. exists e. split; [by apply list_elem_of_In|].
    rewrite bool_decide_true by congruence. by apply Z.leb_le.
  - done.
Qed.

Lemma decided_later r r' v : cap_later r r' -> decided r v -> decided r' v.
Proof. intros [Hp Ht _ _] [? ? ? ?]. split; rewrite ?Hp, ?Ht; done. Qed.

(** Every binding is the one decision of its capability. *)
Record world_inv (w : world) : Prop := {
  wi_decided b r : bindings w !! b = Some r ->
    exists c, capabilities w !! b_capability r = Some c /\ cap_used c = true /\
      decided c (b_value r);
  wi_single : NoDup (b_capability <$> bindings w);
}.

Lemma world_inv_later w w' :
  world_later w w' -> bindings w' = bindings w -> world_inv w -> world_inv w'.
Proof.
  intros [Hc _] E [Hd Hs]. split; rewrite E; [|done]. intros b r Hb.
  destruct (Hd b r Hb) as (c & (c' & ? & Hl)%Hc & Hu & ?). exists c'.
  split; [done|]. split; [by apply (cl_used _ _ Hl)|by eapply decided_later].
Qed.

Lemma fresh_capability_Ok w capability c r :
  fresh_capability w capability = Ok (c, r) <->
  capability = Some c /\ capabilities w !! c = Some r /\ cap_active r = true /\ cap_used r = false.
Proof.
  unfold fresh_capability. destruct capability as [c'|]; [|by split; [|intros []]]. simpl.
  destruct (capabilities w !! c') as [r'|] eqn:E; simpl.
  - rewrite guard_bind_Ok, andb_true_iff, negb_true_iff. split.
    + intros (? & [= -> ->]). done.
    + intros ([= ->] & Hc & ?). rewrite E in Hc. by injection Hc as ->.
  - split; [done|]. intros ([= ->] & Hc & _). congruence.
Qed.

Lemma step_inv w w' : cap_step w w' -> world_inv w -> world_inv w'.
Proof.
  intros Hstep. pose proof (step_later _ _ Hstep) as Hl. revert Hl.
  destruct Hstep as [config r _|c|capability selected measured|binding]; intros Hl Hi.
  - by eapply world_inv_later.
  - by eapply world_inv_later.
  - revert Hl. unfold bindFreshPomRxPolicyCapability.
    destruct (fresh_capability w capability) as [[c r]|] eqn:Ef; [|done].
    apply fresh_capability_Ok in Ef as (-> & Hc & Ha & Hu).
    destruct (decide_binding _ _ _) as [v|] eqn:Ed; intros Hl; [|by eapply world_inv_later].
    apply decide_binding_decided in Ed as [Hdec _].
    assert (world_inv (set_cap w c mark_used)) as [Hd Hs].
    { eapply world_inv_later; [apply (set_cap_later w c mark_used), mark_used_later|done|done]. }
    assert (capabilities (set_cap w c mark_used) !! c = Some (mark_used r)) as Hc'.
    { rewrite set_cap_lookup, decide_True, Hc; done. }
    split; simpl.
    + intros b r' Hb. apply lookup_app_Some in Hb as [Hb|[_ Hb]]; [by apply (Hd b)|].
      apply list_lookup_singleton_Some in Hb as [_ <-]. exists (mark_used r).
      split; [done|]. split; [done|]. by eapply decided_later, Hdec; apply mark_used_later.
    + rewrite fmap_app. apply NoDup_app. split; [done|]. split; [|by apply NoDup_singleton].
      intros x (b & -> & [i Hi']%list_elem_of_lookup)%list_elem_of_fmap Hx.
      apply list_elem_of_singleton in Hx. simpl in Hx.
      destruct (wi_decided _ Hi i b Hi') as (c' & Hcb & Hub & _).
      rewrite Hx, Hc in Hcb. congruence.
  - revert Hl. unfold consumeFreshPomRxPolicyBinding.
    destruct (b ← binding; r ← bindings w !! b; Some (b, r)) as [[b r]|]; [|done].
    destruct (_ || _); [done|]. intros Hl. destruct Hi as [Hd Hs]. split; simpl.
    + intros d r' Hb. destruct (decide (b = d)) as [->|].
      * rewrite list_lookup_alter_eq in Hb.
        destruct (bindings w !! d) as [r0|] eqn:E; [|done]. injection Hb as <-. exact (Hd d r0 E).
      * rewrite list_lookup_alter_ne in Hb by done. by apply (Hd d).
    + replace (b_capability <$> alter use_binding b (bindings w)) with (b_capability <$> bindings w);
        [done|]. apply list_eq. intros i. rewrite !list_lookup_fmap.
      destruct (decide (b = i)) as [->|];
        [rewrite list_lookup_alter_eq; by destruct (bindings w !! i)|by rewrite list_lookup_alter_ne].
Qed.

Lemma reachable_world_inv w : cap_reachable w -> world_inv w.
Proof.
  intros H. unfold cap_reachable in H.
  assert (world_inv {| capabilities := []; bindings := [] |}) as H0
    by (split; [done|constructor]).
  revert H0. induction H as [|x y z Hs _ IH]; [done|]. intros Hx. eapply IH, step_inv; eauto.
Qed.

(** ** Properties *)

(** A capability that is used up or deactivated is refused everywhere. *)
Definition refused (w : world) (c : nat) : Prop :=
  exists e, err_code e = js "POMRX_V01_E_POLICY_CAPABILITY_STALE" /\
  inspectFreshPomRxPolicyCapabilityHostPins w (Some c) = Throw e /\
  forall selected measured,
    bindFreshPomRxPolicyCapability w (Some c) selected measured = (Throw e, w).

Lemma refused_intro w c r :
  capabilities w !! c = Some r -> cap_active r = false \/ cap_used r = true -> refused w c.
Proof.
  intros Hc Hr.
  assert (fresh_capability w (Some c) =
    Throw (capability_stale "Policy capability is stale, reused or invalidated")) as Hf.
  { unfold fresh_capability. simpl. rewrite Hc. simpl.
    destruct Hr as [-> | ->]; [done|by rewrite andb_false_r]. }
  eexists. split; [|split].
  2:{ unfold inspectFreshPomRxPolicyCapabilityHostPins. by rewrite Hf. }
  - done.
  - intros selected measured. unfold bindFreshPomRxPolicyCapability. by rewrite Hf.
Qed.

(** C33: in every reachable state a binding that can be consumed belongs to an
    active capability and is a decision its policy allows: an accepted verifier
    on exactly the accepted runtime, not withdrawn at the evaluation instant;
    and once consumed it is refused for ever. *)
Theorem consumeFreshPomRxPolicyBinding_sound w b v w' :
  cap_reachable w -> consumeFreshPomRxPolicyBinding w (Some b) = (Ok v, w') ->
  (exists c r, capabilities w !! c = Some r /\ cap_active r = true /\ decided r v) /\
  forall w'', rtc cap_step w' w'' ->
    consumeFreshPomRxPolicyBinding w'' (Some b) =
    (Throw (capability_stale "Policy binding is stale, reused or invalidated"), w'').
Proof.
  intros Hi%reachable_world_inv. unfold consumeFreshPomRxPolicyBinding at 1. simpl.
  destruct (bindings w !! b) as [r|] eqn:Hb; [|done]. simpl.
  destruct (wi_decided _ Hi b r Hb) as (c & Hc & _ & Hd). rewrite Hc.
  destruct (negb (cap_active c) || b_used r) eqn:E; [done|]. intros [= <- <-].
  apply orb_false_iff in E as [Ha%negb_false_iff _]. split; [by exists (b_capability r), c|].
  intros w'' Hl%steps_later.
  assert (alter use_binding b (bindings w) !! b = Some (use_binding r)) as Hb'
    by (by rewrite list_lookup_alter_eq, Hb).
  destruct (wl_bindings _ _ Hl b _ Hb') as (r' & Hr' & Hlat).
  unfold consumeFreshPomRxPolicyBinding. simpl. rewrite Hr'. simpl.
  by rewrite (bl_used _ _ Hlat), orb_true_r by done.
Qed.

(** a capability gives at most one binding: a call of bind that finds it
    fresh uses it up, whether the policy accepts or rejects, and every later
    call on it is refused. *)
Theorem bindFreshPomRxPolicyCapability_once w c selected measured out :
  cap_reachable w ->
  (exists r, fresh_capability w (Some c) = Ok (c, r)) ->
  bindFreshPomRxPolicyCapability w (Some c) selected measured = out ->
  (match out.1 with
   | Ok b => b = length (bindings w) /\ c ∉ (b_capability <$> bindings w)
   | Throw _ => bindings out.2 = bindings w
   end) /\
  forall w'', rtc cap_step out.2 w'' -> refused w'' c.
Proof.
  intros Hi%reachable_world_inv [r Hf] <-. unfold bindFreshPomRxPolicyCapability.
  rewrite Hf. apply fresh_capability_Ok in Hf as (_ & Hc & Ha & Hu).
  assert (forall bs w'', rtc cap_step {| capabilities := capabilities (set_cap w c mark_used);
      bindings := bs |} w'' -> refused w'' c) as Hlater.
  { intros bs w'' Hl%steps_later. destruct (wl_capabilities _ _ Hl c (mark_used r)) as (r' & ? & Hr').
    { cbn [capabilities]. rewrite set_cap_lookup, decide_True, Hc; done. }
    eapply refused_intro; [done|]. right. by apply (cl_used _ _ Hr'). }
  destruct (decide_binding r selected measured) as [v|e]; simpl.
  - split; [|apply Hlater]. split; [done|].
    intros (b & E & [i Hb]%list_elem_of_lookup)%list_elem_of_fmap.
    destruct (wi_decided _ Hi i b Hb) as (c' & Hc' & Hu' & _). congruence.
  - split; [done|]. apply (Hlater (bindings w)).
Qed.

(** the capability of a [withFreshPomRxPolicyCapability] dies with it: when
    the call returns or throws after its callback ran, whatever module calls the
    callback made, the capability and every binding made from it are refused
    from then on. *)
Theorem withFreshPomRxPolicyCapability_expires {A} config
    (callback : nat -> world -> res (A * bool) * world) w r result w' w'' b :
  fresh_state files config true = Ok r ->
  (forall c w, rtc cap_step w (callback c w).2) ->
  withFreshPomRxPolicyCapability files config (Some callback) w = (result, w') ->
  rtc cap_step w' w'' ->
  let c := length (capabilities w) in
  refused w'' c /\
  (b_capability <$> bindings w'' !! b = Some c ->
   exists e, consumeFreshPomRxPolicyBinding w'' (Some b) = (Throw e, w'')).
Proof.
  intros Hr Hcb. unfold withFreshPomRxPolicyCapability. rewrite bool_decide_true by by eexists.
  rewrite Hr. specialize (Hcb (length (capabilities w))
    {| capabilities := capabilities w ++ [r]; bindings := bindings w |}).
  destruct (callback _ _) as [res w1]. simpl in Hcb. intros [= _ <-] Hl%steps_later.
  destruct (wl_capabilities _ _ (steps_later _ _ Hcb) (length (capabilities w)) r) as (r1 & Hr1 & _).
  { by apply list_lookup_middle. }
  destruct (wl_capabilities _ _ Hl (length (capabilities w)) (deactivate r1)) as (r2 & Hr2 & Hlat).
  { by rewrite set_cap_lookup, decide_True, Hr1. }
  assert (cap_active r2 = false) as Ha.
  { destruct (cap_active r2) eqn:E; [|done]. by apply (cl_active _ _ Hlat) in E. }
  split; [eapply refused_intro; eauto|]. intros Hb.
  destruct (bindings w'' !! b) as [rb|] eqn:Eb; [|done]. injection Hb as Hb.
  unfold consumeFreshPomRxPolicyBinding. simpl. rewrite Eb. simpl. rewrite Hb, Hr2, Ha. simpl.
  by eexists.
Qed.

(** with a validated policy the decision is exact: it is reached exactly for
    a well-formed tuple and runtime that the policy lists together and of which
    no withdrawal is in effect at the evaluation instant. *)
Theorem decide_binding_iff r selected measured v :
  NoDup (accepted_verifiers (cap_policy r)).*1 ->
  decide_binding r selected measured = Ok v <->
  exists tuple env,
    validateTuple selected = Ok tuple /\
    validateRuntimeConstraints measured "POMRX_V01_E_RUNTIME_ENVIRONMENT_UNSUPPORTED" = Ok env /\
    (tuple, env) ∈ accepted_verifiers (cap_policy r) /\
    Forall (fun e => wd_tuple e = tuple -> evaluationTimeMs r < effectiveAtMs e)
      (withdrawn_verifiers (cap_policy r)) /\
    v = {| effective_policy_id := policy_id (cap_policy r);
           effective_policy_version := policy_version (cap_policy r);
           effective_policy_sha256 := policy_sha256 (cap_policy r);
           trusted_evaluation_instant := cap_instant r;
           artifact_manifest_path := artifactManifestPath r;
           expected_artifact_manifest_sha256 := expectedArtifactManifestSha256 r;
           selected_verifier := (tuple, env); execution_environment := env |}.
Proof.
  intros Hn. split.
  - intros H. pose proof (decide_binding_decided _ _ _ _ H) as ([Ha Hr Hw _] & Ht & He).
    exists (selected_verifier v).1, (execution_environment v).
    assert (((selected_verifier v).1, execution_environment v) = selected_verifier v) as Ev
      by (rewrite Hr; by destruct (selected_verifier v)).
    rewrite Ev. split; [done|]. split; [done|]. split; [done|]. split; [done|].
    unfold decide_binding in H. apply bind_Ok in H as (? & _ & H). apply bind_Ok in H as (? & _ & H).
    apply guard_bind_Ok in H as [_ H]. apply bind_Ok in H as (? & _ & H).
    apply guard_bind_Ok in H as [_ [= <-]]. simpl in *. congruence.
  - intros (tuple & env & Ht & He & Hin & Hw & ->). unfold decide_binding.
    rewrite Ht. cbn [mbind res_bind]. rewrite He. cbn [mbind res_bind].
    assert (existsb (fun e => bool_decide (wd_tuple e = tuple) &&
      (effectiveAtMs e <=? evaluationTimeMs r)) (withdrawn_verifiers (cap_policy r)) = false) as ->.
    { apply not_true_iff_false. intros (e & Hi & [Hd%bool_decide_eq_true Hle%Z.leb_le]%andb_true_iff)%existsb_exists.
      rewrite Forall_forall in Hw. specialize (Hw e). apply list_elem_of_In in Hi. specialize (Hw Hi Hd). lia. }
    cbn [negb guard_or mbind res_bind].
    assert (List.find (fun e => bool_decide (e.1 = tuple)) (accepted_verifiers (cap_policy r))
      = Some (tuple, env)) as ->.
    { destruct (List.find _ _) as [[t e]|] eqn:E.
      - apply find_some in E as [Hi Ht'%bool_decide_eq_true]. simpl in Ht'. subst t.
        apply list_elem_of_In in Hi. do 2 f_equal.
        apply list_elem_of_lookup in Hi as [i Hi], Hin as [j Hj].
        assert (i = j) as ->; [|congruence].
        apply (NoDup_lookup _ _ _ tuple Hn); rewrite list_lookup_fmap; [by rewrite Hi|by rewrite Hj].
      - apply list_elem_of_In in Hin. pose proof (find_none _ _ E _ Hin) as H. simpl in H.
        by rewrite bool_decide_true in H. }
    cbn [mbind res_bind snd]. by rewrite bool_decide_true.
Qed.
End lifecycle.

(** ** A concrete policy *)

Section capability_witness.
#[local] Existing Instances plain_string_host iso_date_host checksum_bytes_host.

Definition sample_runtime_value : jsv := VObj PObject ((fun k => (k, VStr (js "v1"))) <$> RUNTIME_KEYS).
Definition sample_tuple_value : jsv := VObj PObject
  [(js "receipt_schema_version", VStr (js "pom-rx/0.1"));
   (js "verifier_profile", VStr (js "pom-rx-v0.1/strict-errata-1"));
   (js "verifier_version", VStr (js "pom-rx-v0.1-strict-verifier/1"));
   (js "implementation_artifact_sha256", VStr (repeat 97%N 64))].
Definition sample_policy_value : jsv := VObj PObject
  [(js "policy_schema_version", VStr (js "pom-rx-local-verification-policy/1"));
   (js "policy_id", VStr (js "policy-one")); (js "policy_version", VStr (js "1"));
   (js "accepted_verifiers", VArr [match sample_tuple_value with
      | VObj p l => VObj p (l ++ [(js "runtime_constraints", sample_runtime_value)])
      | v => v
      end]);
   (js "withdrawn_verifiers", VArr [])].
Definition sample_policy_bytes : list N :=
  Eval vm_compute in match json_stringify sample_policy_value with Ok (Some t) => t | _ => [] end.
Definition sample_files (path : jsstr) : option (list N) :=
  if str_eqb path (js "/policy.json") then Some sample_policy_bytes else None.
Definition sample_config : jsv := VObj PObject
  [(js "policyPath", VStr (js "/policy.json"));
   (js "expectedPolicySha256", VStr (sha256_bytes sample_policy_bytes));
   (js "trustedEvaluationInstant", VStr (js "2026-03-01T00:00:00.000Z"));
   (js "artifactManifestPath", VStr (js "/manifest.json"));
   (js "expectedArtifactManifestSha256", VStr (repeat 98%N 64))].

Definition sample_cap : cap_record :=
  Eval vm_compute in
    match fresh_state sample_files sample_config true with
    | Ok r => r
    | Throw _ => Build_cap_record false false 0 [] (Build_policy [] [] [] [] []) [] VNull
    end.
Lemma sample_cap_ok : fresh_state sample_files sample_config true = Ok sample_cap.
Proof. vm_compute. reflexivity. Qed.

Definition sample_world : world := {| capabilities := [sample_cap]; bindings := [] |}.
Definition bound_world : world :=
  (bindFreshPomRxPolicyCapability sample_world (Some 0%nat) sample_tuple_value
     sample_runtime_value).2.

Lemma sample_world_reachable : cap_reachable sample_files sample_world.
Proof.
  eapply rtc_once, (step_enter sample_files {| capabilities := []; bindings := [] |} sample_config).
  apply sample_cap_ok.
Qed.

Lemma bound_world_reachable : cap_reachable sample_files bound_world.
Proof. eapply rtc_r; [apply sample_world_reachable|]. apply step_bind. Qed.

Lemma bindFreshPomRxPolicyCapability_once_witness : refused bound_world 0%nat.
Proof.
  apply (bindFreshPomRxPolicyCapability_once sample_files sample_world 0%nat sample_tuple_value
           sample_runtime_value _ sample_world_reachable
           (ex_intro _ sample_cap eq_refl) eq_refl), rtc_refl.
Defined.

Definition bound_value : option policy_binding :=
  Eval vm_compute in b_value <$> bindings bound_world !! 0%nat.

Lemma consumeFreshPomRxPolicyBinding_sound_witness :
  exists v w', bound_value = Some v /\
    consumeFreshPomRxPolicyBinding bound_world (Some 0%nat) = (Ok v, w') /\
    consumeFreshPomRxPolicyBinding w' (Some 0%nat) =
      (Throw (capability_stale "Policy binding is stale, reused or invalidated"), w').
Proof.
  eexists _, _. split; [reflexivity|]. split; [vm_compute; reflexivity|].
  eapply (consumeFreshPomRxPolicyBinding_sound sample_files bound_world 0%nat);
    [apply bound_world_reachable|vm_compute; reflexivity|apply rtc_refl].
Defined.

Definition sample_callback (c : nat) (w : world) : res (nat * bool) * world :=
  let '(b, w) := bindFreshPomRxPolicyCapability w (Some c) sample_tuple_value
                   sample_runtime_value in
  (b ← b; Ok (b, false), w).

Definition sample_run : res nat * world :=
  withFreshPomRxPolicyCapability sample_files sample_config (Some sample_callback)
    {| capabilities := []; bindings := [] |}.

Lemma withFreshPomRxPolicyCapability_expires_witness : refused sample_run.2 0%nat.
Proof.
  apply (withFreshPomRxPolicyCapability_expires sample_files sample_config sample_callback
           {| capabilities := []; bindings := [] |} sample_cap sample_run.1 sample_run.2
           sample_run.2 0%nat sample_cap_ok).
  - intros c w. unfold sample_callback.
    pose proof (step_bind sample_files w (Some c) sample_tuple_value sample_runtime_value) as H.
    destruct (bindFreshPomRxPolicyCapability _ _ _ _) as [b w']. by apply rtc_once.
  - by unfold sample_run; destruct (withFreshPomRxPolicyCapability _ _ _ _).
  - apply rtc_refl.
Defined.

Lemma decide_binding_iff_witness :
  exists v, decide_binding sample_cap sample_tuple_value sample_runtime_value = Ok v.
Proof.
  eexists. apply (decide_binding_iff sample_cap); [decide_now|].
  eexists _, _. split; [vm_compute; reflexivity|]. split; [vm_compute; reflexivity|].
  split; [decide_now|]. split; [constructor|reflexivity].
Defined.
End capability_witness.
