(* ===== verification/ProfiledVerifier.v ===== *)
(** * The profiled verifier

    Models [core/strict-verification/pom-rx-v01-profiled-verifier.mjs]: the
    strict verification of a receipt chain under a policy capability.  The
    verification of the installed artifact ([pom-rx-v01-artifact-identity.mjs])
    is the interface [ArtifactVerifier]; the measured runtime, the platform and
    the two canary files are arguments. *)
From S2P Require Import Prelude JsDate JsValue ProofSdk Json Receipt PomRx Diagnostics StrictChecks Verdict ExactJson PolicyCapability.

#[local] Arguments js : simpl never.

Definition POM_RX_V01_STRICT_PROFILE : jsstr := js "pom-rx-v0.1/strict-errata-1".
Definition POM_RX_V01_STRICT_VERIFIER_VERSION : jsstr := js "pom-rx-v0.1-strict-verifier/1".

(** The JSON text [[a,b,c]] of three ASCII strings. *)
Definition canary_text (a b c : string) : jsstr :=
  [91; 34]%N ++ js a ++ [34; 44; 34]%N ++ js b ++ [34; 44; 34]%N ++ js c ++ [34; 93]%N.
Definition CANARY_INPUT_BYTES : list N := canary_text "a-a" "a.a" "a_a".
Definition CANARY_EXPECTED_BYTES : list N := canary_text "a_a" "a-a" "a.a".

(** What [verifyPomRxArtifactIdentity] returns, and promises: one digest,
    expected and observed. *)
Record artifact_identity := {
  artifact_verifier_version : jsstr;
  artifact_implementation : jsstr;
  artifact_expected : jsstr;
  artifact_observed : jsstr;
}.
Class ArtifactVerifier := {
  verifyPomRxArtifactIdentity : jsstr -> jsv -> res artifact_identity;
  artifact_error path pin e : verifyPomRxArtifactIdentity path pin = Throw e ->
    err_cls e = StrictErr ->
    err_code e = js "POMRX_V01_E_ARTIFACT_MANIFEST_INVALID" \/
    err_code e = js "POMRX_V01_E_IMPLEMENTATION_ARTIFACT_MISMATCH";
  artifact_digest path pin a : verifyPomRxArtifactIdentity path pin = Ok a ->
    hash_pattern (artifact_implementation a) = true /\
    artifact_expected a = artifact_implementation a /\
    artifact_observed a = artifact_implementation a;
}.

(** ** Diagnostics *)

(** [s.trim()] *)
Fixpoint trim_start (s : jsstr) : jsstr :=
  match s with c :: s' => if is_js_space c then trim_start s' else s | [] => [] end.
Definition trim (s : jsstr) : jsstr := reverse (trim_start (reverse (trim_start s))).

Definition safeMessage (value fallback : jsstr) : jsstr :=
  let sanitized := take (Z.to_nat 2048)
    (trim ((fun c => if is_control c then 32%N else c) <$> value)) in
  match sanitized with [] => fallback | _ => sanitized end.

(** [diagnostic(code, message, details)]; [VUndef] for a detail left out. *)
Definition diagnostic_at (code : jsstr) (message : jsstr) (phase index field : jsv)
  : res diagnostic :=
  makePomRxV01Diagnostic
    {| in_defect := VUndef; in_code := VStr code; in_severity := VUndef;
       in_phase := or_null phase; in_index := or_null index; in_field := or_null field;
       in_message := VStr (safeMessage message (js "POM-RX strict verification failed")) |}.
Definition plain_diagnostic (code : string) (message : string) : res diagnostic :=
  diagnostic_at (js code) (js message) VUndef VUndef VUndef.

Definition diagnosticFromError (e : jserr) : res diagnostic :=
  let code :=
    if bool_decide (err_cls e = StrictErr)
       && negb (str_eqb (err_code e) (js "POMRX_V01_E_PROFILE_INCOMPLETE"))
    then err_code e else js "POMRX_V01_E_INTERNAL_VERIFIER_ERROR" in
  diagnostic_at code (err_msg e) VUndef VUndef VUndef.

(** ** Options *)

(** [Some d]: the options are rejected with the diagnostic [d]. *)
Definition validateOptions (options : jsv) : res (option diagnostic) :=
  let reject code message := Some <$> plain_diagnostic code message in
  let profile := get (js "verificationProfile") options in
  if negb (is_record options) then
    reject "POMRX_V01_E_PROFILE_REQUIRED" "verificationProfile is required"
  else if existsb (fun key => negb (mem_str key [js "allowPartial"; js "verificationProfile"]))
            (keys_of options) then
    reject "POMRX_V01_E_PROFILE_UNSUPPORTED" "Strict verification options contain unknown fields"
  else if negb (mem_str (js "verificationProfile") (keys_of options)) then
    reject "POMRX_V01_E_PROFILE_REQUIRED" "verificationProfile is required"
  else if is_str profile POM_RX_SCHEMA_VERSION || is_str profile (js "legacy") then
    reject "POMRX_V01_E_DOWNGRADE_FORBIDDEN"
      "Legacy verification cannot be selected through the strict API"
  else if negb (is_str profile POM_RX_V01_STRICT_PROFILE) then
    reject "POMRX_V01_E_PROFILE_UNSUPPORTED" "verificationProfile is unsupported"
  else if mem_str (js "allowPartial") (keys_of options)
          && match get (js "allowPartial") options with VBool _ => false | _ => true end then
    reject "POMRX_V01_E_PROFILE_UNSUPPORTED" "allowPartial must be boolean"
  else Ok None.

Definition allow_partial (options : jsv) : bool :=
  match get (js "allowPartial") options with VBool b => b | _ => false end.

(** ** Binding the verifier *)

Record verifier_binding := {
  vb_profile : jsstr; vb_version : jsstr; vb_implementation : jsstr; vb_expected : jsstr;
  vb_observed : jsstr; vb_environment : runtime; vb_policy_id : jsstr; vb_policy_version : jsstr;
  vb_policy_sha256 : jsstr;
}.

(** What the process is made of: the platform, the measured runtime and the
    contents of the two canary files, where they can be read. *)
Record process_host := {
  platform : jsstr;
  measured_runtime : jsv;
  canary_input : option (list N);
  canary_expected : option (list N);
}.

Section verifier.
Context `{SH : !StringHost, HH : !HashHost, DH : !DateHost, AV : !ArtifactVerifier}.

Definition unsupported_runtime (msg : string) : jserr :=
  strict_error "POMRX_V01_E_RUNTIME_ENVIRONMENT_UNSUPPORTED" (js msg).

Definition strings_of (v : jsv) : option (list jsstr) :=
  match v with
  | VArr l => mapM (fun x => match x with VStr s => Some s | _ => None end) l
  | _ => None
  end.

Definition runRuntimeCanary (host : process_host) : res unit :=
  _ ← guard_or (negb (str_eqb (platform host) (js "win32")))
        (unsupported_runtime
           "Production strict artifact metadata verification is not enabled on Windows");
  '(inputBytes, expectedBytes) ← match canary_input host, canary_expected host with
    | Some i, Some e => Ok (i, e)
    | _, _ => Throw (unsupported_runtime "Frozen canonicalization canary cannot be read")
    end;
  _ ← guard_or (bool_decide (inputBytes = CANARY_INPUT_BYTES)
                && bool_decide (expectedBytes = CANARY_EXPECTED_BYTES))
        (unsupported_runtime
           "Frozen canonicalization canary bytes differ from the strict verifier contract");
  input ← match (text ← utf8_decode inputBytes; json_parse text) with
    | Some v => Ok v
    | None => Throw (unsupported_runtime "Frozen canonicalization canary is malformed")
    end;
  strings ← match strings_of input with
    | Some l => Ok l
    | None => Throw (unsupported_runtime "Frozen canonicalization canary shape is invalid")
    end;
  observed ← json_stringify (strings_value (sort_by locale_leb strings));
  guard_or (bool_decide (observed = Some CANARY_EXPECTED_BYTES))
    (unsupported_runtime
       "Runtime canonicalization canary does not reproduce the frozen v0.1 ordering").

Definition selected_tuple (artifact : jsstr) : jsv := VObj PObject
  [(js "receipt_schema_version", VStr POM_RX_SCHEMA_VERSION);
   (js "verifier_profile", VStr POM_RX_V01_STRICT_PROFILE);
   (js "verifier_version", VStr POM_RX_V01_STRICT_VERIFIER_VERSION);
   (js "implementation_artifact_sha256", VStr artifact)].

(** The checks before the capability is used: the artifact. *)
Definition measure_artifact (host : process_host) (w : world) (capability : option nat)
  : res artifact_identity :=
  _ ← runRuntimeCanary host;
  '(manifest, pin) ← inspectFreshPomRxPolicyCapabilityHostPins w capability;
  artifact ← verifyPomRxArtifactIdentity manifest pin;
  _ ← guard_or (str_eqb (artifact_verifier_version artifact) POM_RX_V01_STRICT_VERIFIER_VERSION)
        (strict_error "POMRX_V01_E_IMPLEMENTATION_ARTIFACT_MISMATCH"
           (js "Artifact manifest verifier version does not match the active strict verifier"));
  Ok artifact.

Definition bindVerifier (host : process_host) (w : world) (capability : option nat)
  : res verifier_binding * world :=
  match measure_artifact host w capability with
  | Throw e => (Throw e, w)
  | Ok artifact =>
      let '(bound, w) := bindFreshPomRxPolicyCapability w capability
          (selected_tuple (artifact_implementation artifact)) (measured_runtime host) in
      match bound with
      | Throw e => (Throw e, w)
      | Ok b =>
          let '(policy, w) := consumeFreshPomRxPolicyBinding w (Some b) in
          (policy ← policy;
           _ ← guard_or (str_eqb
                   (t_implementation_artifact_sha256 (selected_verifier policy).1)
                   (artifact_implementation artifact))
                 (strict_error "POMRX_V01_E_IMPLEMENTATION_ARTIFACT_MISMATCH"
                    (js "Policy-selected artifact identity differs from the measured implementation"));
           Ok {| vb_profile := POM_RX_V01_STRICT_PROFILE;
                 vb_version := POM_RX_V01_STRICT_VERIFIER_VERSION;
                 vb_implementation := artifact_implementation artifact;
                 vb_expected := artifact_expected artifact;
                 vb_observed := artifact_observed artifact;
                 vb_environment := execution_environment policy;
                 vb_policy_id := effective_policy_id policy;
                 vb_policy_version := effective_policy_version policy;
                 vb_policy_sha256 := effective_policy_sha256 policy |}, w)
      end
  end.

(** ** Receipts *)

(** The committed receipts, or the diagnostics of the first that fails. *)
Fixpoint commit_from (index : Z) (receipts : list jsv) : res (list committed + list diagnostic) :=
  match receipts with
  | [] => Ok (inl [])
  | receipt :: rest =>
      match commitPomRxReceipt receipt with
      | Throw e =>
          d ← diagnostic_at (js "POMRX_V01_E_SCHEMA_INVALID") (err_msg e) VUndef
                (VNum (NInt index)) VUndef;
          Ok (inr [d])
      | Ok c =>
          r ← commit_from (index + 1) rest;
          Ok match r with inl cs => inl (c :: cs) | inr ds => inr ds end
      end
  end.

Definition commitStrictReceipts (receipts : jsv) : res (list committed + list diagnostic) :=
  match receipts with
  | VArr items =>
      if (1 <=? length items)%nat && (length items <=? length PHASES)%nat
      then commit_from 0 items
      else d ← plain_diagnostic "POMRX_V01_E_SCHEMA_INVALID"
                 "A strict POM-RX chain requires between one and three receipts"; Ok (inr [d])
  | _ => d ← plain_diagnostic "POMRX_V01_E_SCHEMA_INVALID"
               "A strict POM-RX chain requires between one and three receipts"; Ok (inr [d])
  end.

(** A diagnostic of the base chain before it is made. *)
Record finding := {
  f_code : string; f_message : string; f_phase : phase; f_index : Z; f_field : option string;
}.

Definition make_finding (f : finding) : res diagnostic :=
  diagnostic_at (js (f_code f)) (js (f_message f)) (VStr (phase_name (f_phase f)))
    (VNum (NInt (f_index f)))
    (match f_field f with Some s => VStr (js s) | None => VUndef end).

Definition unless (cond : bool) (f : finding) : list finding := if cond then [] else [f].

(** The body of the loop for receipt [index]. *)
Definition link_findings (first previous current : committed) (index : Z) : list finding :=
  let cur := c_receipt current in
  let prev := c_receipt previous in
  let at_ code message field :=
    {| f_code := code; f_message := message; f_phase := p_phase cur; f_index := index;
       f_field := Some field |} in
  unless (phase_index (p_phase cur) =? S (phase_index (p_phase prev)))%nat
    (at_ "POMRX_V01_E_CHAIN_PHASE_INVALID" "POM-RX phases must be contiguous and ordered" "phase")
  ++ unless (bool_decide (previous_receipt_hash cur = Some (receiptHash previous)))
    (at_ "POMRX_V01_E_RECEIPT_HASH_LINK_INVALID" "POM-RX previous_receipt_hash does not match"
       "previous_receipt_hash")
  ++ unless (str_leb (p_occurred_at prev) (p_occurred_at cur))
    (at_ "POMRX_V01_E_CHAIN_TIMESTAMP_INVALID" "POM-RX receipt time cannot move backwards"
       "occurred_at")
  ++ concat ((fun '(name, field) =>
       unless (str_eqb (field cur) (field (c_receipt first)))
         (at_ "POMRX_V01_E_CHAIN_SHARED_FIELD_CHANGED"
            (String.append name " changed within the POM-RX chain") name)) <$> sharedFields).

Fixpoint links_findings (first previous : committed) (rest : list committed) (index : Z)
  : list finding :=
  match rest with
  | [] => []
  | current :: rest' =>
      link_findings first previous current index
      ++ links_findings first current rest' (index + 1)
  end.

(** [committed.findIndex(({ receipt }) => receipt.phase === p)] *)
Definition find_index (p : phase) (chain : list committed) : option (nat * committed) :=
  list_find (fun c => p_phase (c_receipt c) = p) chain.

Definition outcome_is (c : option (nat * committed)) (o : outcome) : bool :=
  match c with Some (_, c) => bool_decide (p_outcome (c_receipt c) = o) | None => false end.

Definition base_findings (chain : list committed) (allowPartial : bool) : list finding :=
  match chain with
  | [] => []
  | first :: rest =>
      let p := p_phase (c_receipt first) in
      let o := p_outcome (c_receipt first) in
      let whole code message p index field :=
        {| f_code := code; f_message := message; f_phase := p; f_index := index;
           f_field := field |} in
      if negb (bool_decide (p = Preflight)) then
        [whole "POMRX_V01_E_CHAIN_PHASE_INVALID" "A POM-RX chain must start with preflight" p 0
           (Some "phase")]
      else
        let execution := find_index Execution chain in
        let reconciliation := find_index Reconciliation chain in
        links_findings first first rest 1
        ++ (if bool_decide (o = Deny) then
              match rest with
              | [] => []
              | second :: _ =>
                  [whole "POMRX_V01_E_CHAIN_PHASE_INVALID"
                     "A denied preflight cannot be followed by execution"
                     (p_phase (c_receipt second)) 1 (Some "phase")]
              end
            else [])
        ++ unless (negb (bool_decide (o = Allow) && negb allowPartial && (length chain <? 2)%nat))
             (whole "POMRX_V01_E_PARTIAL_CHAIN_FORBIDDEN"
                "An allowed preflight requires an execution receipt" Preflight 0 None)
        ++ unless (negb (outcome_is execution Accepted && negb allowPartial
                         && bool_decide (reconciliation = None)))
             (whole "POMRX_V01_E_PARTIAL_CHAIN_FORBIDDEN"
                "An accepted execution requires reconciliation" Execution
                (match execution with Some (i, _) => Z.of_nat i | None => -1 end) None)
        ++ match reconciliation with
           | Some (i, _) =>
               unless (negb (outcome_is execution Rejected))
                 (whole "POMRX_V01_E_CHAIN_PHASE_INVALID"
                    "A rejected execution cannot be marked as reconciled" Reconciliation
                    (Z.of_nat i) (Some "phase"))
           | None => []
           end
  end.

Definition checkBaseChain (chain : list committed) (allowPartial : bool) : res (list diagnostic) :=
  map_res make_finding (base_findings chain allowPartial).

Definition runStrictInvariants (normalizedReceipts : jsv) : res (list diagnostic) :=
  actions ← checkPomRxV01ActionContinuity normalizedReceipts;
  inputs ← checkPomRxV01InputContinuity normalizedReceipts;
  executions ← checkPomRxV01ExecutionAssertionConsistency normalizedReceipts;
  reconciliations ← checkPomRxV01ReconciliationAssertionConsistency normalizedReceipts;
  ids ← checkPomRxV01ReceiptIdUniqueness normalizedReceipts;
  Ok (actions ++ inputs ++ executions ++ reconciliations ++ ids).

(** ** The verifier *)

Definition runtime_value (r : runtime) : jsv := VObj PObject ((fun '(k, s) => (k, VStr s)) <$> r).

(** The argument of the verdict builder for a binding, if there is one. *)
Definition verdict_of (binding : option verifier_binding) (schema hashes : jsv) (status : string)
    (diagnostics : list diagnostic) : verdict_args :=
  let field (f : verifier_binding -> jsstr) := opt_value (f <$> binding) in
  {| receiptSchemaVersion := schema; receiptHashes := hashes;
     verifierProfile := field vb_profile; verifierVersion := field vb_version;
     implementationArtifactSha256 := field vb_implementation;
     expectedImplementationArtifactSha256 := field vb_expected;
     observedImplementationArtifactSha256 := field vb_observed;
     executionEnvironment := match binding with
       | Some b => runtime_value (vb_environment b)
       | None => VNull
       end;
     effectivePolicyId := field vb_policy_id; effectivePolicyVersion := field vb_policy_version;
     effectivePolicySha256 := field vb_policy_sha256; structuralStatus := VStr (js status);
     diagnostics_arg := VArr (diagnostic_value <$> diagnostics); limitations_arg := VUndef |}.

Definition indeterminate (diagnostics : list diagnostic) (binding : option verifier_binding)
  : res jsv :=
  buildPomRxV01StrictVerdict (verdict_of binding VUndef VUndef "indeterminate" diagnostics).

Definition completed (chain : list committed) (binding : verifier_binding) (status : string)
    (diagnostics : list diagnostic) : res jsv :=
  buildPomRxV01StrictVerdict
    (verdict_of (Some binding) (VStr POM_RX_SCHEMA_VERSION)
       (strings_value (PomRx.receiptHash <$> chain)) status diagnostics).

(** The verification once the verifier is bound. *)
Definition verify_bound (receipts : jsv) (allowPartial : bool) (binding : verifier_binding)
  : res jsv :=
  committedResult ← commitStrictReceipts receipts;
  match committedResult with
  | inr diagnostics => indeterminate diagnostics (Some binding)
  | inl chain =>
      baseDiagnostics ← checkBaseChain chain allowPartial;
      match baseDiagnostics with
      | _ :: _ => completed chain binding "nonconformant" baseDiagnostics
      | [] =>
          match runStrictInvariants (VArr (pom_value <$> (c_receipt <$> chain))) with
          | Throw e => d ← diagnosticFromError e; indeterminate [d] (Some binding)
          | Ok [] => completed chain binding "conformant" []
          | Ok diagnostics => completed chain binding "nonconformant" diagnostics
          end
      end
  end.

Definition verifyPomRxChainProfiled (host : process_host) (receipts options : jsv)
    (trustedPolicyCapability : option nat) (w : world) : res jsv * world :=
  match validateOptions options with
  | Throw e => (Throw e, w)
  | Ok (Some d) => (indeterminate [d] None, w)
  | Ok None =>
      let '(binding, w) := bindVerifier host w trustedPolicyCapability in
      (match binding with
       | Throw e => d ← diagnosticFromError e; indeterminate [d] None
       | Ok binding => verify_bound receipts (allow_partial options) binding
       end, w)
  end.
End verifier.

(** ** Every diagnostic can be made *)

Lemma trim_start_incl s c : c ∈ trim_start s -> c ∈ s.
Proof.
  induction s as [|x s IH]; [done|]. simpl. destruct (is_js_space x); [|done].
  intros ?%IH. by right.
Qed.

Lemma trim_incl s c : c ∈ trim s -> c ∈ s.
Proof.
  unfold trim. rewrite elem_of_reverse. intros H%trim_start_incl. rewrite elem_of_reverse in H.
  by apply trim_start_incl.
Qed.

Lemma has_control_false s : has_control s = false <-> forall c, c ∈ s -> is_control c = false.
Proof.
  unfold has_control. rewrite <- not_true_iff_false, existsb_exists. split.
  - intros H c Hc. destruct (is_control c) eqn:E; [|done]. destruct H. exists c.
    by rewrite <- list_elem_of_In.
  - intros H (c & Hc%list_elem_of_In & E). by rewrite (H c Hc) in E.
Qed.

Lemma safeMessage_ok value fallback :
  message_ok fallback = true -> message_ok (safeMessage value fallback) = true.
Proof.
  intros Hf. unfold safeMessage. set (t := trim _).
  destruct (take (Z.to_nat 2048) t) as [|c s] eqn:E; [done|]. rewrite <- E.
  unfold message_ok. rewrite !andb_true_iff, negb_true_iff. split; [split|].
  - by rewrite E.
  - apply Z.leb_le. rewrite length_take. unfold MAX_DIAGNOSTIC_MESSAGE_LENGTH. lia.
  - apply has_control_false. intros x Hx. apply elem_of_take in Hx as (i & Hi & _).
    apply list_elem_of_lookup_2 in Hi. unfold t in Hi.
    apply trim_incl, list_elem_of_fmap in Hi as (y & -> & _).
    destruct (is_control y) eqn:Ey; done.
Qed.

Definition phase_detail (p : option phase) : jsv :=
  match p with Some p => VStr (phase_name p) | None => VUndef end.
Definition index_detail (i : option Z) : jsv :=
  match i with Some z => VNum (NInt z) | None => VUndef end.
Definition field_detail (f : option jsstr) : jsv :=
  match f with Some s => VStr s | None => VUndef end.

Lemma diagnostic_at_Ok code message p i f :
  mem_str code ERROR_CODES = true ->
  (forall z, i = Some z -> 0 <= z <= max_safe_integer) ->
  (forall s, f = Some s -> field_ok s = true) ->
  let d := {| defect_id := None; diagnostic_code := code; d_severity := SevError; d_phase := p;
              receipt_index := i; d_field := f;
              d_message := safeMessage message (js "POM-RX strict verification failed") |} in
  diagnostic_at code message (phase_detail p) (index_detail i) (field_detail f) = Ok d /\
  diagnostic_wf d.
Proof.
  intros Hc Hi Hf d.
  assert (diagnostic_wf d) as W.
  { split; simpl; [by apply mem_str_true|done|done|done|]. by apply safeMessage_ok. }
  split; [|done]. rewrite <- (makePomRxV01Diagnostic_again d W).
  unfold diagnostic_at, makePomRxV01Diagnostic.
  cbn [in_defect in_code in_severity in_phase in_index in_field in_message diagnostic_value_input
       d defect_id diagnostic_code d_severity d_phase receipt_index d_field d_message].
  rewrite Hc. by destruct p, i, f.
Qed.

Lemma plain_diagnostic_Ok code message :
  mem_str (js code) ERROR_CODES = true ->
  exists d, plain_diagnostic code message = Ok d /\ diagnostic_wf d /\
    diagnostic_code d = js code /\ d_severity d = SevError.
Proof.
  intros Hc. destruct (diagnostic_at_Ok (js code) (js message) None None None Hc) as [E W]; try done.
  eexists. split; [exact E|]. done.
Qed.

(** ** Ordered diagnostics of made diagnostics *)

Definition ordered (ds : list diagnostic) : list diagnostic :=
  dedup_from [] (sort_by diagnostic_leb ds).

Lemma order_value_wf ds :
  Forall diagnostic_wf ds -> order_value (VArr (diagnostic_value <$> ds)) = Ok (ordered ds).
Proof.
  intros W. unfold order_value. apply bind_Ok. exists ds. split; [|done].
  apply map_res_Ok, Forall2_fmap_l, Forall_Forall2_diag. eapply Forall_impl; [exact W|].
  apply makePomRxV01Diagnostic_again.
Qed.

Lemma elem_of_ordered d ds : d ∈ ordered ds -> d ∈ ds.
Proof. by intros [?%elem_of_sort_by _]%elem_of_dedup_from. Qed.

Lemma ordered_nil ds : ordered ds = [] <-> ds = [].
Proof.
  split; [|by intros ->]. intros E. destruct ds as [|d ds]; [done|].
  assert (identity d ∈ (identity <$> ordered (d :: ds))) as H.
  { apply dedup_from_identities. split; [apply not_elem_of_nil|]. apply list_elem_of_fmap_2.
    apply elem_of_sort_by. left. }
  rewrite E in H. by apply not_elem_of_nil in H.
Qed.

Lemma ordered_single d : ordered [d] = [d].
Proof. reflexivity. Qed.

(** A list of errors, all structural: what a nonconformant verdict carries. *)
Definition structural_error (d : diagnostic) : Prop :=
  diagnostic_wf d /\ d_severity d = SevError /\ diagnostic_code d ∈ STRUCTURAL_ERROR_CODES.

(** The status the truth table gives, from what the diagnostics are. *)
Lemma filter_errors ds :
  Forall (fun d => d_severity d = SevError) ds -> List.filter is_error ds = ds.
Proof.
  induction 1 as [|d ds Hd _ IH]; [done|]. simpl. rewrite (proj2 (is_error_true d) Hd). by f_equal.
Qed.

Lemma requiredStatus_structural ds :
  Forall structural_error ds -> ds <> [] -> requiredStatus (ordered ds) = js "nonconformant".
Proof.
  intros Hs Hne. unfold requiredStatus. rewrite Forall_forall in Hs.
  rewrite filter_errors by (apply Forall_forall; by intros d (_ & ? & _)%elem_of_ordered%Hs).
  destruct (length (ordered ds) =? 0)%nat eqn:E.
  { destruct Hne. by apply ordered_nil, length_zero_iff_nil, Nat.eqb_eq. }
  destruct (existsb _ (ordered ds)) eqn:Ex; [|done].
  apply existsb_exists in Ex as (d & Hd%list_elem_of_In & Hn).
  apply elem_of_ordered in Hd. destruct (Hs d Hd) as (_ & _ & Hc%mem_str_true).
  unfold is_structural in Hn. by rewrite Hc in Hn.
Qed.

Lemma incomplete_structural ds : Forall structural_error ds -> has_incomplete (ordered ds) = false.
Proof.
  intros Hs. apply not_true_iff_false. intros (d & Hd%list_elem_of_In & E%str_eqb_eq)%existsb_exists.
  apply elem_of_ordered in Hd. rewrite Forall_forall in Hs.
  destruct (Hs d Hd) as (_ & _ & Hc%mem_str_true). rewrite E in Hc. vm_compute in Hc. done.
Qed.

(** One error that is not structural: what an indeterminate verdict carries. *)
Definition blocking_error (d : diagnostic) : Prop :=
  diagnostic_wf d /\ d_severity d = SevError /\ is_structural d = false /\
  diagnostic_code d <> js "POMRX_V01_E_PROFILE_INCOMPLETE".

Lemma blocking_single d :
  blocking_error d ->
  requiredStatus (ordered [d]) = js "indeterminate" /\ has_incomplete (ordered [d]) = false.
Proof.
  intros (_ & Hs%is_error_true & Hn & Hi). rewrite ordered_single.
  unfold requiredStatus, has_incomplete. simpl. rewrite Hs. simpl. rewrite Hn. split; [done|].
  rewrite orb_false_r. by apply str_eqb_neq.
Qed.

(** ** Building the verdict of a bound verification *)

Section verifier_proofs.
Context `{SH : !StringHost, HH : !HashHost, DH : !DateHost, BH : !ByteHashHost, AV : !ArtifactVerifier}.

(** What every binding the verifier makes satisfies. *)
Record binding_ok (b : verifier_binding) : Prop := {
  bo_profile : vb_profile b = POM_RX_V01_STRICT_PROFILE;
  bo_version : vb_version b = POM_RX_V01_STRICT_VERIFIER_VERSION;
  bo_implementation : hash_pattern (vb_implementation b) = true;
  bo_expected : vb_expected b = vb_implementation b;
  bo_observed : vb_observed b = vb_implementation b;
  bo_environment_keys : (vb_environment b).*1 = RUNTIME_KEYS;
  bo_environment : Forall (fun '(_, s) => s <> []) (vb_environment b);
  bo_policy_id : vb_policy_id b <> [];
  bo_policy_version : vb_policy_version b <> [];
  bo_policy_sha256 : hash_pattern (vb_policy_sha256 b) = true;
}.

Lemma runtime_value_valid r :
  r.*1 = RUNTIME_KEYS -> Forall (fun '(_, s) => s <> []) r ->
  validateEnvironment (runtime_value r) = Ok (runtime_value r).
Proof.
  intros Hk Hs. unfold runtime_value.
  do 6 (destruct r as [|[? [|? ?]] r]; [done|by inversion Hs; subst; naive_solver|
    apply Forall_cons in Hs as [_ Hs]]).
  destruct r as [|? r]; [|done]. simpl in Hk. injection Hk as -> -> -> -> -> ->. reflexivity.
Qed.

Lemma some_not_hash_strings l :
  Forall (fun h => hash_pattern h = true) l -> some_not_hash (VStr <$> l) = Ok false.
Proof. induction 1 as [|h l Hh _ IH]; [done|]. simpl. unfold hash_test. simpl. by rewrite Hh. Qed.

Lemma hash_array_strings l :
  Forall (fun h => hash_pattern h = true) l -> hash_array (strings_value l) = Ok (VStr <$> l).
Proof. intros H. unfold hash_array, strings_value. by rewrite some_not_hash_strings. Qed.

Lemma nonempty_nullable s label : s <> [] -> nullableString (VStr s) label = Ok tt.
Proof. by destruct s. Qed.
Lemma hash_nullable s label : hash_pattern s = true -> nullableHash (VStr s) label = Ok tt.
Proof. intros H. unfold nullableHash, hash_test. simpl. by rewrite H. Qed.

Lemma verdict_of_fields b schema hashes status ds :
  binding_ok b -> nullableString (or_null schema) "receipt_schema_version" = Ok tt ->
  fields_ok (verdict_of (Some b) schema hashes status ds).
Proof.
  intros [Hp Hv Hi He Ho _ _ Hpi Hpv Hps] Hs.
  split; cbn [verdict_of receiptSchemaVersion verifierProfile verifierVersion
    implementationArtifactSha256 expectedImplementationArtifactSha256
    observedImplementationArtifactSha256 effectivePolicyId effectivePolicyVersion
    effectivePolicySha256 limitations_arg fmap option_fmap option_map opt_value or_null];
    rewrite ?Hp, ?Hv, ?He, ?Ho;
    first [done | by apply nonempty_nullable | by apply hash_nullable].
Qed.

Lemma verdict_of_nothing_fields status ds : fields_ok (verdict_of None VUndef VUndef status ds).
Proof. by split. Qed.

Lemma verdict_of_binding b schema hashes items status ds ordered q environment :
  binding_ok b ->
  (schema = VStr POM_RX_SCHEMA_VERSION /\ items <> [] \/
   schema = VUndef /\ items = [] /\ requiredStatus ordered = js "indeterminate") ->
  environment <> VNull ->
  validateBindingNullability (verdict_object (verdict_of (Some b) schema hashes status ds)
    (VStr (requiredStatus ordered)) items environment q ordered) = Ok tt.
Proof.
  destruct b as [profile version i expected observed ? ? ? ?]. intros [Hp Hv _ He Ho _ _ _ _ _] Hs Hn.
  cbn in Hp, Hv, He, Ho. subst profile version expected observed.
  unfold validateBindingNullability. set (v := verdict_object _ _ _ _ _ _).
  assert (get (js "implementation_artifact_sha256") v = VStr i) as -> by reflexivity.
  assert (get (js "expected_implementation_artifact_sha256") v = VStr i) as -> by reflexivity.
  assert (get (js "observed_implementation_artifact_sha256") v = VStr i) as -> by reflexivity.
  assert (get (js "execution_environment") v = environment) as -> by reflexivity.
  assert (get (js "receipt_hashes") v = VArr items) as -> by reflexivity.
  assert (get (js "receipt_schema_version") v = or_null schema) as -> by reflexivity.
  assert (get (js "structural_status") v = VStr (requiredStatus ordered)) as -> by reflexivity.
  apply negb_null in Hn. cbn [strict_eq]. rewrite str_eqb_refl, Hn. 
  destruct Hs as [[-> Hi]|(-> & -> & ->)]; [|reflexivity].
  destruct items; [done|]. cbn [or_null]. set (st := is_str (VStr (requiredStatus ordered)) _).
  clearbody st. destruct st; reflexivity.
Qed.

Lemma verdict_of_nothing_binding hashes status ds ordered q :
  requiredStatus ordered = js "indeterminate" ->
  validateBindingNullability (verdict_object (verdict_of None VUndef hashes status ds)
    (VStr (requiredStatus ordered)) [] VNull q ordered) = Ok tt.
Proof. intros ->. reflexivity. Qed.

(** A verdict with this status. *)
Definition verdict_with (status : string) (w : jsv) : Prop :=
  get (js "structural_status") w = VStr (js status) /\ exists ds, verdict_contract w ds.

Definition binding_opt_ok (binding : option verifier_binding) : Prop :=
  forall b, binding = Some b -> binding_ok b.

Lemma indeterminate_Ok d binding :
  blocking_error d -> binding_opt_ok binding ->
  exists w, indeterminate [d] binding = Ok w /\ verdict_with "indeterminate" w.
Proof.
  intros Hd Hb. pose proof (blocking_single d Hd) as [Hs Hi].
  assert (order_value (VArr (diagnostic_value <$> [d])) = Ok (ordered [d])) as Ho.
  { apply order_value_wf. constructor; [apply Hd|constructor]. }
  unfold indeterminate.
  assert (exists w, buildPomRxV01StrictVerdict (verdict_of binding VUndef VUndef "indeterminate" [d])
    = Ok w /\ verdict_contract w (ordered [d]) /\
    get (js "structural_status") w = VStr (requiredStatus (ordered [d]))) as (w & Hw & Hc & Ew).
  { destruct binding as [b|].
    - pose proof (Hb b eq_refl) as B.
      apply buildPomRxV01StrictVerdict_Ok with (hashes := [])
        (environment := runtime_value (vb_environment b)); try done.
      + by apply verdict_of_fields.
      + by rewrite Hs.
      + apply runtime_value_valid; apply B.
      + intros q. apply verdict_of_binding; [done|by right|done].
    - apply buildPomRxV01StrictVerdict_Ok with (hashes := []) (environment := VNull); try done.
      + by rewrite Hs.
      + intros q. by apply verdict_of_nothing_binding. }
  exists w. split; [done|]. split; [by rewrite Ew, Hs|by exists (ordered [d])].
Qed.

Lemma completed_Ok chain b (status : string) ds :
  binding_ok b -> chain <> [] ->
  Forall (fun c => hash_pattern (receiptHash c) = true) chain ->
  Forall diagnostic_wf ds -> has_incomplete (ordered ds) = false ->
  requiredStatus (ordered ds) = js status ->
  exists w, completed chain b status ds = Ok w /\ verdict_with status w.
Proof.
  intros B Hne Hh W Hi Hs. unfold completed.
  destruct (buildPomRxV01StrictVerdict_Ok (verdict_of (Some b) (VStr POM_RX_SCHEMA_VERSION)
     (strings_value (PomRx.receiptHash <$> chain)) status ds) (ordered ds)
     (VStr <$> (PomRx.receiptHash <$> chain)) (runtime_value (vb_environment b)))
    as (w & Hw & Hc & Ew).
  - by apply verdict_of_fields.
  - by apply order_value_wf.
  - done.
  - by rewrite Hs.
  - by apply hash_array_strings, Forall_fmap.
  - apply runtime_value_valid; apply B.
  - intros q. apply verdict_of_binding; [done| |done]. left. split; [done|]. by destruct chain.
  - exists w. split; [done|]. split; [by rewrite Ew, Hs|by exists (ordered ds)].
Qed.

(** ** The base chain *)

Lemma when_guard_Ok {A} (b c : bool) e (k : res A) v :
  (_ ← (if b then guard_or c e else Ok tt); k) = Ok v <-> (b = true -> c = true) /\ k = Ok v.
Proof. destruct b, c; simpl; naive_solver. Qed.

Lemma unless_nil cond f : unless cond f = [] <-> cond = true.
Proof. by destruct cond. Qed.

Lemma concat_unless_nil (l : list (string * (pom_receipt -> jsstr))) cond f :
  concat ((fun '(name, field) => unless (cond field) (f name)) <$> l) = [] <->
  Forall (fun '(_, field) => cond field = true) l.
Proof.
  induction l as [|[n g] l IH]; [by split|]. rewrite fmap_cons. cbn [concat].
  by rewrite app_nil, unless_nil, IH, Forall_cons.
Qed.

Lemma link_findings_nil first previous current index :
  link_findings first previous current index = [] <-> check_link first previous current = Ok tt.
Proof.
  unfold link_findings, check_link, assert. rewrite !app_nil, !unless_nil, concat_unless_nil.
  rewrite !guard_bind_Ok, for_each_Ok, !Forall_forall. do 3 f_equiv. apply forall_proper. intros [n f].
  by rewrite guard_or_Ok.
Qed.

Lemma links_findings_nil first previous rest index :
  links_findings first previous rest index = [] <-> check_links first previous rest = Ok tt.
Proof.
  revert previous index. induction rest as [|c rest IH]; intros previous index; [by split|].
  cbn [links_findings check_links]. rewrite app_nil, link_findings_nil, IH, bind_Ok.
  split; [intros [-> ->]; by exists tt|by intros ([] & -> & ->)].
Qed.

Lemma find_phase_index p chain : find_phase p chain = snd <$> find_index p chain.
Proof.
  unfold find_phase, find_index. induction chain as [|c chain IH]; [done|]. simpl.
  case_bool_decide as E; [by rewrite decide_True|]. rewrite decide_False by done. rewrite IH.
  by destruct (list_find _ chain) as [[]|].
Qed.

Lemma outcome_is_phase p chain o :
  outcome_is (find_index p chain) o = has_outcome (find_phase p chain) o.
Proof. rewrite find_phase_index. by destruct (find_index p chain) as [[]|]. Qed.

Lemma find_index_none p chain : find_index p chain = None <-> find_phase p chain = None.
Proof. rewrite find_phase_index. by destruct (find_index p chain). Qed.

Lemma base_findings_nil first rest allowPartial :
  p_outcome (c_receipt first) ∈ PHASE_OUTCOMES (p_phase (c_receipt first)) ->
  base_findings (first :: rest) allowPartial = [] <->
  check_committed (first :: rest) allowPartial = Ok (first :: rest).
Proof.
  intros Ho. unfold base_findings, check_committed, assert. rewrite guard_bind_Ok, bool_decide_eq_true.
  destruct (decide (p_phase (c_receipt first) = Preflight)) as [Ep|Ep];
    [rewrite (bool_decide_true _ Ep)|rewrite (bool_decide_false _ Ep); simpl; by split; [|intros []]].
  cbn [negb]. rewrite !app_nil, links_findings_nil, !unless_nil, !outcome_is_phase, bind_Ok.
  rewrite Ep in Ho. 
  set (links := check_links first first rest).
  set (execution := find_phase Execution (first :: rest)).
  set (reconciliation := find_phase Reconciliation (first :: rest)).
  assert (bool_decide (find_index Reconciliation (first :: rest) = None) =
    bool_decide (reconciliation = None)) as -> by (apply bool_decide_ext, find_index_none).
  assert (match find_index Reconciliation (first :: rest) with
    | Some (i, _) => unless (negb (has_outcome execution Rejected))
        {| f_code := "POMRX_V01_E_CHAIN_PHASE_INVALID";
           f_message := "A rejected execution cannot be marked as reconciled";
           f_phase := Reconciliation; f_index := Z.of_nat i; f_field := Some "phase" |}
    | None => []
    end = [] <-> (has_outcome execution Rejected = true -> reconciliation = None)) as ->.
  { unfold reconciliation. rewrite find_phase_index.
    destruct (find_index Reconciliation (first :: rest)) as [[i c]|]; [|done].
    rewrite unless_nil, negb_true_iff. cbn [fmap option_fmap option_map snd].
    destruct (has_outcome execution Rejected); split; naive_solver. }
  destruct links as [[]|e]; [|by split; [intros []|intros (_ & ? & ? & _)]].
  transitivity ((p_outcome (c_receipt first) = Deny /\ rest = []) \/
    (p_outcome (c_receipt first) = Allow /\ (allowPartial = false -> rest <> []) /\
     (has_outcome execution Accepted = true -> allowPartial = false -> reconciliation <> None) /\
     (has_outcome execution Rejected = true -> reconciliation = None))).
  - assert (rest = [] -> execution = None) as Hx.
    { intros ->. unfold execution, find_phase. simpl. by rewrite Ep. }
    clearbody execution reconciliation. clear Ep.
    apply outcome_split_2 in Ho as [-> | ->].
    + destruct allowPartial, rest, (has_outcome execution Accepted), reconciliation;
        vm_compute; naive_solver.
    + destruct rest; [rewrite Hx by done; vm_compute; naive_solver|vm_compute; naive_solver].
  - apply outcome_split_2 in Ho as [-> | ->].
    + rewrite (bool_decide_false (Allow = Deny)) by done.
      assert (forall P : Prop, (exists a : unit, Ok tt = Ok a /\ P) <-> P) as ->
        by (intros P; split; [by intros (? & _ & ?)|by exists tt]).
      rewrite !when_guard_Ok, andb_true_iff, !negb_true_iff, !bool_decide_eq_true, Nat.leb_le,
        <- not_eq_None_Some.
      assert ((2 <= length (first :: rest))%nat <-> rest <> []) as ->
        by (destruct rest; simpl; naive_solver lia).
      naive_solver.
    + rewrite bool_decide_true by done. destruct rest; simpl; naive_solver.
Qed.

(** Every finding becomes a structural error. *)
Record finding_ok (f : finding) : Prop := {
  fi_code : js (f_code f) ∈ STRUCTURAL_ERROR_CODES;
  fi_index : 0 <= f_index f <= max_safe_integer;
  fi_field : match f_field f with Some s => field_ok (js s) = true | None => True end;
}.

Lemma structural_registered code : code ∈ STRUCTURAL_ERROR_CODES -> mem_str code ERROR_CODES = true.
Proof.
  intros H. assert (Forall (fun c => mem_str c ERROR_CODES = true) STRUCTURAL_ERROR_CODES) as F
    by decide_now.
  rewrite Forall_forall in F. by apply F.
Qed.

Lemma make_finding_Ok f : finding_ok f -> exists d, make_finding f = Ok d /\ structural_error d.
Proof.
  intros [Hc Hi Hf]. unfold make_finding.
  destruct (diagnostic_at_Ok (js (f_code f)) (js (f_message f)) (Some (f_phase f)) (Some (f_index f))
    (js <$> f_field f)) as [E W].
  - by apply structural_registered.
  - by intros z [= <-].
  - intros s Hs. by destruct (f_field f); [injection Hs as <-|].
  - eexists. split; [|split; [exact W|split; [done|exact Hc]]]. rewrite <- E. by destruct (f_field f).
Qed.

Lemma unless_Forall (P : finding -> Prop) cond f :
  (cond = false -> P f) -> Forall P (unless cond f).
Proof. destruct cond; [constructor|]. intros H. by repeat constructor; apply H. Qed.

Ltac finding := split; [decide_now| |reflexivity || done]; cbn [f_index]; unfold max_safe_integer; lia.

Lemma link_findings_ok first previous current index :
  0 <= index <= 3 -> Forall finding_ok (link_findings first previous current index).
Proof.
  intros Hi. unfold link_findings. repeat apply Forall_app_2; try (apply unless_Forall; intros _; finding).
  cbn [sharedFields fmap list_fmap concat].
  repeat apply Forall_app_2; try apply Forall_nil_2; apply unless_Forall; intros _; finding.
Qed.

Lemma links_findings_ok first previous rest index :
  0 <= index -> index + Z.of_nat (length rest) <= 4 ->
  Forall finding_ok (links_findings first previous rest index).
Proof.
  revert previous index. induction rest as [|c rest IH]; intros previous index Hi Hl;
    [constructor|]. cbn [links_findings length] in *.
  apply Forall_app_2; [apply link_findings_ok; lia|apply IH; lia].
Qed.

Lemma find_index_bound p chain i c : find_index p chain = Some (i, c) -> (i < length chain)%nat.
Proof. intros (H & _)%list_find_Some. by eapply lookup_lt_Some. Qed.

Lemma base_findings_ok chain allowPartial :
  (length chain <= 3)%nat -> Forall finding_ok (base_findings chain allowPartial).
Proof.
  intros Hl. destruct chain as [|first rest]; [constructor|]. unfold base_findings.
  destruct (negb _); [constructor; [finding|constructor]|].
  repeat apply Forall_app_2.
  - apply links_findings_ok; simpl in Hl; lia.
  - case_bool_decide; [|constructor]. destruct rest as [|second rest]; [constructor|].
    constructor; [finding|constructor].
  - apply unless_Forall. intros _. finding.
  - apply unless_Forall. intros H. destruct (find_index Execution _) as [[i c]|] eqn:E; [|done].
    apply find_index_bound in E. finding.
  - destruct (find_index Reconciliation _) as [[i c]|] eqn:E; [|constructor].
    apply find_index_bound in E. apply unless_Forall. intros _. finding.
Qed.

Lemma checkBaseChain_Ok chain allowPartial :
  (length chain <= 3)%nat ->
  exists ds, checkBaseChain chain allowPartial = Ok ds /\ Forall structural_error ds /\
    (ds = [] <-> base_findings chain allowPartial = []).
Proof.
  intros Hl. unfold checkBaseChain.
  pose proof (base_findings_ok chain allowPartial Hl) as H.
  induction H as [|f fs Hf _ (ds & IH & W & _)]; [by exists []|].
  destruct (make_finding_Ok f Hf) as (d & Hd & Wd). exists (d :: ds). simpl. rewrite Hd. simpl.
  rewrite IH. by split; [|split; [constructor|]].
Qed.

(** ** Errors of the binding *)

Definition BINDING_CODES : list jsstr := js <$>
  ["POMRX_V01_E_POLICY_CAPABILITY_REQUIRED"; "POMRX_V01_E_POLICY_CAPABILITY_STALE";
   "POMRX_V01_E_POLICY_INVALID"; "POMRX_V01_E_ARTIFACT_MANIFEST_INVALID";
   "POMRX_V01_E_VERIFIER_NOT_ALLOWED"; "POMRX_V01_E_VERIFIER_WITHDRAWN";
   "POMRX_V01_E_IMPLEMENTATION_ARTIFACT_MISMATCH"; "POMRX_V01_E_RUNTIME_ENVIRONMENT_UNSUPPORTED"].

(** A strict error of the binding has one of these codes. *)
Definition binding_error (e : jserr) : Prop := err_cls e = StrictErr -> err_code e ∈ BINDING_CODES.

Lemma throws_strict {A} code msg :
  js code ∈ BINDING_CODES -> throws_only binding_error (Throw (strict_error code msg) : res A).
Proof. by intros ? ?. Qed.
Lemma throws_guard cond code msg :
  js code ∈ BINDING_CODES -> throws_only binding_error (guard_or cond (strict_error code msg)).
Proof. intros H. apply throws_only_guard. by intros _. Qed.

Ltac throws_step := first
  [ exact I | apply throws_guard; decide_now | apply throws_strict; decide_now
  | apply throws_only_bind; [|intros ? _] ].

Lemma assertString_throws value code label hash :
  js code ∈ BINDING_CODES -> throws_only binding_error (assertString value code label hash).
Proof.
  intros Hc. unfold assertString. apply throws_only_bind.
  - destruct (str_that _ _); [exact I|by apply throws_strict].
  - intros s _. apply throws_only_bind; [by apply throws_guard|]. intros ? _. exact I.
Qed.

Lemma policy_assertExactKeys_throws value expected code label :
  js code ∈ BINDING_CODES -> throws_only binding_error (policy_assertExactKeys value expected code label).
Proof.
  intros Hc. unfold policy_assertExactKeys. apply throws_only_bind; [by apply throws_guard|].
  intros ? _. by apply throws_guard.
Qed.

Lemma decide_binding_throws r selected measured : throws_only binding_error (decide_binding r selected measured).
Proof.
  unfold decide_binding, validateTuple, validateRuntimeConstraints, tuple_fields.
  repeat first [apply policy_assertExactKeys_throws; decide_now
    | apply assertString_throws; decide_now | apply throws_only_map_res; intros ? _ | throws_step
    | match goal with |- context [List.find ?f ?l] => destruct (List.find f l) end].
Qed.

Lemma fresh_capability_throws w capability : throws_only binding_error (fresh_capability w capability).
Proof.
  unfold fresh_capability, capability_required, capability_stale.
  destruct (c ← capability; r ← capabilities w !! c; Some (c, r)) as [[]|]; repeat throws_step.
Qed.

Lemma strings_stringify l : exists t, json_stringify (strings_value l) = Ok (Some t).
Proof. apply stringify_Forall, Forall_fmap, Forall_true. intros s. by eexists. Qed.

Lemma runRuntimeCanary_throws host : throws_only binding_error (runRuntimeCanary host).
Proof.
  unfold runRuntimeCanary, unsupported_runtime.
  repeat first
    [ match goal with |- throws_only binding_error (json_stringify (strings_value ?l)) =>
        destruct (strings_stringify l) as [? ->] end
    | throws_step
    | match goal with |- throws_only _ (match ?x with _ => _ end) => destruct x end].
Qed.

Lemma measure_artifact_throws host w capability : throws_only binding_error (measure_artifact host w capability).
Proof.
  unfold measure_artifact. apply throws_only_bind; [apply runRuntimeCanary_throws|]. intros ? _.
  apply throws_only_bind; [|intros [manifest pin] _].
  - unfold inspectFreshPomRxPolicyCapabilityHostPins. apply throws_only_bind; [apply fresh_capability_throws|].
    intros [? ?] _. exact I.
  - apply throws_only_bind; [|intros ? _; repeat throws_step].
    destruct (verifyPomRxArtifactIdentity manifest pin) eqn:He; [done|]. intros Hs.
    destruct (artifact_error _ _ _ He Hs) as [-> | ->]; decide_now.
Qed.

Lemma bindVerifier_throws host w capability e w' :
  bindVerifier host w capability = (Throw e, w') -> err_cls e = StrictErr ->
  err_code e ∈ BINDING_CODES.
Proof.
  unfold bindVerifier.
  pose proof (measure_artifact_throws host w capability) as Hm.
  destruct (measure_artifact host w capability) as [artifact|e0]; [|intros [= <- _]; by apply Hm].
  clear Hm.
  destruct (bindFreshPomRxPolicyCapability _ _ _ _) as [[b|e0] w1] eqn:Eb.
  - destruct (consumeFreshPomRxPolicyBinding w1 (Some b)) as [policy w2] eqn:Ec. intros [= Hp _].
    assert (throws_only binding_error policy) as Ht.
    { revert Ec. unfold consumeFreshPomRxPolicyBinding, capability_required, capability_stale.
      destruct (b' ← Some b; r ← bindings w1 !! b'; Some (b', r)) as [[]|];
        [destruct (_ || _)|]; intros [= <- _]; repeat throws_step. }
    apply (throws_only_Throw binding_error) in Hp; [done|].
    apply throws_only_bind; [done|]. intros ? _. repeat throws_step.
  - intros [= <- _]. revert Eb. unfold bindFreshPomRxPolicyCapability.
    pose proof (fresh_capability_throws w capability) as Hf.
    destruct (fresh_capability w capability) as [[c r]|e1]; [|intros [= <- _]; by apply Hf].
    pose proof (decide_binding_throws r (selected_tuple (artifact_implementation artifact))
      (measured_runtime host)) as Hd.
    destruct (decide_binding _ _ _) as [v|e1]; [done|]. intros [= <- _]. by apply Hd.
Qed.

Lemma blocking_at code message p i f :
  mem_str code ERROR_CODES = true -> (code ∉ STRUCTURAL_ERROR_CODES) ->
  code <> js "POMRX_V01_E_PROFILE_INCOMPLETE" ->
  (forall z, i = Some z -> 0 <= z <= max_safe_integer) ->
  (forall s, f = Some s -> field_ok s = true) ->
  exists d, diagnostic_at code message (phase_detail p) (index_detail i) (field_detail f) = Ok d /\
    blocking_error d.
Proof.
  intros Hc Hs Hi Hz Hf. destruct (diagnostic_at_Ok code message p i f Hc Hz Hf) as [E W].
  eexists. split; [exact E|]. split; [exact W|]. split; [done|]. split; [|exact Hi].
  apply not_true_iff_false. intros H%mem_str_true. done.
Qed.

Lemma diagnosticFromError_Ok e :
  (err_cls e = StrictErr -> err_code e ∈ BINDING_CODES) ->
  exists d, diagnosticFromError e = Ok d /\ blocking_error d.
Proof.
  intros H. unfold diagnosticFromError.
  assert (Forall (fun c => mem_str c ERROR_CODES = true /\ (c ∉ STRUCTURAL_ERROR_CODES) /\
    c <> js "POMRX_V01_E_PROFILE_INCOMPLETE")
    (js "POMRX_V01_E_INTERNAL_VERIFIER_ERROR" :: BINDING_CODES)) as F by decide_now.
  rewrite Forall_cons, Forall_forall in F. destruct F as [Fi F].
  match goal with |- context [diagnostic_at ?c] => set (code := c) end.
  assert (mem_str code ERROR_CODES = true /\ (code ∉ STRUCTURAL_ERROR_CODES) /\
    code <> js "POMRX_V01_E_PROFILE_INCOMPLETE") as (? & ? & ?).
  { unfold code. case_bool_decide as E; [|exact Fi].
    destruct (negb _); [by apply F, H|exact Fi]. }
  by apply (blocking_at code (err_msg e) None None None).
Qed.

Lemma plain_blocking code message :
  mem_str (js code) ERROR_CODES = true -> (js code ∉ STRUCTURAL_ERROR_CODES) ->
  js code <> js "POMRX_V01_E_PROFILE_INCOMPLETE" ->
  exists d, plain_diagnostic code message = Ok d /\ blocking_error d.
Proof. intros. by apply (blocking_at (js code) (js message) None None None). Qed.

Lemma validateOptions_Ok options :
  validateOptions options = Ok None \/
  exists d, validateOptions options = Ok (Some d) /\ blocking_error d.
Proof.
  assert (forall code message : string, mem_str (js code) ERROR_CODES = true ->
    (js code ∉ STRUCTURAL_ERROR_CODES) -> js code <> js "POMRX_V01_E_PROFILE_INCOMPLETE" ->
    exists d, (Some <$> plain_diagnostic code message) = Ok (Some d) /\ blocking_error d) as H.
  { intros code message H1 H2 H3. destruct (plain_blocking code message H1 H2 H3) as (d & -> & ?).
    by exists d. }
  unfold validateOptions. cbv zeta.
  repeat match goal with
  | |- context [if ?c then _ else _] => destruct c
  end; first [by left | right; apply H; decide_now].
Qed.

(** ** Committing the receipts *)

Definition receipts_of (receipts : jsv) (chain : list committed) : Prop :=
  exists items, receipts = VArr items /\ (1 <= length items <= 3)%nat /\
    map_res commitPomRxReceipt items = Ok chain.

Lemma commit_from_Ok index items :
  0 <= index -> index + Z.of_nat (length items) <= 4 ->
  (exists chain, commit_from index items = Ok (inl chain) /\
     map_res commitPomRxReceipt items = Ok chain) \/
  (exists d e, commit_from index items = Ok (inr [d]) /\ blocking_error d /\
     map_res commitPomRxReceipt items = Throw e).
Proof.
  revert index. induction items as [|v items IH]; intros index Hi Hl; [left; by exists []|].
  cbn [commit_from map_res length] in *. destruct (commitPomRxReceipt v) as [c|e].
  - destruct (IH (index + 1)) as [(cs & -> & ->)|(d & e & -> & ? & ->)]; [lia|lia|..].
    + left. by exists (c :: cs).
    + right. by exists d, e.
  - right. destruct (blocking_at (js "POMRX_V01_E_SCHEMA_INVALID") (err_msg e) None (Some index) None)
      as (d & Hd & ?); try decide_now; try done.
    { intros z [= <-]. unfold max_safe_integer. lia. }
    exists d, e. unfold index_detail, phase_detail, field_detail in Hd. by rewrite Hd.
Qed.

Lemma commitStrictReceipts_Ok receipts :
  (exists chain, commitStrictReceipts receipts = Ok (inl chain) /\ receipts_of receipts chain) \/
  (exists d, commitStrictReceipts receipts = Ok (inr [d]) /\ blocking_error d /\
     forall chain, ~ receipts_of receipts chain).
Proof.
  destruct (plain_blocking "POMRX_V01_E_SCHEMA_INVALID"
    "A strict POM-RX chain requires between one and three receipts") as (d & Hd & Hb); try decide_now.
  unfold receipts_of, commitStrictReceipts. rewrite Hd. cbn [mbind res_bind].
  destruct receipts as [| | | | | | | |items|];
    try (right; exists d; split; [done|]; split; [done|]; by intros chain (? & ? & _)).
  destruct ((1 <=? length items) && (length items <=? length PHASES))%nat eqn:E.
  - apply andb_true_iff in E as [H1%Nat.leb_le H2%Nat.leb_le]. simpl in H2.
    destruct (commit_from_Ok 0 items) as [(chain & -> & ?)|(d' & e & -> & ? & He)]; [lia|lia|..].
    + left. exists chain. split; [done|]. by exists items.
    + right. exists d'. split; [done|]. split; [done|]. intros chain (? & [= <-] & _ & ?). congruence.
  - right. exists d. split; [done|]. split; [done|]. intros chain (? & [= <-] & Hl & _).
    apply andb_false_iff in E as [E%Nat.leb_gt|E%Nat.leb_gt]; simpl in E; lia.
Qed.

(** ** The binding is well-formed *)

Lemma assertString_Ok value code label hash s :
  assertString value code label hash = Ok s -> s <> [] /\ (hash = true -> hash_pattern s = true).
Proof.
  unfold assertString. intros (t & Ht & H)%bind_Ok. apply guard_bind_Ok in H as [_ [= <-]].
  destruct value as [| | | |u| | | | |]; try done. cbn [str_that] in Ht.
  destruct (_ && _) eqn:E; [|done]. injection Ht as <-.
  rewrite !andb_true_iff in E. destruct E as [[[H1 _] _] H2]. split; [by destruct u|].
  intros ->. exact H2.
Qed.

Lemma validateRuntimeConstraints_Ok value code r :
  validateRuntimeConstraints value code = Ok r ->
  r.*1 = RUNTIME_KEYS /\ Forall (fun '(_, s) => s <> []) r.
Proof.
  unfold validateRuntimeConstraints. intros (? & _ & H)%bind_Ok. apply map_res_Ok in H.
  revert H. generalize RUNTIME_KEYS. intros keys H. induction H as [|k [k' s] keys r Hs _ [<- IH]]; [done|].
  apply bind_Ok in Hs as (t & Ht%assertString_Ok & [= <- <-]). split; [done|].
  constructor; [apply Ht|done].
Qed.

Record policy_wf (p : policy) : Prop := {
  pw_id : policy_id p <> [];
  pw_version : policy_version p <> [];
  pw_sha256 : hash_pattern (policy_sha256 p) = true;
}.

Lemma fresh_state_wf files config is_function r :
  fresh_state files config is_function = Ok r -> policy_wf (cap_policy r).
Proof.
  unfold fresh_state. intros (? & _ & H)%bind_Ok. apply guard_bind_Ok in H as [_ H].
  apply bind_Ok in H as ([parsed observed] & Hp & H).
  assert (hash_pattern observed = true) as Hh.
  { unfold readPinnedJson in Hp. inv_ok. apply sha256_bytes_format. }
  apply bind_Ok in H as (p & Hv & H). inv_ok. simpl.
  unfold validatePolicy in Hv. apply bind_Ok in Hv as (? & _ & Hv). apply guard_bind_Ok in Hv as [_ Hv].
  apply bind_Ok in Hv as (id & Hid%assertString_Ok & Hv).
  apply bind_Ok in Hv as (version & Hver%assertString_Ok & Hv).
  destruct (get (js "accepted_verifiers") parsed) as [| | | | | | | |accepted|]; try done.
  destruct (get (js "withdrawn_verifiers") parsed) as [| | | | | | | |withdrawn|]; try done.
  apply bind_Ok in Hv as (? & _ & Hv). apply guard_bind_Ok in Hv as [_ Hv].
  apply bind_Ok in Hv as (? & _ & Hv). apply guard_bind_Ok in Hv as [_ [= <-]].
  by split; [apply Hid|apply Hver|].
Qed.

Definition policies_wf (w : world) : Prop := Forall (fun r => policy_wf (cap_policy r)) (capabilities w).

Lemma set_cap_wf w c f :
  (forall r, cap_policy (f r) = cap_policy r) -> policies_wf w -> policies_wf (set_cap w c f).
Proof.
  intros Hf H. apply Forall_lookup. intros d r. rewrite set_cap_lookup.
  unfold policies_wf in H. rewrite Forall_lookup in H.
  destruct (decide (c = d)) as [->|]; [|by apply H].
  destruct (capabilities w !! d) as [r0|] eqn:E; [|done]. intros [= <-]. rewrite Hf. by eapply H.
Qed.

Lemma bind_capabilities_wf w capability selected measured :
  policies_wf w -> policies_wf (bindFreshPomRxPolicyCapability w capability selected measured).2.
Proof.
  intros H. unfold bindFreshPomRxPolicyCapability. destruct (fresh_capability _ _) as [[c r]|]; [|done].
  pose proof (set_cap_wf w c mark_used (fun _ => eq_refl) H) as H'.
  by destruct (decide_binding _ _ _).
Qed.

Lemma step_policies_wf files w w' : cap_step files w w' -> policies_wf w -> policies_wf w'.
Proof.
  destruct 1 as [config r Hr|c|capability selected measured|binding]; intros H.
  - apply Forall_app_2; [done|]. constructor; [by eapply fresh_state_wf|constructor].
  - by apply set_cap_wf.
  - by apply bind_capabilities_wf.
  - unfold consumeFreshPomRxPolicyBinding.
    destruct (b ← binding; r ← bindings w !! b; Some (b, r)) as [[b r]|]; [|done].
    by destruct (_ || _).
Qed.

Lemma reachable_policies_wf files w : cap_reachable files w -> policies_wf w.
Proof.
  intros H. assert (policies_wf {| capabilities := []; bindings := [] |}) as H0 by constructor.
  revert H0. unfold cap_reachable in H. induction H as [|x y z Hs _ IH]; [done|]. intros Hx.
  by apply IH, (step_policies_wf files x).
Qed.

(** Binding and at once consuming what is bound gives the decision itself. *)
Lemma bind_consume w capability selected measured b w1 :
  bindFreshPomRxPolicyCapability w capability selected measured = (Ok b, w1) ->
  exists c r v w2, capability = Some c /\ capabilities w !! c = Some r /\
    decide_binding r selected measured = Ok v /\
    consumeFreshPomRxPolicyBinding w1 (Some b) = (Ok v, w2).
Proof.
  unfold bindFreshPomRxPolicyCapability. destruct (fresh_capability w capability) as [[c r]|] eqn:Ef; [|done].
  apply fresh_capability_Ok in Ef as (-> & Hc & Ha & Hu).
  destruct (decide_binding r selected measured) as [v|] eqn:Ed; [|done]. intros [= <- <-].
  eexists c, r, v, _. split; [done|]. split; [done|]. split; [done|].
  unfold consumeFreshPomRxPolicyBinding. simpl. rewrite list_lookup_middle by done. simpl.
  rewrite list_lookup_alter_eq, Hc. simpl. rewrite Ha. reflexivity.
Qed.

Lemma bindVerifier_ok files host w capability b w' :
  cap_reachable files w -> bindVerifier host w capability = (Ok b, w') -> binding_ok b.
Proof.
  intros Hw%reachable_policies_wf. unfold bindVerifier.
  destruct (measure_artifact host w capability) as [artifact|] eqn:Em; [|done].
  destruct (bindFreshPomRxPolicyCapability _ _ _ _) as [[i|] w1] eqn:Eb; [|done].
  apply bind_consume in Eb as (c & r & v & w2 & -> & Hc & Hd & ->).
  intros [= Hp _]. apply guard_bind_Ok in Hp as [_ [= <-]].
  apply decide_binding_decided in Hd as ([_ _ _ (Ep & Ev & Es)] & _ & Hr%validateRuntimeConstraints_Ok).
  unfold measure_artifact in Em. apply bind_Ok in Em as (? & _ & Em).
  apply bind_Ok in Em as ([manifest pin] & _ & Em). apply bind_Ok in Em as (a & Ha & Em).
  apply guard_bind_Ok in Em as [_ [= <-]]. apply artifact_digest in Ha as (? & ? & ?).
  unfold policies_wf in Hw. rewrite Forall_lookup in Hw. destruct (Hw c r Hc).
  split; simpl; rewrite ?Ep, ?Ev, ?Es; try done; apply Hr.
Qed.

(** ** The strict invariants *)

Lemma order_made_wf inputs ds : order_made inputs = Ok ds -> Forall diagnostic_wf ds.
Proof. by intros (? & _ & ?%order_normal%nd_wf)%bind_Ok. Qed.

Lemma check_continuity_wf label field code defects receipts ds :
  check_continuity label field code defects receipts = Ok ds -> Forall diagnostic_wf ds.
Proof.
  intros (items & _ & H)%bind_Ok. destruct items as [|first rest]; [by eapply order_made_wf|].
  apply bind_Ok in H as (? & _ & H). by eapply order_made_wf.
Qed.

Lemma check_assertions_wf label p o defect code receipts ds :
  check_assertions label p o defect code receipts = Ok ds -> Forall diagnostic_wf ds.
Proof.
  unfold check_assertions. intros (items & _ & H)%bind_Ok.
  repeat match type of H with
  | context [match ?x with _ => _ end] => destruct x
  end; first [by injection H as <- | by eapply order_made_wf].
Qed.

Lemma reports_structural code at_ ds :
  js code ∈ STRUCTURAL_ERROR_CODES -> Forall diagnostic_wf ds -> reports code at_ ds ->
  Forall structural_error ds.
Proof.
  intros Hc W [_ R]. rewrite Forall_forall in W, R. apply Forall_forall. intros d Hd.
  pose proof (W d Hd) as Wd. pose proof (R d Hd) as Rd. split; [done|].
  rewrite Rd. split; [|done]. pose proof (dwf_code _ Wd) as Hw. rewrite Rd in Hw.
  destruct (d_severity d); [done|].
  assert (Forall (fun c => c ∉ WARNING_CODES) STRUCTURAL_ERROR_CODES) as F by decide_now.
  rewrite Forall_forall in F. by destruct (F _ Hc).
Qed.

Lemma runStrictInvariants_Ok rs :
  checkable rs ->
  exists ds, runStrictInvariants (VArr (pom_value <$> rs)) = Ok ds /\ Forall structural_error ds /\
    (ds = [] <-> strict_invariants rs).
Proof.
  intros C.
  destruct (check_action rs C) as (d1 & H1 & R1), (check_input rs C) as (d2 & H2 & R2),
    (check_execution rs C) as (d3 & H3 & R3), (check_reconciliation rs C) as (d4 & H4 & R4),
    (check_ids rs C) as (d5 & H5 & R5).
  exists (d1 ++ d2 ++ d3 ++ d4 ++ d5).
  unfold runStrictInvariants. rewrite H1, H2, H3, H4, H5. split; [done|]. split.
  - repeat apply Forall_app_2;
      match goal with R : reports ?c ?a ?d |- Forall _ ?d =>
        apply (reports_structural c a d); [decide_now| |exact R] end;
      first [by eapply check_continuity_wf | by eapply check_assertions_wf
            | by apply bind_Ok in H5 as (? & _ & ?%order_made_wf)].
  - rewrite !app_nil, (reports_nil _ _ _ R1), (reports_nil _ _ _ R2), (reports_nil _ _ _ R3),
      (reports_nil _ _ _ R4), (reports_nil _ _ _ R5), !changes_of_nil, !unsupported_nil,
      repeated_nil by done.
    split; [by intros (? & ? & ? & ? & ? & _)|].
    intros [? ? ? ? ?]. repeat (split; [done|]). intros ? _. apply not_elem_of_nil.
Qed.

(** ** What the verifier answers *)

Lemma receipts_of_assert receipts ap chain :
  receipts_of receipts chain ->
  assertPomRxChain receipts ap = check_committed chain ap /\ (1 <= length chain <= 3)%nat /\
  Forall committed_ok chain.
Proof.
  intros (items & -> & Hl & Hm). unfold assertPomRxChain, assert.
  rewrite (proj2 (Nat.leb_le 1 (length items))) by lia. cbn [mbind res_bind guard_or].
  rewrite (proj2 (Nat.leb_le (length items) _)) by (simpl; lia).
  cbn [mbind res_bind guard_or]. rewrite Hm. split; [done|].
  apply map_res_Ok in Hm. rewrite <- (Forall2_length _ _ _ Hm). split; [done|].
  eapply Forall2_Forall_r; [exact Hm|]. apply Forall_true. intros v c. apply commit_committed_ok.
Qed.

Definition conforms (receipts : jsv) (ap : bool) (chain : list committed) : Prop :=
  assertPomRxChain receipts ap = Ok chain /\ strict_invariants (c_receipt <$> chain).

Lemma verify_bound_Ok receipts ap b :
  binding_ok b ->
  exists v, verify_bound receipts ap b = Ok v /\
    ((exists chain, receipts_of receipts chain /\ conforms receipts ap chain /\
        verdict_with "conformant" v) \/
     (exists chain, receipts_of receipts chain /\ (~ conforms receipts ap chain) /\
        verdict_with "nonconformant" v) \/
     ((forall chain, ~ receipts_of receipts chain) /\ verdict_with "indeterminate" v)).
Proof.
  intros B. unfold verify_bound.
  destruct (commitStrictReceipts_Ok receipts) as [(chain & -> & Hr)|(d & -> & Hd & Hn)];
    cbn [mbind res_bind].
  2:{ destruct (indeterminate_Ok d (Some b) Hd) as (v & Hv & Hw); [by intros ? [= <-]|].
      exists v. split; [done|]. by right; right. }
  destruct (receipts_of_assert receipts ap chain Hr) as (Ha & Hl & Hok).
  assert (chain <> []) as Hne by (destruct chain; simpl in *; [lia|done]).
  assert (Forall (fun c => hash_pattern (receiptHash c) = true) chain) as Hh.
  { eapply Forall_impl; [exact Hok|]. intros c (_ & _ & ->). apply sha256_hex_format. }
  destruct (checkBaseChain_Ok chain ap) as (base & -> & Wb & Eb); [lia|]. cbn [mbind res_bind].
  assert (forall ds, Forall structural_error ds -> ds <> [] ->
    exists v, completed chain b "nonconformant" ds = Ok v /\ verdict_with "nonconformant" v) as Hnon.
  { intros ds Ws Hds. apply completed_Ok; try done.
    - eapply Forall_impl; [exact Ws|]. by intros d [].
    - by apply incomplete_structural.
    - by apply requiredStatus_structural. }
  destruct chain as [|first rest]; [done|].
  assert (base = [] <-> check_committed (first :: rest) ap = Ok (first :: rest)) as Ec.
  { rewrite Eb. apply base_findings_nil. apply Forall_cons in Hok as [[W _] _]. apply wf_outcome, W. }
  unfold conforms. rewrite Ha.
  destruct base as [|d base].
  - pose proof (proj1 Ec eq_refl) as Hcc.
    destruct (runStrictInvariants_Ok (c_receipt <$> (first :: rest))) as (ds & -> & Ws & Es).
    { apply (accepted_checkable receipts ap). by rewrite Ha. }
    destruct ds as [|d ds].
    + destruct (completed_Ok (first :: rest) b "conformant" []) as (v & Hv & Hw); try done.
      exists v. split; [done|]. left. exists (first :: rest).
      split; [done|]. split; [|done]. split; [done|by apply Es].
    + destruct (Hnon (d :: ds) Ws) as (v & Hv & Hw); [done|]. exists v. split; [done|]. right. left.
      exists (first :: rest). split; [done|]. split; [|done]. intros [_ ?%Es]. done.
  - destruct (Hnon (d :: base) Wb) as (v & Hv & Hw); [done|]. exists v. split; [done|]. right. left.
    exists (first :: rest). split; [done|]. split; [|done]. intros [?%Ec _]. done.
Qed.

(** The verifier is bound: the options are accepted, the canary and the artifact
    check out, and the policy allows this verifier on this runtime. *)
Definition bound (host : process_host) (options : jsv) (capability : option nat) (w : world) : Prop :=
  validateOptions options = Ok None /\ exists b w', bindVerifier host w capability = (Ok b, w').

Lemma verify_answer files host receipts options capability w :
  cap_reachable files w ->
  exists v w', verifyPomRxChainProfiled host receipts options capability w = (Ok v, w') /\
    (bound host options capability w /\ (exists chain, receipts_of receipts chain /\
       conforms receipts (allow_partial options) chain) /\ verdict_with "conformant" v \/
     bound host options capability w /\ (exists chain, receipts_of receipts chain /\
       ~ conforms receipts (allow_partial options) chain) /\ verdict_with "nonconformant" v \/
     (bound host options capability w -> forall chain, ~ receipts_of receipts chain) /\
       verdict_with "indeterminate" v).
Proof.
  intros Hw. unfold verifyPomRxChainProfiled, bound.
  destruct (validateOptions_Ok options) as [-> | (d & -> & Hd)].
  2:{ destruct (indeterminate_Ok d None Hd) as (v & Hv & Hwv); [done|]. exists v, w. rewrite Hv.
      split; [done|]. right; right. split; [|done]. by intros []. }
  destruct (bindVerifier host w capability) as [[b|e] w'] eqn:Eb.
  - destruct (verify_bound_Ok receipts (allow_partial options) b) as (v & -> & Hv);
      [by eapply bindVerifier_ok|].
    exists v, w'. split; [done|].
    destruct Hv as [(c & ? & ? & ?)|[(c & ? & ? & ?)|[? ?]]].
    + left. split; [by eauto|]. by eauto.
    + right; left. split; [by eauto|]. by eauto.
    + by right; right.
  - destruct (diagnosticFromError_Ok e) as (d & -> & Hd); [by eapply bindVerifier_throws|].
    cbn [mbind res_bind]. destruct (indeterminate_Ok d None Hd) as (v & -> & Hwv); [done|].
    exists v, w'. split; [done|]. right; right. split; [|done]. by intros (_ & ? & ? & [=]).
Qed.

Lemma status_unique s s' v :
  verdict_with s v -> get (js "structural_status") v = VStr (js s') -> js s = js s'.
Proof. intros [E _] E'. congruence. Qed.

(** A binding uses the capability up. *)
Lemma bindVerifier_uses (files : jsstr -> option (list N)) host w c b w' :
  bindVerifier host w (Some c) = (Ok b, w') ->
  exists r, capabilities w' !! c = Some r /\ cap_used r = true.
Proof.
  unfold bindVerifier. destruct (measure_artifact host w (Some c)) as [artifact|]; [|done].
  destruct (bindFreshPomRxPolicyCapability _ _ _ _) as [[i|] w1] eqn:Eb; [|done].
  destruct (consumeFreshPomRxPolicyBinding w1 (Some i)) as [policy w2] eqn:Ec. intros [= _ <-].
  pose proof (steps_later files w1 w2) as Hl.
  assert (w2 = (consumeFreshPomRxPolicyBinding w1 (Some i)).2) as Hw2 by (by rewrite Ec).
  rewrite Hw2 in Hl |- *. specialize (Hl (rtc_once _ _ (step_consume files w1 (Some i)))).
  assert (exists r, capabilities w1 !! c = Some (mark_used r)) as [r Hr].
  { revert Eb. unfold bindFreshPomRxPolicyCapability.
    destruct (fresh_capability w (Some c)) as [[c' r]|] eqn:Ef; [|done].
    apply fresh_capability_Ok in Ef as ([= <-] & Hc & _).
    destruct (decide_binding _ _ _); [|done]. intros [= _ <-]. exists r.
    pose proof (set_cap_lookup w c mark_used c) as E. rewrite decide_True, Hc in E by done. exact E. }
  destruct (wl_capabilities _ _ Hl c _ Hr) as (r' & ? & Hl'). exists r'.
  split; [done|]. by apply (cl_used _ _ Hl').
Qed.

(** A binding is one call of bind and one of consume, or neither. *)
Lemma bindVerifier_steps files host w capability :
  rtc (cap_step files) w (bindVerifier host w capability).2.
Proof.
  unfold bindVerifier. destruct (measure_artifact host w capability) as [artifact|]; [|done].
  set (selected := selected_tuple _).
  pose proof (step_bind files w capability selected (measured_runtime host)) as Hb.
  destruct (bindFreshPomRxPolicyCapability _ _ _ _) as [[i|] w1]; [|by apply rtc_once].
  pose proof (step_consume files w1 (Some i)) as Hc.
  destruct (consumeFreshPomRxPolicyBinding w1 (Some i)) as [policy w2].
  by eapply rtc_l; [exact Hb|apply rtc_once].
Qed.

Lemma refused_unbound host w c :
  refused w c -> exists e, bindVerifier host w (Some c) = (Throw e, w).
Proof.
  intros (e & _ & Hi & _). unfold bindVerifier.
  assert (exists e', measure_artifact host w (Some c) = Throw e') as [e' ->]; [|by exists e'].
  unfold measure_artifact. destruct (runRuntimeCanary host) as [|e']; [|by exists e'].
  cbn [mbind res_bind]. rewrite Hi. by exists e.
Qed.

Lemma unbound_world host receipts options c w :
  refused w c ->
  (verifyPomRxChainProfiled host receipts options (Some c) w).2 = w /\
  ~ bound host options (Some c) w.
Proof.
  intros Hr. destruct (refused_unbound host w c Hr) as [e He].
  unfold verifyPomRxChainProfiled, bound. rewrite He. split; [|by intros (_ & ? & ? & [=])].
  by destruct (validateOptions options) as [[d|]|].
Qed.

(** ** Properties *)

(** C1: the strict verifier is exact.  It always returns a verdict, which keeps
    the contract of a verdict and so never authorizes.  The verdict is conformant
    exactly if the verifier is bound under a policy and the receipts are a chain
    the plain verifier accepts whose receipts satisfy the five strict invariants;
    it is nonconformant exactly if the verifier is bound and the receipts commit
    to something else; in every other case it is indeterminate. *)
Theorem verifyPomRxChainProfiled_exact files host receipts options capability w :
  cap_reachable files w ->
  exists v w' ds, verifyPomRxChainProfiled host receipts options capability w = (Ok v, w') /\
    verdict_contract v ds /\
    let status s := get (js "structural_status") v = VStr (js s) in
    let committed_as P := exists chain, receipts_of receipts chain /\ P chain in
    let conforming chain := conforms receipts (allow_partial options) chain in
    (status "conformant" <-> bound host options capability w /\ committed_as conforming) /\
    (status "nonconformant" <->
       bound host options capability w /\ committed_as (fun chain => ~ conforming chain)) /\
    (status "indeterminate" <->
       ~ (bound host options capability w /\ exists chain, receipts_of receipts chain)).
Proof.
  intros Hw. destruct (verify_answer files host receipts options capability w Hw)
    as (v & w' & Hv & H). exists v, w'.
  assert (forall c c', receipts_of receipts c -> receipts_of receipts c' -> c = c') as Hu.
  { intros c c' (? & -> & _ & ?) (? & [= <-] & _ & ?). congruence. }
  assert (exists ds, verdict_contract v ds) as [ds Hds]
    by (destruct H as [(_ & _ & _ & ?)|[(_ & _ & _ & ?)|(_ & _ & ?)]]; done).
  exists ds. split; [done|]. split; [done|]. cbv zeta.
  destruct H as [(Hb & (c & Hr & Hc) & [E _])|[(Hb & (c & Hr & Hc) & [E _])|(Hn & [E _])]]; rewrite E.
  - split; [by naive_solver|]. split; split; try discriminate.
    + intros (_ & c' & Hr' & Hc'). by rewrite (Hu c' c Hr' Hr) in Hc'.
    + intros []. by eauto.
  - split; [split; [discriminate|]|split; [by naive_solver|split; [discriminate|]]].
    + intros (_ & c' & Hr' & Hc'). by rewrite (Hu c' c Hr' Hr) in Hc'.
    + intros []. by eauto.
  - split; [split; [discriminate|]|split; [split; [discriminate|]|]].
    + intros (Hb & c & Hr & _). by destruct (Hn Hb c).
    + intros (Hb & c & Hr & _). by destruct (Hn Hb c).
    + split; [|done]. intros _ (Hb & c & Hr). by destruct (Hn Hb c).
Qed.

(** C25: a policy capability serves one strict verification: once a verification
    was bound through it, every later one that presents it, with whatever
    receipts, options, process and after whatever other calls, is indeterminate
    and changes nothing. *)
Theorem verifyPomRxChainProfiled_single_use files host receipts options c w v w' w''
    host' receipts' options' :
  cap_reachable files w ->
  bound host options (Some c) w ->
  verifyPomRxChainProfiled host receipts options (Some c) w = (v, w') ->
  rtc (cap_step files) w' w'' ->
  exists v', verifyPomRxChainProfiled host' receipts' options' (Some c) w'' = (Ok v', w'') /\
    get (js "structural_status") v' = VStr (js "indeterminate").
Proof.
  intros Hw (Ho & b & w1 & Hb) Hv Hl.
  assert (w1 = w') as ->.
  { revert Hv. unfold verifyPomRxChainProfiled. rewrite Ho, Hb. by intros [= _ ?]. }
  destruct (bindVerifier_uses files _ _ _ _ _ Hb) as (r & Hr & Hu).
  destruct (wl_capabilities _ _ (steps_later files _ _ Hl) c r Hr) as (r' & Hr' & Hlat).
  assert (refused w'' c) as Href by (eapply refused_intro; eauto using cl_used).
  destruct (unbound_world host' receipts' options' c w'' Href) as [Hsame Hnb].
  assert (cap_reachable files w'') as Hw''.
  { unfold cap_reachable in *. etrans; [exact Hw|]. etrans; [|exact Hl].
    pose proof (bindVerifier_steps files host w (Some c)) as Hs. by rewrite Hb in Hs. }
  destruct (verify_answer files host' receipts' options' (Some c) w'' Hw'') as (v' & w3 & E & H).
  rewrite E in Hsame. simpl in Hsame. subst w3. exists v'. split; [done|].
  by destruct H as [(? & _)|[(? & _)|(_ & ? & _)]].
Qed.
End verifier_proofs.

(** ** A concrete verification *)

Section verifier_witness.
#[local] Existing Instances plain_string_host checksum_hash_host iso_date_host checksum_bytes_host.

Definition sample_artifact : artifact_identity :=
  {| artifact_verifier_version := POM_RX_V01_STRICT_VERIFIER_VERSION;
     artifact_implementation := repeat 97%N 64; artifact_expected := repeat 97%N 64;
     artifact_observed := repeat 97%N 64 |}.
#[local] Program Instance sample_artifact_verifier : ArtifactVerifier :=
  {| verifyPomRxArtifactIdentity _ _ := Ok sample_artifact |}.
Next Obligation. done. Qed.
Next Obligation. intros ? ? ? [= <-]. done. Qed.

Definition sample_process : process_host :=
  {| platform := js "linux"; measured_runtime := sample_runtime_value;
     canary_input := Some CANARY_INPUT_BYTES; canary_expected := Some CANARY_EXPECTED_BYTES |}.
Definition strict_options : jsv :=
  VObj PObject [(js "verificationProfile", VStr POM_RX_V01_STRICT_PROFILE)].

Definition strict_run : res jsv * world :=
  Eval vm_compute in
    verifyPomRxChainProfiled sample_process sample_receipts strict_options (Some 0%nat) sample_world.
Lemma strict_run_ok :
  verifyPomRxChainProfiled sample_process sample_receipts strict_options (Some 0%nat) sample_world
  = strict_run.
Proof. vm_compute. reflexivity. Qed.

Example strict_run_conformant :
  exists v, strict_run.1 = Ok v /\ get (js "structural_status") v = VStr (js "conformant").
Proof. eexists. split; vm_compute; reflexivity. Qed.

Lemma sample_bound : bound sample_process strict_options (Some 0%nat) sample_world.
Proof.
  split; [vm_compute; reflexivity|].
  destruct (bindVerifier sample_process sample_world (Some 0%nat)) as [[b|e] w'] eqn:E; [by eauto|].
  vm_compute in E. discriminate E.
Qed.

Lemma verifyPomRxChainProfiled_exact_witness :
  exists v w' ds,
    verifyPomRxChainProfiled sample_process sample_receipts strict_options (Some 0%nat) sample_world
      = (Ok v, w') /\ verdict_contract v ds.
Proof.
  destruct (verifyPomRxChainProfiled_exact sample_files sample_process sample_receipts strict_options
    (Some 0%nat) sample_world sample_world_reachable) as (v & w' & ds & E & C & _).
  exists v, w', ds. exact (conj E C).
Defined.

Lemma verifyPomRxChainProfiled_single_use_witness :
  exists v, verifyPomRxChainProfiled sample_process sample_receipts strict_options (Some 0%nat)
      strict_run.2 = (Ok v, strict_run.2) /\
    get (js "structural_status") v = VStr (js "indeterminate").
Proof.
  apply (verifyPomRxChainProfiled_single_use sample_files sample_process sample_receipts
    strict_options 0%nat sample_world strict_run.1 strict_run.2 strict_run.2 sample_process
    sample_receipts strict_options sample_world_reachable sample_bound strict_run_ok (rtc_refl _ _)).
Defined.
End verifier_witness.
