(* ===== verification/Base64.v ===== *)
(** * Base64

    [Buffer.prototype.toString('base64')] and [Buffer.from(value, 'base64')] of
    the runtime, the latter on the strings of [BASE64_PATTERN], the only ones
    the source decodes.  A byte is an [N] below 256. *)
From Stdlib Require Import ZifyN ZifyNat.
From S2P Require Import Prelude.

#[local] Arguments js : simpl never.
#[local] Open Scope N_scope.

Definition is_byte (b : N) : Prop := b < 256.

(** The character of six bits. *)
Definition sextet_char (n : N) : N :=
  if n <? 26 then 65 + n
  else if n <? 52 then 71 + n
  else if n <? 62 then n - 4
  else if n =? 62 then 43 else 47.

Definition char_sextet (c : N) : option N :=
  if is_upper c then Some (c - 65)
  else if is_lower c then Some (c - 71)
  else if is_digit c then Some (c + 4)
  else if c =? 43 then Some 62
  else if c =? 47 then Some 63 else None.

Definition pad : N := 61.

Fixpoint base64_encode (bytes : list N) : jsstr :=
  match bytes with
  | x :: y :: z :: rest =>
      sextet_char (x / 4) :: sextet_char (x mod 4 * 16 + y / 16) ::
      sextet_char (y mod 16 * 4 + z / 64) :: sextet_char (z mod 64) :: base64_encode rest
  | [x; y] =>
      [sextet_char (x / 4); sextet_char (x mod 4 * 16 + y / 16); sextet_char (y mod 16 * 4); pad]
  | [x] => [sextet_char (x / 4); sextet_char (x mod 4 * 16); pad; pad]
  | [] => []
  end.

(** The sextets up to the first character outside of the alphabet, and the rest. *)
Fixpoint sextets (s : jsstr) : list N * jsstr :=
  match s with
  | [] => ([], [])
  | c :: s' =>
      match char_sextet c with
      | Some n => let '(ns, rest) := sextets s' in (n :: ns, rest)
      | None => ([], s)
      end
  end.

(** The whole bytes of a sequence of sextets; left-over bits are dropped. *)
Fixpoint sextet_bytes (ns : list N) : list N :=
  match ns with
  | a :: b :: c :: d :: rest =>
      a * 4 + b / 16 :: b mod 16 * 16 + c / 4 :: c mod 4 * 64 + d :: sextet_bytes rest
  | [a; b; c] => [a * 4 + b / 16; b mod 16 * 16 + c / 4]
  | [a; b] => [a * 4 + b / 16]
  | _ => []
  end.

Definition base64_decode (s : jsstr) : list N := sextet_bytes (sextets s).1.

(** [/^[A-Za-z0-9+/]+={0,2}$/] *)
Definition BASE64_PATTERN (s : jsstr) : bool :=
  let '(ns, rest) := sextets s in
  (1 <=? length ns)%nat && bool_decide (rest ∈ [[]; [pad]; [pad; pad]]).

(** ** Round trips *)

#[local] Ltac by_ranges :=
  unfold char_sextet, sextet_char, is_alnum, is_alpha, is_upper, is_lower, is_digit, in_range in *;
  repeat case_match; simplify_eq;
  rewrite ?orb_true_iff, ?andb_true_iff, ?andb_false_iff, ?N.leb_le, ?N.leb_gt, ?N.ltb_lt, ?N.ltb_ge,
    ?N.eqb_eq, ?N.eqb_neq in *; lia.

Lemma char_of_sextet n : n < 64 -> char_sextet (sextet_char n) = Some n.
Proof.
  intros H.
  assert (Forall (fun n => char_sextet (sextet_char n) = Some n) (N.of_nat <$> seq 0 64)) as Hall
    by (vm_compute; repeat constructor).
  rewrite List.Forall_forall in Hall. apply Hall. apply list_elem_of_In, list_elem_of_fmap.
  exists (N.to_nat n). split; [lia|]. apply elem_of_seq. lia.
Qed.

Lemma char_sextet_inv c n : char_sextet c = Some n -> n < 64 /\ sextet_char n = c.
Proof.
  intros H. by_ranges.
Qed.

Lemma sextets_encode ns rest :
  Forall (fun n => n < 64) ns -> (forall c r, rest = c :: r -> char_sextet c = None) ->
  sextets (map sextet_char ns ++ rest) = (ns, rest).
Proof.
  intros Hn Hr. induction Hn as [|n ns Hn _ IH]; simpl.
  - destruct rest as [|c r]; [done|]. simpl. by rewrite (Hr c r).
  - by rewrite char_of_sextet, IH.
Qed.

(** Induction three bytes at a time. *)
Lemma triples_ind (P : list N -> Prop) :
  P [] -> (forall x, P [x]) -> (forall x y, P [x; y]) ->
  (forall x y z l, P l -> P (x :: y :: z :: l)) -> forall l, P l.
Proof.
  intros H0 H1 H2 H3. fix IH 1. intros [|x [|y [|z l]]]; [exact H0|apply H1|apply H2|apply H3, IH].
Qed.

(** Induction four sextets at a time. *)
Lemma quads_ind (P : list N -> Prop) :
  P [] -> (forall a, P [a]) -> (forall a b, P [a; b]) -> (forall a b c, P [a; b; c]) ->
  (forall a b c d l, P l -> P (a :: b :: c :: d :: l)) -> forall l, P l.
Proof.
  intros H0 H1 H2 H3 H4. fix IH 1.
  intros [|a [|b [|c [|d l]]]]; [exact H0|apply H1|apply H2|apply H3|apply H4, IH].
Qed.

(** The sextets of the text of some bytes, and its padding. *)
Lemma encode_shape bytes : Forall is_byte bytes ->
  exists ns padding, base64_encode bytes = map sextet_char ns ++ padding /\
    Forall (fun n => n < 64) ns /\ padding ∈ [[]; [pad]; [pad; pad]] /\
    sextet_bytes ns = bytes /\ (length ns + length padding = 4 * ((length bytes + 2) / 3))%nat /\
    (length bytes <= length ns)%nat.
Proof.
  unfold is_byte. induction bytes as [|x|x y|x y z bytes IH] using triples_ind; intros H.
  - exists [], []. split; [done|]. split; [apply List.Forall_nil|]. split; [left|]. done.
  - inv H. exists [x / 4; x mod 4 * 16], [pad; pad]. split; [done|].
    split; [repeat (apply List.Forall_cons; [lia|]); apply List.Forall_nil|]. split; [right; right; left|]. split; [|cbn [length]; lia].
    simpl. f_equal. lia.
  - inv H. match goal with H : Forall _ [y] |- _ => inv H end.
    exists [x / 4; x mod 4 * 16 + y / 16; y mod 16 * 4], [pad]. split; [done|].
    split; [repeat (apply List.Forall_cons; [lia|]); apply List.Forall_nil|]. split; [right; left|]. split; [|simpl; lia].
    simpl. repeat f_equal; lia.
  - inv H. match goal with H : Forall _ (y :: _) |- _ => inv H end.
    match goal with H : Forall _ (z :: _) |- _ => inv H end.
    cbn [base64_encode]. destruct IH as (ns & padding & -> & Hn & Hp & <- & Hl & Hl'); [done|].
    exists (x / 4 :: x mod 4 * 16 + y / 16 :: y mod 16 * 4 + z / 64 :: z mod 64 :: ns), padding.
    split; [done|]. split; [repeat (apply List.Forall_cons; [lia|]); done|]. split; [done|]. split.
    + cbn [sextet_bytes]. repeat f_equal; lia.
    + cbn [length] in *. split; [|lia].
      replace (S (S (S (length (sextet_bytes ns)))) + 2)%nat
        with (1 * 3 + (length (sextet_bytes ns) + 2))%nat by lia.
      rewrite Nat.div_add_l by done. lia.
Qed.

Lemma padding_stops (padding : jsstr) c r :
  padding ∈ [[]; [pad]; [pad; pad]] -> padding = c :: r -> char_sextet c = None.
Proof.
  rewrite !elem_of_cons, elem_of_nil. intros [->|[->|[->|[]]]] [= <- _]; reflexivity.
Qed.

(** Decoding the text of some bytes gives the bytes. *)
Lemma base64_decode_encode bytes : Forall is_byte bytes -> base64_decode (base64_encode bytes) = bytes.
Proof.
  intros (ns & padding & E & Hn & Hp & Hb & _)%encode_shape. unfold base64_decode.
  rewrite E, sextets_encode; [done|done|]. intros c r. by apply padding_stops.
Qed.

Lemma base64_encode_pattern bytes :
  Forall is_byte bytes -> bytes <> [] -> BASE64_PATTERN (base64_encode bytes) = true.
Proof.
  intros (ns & padding & E & Hn & Hp & Hb & Hl & Hl')%encode_shape Hne. unfold BASE64_PATTERN.
  rewrite E, sextets_encode; [|done|intros c r; by apply padding_stops].
  apply andb_true_iff. split; [|by apply bool_decide_eq_true].
  apply Nat.leb_le. destruct bytes; [done|]. simpl in Hl'. lia.
Qed.

Lemma base64_encode_length bytes :
  Forall is_byte bytes -> (length (base64_encode bytes) = 4 * ((length bytes + 2) / 3))%nat.
Proof.
  intros (ns & padding & E & _ & _ & _ & Hl & _)%encode_shape.
  by rewrite E, length_app, length_map.
Qed.

Lemma base64_encode_inj b1 b2 :
  Forall is_byte b1 -> Forall is_byte b2 -> base64_encode b1 = base64_encode b2 -> b1 = b2.
Proof.
  intros H1 H2 E. rewrite <- (base64_decode_encode b1), E by done. by apply base64_decode_encode.
Qed.

Lemma sextets_bound s : Forall (fun n => n < 64) (sextets s).1.
Proof.
  induction s as [|c s IH]; [constructor|]. simpl. destruct (char_sextet c) as [n|] eqn:E; [|constructor].
  destruct (sextets s) as [ns rest]. constructor; [|done]. by apply char_sextet_inv in E as [? _].
Qed.

Lemma sextet_bytes_bound ns : Forall (fun n => n < 64) ns -> Forall is_byte (sextet_bytes ns).
Proof.
  unfold is_byte. induction ns as [| | | |a b c d ns IH] using quads_ind; intros H;
    repeat match goal with H : Forall _ (_ :: _) |- _ => inv H end; simpl;
    repeat (apply List.Forall_cons; [lia|]); try apply List.Forall_nil. by apply IH.
Qed.

Lemma base64_decode_bytes s : Forall is_byte (base64_decode s).
Proof. apply sextet_bytes_bound, sextets_bound. Qed.

(** A text that encodes what it decodes to is plain. *)
Lemma sextet_char_alphabet n : n < 64 ->
  is_alnum (sextet_char n) = true \/ sextet_char n = 43 \/ sextet_char n = 47.
Proof.
  intros H. by_ranges.
Qed.
