(* ===== verification/Witness.v ===== *)
(** * Source envelopes and witness acknowledgements

    Models [sdk/typescript/pom-rx-witness.mjs] on inert values.  Ed25519 keys
    and signatures are those of the runtime, the interface [KeyHost]; a private
    key argument is one the runtime accepts.  A result of the two verifiers is
    [Verified] or [Refused] with the message of the error. *)
From S2P Require Import Prelude JsDate JsValue ProofSdk Canonical Receipt Normal PomRx Base64.

#[local] Arguments js : simpl never.

Definition POM_RX_SOURCE_ENVELOPE_VERSION : jsstr := js "pom-rx-source-envelope/0.1".
Definition POM_RX_WITNESS_ACK_VERSION : jsstr := js "pom-rx-witness-ack/0.1".

Definition envelope_keys : list jsstr := js <$>
  ["schema_version"; "receipt"; "receipt_hash"; "source_public_key"; "source_signature"].
Definition ack_keys : list jsstr := js <$>
  ["schema_version"; "receipt_hash"; "receipt_id"; "run_id"; "outcome"; "source_key_id";
   "received_at"; "valid_until"; "mode"; "witness_key_id"; "witness_public_key";
   "witness_signature"].

(** ** Keys and signatures

    [crypto.createPublicKey] on the DER of a SubjectPublicKeyInfo, [export] to
    it, [crypto.sign] and [crypto.verify] on the UTF-8 text of a message.  The
    laws are those of Ed25519 (RFC 8032, RFC 8410): the DER of a key has 44
    bytes and decodes to the key, a signature has 64 bytes and verifies under
    the public key of its signer. *)
Class KeyHost := {
  public_key : Type;
  private_key : Type;
  create_public_key : list N -> res public_key;
  is_ed25519 : public_key -> bool;
  export_spki : public_key -> list N;
  public_of : private_key -> public_key;
  sign_message : jsstr -> private_key -> list N;
  verify_message : jsstr -> public_key -> list N -> bool;
  export_spki_bytes k : Forall is_byte (export_spki k);
  export_spki_length k : is_ed25519 k = true -> length (export_spki k) = 44%nat;
  create_export k : is_ed25519 k = true -> create_public_key (export_spki k) = Ok k;
  sign_bytes m sk : Forall is_byte (sign_message m sk);
  sign_length m sk : is_ed25519 (public_of sk) = true -> length (sign_message m sk) = 64%nat;
  verify_sign m sk :
    is_ed25519 (public_of sk) = true -> verify_message m (public_of sk) (sign_message m sk) = true;
}.

(** The result of a verifier that catches every error. *)
Inductive verification (A : Type) :=
  | Verified (a : A)
  | Refused (error : jsstr).
Arguments Verified {A} _.
Arguments Refused {A} _.

Definition verification_of {A} (m : res A) : verification A :=
  match m with Ok a => Verified a | Throw e => Refused (err_msg e) end.

(** [a === b] on inert values; two objects are never the same one. *)
Definition strict_equal (a b : jsv) : bool :=
  match a, b with
  | VUndef, VUndef | VNull, VNull => true
  | VBool x, VBool y => eqb x y
  | VNum NNaN, VNum NNaN => false
  | VNum x, VNum y => bool_decide (x = y)
  | VStr s, VStr t => str_eqb s t
  | VFun f, VFun g => (f =? g)%nat
  | VSym i, VSym j => (i =? j)%nat
  | VBig x, VBig y => x =? y
  | _, _ => false
  end.

(** ** The module *)

Section witness.
Context `{SH : !StringHost, HH : !HashHost, BH : !ByteHashHost, DH : !DateHost, KH : !KeyHost}.

(** [String(v)] on inert values, which [RegExp.prototype.test] applies to its
    argument.  The source text of a function is not modelled: it never has the
    form of a key id. *)
Fixpoint to_string (v : jsv) : res jsstr :=
  match v with
  | VUndef => Ok (js "undefined")
  | VNull => Ok (js "null")
  | VBool b => Ok (if b then js "true" else js "false")
  | VNum n => Ok (number_to_string n)
  | VStr s => Ok s
  | VFun _ => Ok (js "function")
  | VSym _ => Throw (type_error (js "Cannot convert a Symbol value to a string"))
  | VBig z => Ok (string_of_Z z)
  | VArr items =>
      parts ← map_res (fun x => match x with VNull | VUndef => Ok [] | _ => to_string x end) items;
      Ok (join_comma parts)
  | VObj PObject entries =>
      if mem_str (js "toString") entries.*1
      then Throw (type_error (js "Cannot convert object to primitive value"))
      else Ok (js "[object Object]")
  | VObj _ _ => Throw (type_error (js "Cannot convert object to primitive value"))
  end.

(** [assert(KEY_ID_PATTERN.test(v), message)] *)
Definition assert_key_id (v : jsv) (message : string) : res unit :=
  s ← to_string v; assert (key_id_pattern s) (js message).

Definition toEd25519PublicKey (key : public_key) : res public_key :=
  _ ← assert (is_ed25519 key) (js "Key must be Ed25519"); Ok key.

Definition decodePublicKey (value : jsv) : res public_key :=
  s ← string_where (fun s => (40 <=? length s)%nat && (length s <=? 256)%nat && BASE64_PATTERN s)
        value (js "Public key must be bounded base64");
  let bytes := base64_decode s in
  _ ← assert (str_eqb (base64_encode bytes) s) (js "Public key must use canonical base64");
  key ← create_public_key bytes;
  _ ← assert (is_ed25519 key) (js "Public key must be Ed25519");
  Ok key.

Definition decodeSignature (value : jsv) (label : string) : res (list N) :=
  s ← string_where (fun s => (80 <=? length s)%nat && (length s <=? 128)%nat && BASE64_PATTERN s)
        value (js label ++ js " must be bounded base64");
  let bytes := base64_decode s in
  _ ← assert (str_eqb (base64_encode bytes) s) (js label ++ js " must use canonical base64");
  _ ← assert (length bytes =? 64)%nat (js label ++ js " must be an Ed25519 signature");
  Ok bytes.

Definition exportPublicKey (key : public_key) : res jsstr :=
  k ← toEd25519PublicKey key; Ok (base64_encode (export_spki k)).

Definition pomRxKeyId (key : public_key) : res jsstr :=
  k ← toEd25519PublicKey key; Ok (js "ed25519-" ++ take 32 (sha256_bytes (export_spki k))).

Definition sourceSignatureMessage (receiptHash : jsstr) : jsstr :=
  js "swisstokint:pom-rx-source:v1:" ++ receiptHash.

Definition witnessSignatureMessage (payload : jsv) : res jsstr :=
  canonical ← canonicalizePayload payload;
  Ok (js "swisstokint:pom-rx-witness-ack:v1:" ++ canonical).

(** ** Source envelopes *)

Definition createPomRxSourceEnvelope (receipt : jsv) (sourcePrivateKey : private_key) : res jsv :=
  committed ← commitPomRxReceipt receipt;
  sourcePublicKey ← toEd25519PublicKey (public_of sourcePrivateKey);
  sourceKeyId ← pomRxKeyId sourcePublicKey;
  _ ← assert (str_eqb (source_key_id (c_receipt committed)) sourceKeyId)
        (js "Receipt source_key_id does not match the source signing key");
  spki ← exportPublicKey sourcePublicKey;
  Ok (VObj PObject
    [(js "schema_version", VStr POM_RX_SOURCE_ENVELOPE_VERSION);
     (js "receipt", pom_value (c_receipt committed));
     (js "receipt_hash", VStr (receiptHash committed));
     (js "source_public_key", VStr spki);
     (js "source_signature",
       VStr (base64_encode
         (sign_message (sourceSignatureMessage (receiptHash committed)) sourcePrivateKey)))]).

(** The receipt of an accepted envelope with its hash, and the key id. *)
Record source_verified := {
  sv_committed : committed;
  sv_key_id : jsstr;
}.

Definition check_envelope (envelope : jsv) : res source_verified :=
  _ ← assertExactKeys envelope envelope_keys "POM-RX source envelope";
  let field k := get (js k) envelope in
  _ ← assert (is_str (field "schema_version") POM_RX_SOURCE_ENVELOPE_VERSION)
        (js "Unsupported POM-RX source envelope version");
  receipt_hash ← assertHash (field "receipt_hash") "receipt_hash";
  committed ← commitPomRxReceipt (field "receipt");
  _ ← assert (str_eqb (receiptHash committed) receipt_hash)
        (js "Source envelope receipt hash does not match");
  publicKey ← decodePublicKey (field "source_public_key");
  sourceKeyId ← pomRxKeyId publicKey;
  _ ← assert (str_eqb (source_key_id (c_receipt committed)) sourceKeyId)
        (js "Source public key does not match receipt source_key_id");
  signature ← decodeSignature (field "source_signature") "Source signature";
  _ ← assert (verify_message (sourceSignatureMessage receipt_hash) publicKey signature)
        (js "Source signature is invalid");
  Ok {| sv_committed := committed; sv_key_id := sourceKeyId |}.

Definition verifyPomRxSourceEnvelope (envelope : jsv) : verification source_verified :=
  verification_of (check_envelope envelope).

(** ** Witness acknowledgements *)

(** The signed part of an acknowledgement. *)
Definition ack_payload (receipt_hash receipt_id run_id outcome source_key_id received_at valid_until
    mode witness_key_id : jsv) : list (jsstr * jsv) :=
  [(js "schema_version", VStr POM_RX_WITNESS_ACK_VERSION); (js "receipt_hash", receipt_hash);
   (js "receipt_id", receipt_id); (js "run_id", run_id); (js "outcome", outcome);
   (js "source_key_id", source_key_id); (js "received_at", received_at);
   (js "valid_until", valid_until); (js "mode", mode); (js "witness_key_id", witness_key_id)].

(** [new Date(a).getTime() - new Date(b).getTime()], [None] for [NaN] *)
Definition ms_between (a b : jsstr) : option Z :=
  x ← date_parse a; y ← date_parse b; Some (x - y).
Definition at_least (bound : Z) (d : option Z) : bool :=
  match d with Some d => bound <=? d | None => false end.
Definition at_most (bound : Z) (d : option Z) : bool :=
  match d with Some d => d <=? bound | None => false end.

(** [new Date(t).toISOString()] *)
Definition to_iso_checked (t : option Z) : res jsstr :=
  match t with
  | Some t => if time_valid t then Ok (to_iso_string t)
              else Throw (Err RangeErr [] (js "Invalid time value"))
  | None => Throw (Err RangeErr [] (js "Invalid time value"))
  end.

(** [createPomRxWitnessAck(envelope, key, { receivedAt, mode, validForMs })] once
    the defaults of the last argument are in place. *)
Definition createPomRxWitnessAck (envelope : jsv) (witnessPrivateKey : private_key)
    (receivedAt mode validForMs : jsv) : res jsv :=
  verified ← (match verifyPomRxSourceEnvelope envelope with
              | Verified v => Ok v
              | Refused error => Throw (type_error error)
              end);
  let receipt := c_receipt (sv_committed verified) in
  _ ← assert (bool_decide (p_phase receipt = Preflight)) (js "Witness accepts preflight receipts only");
  _ ← assert (is_str mode (js "witnessed") || is_str mode (js "dry_run"))
        (js "Unsupported witness acknowledgement mode");
  validity ← (match is_safe_integer validForMs with
              | Some ms => if (1000 <=? ms) && (ms <=? 300000) then Ok ms
                  else Throw (type_error (js "validForMs must be between 1 second and 5 minutes"))
              | None => Throw (type_error (js "validForMs must be between 1 second and 5 minutes"))
              end);
  normalizedReceivedAt ← normalizeDateTime receivedAt "received_at";
  let receivedAtMs := date_parse normalizedReceivedAt in
  _ ← assert (at_least 0 (ms_between normalizedReceivedAt (p_occurred_at receipt)))
        (js "Witness cannot receive a preflight before its source occurrence time");
  witnessPublicKey ← toEd25519PublicKey (public_of witnessPrivateKey);
  witnessKeyId ← pomRxKeyId witnessPublicKey;
  _ ← assert (negb (str_eqb witnessKeyId (sv_key_id verified)))
        (js "Source and witness signing keys must be distinct");
  validUntil ← to_iso_checked (t ← receivedAtMs; Some (t + validity));
  let payload := ack_payload (VStr (receiptHash (sv_committed verified)))
    (VStr (p_receipt_id receipt)) (VStr (run_id receipt)) (VStr (outcome_name (p_outcome receipt)))
    (VStr (sv_key_id verified)) (VStr normalizedReceivedAt) (VStr validUntil) mode
    (VStr witnessKeyId) in
  spki ← exportPublicKey witnessPublicKey;
  message ← witnessSignatureMessage (VObj PObject payload);
  Ok (VObj PObject (payload ++
    [(js "witness_public_key", VStr spki);
     (js "witness_signature", VStr (base64_encode (sign_message message witnessPrivateKey)))])).

(** What the caller of the verifier expects; [VUndef] is an absent field. *)
Record ack_expectation := {
  ex_receiptHash : jsv;
  ex_receiptId : jsv;
  ex_runId : jsv;
  ex_outcome : jsv;
  ex_sourceKeyId : jsv;
  ex_mode : jsv;
  ex_witnessKeyId : jsv;
  ex_requireUnexpired : bool;   (* expected.requireUnexpired === true *)
  ex_currentTime : jsv;
}.

(** [expectedFields], with the value each field expects. *)
Definition expectedFields (expected : ack_expectation) : list (string * jsv) :=
  [("receipt_hash", ex_receiptHash expected); ("receipt_id", ex_receiptId expected);
   ("run_id", ex_runId expected); ("outcome", ex_outcome expected);
   ("source_key_id", ex_sourceKeyId expected); ("mode", ex_mode expected);
   ("witness_key_id", ex_witnessKeyId expected)].

Definition check_expected (ack : jsv) (field : string * jsv) : res unit :=
  match field.2 with
  | VUndef => Ok tt
  | v => assert (strict_equal (get (js field.1) ack) v)
           (js "Witness " ++ js field.1 ++ js " does not match expectation")
  end.

(** The part of the verification that reads the clock of the expectation;
    [now] is the text of [new Date()]. *)
Definition check_unexpired (expected : ack_expectation) (now receivedAt validUntil : jsstr) : res unit :=
  match ex_requireUnexpired expected with
  | false => Ok tt
  | true =>
      currentTime ← normalizeDateTime
        (match ex_currentTime expected with VUndef | VNull => VStr now | v => v end) "currentTime";
      _ ← assert (str_leb receivedAt currentTime) (js "Witness acknowledgement is not yet valid");
      assert (str_leb currentTime validUntil) (js "Witness acknowledgement has expired")
  end.

Record ack_verified := {
  av_payload : list (jsstr * jsv);
  av_acknowledgementHash : jsstr;
}.

Definition check_ack (ack : jsv) (expected : ack_expectation) (now : jsstr) : res ack_verified :=
  _ ← assertExactKeys ack ack_keys "POM-RX witness acknowledgement";
  let field k := get (js k) ack in
  _ ← assert (is_str (field "schema_version") POM_RX_WITNESS_ACK_VERSION)
        (js "Unsupported witness acknowledgement version");
  receipt_hash ← assertHash (field "receipt_hash") "receipt_hash";
  receipt_id ← string_where (fun s => (16 <=? length s)%nat) (field "receipt_id")
        (js "receipt_id is invalid");
  run_id ← string_where (fun s => (16 <=? length s)%nat) (field "run_id") (js "run_id is invalid");
  _ ← assert (is_str (field "outcome") (js "allow") || is_str (field "outcome") (js "deny"))
        (js "Witness outcome must be allow or deny");
  _ ← assert_key_id (field "source_key_id") "source_key_id is invalid";
  _ ← assert (is_str (field "mode") (js "witnessed") || is_str (field "mode") (js "dry_run"))
        (js "Unsupported witness acknowledgement mode");
  _ ← assert_key_id (field "witness_key_id") "witness_key_id is invalid";
  _ ← assert (negb (strict_equal (field "source_key_id") (field "witness_key_id")))
        (js "Source and witness signing keys must be distinct");
  receivedAt ← normalizeDateTime (field "received_at") "received_at";
  validUntil ← normalizeDateTime (field "valid_until") "valid_until";
  let validityMs := ms_between validUntil receivedAt in
  _ ← assert (at_least 1000 validityMs && at_most 300000 validityMs)
        (js "Witness acknowledgement validity must be between 1 second and 5 minutes");
  publicKey ← decodePublicKey (field "witness_public_key");
  keyId ← pomRxKeyId publicKey;
  _ ← assert (is_str (field "witness_key_id") keyId)
        (js "Witness public key does not match witness_key_id");
  let payload := ack_payload (field "receipt_hash") (field "receipt_id") (field "run_id")
    (field "outcome") (field "source_key_id") (VStr receivedAt) (VStr validUntil) (field "mode")
    (field "witness_key_id") in
  message ← witnessSignatureMessage (VObj PObject payload);
  signature ← decodeSignature (field "witness_signature") "Witness signature";
  _ ← assert (verify_message message publicKey signature) (js "Witness signature is invalid");
  _ ← for_each (check_expected ack) (expectedFields expected);
  _ ← check_unexpired expected now receivedAt validUntil;
  Ok {| av_payload := payload; av_acknowledgementHash := sha256Hex message |}.

Definition verifyPomRxWitnessAck (ack : jsv) (expected : ack_expectation) (now : jsstr)
  : verification ack_verified :=
  verification_of (check_ack ack expected now).

(** ** Keys and signatures *)

(** The key id of a key. *)
Definition key_id_of (k : public_key) : jsstr := js "ed25519-" ++ take 32 (sha256_bytes (export_spki k)).

Lemma key_id_of_pattern k : key_id_pattern (key_id_of k) = true.
Proof.
  unfold key_id_pattern, re_prefixed, key_id_of.
  rewrite take_app_length, drop_app_length, str_eqb_refl. simpl.
  pose proof (sha256_bytes_format (export_spki k)) as H. unfold hash_pattern, re_class in *.
  rewrite !andb_true_iff, !Nat.leb_le in *. destruct H as [[H1 H2] H3].
  rewrite length_take. split; [lia|].
  rewrite <- (take_drop 32 (sha256_bytes _)), forallb_app in H3. by apply andb_true_iff in H3 as [? _].
Qed.

Lemma pomRxKeyId_Ok k id : pomRxKeyId k = Ok id <-> is_ed25519 k = true /\ id = key_id_of k.
Proof.
  unfold pomRxKeyId, toEd25519PublicKey, assert. split.
  - intros H. inv_ok. done.
  - intros [-> ->]. done.
Qed.

Lemma exportPublicKey_Ok k s :
  exportPublicKey k = Ok s <-> is_ed25519 k = true /\ s = base64_encode (export_spki k).
Proof.
  unfold exportPublicKey, toEd25519PublicKey, assert. split.
  - intros H. inv_ok. done.
  - intros [-> ->]. done.
Qed.

Lemma decodePublicKey_Ok v k :
  decodePublicKey v = Ok k <->
  exists s, v = VStr s /\ (40 <= length s <= 256)%nat /\ BASE64_PATTERN s = true /\
    base64_encode (base64_decode s) = s /\ create_public_key (base64_decode s) = Ok k /\
    is_ed25519 k = true.
Proof.
  unfold decodePublicKey, assert. split.
  - intros H. apply bind_Ok in H as (s & [-> Hs]%string_where_Ok & H).
    apply guard_bind_Ok in H as [He%str_eqb_eq H]. apply bind_Ok in H as (k' & Hk & H).
    apply guard_bind_Ok in H as [Hd [= ->]].
    rewrite !andb_true_iff, !Nat.leb_le in Hs. exists s. naive_solver.
  - intros (s & -> & [H1 H2] & Hp & He & Hk & Hd).
    rewrite string_where_str; [|by rewrite (proj2 (Nat.leb_le _ _) H1), (proj2 (Nat.leb_le _ _) H2), Hp].
    cbn [mbind res_bind]. cbv zeta. rewrite He, str_eqb_refl. cbn [guard_or mbind res_bind].
    rewrite Hk. cbn [mbind res_bind]. by rewrite Hd.
Qed.

Lemma decodeSignature_Ok v label b :
  decodeSignature v label = Ok b <->
  exists s, v = VStr s /\ (80 <= length s <= 128)%nat /\ BASE64_PATTERN s = true /\
    base64_encode b = s /\ base64_decode s = b /\ length b = 64%nat.
Proof.
  unfold decodeSignature, assert. split.
  - intros H. apply bind_Ok in H as (s & [-> Hs]%string_where_Ok & H).
    apply guard_bind_Ok in H as [He%str_eqb_eq H].
    apply guard_bind_Ok in H as [Hd%Nat.eqb_eq [= <-]].
    rewrite !andb_true_iff, !Nat.leb_le in Hs. exists s. naive_solver.
  - intros (s & -> & [H1 H2] & Hp & He & Hb & Hd).
    rewrite string_where_str; [|by rewrite (proj2 (Nat.leb_le _ _) H1), (proj2 (Nat.leb_le _ _) H2), Hp].
    cbn [mbind res_bind]. cbv zeta. rewrite Hb, He, str_eqb_refl. cbn [guard_or mbind res_bind].
    by rewrite Hd.
Qed.

Lemma decode_exported k :
  is_ed25519 k = true -> decodePublicKey (VStr (base64_encode (export_spki k))) = Ok k.
Proof.
  intros Hk. pose proof (export_spki_bytes k) as Hb. pose proof (export_spki_length k Hk) as Hl.
  apply decodePublicKey_Ok. exists (base64_encode (export_spki k)). split; [done|].
  rewrite base64_decode_encode, base64_encode_length, Hl by done.
  split; [vm_compute; lia|]. split; [|split; [done|split; [by apply create_export|done]]].
  apply base64_encode_pattern; [done|]. intros E. by rewrite E in Hl.
Qed.

Lemma decode_signed m sk label :
  is_ed25519 (public_of sk) = true ->
  decodeSignature (VStr (base64_encode (sign_message m sk))) label = Ok (sign_message m sk).
Proof.
  intros Hk. pose proof (sign_bytes m sk) as Hb. pose proof (sign_length m sk Hk) as Hl.
  apply decodeSignature_Ok. exists (base64_encode (sign_message m sk)). split; [done|].
  rewrite base64_decode_encode, base64_encode_length, Hl by done.
  split; [vm_compute; lia|]. split; [|done].
  apply base64_encode_pattern; [done|]. intros E. by rewrite E in Hl.
Qed.

(** The two kinds of signed messages are never the same text. *)
Lemma signed_messages_differ receiptHash payload m :
  witnessSignatureMessage payload = Ok m -> sourceSignatureMessage receiptHash <> m.
Proof.
  unfold witnessSignatureMessage, sourceSignatureMessage. intros (c & _ & [= <-])%bind_Ok E.
  vm_compute in E. discriminate E.
Qed.

(** ** Source envelopes *)

(** [envelope] is signed by [k] for the committed receipt [c]. *)
Record envelope_for (envelope : jsv) (c : committed) (k : public_key) : Prop := {
  en_record : is_record envelope = true;
  en_keys : keys_of envelope ≡ₚ envelope_keys;
  en_version : get (js "schema_version") envelope = VStr POM_RX_SOURCE_ENVELOPE_VERSION;
  en_receipt : commitPomRxReceipt (get (js "receipt") envelope) = Ok c;
  en_hash : get (js "receipt_hash") envelope = VStr (receiptHash c);
  en_key : decodePublicKey (get (js "source_public_key") envelope) = Ok k;
  en_key_id : source_key_id (c_receipt c) = key_id_of k;
  en_signed : exists signature,
    decodeSignature (get (js "source_signature") envelope) "Source signature" = Ok signature /\
    verify_message (sourceSignatureMessage (receiptHash c)) k signature = true;
}.

Lemma receiptHash_format v c : commitPomRxReceipt v = Ok c -> hash_pattern (receiptHash c) = true.
Proof. intros (_ & _ & ->)%commitPomRxReceipt_Ok. apply sha256_hex_format. Qed.

Lemma check_envelope_Ok envelope v :
  check_envelope envelope = Ok v <->
  exists k, envelope_for envelope (sv_committed v) k /\ sv_key_id v = key_id_of k.
Proof.
  unfold check_envelope, assertHash, assert. split.
  - intros H. apply bind_Ok in H as ([] & [Hr Hk]%assertExactKeys_Ok & H).
    apply guard_bind_Ok in H as [Hv%is_str_eq H].
    apply bind_Ok in H as (h & [Hh _]%string_where_Ok & H). apply bind_Ok in H as (c & Hc & H).
    apply guard_bind_Ok in H as [He%str_eqb_eq H]. apply bind_Ok in H as (k & Hp & H).
    apply bind_Ok in H as (id & [Hd ->]%pomRxKeyId_Ok & H). apply guard_bind_Ok in H as [Hi%str_eqb_eq H].
    apply bind_Ok in H as (signature & Hsig & H). apply guard_bind_Ok in H as [Hver [= <-]].
    subst h. exists k. split; [|done]. split; try done. by exists signature.
  - intros (k & [Hr Hk Hv Hc Hh Hp Hi (signature & Hsig & Hver)] & Hid).
    rewrite (proj2 (assertExactKeys_Ok envelope envelope_keys "POM-RX source envelope" tt)) by done.
    cbn [mbind res_bind]. cbv zeta. rewrite Hv, Hh. cbn [is_str]. rewrite str_eqb_refl.
    cbn [guard_or mbind res_bind]. rewrite string_where_str by by eapply receiptHash_format.
    cbn [mbind res_bind]. rewrite Hc. cbn [mbind res_bind]. rewrite str_eqb_refl.
    cbn [guard_or mbind res_bind]. rewrite Hp. cbn [mbind res_bind].
    assert (is_ed25519 k = true) as Hd by by apply decodePublicKey_Ok in Hp as (? & _ & _ & _ & _ & _ & ?).
    rewrite (proj2 (pomRxKeyId_Ok k (key_id_of k))) by done. cbn [mbind res_bind].
    rewrite Hi, str_eqb_refl. cbn [guard_or mbind res_bind]. rewrite Hsig. cbn [mbind res_bind].
    rewrite Hver. cbn [guard_or mbind res_bind]. destruct v; simpl in *. congruence.
Qed.

Lemma verification_of_Verified {A} (m : res A) a : verification_of m = Verified a <-> m = Ok a.
Proof. destruct m; simpl; split; congruence. Qed.

(** What [createPomRxSourceEnvelope] returns. *)
Lemma createPomRxSourceEnvelope_Ok receipt sk envelope :
  createPomRxSourceEnvelope receipt sk = Ok envelope ->
  exists c, commitPomRxReceipt receipt = Ok c /\ is_ed25519 (public_of sk) = true /\
    source_key_id (c_receipt c) = key_id_of (public_of sk) /\
    envelope = VObj PObject
      [(js "schema_version", VStr POM_RX_SOURCE_ENVELOPE_VERSION);
       (js "receipt", pom_value (c_receipt c)); (js "receipt_hash", VStr (receiptHash c));
       (js "source_public_key", VStr (base64_encode (export_spki (public_of sk))));
       (js "source_signature",
         VStr (base64_encode (sign_message (sourceSignatureMessage (receiptHash c)) sk)))].
Proof.
  unfold createPomRxSourceEnvelope, toEd25519PublicKey, assert. intros H.
  apply bind_Ok in H as (c & Hc & H). apply bind_Ok in H as (k & Hk & H).
  apply guard_bind_Ok in Hk as [Hd [= <-]].
  apply bind_Ok in H as (id & [_ ->]%pomRxKeyId_Ok & H). apply guard_bind_Ok in H as [Hi%str_eqb_eq H].
  apply bind_Ok in H as (spki & [_ ->]%exportPublicKey_Ok & [= <-]). by exists c.
Qed.

(** A receipt whose references keep the length limit commits again. *)
Lemma recommit v c :
  commitPomRxReceipt v = Ok c ->
  ref_ok (agent_ref (c_receipt c)) = true -> ref_ok (subject_ref (c_receipt c)) = true ->
  commitPomRxReceipt (pom_value (c_receipt c)) = Ok c.
Proof.
  intros (Hv & Hc & Hh)%commitPomRxReceipt_Ok Ha Hs. apply commitPomRxReceipt_Ok.
  split; [|done]. apply revalidate; [by eapply validatePomRxReceipt_wf|done..].
Qed.

Lemma created_envelope receipt sk envelope c :
  createPomRxSourceEnvelope receipt sk = Ok envelope -> commitPomRxReceipt receipt = Ok c ->
  ref_ok (agent_ref (c_receipt c)) = true -> ref_ok (subject_ref (c_receipt c)) = true ->
  envelope_for envelope c (public_of sk).
Proof.
  intros (c' & Hc' & Hd & Hi & ->)%createPomRxSourceEnvelope_Ok Hc Ha Hs.
  assert (c' = c) as -> by congruence. split; try done.
  - by eapply recommit.
  - by apply decode_exported.
  - eexists. split; [by apply decode_signed|by apply verify_sign].
Qed.

(** an envelope made for a receipt with an Ed25519 key verifies, to that receipt
    and the id of the key. *)
Theorem source_envelope_roundtrip receipt sk envelope c :
  createPomRxSourceEnvelope receipt sk = Ok envelope -> commitPomRxReceipt receipt = Ok c ->
  ref_ok (agent_ref (c_receipt c)) = true -> ref_ok (subject_ref (c_receipt c)) = true ->
  verifyPomRxSourceEnvelope envelope =
    Verified {| sv_committed := c; sv_key_id := key_id_of (public_of sk) |}.
Proof.
  intros. unfold verifyPomRxSourceEnvelope. apply verification_of_Verified, check_envelope_Ok.
  exists (public_of sk). split; [by eapply created_envelope|done].
Qed.

(** ** Acknowledgements *)

Definition ack_message (canonical : jsstr) : jsstr :=
  js "swisstokint:pom-rx-witness-ack:v1:" ++ canonical.

(** The payload of an acknowledgement whose times are [r] and [u]. *)
Definition payload_of_ack (ack : jsv) (r u : Z) : list (jsstr * jsv) :=
  let field k := get (js k) ack in
  ack_payload (field "receipt_hash") (field "receipt_id") (field "run_id") (field "outcome")
    (field "source_key_id") (VStr (to_iso_string r)) (VStr (to_iso_string u)) (field "mode")
    (field "witness_key_id").

(** [ack] is signed by [k] and valid from [r] to [u]. *)
Record ack_for (ack : jsv) (r u : Z) (k : public_key) (canonical : jsstr) : Prop := {
  ak_record : is_record ack = true;
  ak_keys : keys_of ack ≡ₚ ack_keys;
  ak_version : get (js "schema_version") ack = VStr POM_RX_WITNESS_ACK_VERSION;
  ak_hash : exists h, get (js "receipt_hash") ack = VStr h /\ hash_pattern h = true;
  ak_id : exists s, get (js "receipt_id") ack = VStr s /\ (16 <= length s)%nat;
  ak_run : exists s, get (js "run_id") ack = VStr s /\ (16 <= length s)%nat;
  ak_outcome : get (js "outcome") ack = VStr (js "allow") \/ get (js "outcome") ack = VStr (js "deny");
  ak_source : exists s, to_string (get (js "source_key_id") ack) = Ok s /\ key_id_pattern s = true;
  ak_mode : get (js "mode") ack = VStr (js "witnessed") \/ get (js "mode") ack = VStr (js "dry_run");
  ak_witness : get (js "witness_key_id") ack = VStr (key_id_of k);
  ak_distinct : get (js "source_key_id") ack <> VStr (key_id_of k);
  ak_received : normalizeDateTime (get (js "received_at") ack) "received_at" = Ok (to_iso_string r);
  ak_until : normalizeDateTime (get (js "valid_until") ack) "valid_until" = Ok (to_iso_string u);
  ak_times : time_valid r = true /\ time_valid u = true /\ 1000 <= u - r <= 300000;
  ak_key : decodePublicKey (get (js "witness_public_key") ack) = Ok k;
  ak_canonical : canonicalizePayload (VObj PObject (payload_of_ack ack r u)) = Ok canonical;
  ak_signed : exists signature,
    decodeSignature (get (js "witness_signature") ack) "Witness signature" = Ok signature /\
    verify_message (ack_message canonical) k signature = true;
}.

Lemma strict_equal_str v s : strict_equal v (VStr s) = true <-> v = VStr s.
Proof.
  destruct v as [| | |[]| | | | | |]; simpl; try (split; [done|intros [=]]).
  rewrite str_eqb_eq. split; [by intros ->|by intros [=]].
Qed.

Lemma is_str_or v a b : is_str v a || is_str v b = true <-> v = VStr a \/ v = VStr b.
Proof. by rewrite orb_true_iff, !is_str_eq. Qed.

Lemma assert_key_id_Ok v m u :
  assert_key_id v m = Ok u <-> exists s, to_string v = Ok s /\ key_id_pattern s = true.
Proof.
  unfold assert_key_id, assert. rewrite bind_Ok. by setoid_rewrite guard_or_Ok.
Qed.

Lemma ms_between_iso u r :
  time_valid u = true -> time_valid r = true ->
  ms_between (to_iso_string u) (to_iso_string r) = Some (u - r).
Proof. intros Hu Hr. unfold ms_between. by rewrite !date_parse_iso. Qed.

Lemma normalized_iso v f s :
  normalizeDateTime v f = Ok s -> exists t, s = to_iso_string t /\ time_valid t = true.
Proof. intros (? & t & _ & _ & ?%date_parse_valid & ->)%normalizeDateTime_Ok. by exists t. Qed.

Lemma check_ack_Ok ack ex now v :
  check_ack ack ex now = Ok v <->
  exists r u k canonical, ack_for ack r u k canonical /\
    Forall (fun f => check_expected ack f = Ok tt) (expectedFields ex) /\
    check_unexpired ex now (to_iso_string r) (to_iso_string u) = Ok tt /\
    v = {| av_payload := payload_of_ack ack r u;
           av_acknowledgementHash := sha256Hex (ack_message canonical) |}.
Proof.
  unfold check_ack, assertHash, assert, witnessSignatureMessage. split.
  - intros H. apply bind_Ok in H as ([] & [Hr Hk]%assertExactKeys_Ok & H).
    apply guard_bind_Ok in H as [Hv%is_str_eq H].
    apply bind_Ok in H as (h & [Hh Hhp]%string_where_Ok & H).
    apply bind_Ok in H as (id & [Hid Hidl%Nat.leb_le]%string_where_Ok & H).
    apply bind_Ok in H as (run & [Hrun Hrunl%Nat.leb_le]%string_where_Ok & H).
    apply guard_bind_Ok in H as [Ho%is_str_or H].
    apply bind_Ok in H as ([] & Hs%assert_key_id_Ok & H).
    apply guard_bind_Ok in H as [Hm%is_str_or H].
    apply bind_Ok in H as ([] & _ & H). apply guard_bind_Ok in H as [Hne%negb_true_iff H].
    apply bind_Ok in H as (rs & Hrec & H). apply bind_Ok in H as (us & Hunt & H).
    destruct (normalized_iso _ _ _ Hrec) as (r & -> & Vr), (normalized_iso _ _ _ Hunt) as (u & -> & Vu).
    cbv zeta in H. rewrite ms_between_iso in H by done.
    apply guard_bind_Ok in H as [[H1%Z.leb_le H2%Z.leb_le]%andb_true_iff H].
    apply bind_Ok in H as (k & Hp & H). apply bind_Ok in H as (kid & [Hd ->]%pomRxKeyId_Ok & H).
    apply guard_bind_Ok in H as [Hw%is_str_eq H]. apply bind_Ok in H as (m & Hmsg & H).
    apply bind_Ok in Hmsg as (canonical & Hcan & [= <-]). apply bind_Ok in H as (sig & Hsig & H).
    apply guard_bind_Ok in H as [Hver H]. apply bind_Ok in H as ([] & Hex%for_each_Ok & H).
    apply bind_Ok in H as ([] & Hun & [= <-]). exists r, u, k, canonical.
    split; [|done]. split; try done; try by eauto.
    intros E. rewrite Hw, (proj2 (strict_equal_str _ _) E) in Hne. done.
  - intros (r & u & k & canonical & [Hr Hk Hv (h & Hh & Hhp) (id & Hid & Hidl) (run & Hrun & Hrunl)
      Ho Hs Hm Hw Hne Hrec Hunt (Vr & Vu & H1 & H2) Hp Hcan (sig & Hsig & Hver)] & Hex & Hun & ->).
    rewrite (proj2 (assertExactKeys_Ok ack ack_keys "POM-RX witness acknowledgement" tt)) by done.
    cbn [mbind res_bind]. cbv zeta. rewrite Hv. cbn [is_str]. rewrite str_eqb_refl.
    cbn [guard_or mbind res_bind]. unfold payload_of_ack in Hcan. cbv zeta in Hcan.
    rewrite Hh, string_where_str by done.
    cbn [mbind res_bind]. rewrite Hid, string_where_str by by apply Nat.leb_le. cbn [mbind res_bind].
    rewrite Hrun, string_where_str by by apply Nat.leb_le. cbn [mbind res_bind].
    rewrite (proj2 (is_str_or _ _ _) Ho). cbn [guard_or mbind res_bind].
    rewrite (proj2 (assert_key_id_Ok _ _ tt) Hs). cbn [guard_or mbind res_bind].
    rewrite (proj2 (is_str_or _ _ _) Hm). cbn [guard_or mbind res_bind].
    rewrite Hw. rewrite (proj2 (assert_key_id_Ok _ _ tt)) by (eexists; split; [done|apply key_id_of_pattern]).
    cbn [mbind res_bind].
    destruct (strict_equal (get (js "source_key_id") ack) (VStr (key_id_of k))) eqn:E;
      [by apply strict_equal_str in E|]. cbn [negb guard_or mbind res_bind].
    rewrite Hrec. cbn [mbind res_bind]. rewrite Hunt. cbn [mbind res_bind].
    rewrite ms_between_iso by done. cbn [at_least at_most].
    rewrite (proj2 (Z.leb_le _ _) H1), (proj2 (Z.leb_le _ _) H2). cbn [andb guard_or mbind res_bind].
    rewrite Hp. cbn [mbind res_bind].
    assert (is_ed25519 k = true) as Hd by by apply decodePublicKey_Ok in Hp as (? & _ & _ & _ & _ & _ & ?).
    rewrite (proj2 (pomRxKeyId_Ok k (key_id_of k))) by done. cbn [mbind res_bind is_str].
    rewrite str_eqb_refl. cbn [guard_or mbind res_bind]. rewrite Hh, Hid, Hrun, Hw in Hcan.
    rewrite Hcan. cbn [mbind res_bind]. rewrite Hsig. cbn [mbind res_bind].
    unfold ack_message in Hver. rewrite Hver. cbn [guard_or mbind res_bind].
    rewrite (proj2 (for_each_Ok _ _ tt) Hex). cbn [mbind res_bind]. rewrite Hun.
    cbn [mbind res_bind]. unfold payload_of_ack. cbv zeta. by rewrite Hh, Hid, Hrun, Hw.
Qed.

(** C14: an accepted acknowledgement is signed, over the canonical text of the payload
    that is returned, by the Ed25519 key its witness id is derived from, which is
    not the source's; it is valid for one second to five minutes, agrees with
    every expectation that was given, and when it must be unexpired the current
    instant is inside its validity. *)
Theorem verifyPomRxWitnessAck_sound ack ex now v :
  verifyPomRxWitnessAck ack ex now = Verified v ->
  exists r u k canonical, ack_for ack r u k canonical /\
    av_payload v = payload_of_ack ack r u /\
    av_acknowledgementHash v = sha256Hex (ack_message canonical) /\
    (forall field value, (field, value) ∈ expectedFields ex -> value <> VUndef ->
       strict_equal (get (js field) ack) value = true) /\
    (forall t, ex_requireUnexpired ex = true -> ex_currentTime ex = VStr (to_iso_string t) ->
       time_valid t = true -> four_digit_year t -> r <= t <= u).
Proof.
  intros (r & u & k & canonical & Hack & Hex & Hun & ->)%verification_of_Verified%check_ack_Ok.
  exists r, u, k, canonical. split; [done|]. split; [done|]. split; [done|]. split.
  - intros field value Hin Hne. rewrite Forall_forall in Hex. specialize (Hex _ Hin).
    unfold check_expected, assert in Hex. destruct value; try done; by apply guard_or_Ok in Hex.
  - intros t Hr Ht Hv Hy. unfold check_unexpired, assert in Hun. rewrite Hr, Ht in Hun.
    rewrite normalizeDateTime_iso in Hun by done. cbn [mbind res_bind] in Hun.
    apply guard_bind_Ok in Hun as [H1 H2%guard_or_Ok].
    destruct (ak_times _ _ _ _ _ Hack) as (_ & _ & ?). apply iso_window; done || lia.
Qed.

(** What the callers of the verifier expect of a witnessed receipt. *)
Definition expected_of (v : source_verified) (mode witnessKeyId : jsv) (unexpired : bool)
    (currentTime : jsv) : ack_expectation :=
  let receipt := c_receipt (sv_committed v) in
  {| ex_receiptHash := VStr (receiptHash (sv_committed v)); ex_receiptId := VStr (p_receipt_id receipt);
     ex_runId := VStr (run_id receipt); ex_outcome := VStr (outcome_name (p_outcome receipt));
     ex_sourceKeyId := VStr (sv_key_id v); ex_mode := mode; ex_witnessKeyId := witnessKeyId;
     ex_requireUnexpired := unexpired; ex_currentTime := currentTime |}.

Lemma id_pattern_length s : id_pattern s = true -> (16 <= length s)%nat.
Proof.
  unfold id_pattern, re_head_class, re_class. destruct s as [|c s]; [done|].
  rewrite !andb_true_iff, !Nat.leb_le. simpl. lia.
Qed.

Lemma preflight_outcome r :
  receipt_wf r -> p_phase r = Preflight -> p_outcome r = Allow \/ p_outcome r = Deny.
Proof.
  intros W E. pose proof (wf_outcome _ W) as H. rewrite E in H. by apply outcome_split_2.
Qed.

(** What [createPomRxWitnessAck] returns. *)
Lemma created_ack envelope sk receivedAt mode ms ack :
  createPomRxWitnessAck envelope sk receivedAt mode ms = Ok ack ->
  exists v r u canonical,
    verifyPomRxSourceEnvelope envelope = Verified v /\
    normalizeDateTime receivedAt "received_at" = Ok (to_iso_string r) /\
    is_safe_integer ms = Some (u - r) /\ is_ed25519 (public_of sk) = true /\
    ack_for ack r u (public_of sk) canonical /\
    Forall (fun f => check_expected ack f = Ok tt)
      (expectedFields (expected_of v mode (VStr (key_id_of (public_of sk))) true VUndef)).
Proof.
  unfold createPomRxWitnessAck, toEd25519PublicKey, assert, witnessSignatureMessage. intros H.
  destruct (verifyPomRxSourceEnvelope envelope) as [v|error] eqn:Ev; [|done].
  apply verification_of_Verified, check_envelope_Ok in Ev as Hv.
  destruct Hv as (k & [_ _ _ Hc _ _ Hi _] & Hkid). cbn [mbind res_bind] in H. cbv zeta in H.
  apply guard_bind_Ok in H as [Hph%bool_decide_eq_true H].
  apply guard_bind_Ok in H as [Hm%is_str_or H]. apply bind_Ok in H as (validity & Hms & H).
  destruct (is_safe_integer ms) as [ms'|]; [|done]. destruct (_ && _) eqn:Eb; [|done].
  injection Hms as ->. rewrite andb_true_iff, !Z.leb_le in Eb.
  apply bind_Ok in H as (rs & Hrec & H). destruct (normalized_iso _ _ _ Hrec) as (r & -> & Vr).
  rewrite date_parse_iso in H by done.
  apply guard_bind_Ok in H as [_ H]. apply bind_Ok in H as (pk & Hpk & H).
  apply guard_bind_Ok in Hpk as [Hd [= <-]]. apply bind_Ok in H as (id & [_ ->]%pomRxKeyId_Ok & H).
  apply guard_bind_Ok in H as [Hne%negb_true_iff%str_eqb_neq H].
  apply bind_Ok in H as (us & Hus & H). unfold to_iso_checked in Hus. cbn in Hus.
  destruct (time_valid (r + validity)) eqn:Vu; [|done]. injection Hus as <-.
  apply bind_Ok in H as (spki & [_ ->]%exportPublicKey_Ok & H).
  apply bind_Ok in H as (m & Hmsg & [= <-]). apply bind_Ok in Hmsg as (canonical & Hcan & [= <-]).
  pose proof (commit_committed_ok _ _ Hc) as [W _].
  exists v, r, (r + validity), canonical. split; [done|]. split; [done|]. split; [f_equal; lia|].
  split; [done|]. split.
  - split; try done.
    + eexists. split; [done|]. by eapply receiptHash_format.
    + eexists. split; [done|]. apply id_pattern_length, W.
    + eexists. split; [done|]. apply id_pattern_length, W.
    + cbn -[js]. destruct (preflight_outcome _ W Hph) as [-> | ->]; [by left|by right].
    + exists (sv_key_id v). split; [done|]. rewrite Hkid. apply key_id_of_pattern.
    + intros [= E]. done.
    + by apply normalizeDateTime_iso.
    + by apply normalizeDateTime_iso.
    + split; [done|]. split; [done|lia].
    + by apply decode_exported.
    + eexists. split; [by apply decode_signed|by apply verify_sign].
  - repeat (apply List.Forall_cons; [|]); [..|apply List.Forall_nil];
      unfold check_expected; cbn [fst snd expected_of ex_receiptHash ex_receiptId ex_runId ex_outcome
        ex_sourceKeyId ex_mode ex_witnessKeyId]; try (unfold assert; apply guard_or_Ok, strict_equal_str; done).
    destruct Hm as [-> | ->]; unfold assert; by apply guard_or_Ok, strict_equal_str.
Qed.

(** an acknowledgement made with an Ed25519 key of an accepted preflight envelope
    verifies at every instant of its validity, within four-digit years, against
    the expectations its receipt gives. *)
Theorem witness_ack_roundtrip envelope sk receivedAt mode ms ack :
  createPomRxWitnessAck envelope sk receivedAt mode ms = Ok ack ->
  exists v r u,
    verifyPomRxSourceEnvelope envelope = Verified v /\
    normalizeDateTime receivedAt "received_at" = Ok (to_iso_string r) /\
    is_safe_integer ms = Some (u - r) /\
    forall t now, r <= t <= u -> four_digit_year r -> four_digit_year u ->
      exists canonical, verifyPomRxWitnessAck ack
          (expected_of v mode (VStr (key_id_of (public_of sk))) true (VStr (to_iso_string t))) now
        = Verified {| av_payload := payload_of_ack ack r u;
                      av_acknowledgementHash := sha256Hex (ack_message canonical) |}.
Proof.
  intros (v & r & u & canonical & Hv & Hr & Hms & Hd & Hack & Hex)%created_ack.
  exists v, r, u. repeat (split; [done|]). intros t now Ht Yr Yu. exists canonical.
  apply verification_of_Verified, check_ack_Ok. exists r, u, (public_of sk), canonical.
  split; [done|]. split; [exact Hex|]. split; [|done].
  destruct (ak_times _ _ _ _ _ Hack) as (Vr & Vu & _).
  assert (time_valid t = true) as Vt by (unfold time_valid in *; lia).
  assert (four_digit_year t) as Yt.
  { pose proof (year_mono r t). pose proof (year_mono t u). unfold four_digit_year in *. lia. }
  unfold check_unexpired, assert. cbn [expected_of ex_requireUnexpired ex_currentTime].
  rewrite normalizeDateTime_iso by done. cbn [mbind res_bind]. unfold str_leb.
  rewrite !iso_order by done.
  rewrite (proj2 (Z.ltb_ge t r)), (proj2 (Z.ltb_ge u t)) by lia. done.
Qed.
End witness.

(** ** Concrete keys and a concrete acknowledgement *)

(** Keys are numbers, the DER of a key its number and 43 zeros, and a signature
    a checksum of the key and the message. *)
Definition toy_sign (m : jsstr) (sk : N) : list N := hex_digits 64 (checksum (sk :: m)).

Lemma hex_digit_byte x : is_byte (hex_digit x mod 256).
Proof. unfold is_byte. apply N.mod_lt. done. Qed.

Program Definition toy_key_host : KeyHost := {|
  public_key := N;
  private_key := N;
  create_public_key b :=
    match b with
    | k :: rest => if bool_decide (rest = repeat 0%N 43) then Ok k
                   else Throw (type_error (js "Invalid key"))
    | [] => Throw (type_error (js "Invalid key"))
    end;
  is_ed25519 k := (k <? 256)%N;
  export_spki k := (k mod 256)%N :: repeat 0%N 43;
  public_of sk := sk;
  sign_message := toy_sign;
  verify_message m k signature := bool_decide (signature = toy_sign m k);
|}.
Next Obligation.
  intros k. apply List.Forall_cons; [apply N.mod_lt; done|]. apply Forall_forall.
  intros b ->%list_elem_of_In%List.repeat_spec. done.
Qed.
Next Obligation. done. Qed.
Next Obligation. intros k H%N.ltb_lt. cbn -[repeat]. rewrite N.mod_small by done. by case_bool_decide. Qed.
Next Obligation.
  intros m sk. unfold toy_sign. pose proof (hex_digits_format 64 (checksum (sk :: m))) as H.
  unfold re_class in H. rewrite !andb_true_iff, List.forallb_forall in H. destruct H as [_ H].
  apply Forall_forall. intros b Hb%list_elem_of_In%H. unfold is_byte, is_hex, is_digit, in_range in *.
  rewrite orb_true_iff, !andb_true_iff, !N.leb_le in Hb. lia.
Qed.
Next Obligation.
  intros m sk _. unfold toy_sign. pose proof (hex_digits_format 64 (checksum (sk :: m))) as H.
  unfold re_class in H. rewrite !andb_true_iff, !Nat.leb_le in H. lia.
Qed.
Next Obligation. intros. by apply bool_decide_eq_true. Qed.

Section witness_witness.
#[local] Existing Instances plain_string_host checksum_hash_host checksum_bytes_host iso_date_host
  toy_key_host.

(** Key 1 signs the receipt, key 2 the acknowledgement. *)
Definition witnessed_receipt : pom_receipt :=
  Eval vm_compute in
    {| p_receipt_id := p_receipt_id sample_head; run_id := run_id sample_head;
       p_phase := Preflight; p_outcome := Allow; agent_ref := agent_ref sample_head;
       subject_ref := subject_ref sample_head; method_hash := method_hash sample_head;
       policy_hash := policy_hash sample_head; input_commitment := input_commitment sample_head;
       action_commitment := action_commitment sample_head; assertions := assertions sample_head;
       previous_receipt_hash := None; p_occurred_at := p_occurred_at sample_head;
       source_key_id := key_id_of 1%N |}.
Definition witnessed_committed : committed :=
  Eval vm_compute in
    match commitPomRxReceipt (pom_value witnessed_receipt) with
    | Ok c => c
    | Throw _ => Build_committed witnessed_receipt [] []
    end.
Definition sample_envelope : jsv :=
  Eval vm_compute in
    match createPomRxSourceEnvelope (pom_value witnessed_receipt) 1%N with Ok e => e | Throw _ => VNull end.
Definition sample_ack : jsv :=
  Eval vm_compute in
    match createPomRxWitnessAck sample_envelope 2%N (VStr (js "2026-03-01T00:00:01.000Z"))
            (VStr (js "witnessed")) (VNum (NInt 30000)) with
    | Ok a => a | Throw _ => VNull end.

Lemma sample_envelope_Ok :
  createPomRxSourceEnvelope (pom_value witnessed_receipt) 1%N = Ok sample_envelope.
Proof. vm_compute. reflexivity. Qed.
Lemma sample_ack_Ok :
  createPomRxWitnessAck sample_envelope 2%N (VStr (js "2026-03-01T00:00:01.000Z"))
    (VStr (js "witnessed")) (VNum (NInt 30000)) = Ok sample_ack.
Proof. vm_compute. reflexivity. Qed.

Definition sample_source : source_verified :=
  {| sv_committed := witnessed_committed; sv_key_id := key_id_of 1%N |}.

Lemma source_envelope_roundtrip_witness :
  verifyPomRxSourceEnvelope sample_envelope = Verified sample_source.
Proof.
  apply (source_envelope_roundtrip (KH := toy_key_host) (pom_value witnessed_receipt) 1%N sample_envelope
    witnessed_committed sample_envelope_Ok); vm_compute; reflexivity.
Defined.

Lemma witness_ack_roundtrip_witness :
  exists v, verifyPomRxSourceEnvelope sample_envelope = Verified v.
Proof.
  destruct (witness_ack_roundtrip (KH := toy_key_host) sample_envelope 2%N (VStr (js "2026-03-01T00:00:01.000Z"))
    (VStr (js "witnessed")) (VNum (NInt 30000)) sample_ack sample_ack_Ok) as (v & _ & _ & H & _).
  exists v. exact H.
Defined.

(** The expectation of the sample at ten seconds past midnight. *)
Definition sample_expectation : ack_expectation :=
  expected_of sample_source (VStr (js "witnessed")) VUndef true (VStr (js "2026-03-01T00:00:10.000Z")).
Definition sample_ack_verified : ack_verified :=
  Eval vm_compute in
    match check_ack sample_ack sample_expectation [] with
    | Ok v => v | Throw _ => Build_ack_verified [] [] end.
Lemma sample_ack_verified_Ok :
  verifyPomRxWitnessAck sample_ack sample_expectation [] = Verified sample_ack_verified.
Proof. vm_compute. reflexivity. Qed.

Lemma verifyPomRxWitnessAck_sound_witness :
  exists r u k canonical, ack_for sample_ack r u k canonical /\ r <= 1772323210000 <= u.
Proof.
  destruct (verifyPomRxWitnessAck_sound (KH := toy_key_host) sample_ack sample_expectation [] sample_ack_verified
    sample_ack_verified_Ok) as (r & u & k & canonical & H & _ & _ & _ & Ht).
  exists r, u, k, canonical.
  assert (ex_currentTime sample_expectation = VStr (to_iso_string 1772323210000)) as E
    by (vm_compute; reflexivity).
  assert (four_digit_year 1772323210000) as Y by (vm_compute; split; discriminate).
  exact (conj H (Ht 1772323210000 eq_refl E eq_refl Y)).
Defined.

(** [KEY_ID_PATTERN.test] converts its argument to a string, so an array of one
    key id is a source key id too unless the caller expects one. *)
Definition coerced_payload : list (jsstr * jsv) :=
  payload_of_ack (VObj PObject
    [(js "receipt_hash", VStr (receiptHash witnessed_committed));
     (js "receipt_id", VStr (p_receipt_id witnessed_receipt));
     (js "run_id", VStr (run_id witnessed_receipt)); (js "outcome", VStr (js "allow"));
     (js "source_key_id", VArr [VStr (key_id_of 1%N)]); (js "mode", VStr (js "witnessed"));
     (js "witness_key_id", VStr (key_id_of 2%N))]) 1772323201000 1772323231000.
Definition coerced_ack : jsv :=
  VObj PObject (coerced_payload ++
    [(js "witness_public_key", VStr (base64_encode (export_spki 2%N)));
     (js "witness_signature", VStr (base64_encode (sign_message
        (match witnessSignatureMessage (VObj PObject coerced_payload) with Ok m => m | Throw _ => [] end)
        2%N)))]).

Lemma source_key_id_coerced :
  let none := Build_ack_expectation VUndef VUndef VUndef VUndef VUndef VUndef VUndef false VUndef in
  exists h, verifyPomRxWitnessAck coerced_ack none []
    = Verified {| av_payload := coerced_payload; av_acknowledgementHash := h |} /\
    get (js "source_key_id") coerced_ack = VArr [VStr (key_id_of 1%N)].
Proof. eexists. split; vm_compute; reflexivity. Qed.
End witness_witness.
