(* ===== verification/TrustedClock.v ===== *)
(** * Trusted clocks and inert objects

    The parts that the recorders and lifecycles of [core/] share: the clock
    that never goes back, the canonical instants, and the objects that hold
    inert data (the copies [captureReferencePlainData] makes, and the records
    the modules build themselves). *)
From S2P Require Import Prelude JsDate JsValue ProofSdk Canonical JsHeap PlainData Authorization Gate.

#[local] Arguments js : simpl never.

(** [a < b] and [a >= b] on time values, [None] for [NaN] *)
Definition time_lt (a b : option Z) : bool :=
  match a, b with Some x, Some y => x <? y | _, _ => false end.
Definition time_ge (a b : option Z) : bool :=
  match a, b with Some x, Some y => y <=? x | _, _ => false end.

Section clock.
Context `{DH : !DateHost}.
(** The [fail] of the module and the prefix of its time codes. *)
Context (fail : string -> jsstr -> jserr) (prefix : string).

Definition time_fail (msg : jsstr) : jserr := fail (prefix ++ "_E_TIME_INVALID")%string msg.

(** [canonicalUtcInstant(value, field)] *)
Definition canonical_utc (value : hval) (field : string) : res Z :=
  let e := time_fail (js field ++ js " must be a canonical UTC instant") in
  match value with
  | HStr s => match canonical_instant s with Some t => Ok t | None => Throw e end
  | _ => Throw e
  end.

(** What the clock says, before it is compared with the last time. *)
Definition clock_instant (reading : clock_reading) : res Z :=
  match reading with
  | ClockThrew => Throw (time_fail (js "trusted clock failed"))
  | ClockReturned (HRef _) (ThenThrew e) => Throw e
  | ClockReturned (HRef _) ThenFunction =>
      Throw (time_fail (js "trusted clock must be synchronous"))
  | ClockReturned v _ => canonical_utc v "trusted clock"
  end.

(** [sampleTrustedClock()], where [last] is the last trusted time: the instant,
    which is then the last trusted time. *)
Definition sample_clock (last : option Z) (reading : clock_reading) : res Z :=
  now ← clock_instant reading;
  _ ← guard_or (match last with Some t => t <=? now | None => true end)
        (fail (prefix ++ "_E_TIME_ROLLBACK")%string (js "trusted clock moved backwards"));
  Ok now.

Lemma canonical_utc_Ok v f t :
  canonical_utc v f = Ok t <-> v = HStr (to_iso_string t) /\ time_valid t = true.
Proof.
  unfold canonical_utc. destruct v; try (split; [done|by intros [? _]]).
  destruct (canonical_instant s) as [u|] eqn:E.
  - apply canonical_instant_Some in E as [? ->]. split.
    + by intros [= <-].
    + intros [[= Ht] ?]. apply to_iso_string_inj in Ht; [by subst|done|done].
  - split; [done|]. intros [[= ->] Hv].
    assert (canonical_instant (to_iso_string t) = Some t) by by apply canonical_instant_Some.
    congruence.
Qed.

Lemma clock_instant_valid reading now : clock_instant reading = Ok now -> time_valid now = true.
Proof.
  destruct reading as [|v t]; [done|]. unfold clock_instant.
  destruct v; try (intros [_ ?]%canonical_utc_Ok; done). by destruct t.
Qed.

Lemma sample_clock_Ok last reading now :
  sample_clock last reading = Ok now <->
  clock_instant reading = Ok now /\ (forall t, last = Some t -> t <= now).
Proof.
  unfold sample_clock. rewrite bind_Ok. split.
  - intros (t & -> & H). apply guard_bind_Ok in H as [H [= <-]]. split; [done|].
    by intros ? ->; apply Z.leb_le.
  - intros [-> H]. eexists. split; [done|]. apply guard_bind_Ok. split; [|done].
    destruct last; [|done]. by apply Z.leb_le, H.
Qed.

Lemma sample_clock_valid last reading now : sample_clock last reading = Ok now -> time_valid now = true.
Proof. intros [H _]%sample_clock_Ok. by eapply clock_instant_valid. Qed.
End clock.

(** ** Inert objects *)

(** A value in a field.  The objects nested in an inert object are never looked
    into by the checks that run on it, so all of them are the location 1. *)
Definition hval_of (d : jsv) : hval :=
  match d with
  | VUndef => HUndef | VNull => HNull | VBool b => HBool b | VNum n => HNum n
  | VStr s => HStr s | VFun f => HFun f | VSym i => HSym i | VBig z => HBig z
  | VArr _ | VObj _ _ => HRef 1%nat
  end.

Definition inert_prop (d : jsv) : prop := {| p_enumerable := true; p_content := Data (hval_of d) |}.

Definition proto_of (p : proto) : hproto :=
  match p with
  | PObject => ObjectPrototype | PArray => ArrayPrototype | PNull => NullPrototype
  | POther => OtherPrototype
  end.

Definition inert_object (d : jsv) : hobj :=
  let object proto array props :=
    {| o_proxy := false; o_proto := proto; o_array := array; o_symbols := 0; o_props := props |} in
  match d with
  | VArr items => object ArrayPrototype (Some (Z.of_nat (length items)))
      (imap (fun i d => (string_of_Z (Z.of_nat i), inert_prop d)) items)
  | VObj p entries => object (proto_of p) None
      ((fun '(k, d) => (k, inert_prop d)) <$> entries)
  | _ => object ObjectPrototype None []
  end.

(** The heap of one inert object and the value that refers to it. *)
Definition inert_heap (d : jsv) : heap :=
  fun l => if (l =? 0)%nat then inert_object d else inert_object VUndef.
Definition inert_ref (d : jsv) : hval :=
  match d with VArr _ | VObj _ _ => HRef 0%nat | _ => hval_of d end.

(** Put inert data on a list of objects; the heap they are. *)
Fixpoint store (v : jsv) (objects : list hobj) : hval * list hobj :=
  match v with
  | VArr items =>
      let '(props, _, objects) :=
        foldl (fun '(props, i, objects) item =>
          let '(value, objects) := store item objects in
          (props ++ [(string_of_Z i, {| p_enumerable := true; p_content := Data value |})], i + 1, objects))
          ([], 0, objects) items in
      (HRef (length objects), objects ++
        [{| o_proxy := false; o_proto := ArrayPrototype; o_array := Some (Z.of_nat (length items));
            o_symbols := 0; o_props := props |}])
  | VObj p entries =>
      let '(props, objects) :=
        foldl (fun '(props, objects) '(key, item) =>
          let '(value, objects) := store item objects in
          (props ++ [(key, {| p_enumerable := true; p_content := Data value |})], objects))
          ([], objects) entries in
      (HRef (length objects), objects ++
        [{| o_proxy := false; o_proto := proto_of p; o_array := None; o_symbols := 0;
            o_props := props |}])
  | _ => (hval_of v, objects)
  end.
Definition heap_of (objects : list hobj) : heap :=
  fun l => default (inert_object VUndef) (objects !! l).

Lemma inert_own_descriptor p entries k :
  own_descriptor (inert_object (VObj p entries)) k = inert_prop <$> alist_get k entries.
Proof.
  unfold own_descriptor. simpl. induction entries as [|[k' d] entries IH]; [done|].
  simpl. by destruct (str_eqb k' k).
Qed.

Lemma inert_own_names p entries : own_names (inert_object (VObj p entries)) = entries.*1.
Proof.
  unfold own_names. simpl. rewrite app_nil_r, <- list_fmap_compose.
  apply list_fmap_ext. by intros ? [].
Qed.
