(* ===== verification/Execution.v ===== *)
(** * Execution evidence

    Models [core/execution/reference-execution-evidence.mjs]: the recorder that
    opens an exact authorization once and turns the outcome of its execution
    into one evidence record.  A handle or an evidence record is known to the
    recorder by its index; a value that is none of them is [None].  The two
    halves of [complete], before and after the clock is read, are separate
    steps, so calls the clock makes on the recorder are interleavings. *)
From S2P Require Import Prelude JsDate JsValue ProofSdk Canonical Receipt Normal JsHeap PlainData Authorization Gate TrustedClock.

#[local] Arguments js : simpl never.

Definition POM_RX_REFERENCE_EXECUTION_EVIDENCE_VERSION : jsstr :=
  js "pom-rx-reference-execution-evidence/0.1".
Definition POM_RX_REFERENCE_EXECUTION_EVIDENCE_HASH_DOMAIN : jsstr :=
  js "swisstokint:pom-rx-reference-execution-evidence:v1:".
Definition POM_RX_REFERENCE_EXECUTION_EFFECT_HASH_DOMAIN : jsstr :=
  js "swisstokint:pom-rx-reference-execution-effect:v1:".

Inductive execution_status := Success | ExecError | Unknown.
#[export] Instance execution_status_eq_dec : EqDecision execution_status.
Proof. solve_decision. Defined.
Definition status_name (s : execution_status) : jsstr :=
  match s with Success => js "success" | ExecError => js "error" | Unknown => js "unknown" end.
Definition EXECUTION_STATUSES : list execution_status := [Success; ExecError; Unknown].

(** [EXECUTION_STATUSES.has(v)] of a string *)
Definition find_status (v : hval) : option execution_status :=
  match v with
  | HStr s => List.find (fun st => str_eqb (status_name st) s) EXECUTION_STATUSES
  | _ => None
  end.

(** [/^[A-Z0-9_]{3,96}$/u] *)
Definition DIAGNOSTIC_PATTERN : jsstr -> bool :=
  re_class (fun c => is_upper c || is_digit c || is_one_of "_" c) 3 96.
Definition BOOTSTRAP_KEYS : list jsstr := [js "trustedClock"].
Definition BEGIN_KEYS : list jsstr := [js "authorization_binding"].
Definition OUTCOME_KEYS : list jsstr := js <$> ["execution_status"; "effect"].
Definition EVIDENCE_KEYS : list jsstr := js <$>
  ["schema_version"; "binding_profile"; "run_id"; "capability_id"; "authorization_commitment";
   "action_commitment"; "context_commitment"; "execution_status"; "effect_commitment";
   "recording_started_at"; "recorded_at"; "diagnostic"; "reference_only";
   "gate_consumption_proved"; "native_execution_time_proved"; "external_execution_proved";
   "external_effect_proved"; "execution_evidence_hash"].
Definition MAX_LOCAL_AUTHORIZATIONS : nat := Z.to_nat 1000.

Definition exec_fail (code : string) (msg : jsstr) : jserr := Err ExecutionErr (js code) msg.
Definition evidence_invalid (msg : string) : jserr :=
  exec_fail "POMRX_EXEC_E_EVIDENCE_INVALID" (js msg).

Definition captureExactDataRecord (h : heap) (value : hval) (expectedKeys : list jsstr)
    (label code : string) : res snapshot :=
  o ← match object_of h value with
      | Some o => if bool_decide (o_array o = None) then Ok o
                  else Throw (exec_fail code (js label ++ js " must be a non-Proxy plain object"))
      | None => Throw (exec_fail code (js label ++ js " must be a non-Proxy plain object"))
      end;
  _ ← guard_or (bool_decide (o_proto o ∈ [ObjectPrototype; NullPrototype]))
        (exec_fail code (js label ++ js " must be a plain object"));
  _ ← guard_or (o_symbols o =? 0)%nat
        (exec_fail code (js label ++ js " cannot contain symbol keys"));
  _ ← guard_or (same_keys (own_names o) expectedKeys)
        (exec_fail code (js label ++ js " has missing, hidden or unknown fields"));
  snapshot_keys o (sort_by str_leb (own_names o)) (fun key =>
    exec_fail code (js label ++ js "." ++ key ++ js " must be an enumerable data property")).

Section execution.
Context `{SH : !StringHost, HH : !HashHost, DH : !DateHost}.

Definition exec_utc : hval -> string -> res Z := canonical_utc exec_fail "POMRX_EXEC".

(** [{ snapshot, committed.authorizationCommitment }] *)
Definition captureAuthorizationBinding (h : heap) (value : hval) : res (jsv * jsstr) :=
  catch
    (snapshot ← captureReferencePlainData h value (js "execution authorization binding");
     '(_, commitment) ← commitExactAuthorizationBinding (inert_heap snapshot) (inert_ref snapshot);
     Ok (snapshot, commitment))
    (fun error => if bool_decide (err_cls error ∈ [PlainDataErr; CapabilityErr])
       then Throw (exec_fail "POMRX_EXEC_E_AUTHORIZATION_INVALID"
                     (js "exact authorization binding is invalid"))
       else Throw error).

Definition effect_input (canonical : jsstr) : jsstr :=
  POM_RX_REFERENCE_EXECUTION_EFFECT_HASH_DOMAIN ++ canonical.
Definition evidence_input (canonical : jsstr) : jsstr :=
  POM_RX_REFERENCE_EXECUTION_EVIDENCE_HASH_DOMAIN ++ canonical.

Definition commitEffect (effect : jsv) : res jsstr :=
  canonical ← catch (canonicalizePayload effect) (fun error =>
    if bool_decide (err_cls error = PayloadErr)
    then Throw (exec_fail "POMRX_EXEC_E_EFFECT_UNCOMMITTABLE"
           (js "captured execution effect is outside the canonical commitment contract"))
    else Throw error);
  Ok (sha256Hex (effect_input canonical)).

Definition commitEvidence (payload : jsv) : res jsstr :=
  canonical ← canonicalizePayload payload;
  Ok (sha256Hex (evidence_input canonical)).

Definition is_hash (v : hval) : bool := bool_decide (is_Some (hstr_that hash_pattern v)).

Definition validateEvidence (h : heap) (evidence : hval) : res hval :=
  captured ← captureExactDataRecord h evidence EVIDENCE_KEYS "reference execution evidence"
      "POMRX_EXEC_E_EVIDENCE_INVALID";
  let field k := snap_get (js k) captured in
  let unknown := bool_decide (field "execution_status" = HStr (status_name Unknown)) in
  let no_effect := bool_decide (field "effect_commitment" = HNull) in
  _ ← guard_or (bool_decide (field "schema_version"
                   = HStr POM_RX_REFERENCE_EXECUTION_EVIDENCE_VERSION))
        (evidence_invalid "execution evidence version is invalid");
  _ ← guard_or (bool_decide (is_Some (find_status (field "execution_status"))))
        (evidence_invalid "execution status is invalid");
  _ ← for_each (fun k => guard_or (is_hash (field k))
          (exec_fail "POMRX_EXEC_E_EVIDENCE_INVALID" (js k ++ js " is invalid")))
        ["authorization_commitment"; "action_commitment"; "context_commitment";
         "execution_evidence_hash"];
  _ ← guard_or (no_effect || is_hash (field "effect_commitment"))
        (evidence_invalid "effect_commitment is invalid");
  _ ← guard_or (negb (unknown && negb no_effect))
        (evidence_invalid "unknown execution cannot claim an effect commitment");
  _ ← guard_or (negb (negb unknown && no_effect))
        (evidence_invalid "known execution requires an effect commitment");
  _ ← guard_or (bool_decide (field "diagnostic" = HNull)
                || bool_decide (is_Some (hstr_that DIAGNOSTIC_PATTERN (field "diagnostic"))))
        (evidence_invalid "diagnostic is invalid");
  _ ← guard_or (bool_decide (field "reference_only" = HBool true)
                && bool_decide (field "gate_consumption_proved" = HBool false)
                && bool_decide (field "native_execution_time_proved" = HBool false)
                && bool_decide (field "external_execution_proved" = HBool false)
                && bool_decide (field "external_effect_proved" = HBool false))
        (evidence_invalid "reference proof flags are invalid");
  startedAt ← exec_utc (field "recording_started_at") "recording_started_at";
  recordedAt ← exec_utc (field "recorded_at") "recorded_at";
  _ ← guard_or (startedAt <=? recordedAt)
        (evidence_invalid "recorded_at cannot predate recording_started_at");
  Ok evidence.

(** ** The recorder *)

Inductive handle_state := OPEN | COMPLETING | RECORDED | FAILED.
#[local] Instance handle_state_eq_dec : EqDecision handle_state.
Proof. solve_decision. Defined.

Record handle_record := {
  hr_state : handle_state;
  hr_binding : jsv;
  hr_commitment : jsstr;
  hr_started_at : jsstr;
  hr_evidence : option nat;
}.

Record recorder := {
  exec_last : option Z;                  (* lastTrustedTimeMs *)
  handleState : list handle_record;
  localEvidence : list jsv;
  usedAuthorizationCommitments : list jsstr;
}.

Definition empty_recorder : recorder :=
  {| exec_last := None; handleState := []; localEvidence := []; usedAuthorizationCommitments := [] |}.

(** [createReferenceExecutionEvidenceRecorder]: its check of the options. *)
Definition createReferenceExecutionEvidenceRecorder (h : heap) (options : hval) : res recorder :=
  captured ← captureExactDataRecord h options BOOTSTRAP_KEYS "execution evidence bootstrap"
      "POMRX_EXEC_E_INVALID";
  match snap_get (js "trustedClock") captured with
  | HFun _ => Ok empty_recorder
  | _ => Throw (exec_fail "POMRX_EXEC_E_INVALID" (js "trustedClock must be a function"))
  end.

Definition set_last (r : recorder) (now : Z) : recorder :=
  {| exec_last := Some now; handleState := handleState r; localEvidence := localEvidence r;
     usedAuthorizationCommitments := usedAuthorizationCommitments r |}.

(** The instant, and the recorder after the clock was sampled. *)
Definition exec_sampleTrustedClock (r : recorder) (reading : clock_reading) : res Z * recorder :=
  match sample_clock exec_fail "POMRX_EXEC" (exec_last r) reading with
  | Ok now => (Ok now, set_last r now)
  | Throw e => (Throw e, r)
  end.

(** A field of the captured binding. *)
Definition binding_field (binding : jsv) (k : string) : hval := hval_of (get (js k) binding).

(** The checks of [begin] between the clock and the new handle. *)
Definition begin_checks (r : recorder) (binding : jsv) (commitment : jsstr) (now : Z) : res unit :=
  issuedAt ← exec_utc (binding_field binding "issued_at") "authorization issued_at";
  expiresAt ← exec_utc (binding_field binding "expires_at") "authorization expires_at";
  _ ← guard_or ((issuedAt <=? now) && (now <? expiresAt))
        (exec_fail "POMRX_EXEC_E_AUTHORIZATION_WINDOW"
           (js "recording start is outside authorization validity"));
  _ ← guard_or (negb (mem_str commitment (usedAuthorizationCommitments r)))
        (exec_fail "POMRX_EXEC_E_AUTHORIZATION_REPLAY"
           (js "this exact authorization was already opened by this recorder"));
  guard_or (length (usedAuthorizationCommitments r) <? MAX_LOCAL_AUTHORIZATIONS)%nat
    (exec_fail "POMRX_EXEC_E_CAPACITY"
       (js "reference recorder reached its fail-closed local authorization ceiling")).

(** [begin(input)] *)
Definition begin (h : heap) (input : hval) (reading : clock_reading) (r : recorder)
  : res nat * recorder :=
  match
    capturedInput ← captureExactDataRecord h input BEGIN_KEYS "execution evidence begin input"
        "POMRX_EXEC_E_INVALID";
    captureAuthorizationBinding h (snap_get (js "authorization_binding") capturedInput)
  with
  | Throw e => (Throw e, r)
  | Ok (binding, commitment) =>
      let '(now, r) := exec_sampleTrustedClock r reading in
      match (now ← now; _ ← begin_checks r binding commitment now; Ok now) with
      | Throw e => (Throw e, r)
      | Ok now =>
          (Ok (length (handleState r)),
           {| exec_last := exec_last r;
              handleState := handleState r ++
                [{| hr_state := OPEN; hr_binding := binding; hr_commitment := commitment;
                    hr_started_at := to_iso_string now; hr_evidence := None |}];
              localEvidence := localEvidence r;
              usedAuthorizationCommitments := commitment :: usedAuthorizationCommitments r |})
      end
  end.

Definition set_handle (r : recorder) (i : nat) (f : handle_record -> handle_record) : recorder :=
  {| exec_last := exec_last r; handleState := alter f i (handleState r);
     localEvidence := localEvidence r;
     usedAuthorizationCommitments := usedAuthorizationCommitments r |}.
Definition with_state (st : handle_state) (x : handle_record) : handle_record :=
  {| hr_state := st; hr_binding := hr_binding x; hr_commitment := hr_commitment x;
     hr_started_at := hr_started_at x; hr_evidence := hr_evidence x |}.
Definition with_evidence (e : nat) (x : handle_record) : handle_record :=
  {| hr_state := RECORDED; hr_binding := hr_binding x; hr_commitment := hr_commitment x;
     hr_started_at := hr_started_at x; hr_evidence := Some e |}.

(** [reserve(handle)] *)
Definition reserve (r : recorder) (handle : option nat) : res nat * recorder :=
  match (i ← handle; x ← handleState r !! i; Some (i, x)) with
  | None => (Throw (exec_fail "POMRX_EXEC_E_HANDLE_REQUIRED"
                     (js "a handle from this recorder is required")), r)
  | Some (i, x) =>
      if bool_decide (hr_state x = OPEN) then (Ok i, set_handle r i (with_state COMPLETING))
      else (Throw (exec_fail "POMRX_EXEC_E_HANDLE_STALE"
                     (js "execution evidence handle is no longer open")), r)
  end.

Definition null_or_str (o : option jsstr) : jsv :=
  match o with Some s => VStr s | None => VNull end.

Definition evidence_payload (x : handle_record) (executionStatus : execution_status)
    (effectHash diagnostic : option jsstr) (recordedAt : Z) : list (jsstr * jsv) :=
  let bound k := get (js k) (hr_binding x) in
  [(js "schema_version", VStr POM_RX_REFERENCE_EXECUTION_EVIDENCE_VERSION);
   (js "binding_profile", bound "binding_profile"); (js "run_id", bound "run_id");
   (js "capability_id", bound "capability_id");
   (js "authorization_commitment", VStr (hr_commitment x));
   (js "action_commitment", bound "action_commitment");
   (js "context_commitment", bound "context_commitment");
   (js "execution_status", VStr (status_name executionStatus));
   (js "effect_commitment", null_or_str effectHash);
   (js "recording_started_at", VStr (hr_started_at x));
   (js "recorded_at", VStr (to_iso_string recordedAt)); (js "diagnostic", null_or_str diagnostic);
   (js "reference_only", VBool true); (js "gate_consumption_proved", VBool false);
   (js "native_execution_time_proved", VBool false);
   (js "external_execution_proved", VBool false); (js "external_effect_proved", VBool false)].

(** [buildEvidence] for the handle [i] *)
Definition buildEvidence (r : recorder) (i : nat) (x : handle_record)
    (executionStatus : execution_status) (effectHash diagnostic : option jsstr)
    (reading : clock_reading) : res nat * recorder :=
  let '(recordedAt, r) := exec_sampleTrustedClock r reading in
  match
    recordedAt ← recordedAt;
    let payload := evidence_payload x executionStatus effectHash diagnostic recordedAt in
    hash ← commitEvidence (VObj PObject payload);
    let evidence := VObj PObject (payload ++ [(js "execution_evidence_hash", VStr hash)]) in
    _ ← validateEvidence (inert_heap evidence) (inert_ref evidence);
    Ok evidence
  with
  | Throw e => (Throw e, r)
  | Ok evidence =>
      (Ok (length (localEvidence r)),
       {| exec_last := exec_last r;
          handleState := alter (with_evidence (length (localEvidence r))) i (handleState r);
          localEvidence := localEvidence r ++ [evidence];
          usedAuthorizationCommitments := usedAuthorizationCommitments r |})
  end.

(** What [complete] records of an outcome: the status, the effect commitment and
    the diagnostic. *)
Definition classify_outcome (h : heap) (rawOutcome : hval)
  : res (execution_status * option jsstr * option jsstr) :=
  let invalid := Ok (Unknown, None, Some (js "POMRX_EXEC_DIAG_OUTCOME_INVALID")) in
  match captureReferencePlainData h rawOutcome (js "execution outcome") with
  | Throw error => if bool_decide (err_cls error = PlainDataErr) then invalid else Throw error
  | Ok outcome =>
      match captureExactDataRecord (inert_heap outcome) (inert_ref outcome) OUTCOME_KEYS
              "execution outcome" "POMRX_EXEC_E_OUTCOME_INVALID" with
      | Throw error =>
          if bool_decide (err_cls error = ExecutionErr)
             && str_eqb (err_code error) (js "POMRX_EXEC_E_OUTCOME_INVALID")
          then invalid else Throw error
      | Ok capturedOutcome =>
          let effect := get (js "effect") outcome in
          match find_status (snap_get (js "execution_status") capturedOutcome) with
          | None => invalid
          | Some Unknown =>
              if is_null effect
              then Ok (Unknown, None, Some (js "POMRX_EXEC_DIAG_EXECUTION_UNKNOWN"))
              else invalid
          | Some executionStatus =>
              if is_null effect then invalid
              else
                match commitEffect effect with
                | Ok effectHash => Ok (executionStatus, Some effectHash, None)
                | Throw error =>
                    if bool_decide (err_cls error = ExecutionErr)
                       && str_eqb (err_code error) (js "POMRX_EXEC_E_EFFECT_UNCOMMITTABLE")
                    then invalid else Throw error
                end
          end
      end
  end.

(** [complete] after the handle [i] is reserved. *)
Definition complete_reserved (h : heap) (i : nat) (rawOutcome : hval) (reading : clock_reading)
    (r : recorder) : res nat * recorder :=
  match handleState r !! i with
  | None => (Throw (exec_fail "POMRX_EXEC_E_HANDLE_REQUIRED"
                     (js "a handle from this recorder is required")), r)
  | Some x =>
      match classify_outcome h rawOutcome with
      | Throw error => (Throw error, set_handle r i (with_state FAILED))
      | Ok (status, effect, diagnostic) =>
          match buildEvidence r i x status effect diagnostic reading with
          | (Throw error, r) => (Throw error, set_handle r i (with_state FAILED))
          | (Ok e, r) => (Ok e, r)
          end
      end
  end.

(** [complete(handle, rawOutcome)] when the clock leaves the recorder alone. *)
Definition complete (h : heap) (handle : option nat) (rawOutcome : hval) (reading : clock_reading)
    (r : recorder) : res nat * recorder :=
  match reserve r handle with
  | (Throw e, r) => (Throw e, r)
  | (Ok i, r) => complete_reserved h i rawOutcome reading r
  end.

(** [isLocallyRecorded(evidence)] *)
Definition isLocallyRecorded (r : recorder) (evidence : option nat) : res bool :=
  match (e ← evidence; localEvidence r !! e) with
  | None => Ok false
  | Some v => _ ← validateEvidence (inert_heap v) (inert_ref v); Ok true
  end.

Definition inspectHandleStateForTest (r : recorder) (handle : option nat) : option handle_state :=
  i ← handle; hr_state <$> handleState r !! i.

(** ** Interleavings *)

Inductive exec_step (r : recorder) : recorder -> Prop :=
  | step_begin h input reading : exec_step r (begin h input reading r).2
  | step_reserve handle : exec_step r (reserve r handle).2
  | step_complete h i x rawOutcome reading :
      handleState r !! i = Some x -> hr_state x = COMPLETING ->
      exec_step r (complete_reserved h i rawOutcome reading r).2.

Definition exec_reachable : recorder -> Prop := rtc exec_step empty_recorder.
End execution.

(** ** Exact records *)

Lemma captureExactDataRecord_Ok h v keys label code s :
  captureExactDataRecord h v keys label code = Ok s <->
  exists l, v = HRef l /\ plain_object (h l) = true /\ own_names (h l) ≡ₚ keys /\
    Forall2 (fun key kv => kv.1 = key /\
      own_descriptor (h l) key = Some {| p_enumerable := true; p_content := Data kv.2 |})
      (sort_by str_leb (own_names (h l))) s.
Proof.
  unfold captureExactDataRecord, plain_object. split.
  - intros (o & Ho & H)%bind_Ok. apply guard_bind_Ok in H as [H1 H].
    apply guard_bind_Ok in H as [H2 H]. apply guard_bind_Ok in H as [Hk%same_keys_iff H].
    apply snapshot_keys_Ok in H. destruct v as [| | | | | | | |l]; try done. simpl in Ho.
    destruct (o_proxy (h l)) eqn:Ep; [done|].
    destruct (bool_decide (o_array (h l) = None)) eqn:Ea; [|done]. injection Ho as <-.
    exists l. by rewrite Ep, H1, H2, Ea.
  - intros (l & -> & Hp & Hk & Hf). rewrite !andb_true_iff in Hp. destruct Hp as [[[H0 H1] H2] H3].
    apply negb_true_iff in H0. simpl. rewrite H0, H1. cbn [mbind res_bind]. rewrite H2.
    cbn [guard_or mbind res_bind]. rewrite H3. cbn [guard_or mbind res_bind].
    apply same_keys_iff in Hk. rewrite Hk. cbn [guard_or mbind res_bind]. by apply snapshot_keys_Ok.
Qed.

(** The fields of a captured record, whatever its keys are sorted by. *)
Lemma captured_field h l keys label code s k :
  captureExactDataRecord h (HRef l) keys label code = Ok s -> k ∈ keys ->
  own_descriptor (h l) k = Some {| p_enumerable := true; p_content := Data (snap_get k s) |}.
Proof.
  intros (l' & [= <-] & _ & Hk & Hf)%captureExactDataRecord_Ok Hin.
  eapply snap_get_Forall2; [|exact Hf]. apply elem_of_sort_by. by rewrite Hk.
Qed.

(** Capturing inert data. *)
Lemma inert_captured d keys label code s :
  captureExactDataRecord (inert_heap d) (inert_ref d) keys label code = Ok s ->
  exists p entries, d = VObj p entries /\ entries.*1 ≡ₚ keys /\
    forall k, k ∈ keys -> snap_get k s = hval_of (get k d).
Proof.
  intros H. pose proof H as (l & E & Hp & Hk & _)%captureExactDataRecord_Ok.
  assert (exists p entries, d = VObj p entries /\ l = 0%nat) as (p & entries & -> & ->).
  { destruct d as [| | | | | | | |items|p entries]; simpl in E; try discriminate E.
    - injection E as <-. done.
    - injection E as <-. by exists p, entries. }
  exists p, entries. split; [done|]. 
  change (inert_heap (VObj p entries) 0%nat) with (inert_object (VObj p entries)) in Hk.
  rewrite inert_own_names in Hk. split; [done|]. intros k Hin.
  pose proof (captured_field _ _ _ _ _ _ k H Hin) as Hd. 
  change (inert_heap (VObj p entries) 0%nat) with (inert_object (VObj p entries)) in Hd.
  rewrite inert_own_descriptor in Hd. cbn [get].
  destruct (alist_get k entries) as [w|]; [|done]. cbn [fmap option_fmap option_map default] in *.
  unfold inert_prop in Hd. simpl. congruence.
Qed.

Lemma inert_capture p entries keys label code :
  (p = PObject \/ p = PNull) -> entries.*1 ≡ₚ keys ->
  exists s, captureExactDataRecord (inert_heap (VObj p entries)) (inert_ref (VObj p entries))
      keys label code = Ok s /\
    forall k, k ∈ keys -> snap_get k s = hval_of (get k (VObj p entries)).
Proof.
  intros Hp Hk. set (d := VObj p entries).
  assert (exists s, captureExactDataRecord (inert_heap d) (inert_ref d) keys label code = Ok s)
    as [s Hs].
  { setoid_rewrite captureExactDataRecord_Ok.
    assert (forall names, (forall k, k ∈ names -> k ∈ entries.*1) ->
      exists s, Forall2 (fun key kv => kv.1 = key /\ own_descriptor (inert_object d) key
        = Some {| p_enumerable := true; p_content := Data kv.2 |}) names s) as Hf.
    { induction names as [|k names IH]; intros Hn; [by exists []|].
      destruct IH as [s Hs]; [intros; apply Hn; by right|].
      assert (is_Some (alist_get k entries)) as [v Hv]
        by (apply alist_get_is_Some, Hn; left).
      exists ((k, hval_of v) :: s). constructor; [|done]. split; [done|].
      unfold d. by rewrite inert_own_descriptor, Hv. }
    destruct (Hf (sort_by str_leb (own_names (inert_object d)))) as [s Hs].
    { intros k. unfold d. rewrite inert_own_names. by intros ?%elem_of_sort_by. }
    exists s, 0%nat. split; [done|]. split; [by destruct Hp as [-> | ->]|].
    split; [|exact Hs]. change (inert_heap d 0%nat) with (inert_object d). unfold d.
    by rewrite inert_own_names. }
  exists s. split; [done|]. by apply inert_captured in Hs as (p' & e' & _ & _ & H).
Qed.

Section execution_proofs.
Context `{SH : !StringHost, HH : !HashHost, DH : !DateHost}.

(** What a captured and committed authorization is. *)
Record opened_binding (binding : jsv) (commitment : jsstr) (b : snapshot) (issued expires : Z)
  : Prop := {
  ob_keys : b.*1 = BINDING_KEYS;
  ob_wf : binding_wf b issued expires;
  ob_fields k : k ∈ BINDING_KEYS -> hval_of (get k binding) = snap_get k b;
  ob_commit : exists canonical, commitValidatedBinding b = Ok (canonical, commitment);
}.

(** Committing to captured data: it is an opened binding. *)
Lemma commit_inert_opened d c commitment :
  commitExactAuthorizationBinding (inert_heap d) (inert_ref d) = Ok (c, commitment) ->
  exists b i e, opened_binding d commitment b i e.
Proof.
  intros Ec. unfold commitExactAuthorizationBinding, snapshotAndValidateBinding in Ec.
  apply bind_Ok in Ec as ([b [i e]] & H & Hc). apply bind_Ok in H as (b' & Hs & H).
  apply bind_Ok in H as (times & Hv & [= -> ->]). apply validateBindingSnapshot_Ok in Hv.
  exists b, i, e. apply snapshotExactDataObject_Ok in Hs as (l & E & Hp & _ & Hf).
  split; [by eapply snapshot_key_list|done| |by exists c].
  intros k Hk. pose proof (snap_get_Forall2 _ _ _ k Hk Hf) as Hd.
  assert (exists p entries, d = VObj p entries /\ l = 0%nat) as (p & entries & -> & ->).
  { destruct d as [| | | | | | | |items|p entries]; simpl in E; try discriminate E.
    - injection E as <-. done.
    - injection E as <-. by exists p, entries. }
  change (inert_heap (VObj p entries) 0%nat) with (inert_object (VObj p entries)) in Hd.
  rewrite inert_own_descriptor in Hd. cbn [get].
  destruct (alist_get k entries) as [w|]; [|done]. cbn [fmap option_fmap option_map default] in *.
  unfold inert_prop in Hd. simpl. congruence.
Qed.

Lemma captureAuthorizationBinding_Ok h v binding commitment :
  captureAuthorizationBinding h v = Ok (binding, commitment) ->
  exists b i e, opened_binding binding commitment b i e.
Proof.
  unfold captureAuthorizationBinding, catch.
  destruct (captureReferencePlainData h v _) as [d|e0]; cbn [mbind res_bind];
    [|by case_bool_decide].
  destruct (commitExactAuthorizationBinding (inert_heap d) (inert_ref d)) as [[c h']|e0] eqn:Ec;
    cbn [mbind res_bind]; [|by case_bool_decide].
  intros [= <- <-]. by eapply commit_inert_opened.
Qed.

(** A field of an opened binding is a short plain string. *)
Lemma opened_field binding commitment b i e k :
  opened_binding binding commitment b i e -> k ∈ BINDING_KEYS ->
  exists s, get k binding = VStr s /\ snap_get k b = HStr s /\ short_plain s.
Proof.
  intros [Hk W Hf _] Hin. destruct (binding_strings b i e k W Hin) as (s & Hs & ?).
  exists s. split; [|done]. specialize (Hf k Hin). rewrite Hs in Hf.
  by destruct (get k binding); try discriminate Hf; injection Hf as ->.
Qed.

(** ** Evidence is always built *)

(** What [complete] may record: an unknown execution without an effect, or a
    known one with the commitment of its effect. *)
Inductive recordable : execution_status -> option jsstr -> option jsstr -> Prop :=
  | recordable_unknown d :
      d = js "POMRX_EXEC_DIAG_OUTCOME_INVALID" \/ d = js "POMRX_EXEC_DIAG_EXECUTION_UNKNOWN" ->
      recordable Unknown None (Some d)
  | recordable_known st effect :
      st <> Unknown -> hash_pattern effect = true -> recordable st (Some effect) None.

(** A handle that [begin] made. *)
Record handle_ok (x : handle_record) (b : snapshot) (issued expires started : Z) : Prop := {
  ho_binding : opened_binding (hr_binding x) (hr_commitment x) b issued expires;
  ho_started : hr_started_at x = to_iso_string started;
  ho_valid : time_valid started = true;
  ho_window : issued <= started < expires;
}.

Lemma commitment_hash b c h : commitValidatedBinding b = Ok (c, h) -> hash_pattern h = true.
Proof. intros (t & _ & [= _ <-])%bind_Ok. apply sha256_hex_format. Qed.

Lemma evidence_payload_fields x b i e t st effect diagnostic recorded :
  handle_ok x b i e t -> recordable st effect diagnostic ->
  Forall (fun kv => flat_field kv.2) (evidence_payload x st effect diagnostic recorded).
Proof.
  intros [Hb Hs _ _] Hr.
  assert (forall k, k ∈ BINDING_KEYS -> flat_field (get k (hr_binding x))) as Hf.
  { intros k Hk. destruct (opened_field _ _ _ _ _ k Hb Hk) as (s & -> & _ & ?). done. }
  assert (forall u, flat_field (VStr (to_iso_string u))) as Ht.
  { intros u. destruct (to_iso_string_plain u). split; [done|lia]. }
  assert (forall h, hash_pattern h = true -> flat_field (VStr h)) as Hh.
  { intros h [? ?]%hash_pattern_plain. split; [done|lia]. }
  destruct (ob_commit _ _ _ _ _ Hb) as [c Hc%commitment_hash].
  unfold evidence_payload. rewrite Hs.
  repeat (apply List.Forall_cons; [cbn [snd]|]); try (apply Hf; decide_now); auto using List.Forall_nil;
    try done; try (split; [reflexivity|vm_compute; lia]).
  - destruct st; (split; [reflexivity|vm_compute; lia]).
  - destruct Hr; [done|by apply Hh].
  - destruct Hr as [d [-> | ->]|]; simpl; try (split; [reflexivity|vm_compute; lia]). done.
Qed.

Definition payload_keys : list jsstr := take 17 EVIDENCE_KEYS.
Lemma evidence_payload_keys x st effect diagnostic recorded :
  (evidence_payload x st effect diagnostic recorded).*1 = payload_keys.
Proof. reflexivity. Qed.

(** The evidence record of a payload. *)
Definition evidence_of (payload : list (jsstr * jsv)) (hash : jsstr) : jsv :=
  VObj PObject (payload ++ [(js "execution_evidence_hash", VStr hash)]).

Lemma is_hash_str s : hash_pattern s = true -> is_hash (HStr s) = true.
Proof. intros H. unfold is_hash. simpl. by rewrite H. Qed.

Lemma find_status_name st : find_status (HStr (status_name st)) = Some st.
Proof. by destruct st. Qed.

Lemma exec_utc_iso t f : time_valid t = true -> exec_utc (HStr (to_iso_string t)) f = Ok t.
Proof. intros H. by apply canonical_utc_Ok. Qed.

Lemma validateEvidence_built x b i e t st effect diagnostic recorded hash :
  handle_ok x b i e t -> recordable st effect diagnostic ->
  time_valid recorded = true -> t <= recorded -> hash_pattern hash = true ->
  let evidence := evidence_of (evidence_payload x st effect diagnostic recorded) hash in
  validateEvidence (inert_heap evidence) (inert_ref evidence) = Ok (inert_ref evidence).
Proof.
  intros [Hb Hs Hv Hw] Hr Hrec Hle Hh evidence. unfold validateEvidence.
  destruct (inert_capture PObject (evidence_payload x st effect diagnostic recorded
    ++ [(js "execution_evidence_hash", VStr hash)]) EVIDENCE_KEYS "reference execution evidence"
    "POMRX_EXEC_E_EVIDENCE_INVALID") as (s & Hc & Hf); [by left|reflexivity|].
  fold (evidence_of (evidence_payload x st effect diagnostic recorded) hash) in Hc, Hf.
  fold evidence in Hc, Hf. rewrite Hc. cbn [mbind res_bind]. cbv zeta.
  assert (forall k v, mem_str (js k) EVIDENCE_KEYS = true -> get (js k) evidence = v ->
    snap_get (js k) s = hval_of v) as G.
  { intros k v Hk%mem_str_true <-. by apply Hf. }
  rewrite (G "schema_version" (VStr POM_RX_REFERENCE_EXECUTION_EVIDENCE_VERSION)) by reflexivity.
  rewrite (G "execution_status" (VStr (status_name st))) by reflexivity.
  rewrite (G "effect_commitment" (null_or_str effect)) by reflexivity.
  rewrite (G "diagnostic" (null_or_str diagnostic)) by reflexivity.
  rewrite (G "reference_only" (VBool true)) by reflexivity.
  rewrite (G "gate_consumption_proved" (VBool false)) by reflexivity.
  rewrite (G "native_execution_time_proved" (VBool false)) by reflexivity.
  rewrite (G "external_execution_proved" (VBool false)) by reflexivity.
  rewrite (G "external_effect_proved" (VBool false)) by reflexivity.
  rewrite (G "recording_started_at" (VStr (to_iso_string t))) by (first [reflexivity | rewrite <- Hs; reflexivity]).
  rewrite (G "recorded_at" (VStr (to_iso_string recorded))) by reflexivity.
  cbn [for_each].
  rewrite (G "authorization_commitment" (VStr (hr_commitment x))) by reflexivity.
  rewrite (G "execution_evidence_hash" (VStr hash)) by reflexivity.
  assert (forall k, js k ∈ hash_fields -> mem_str (js k) EVIDENCE_KEYS = true ->
    get (js k) evidence = get (js k) (hr_binding x) -> is_hash (snap_get (js k) s) = true) as Gh.
  { intros k Hin Hk E. rewrite (G k _ Hk E).
    pose proof (bw_hashes _ _ _ (ob_wf _ _ _ _ _ Hb)) as Hall. rewrite Forall_forall in Hall.
    destruct (Hall _ Hin) as (u & Hu & Hp).
    assert (Forall (fun k => k ∈ BINDING_KEYS) hash_fields) as Hsub by decide_now.
    rewrite Forall_forall in Hsub. rewrite (ob_fields _ _ _ _ _ Hb) by auto.
    rewrite Hu. by apply is_hash_str. }
  rewrite (Gh "action_commitment"), (Gh "context_commitment") by (reflexivity || decide_now).
  destruct (ob_commit _ _ _ _ _ Hb) as [c Hcommit%commitment_hash].
  cbn [hval_of]. rewrite !is_hash_str by done. rewrite find_status_name, !exec_utc_iso by done.
  rewrite bool_decide_true by done.
  assert (bool_decide (is_Some (Some st)) = true) as -> by (by apply bool_decide_eq_true).
  cbn [guard_or mbind res_bind].
  destruct Hr as [d Hd|st effect Hst He].
  - assert (bool_decide (is_Some (hstr_that DIAGNOSTIC_PATTERN (hval_of (null_or_str (Some d))))) = true)
      as Hdiag by (destruct Hd as [-> | ->]; reflexivity).
    rewrite Hdiag. apply Z.leb_le in Hle. rewrite Hle. rewrite orb_true_r. reflexivity.
  - cbn [null_or_str hval_of]. rewrite is_hash_str by done. apply Z.leb_le in Hle. rewrite Hle.
    by destruct st.
Qed.

(** ** What an outcome is recorded as *)

(** The outcome is a plain record with the two fields and this status. *)
Definition outcome_record (h : heap) (raw : hval) (st : execution_status) (effect : jsv) : Prop :=
  exists outcome, captureReferencePlainData h raw (js "execution outcome") = Ok outcome /\
    is_record outcome = true /\ keys_of outcome ≡ₚ OUTCOME_KEYS /\
    get (js "execution_status") outcome = VStr (status_name st) /\
    get (js "effect") outcome = effect.

Definition recorded_as (h : heap) (raw : hval) (st : execution_status)
    (effect diagnostic : option jsstr) : Prop :=
  match effect with
  | Some hash => diagnostic = None /\ st <> Unknown /\ exists v c,
      outcome_record h raw st v /\ v <> VNull /\ canonicalizePayload v = Ok c /\
      hash = sha256Hex (effect_input c)
  | None =>
      st = Unknown /\
      ((diagnostic = Some (js "POMRX_EXEC_DIAG_EXECUTION_UNKNOWN") /\
        outcome_record h raw Unknown VNull) \/
       (diagnostic = Some (js "POMRX_EXEC_DIAG_OUTCOME_INVALID") /\
        ~ outcome_record h raw Unknown VNull /\
        forall st' v c, outcome_record h raw st' v -> st' <> Unknown -> v <> VNull ->
          canonicalizePayload v <> Ok c))
  end.

Lemma status_name_inj x y : status_name x = status_name y -> x = y.
Proof. destruct x, y; vm_compute; congruence. Qed.

Lemma find_status_Some v st : find_status v = Some st <-> v = HStr (status_name st).
Proof.
  unfold find_status. split; [|intros ->; apply find_status_name].
  destruct v; try done. intros [_ E%str_eqb_eq]%find_some. by rewrite E.
Qed.

Lemma hval_of_str d s : hval_of d = HStr s <-> d = VStr s.
Proof. destruct d; simpl; split; intros H; try discriminate H; congruence. Qed.

Definition is_exec_error (code : string) (e : jserr) : Prop :=
  err_cls e = ExecutionErr /\ err_code e = js code.

Lemma captureExactDataRecord_throws h v keys label code :
  throws_only (is_exec_error code) (captureExactDataRecord h v keys label code).
Proof.
  unfold captureExactDataRecord. apply throws_only_bind.
  { destruct (object_of h v); [|done]. by destruct (bool_decide _). }
  intros o _. do 3 (apply throws_only_bind; [by apply throws_only_guard|]; intros _ _).
  apply throws_only_map_res. intros k _. by destruct (enumerable_data _).
Qed.

Lemma captured_proto h v label p entries :
  captureReferencePlainData h v label = Ok (VObj p entries) -> p = PNull.
Proof.
  unfold captureReferencePlainData. intros (_ & ([d' r] & H & E)%fmap_Ok)%guard_bind_Ok.
  simpl in E. subst d'. apply captureValue_Ok in H as (H & _ & _); [|done].
  apply denotes_bounded in H. by destruct p.
Qed.

(** The two fields of a captured outcome, if it has exactly them. *)
Lemma outcome_captured h raw outcome :
  captureReferencePlainData h raw (js "execution outcome") = Ok outcome ->
  match captureExactDataRecord (inert_heap outcome) (inert_ref outcome) OUTCOME_KEYS
      "execution outcome" "POMRX_EXEC_E_OUTCOME_INVALID" with
  | Ok s =>
      forall st v, outcome_record h raw st v <->
        find_status (snap_get (js "execution_status") s) = Some st /\ get (js "effect") outcome = v
  | Throw e => is_exec_error "POMRX_EXEC_E_OUTCOME_INVALID" e /\ forall st v, ~ outcome_record h raw st v
  end.
Proof.
  intros Hraw. unfold outcome_record.
  pose proof (captureExactDataRecord_throws (inert_heap outcome) (inert_ref outcome) OUTCOME_KEYS
    "execution outcome" "POMRX_EXEC_E_OUTCOME_INVALID") as Ht.
  destruct (captureExactDataRecord _ _ _ _ _) as [s|e] eqn:Ec.
  - apply inert_captured in Ec as (p & entries & -> & Hk & Hf). intros st v.
    rewrite find_status_Some, Hf by decide_now. rewrite hval_of_str. split.
    + intros (o & E & _ & _ & ? & ?). rewrite Hraw in E. by injection E as <-.
    + intros [? ?]. exists (VObj p entries). split; [done|]. split; [|done].
      apply captured_proto in Hraw as ->. done.
  - split; [done|]. intros st v (o & E & Hr & Hk & _). rewrite Hraw in E. injection E as <-.
    destruct outcome as [| | | | | | | | |p entries]; try done.
    destruct (inert_capture p entries OUTCOME_KEYS "execution outcome"
      "POMRX_EXEC_E_OUTCOME_INVALID") as (s & Hs & _); [|done|congruence].
    right. by eapply captured_proto.
Qed.

Lemma commitEffect_cases v :
  (exists c, canonicalizePayload v = Ok c /\ commitEffect v = Ok (sha256Hex (effect_input c))) \/
  (exists e, commitEffect v = Throw e /\ is_exec_error "POMRX_EXEC_E_EFFECT_UNCOMMITTABLE" e /\
     forall c, canonicalizePayload v <> Ok c).
Proof.
  unfold commitEffect, catch. pose proof (canonicalizePayload_throws v) as Ht.
  destruct (canonicalizePayload v) as [c|e]; [left; by exists c|]. right. simpl in Ht.
  unfold is_payload_error in Ht. rewrite (bool_decide_true _ Ht). by eexists.
Qed.

Lemma classify_outcome_Ok h raw :
  exists st effect diagnostic, classify_outcome h raw = Ok (st, effect, diagnostic) /\
    recordable st effect diagnostic /\ recorded_as h raw st effect diagnostic.
Proof.
  unfold classify_outcome.
  assert ((~ outcome_record h raw Unknown VNull) ->
    (forall st' v c, outcome_record h raw st' v -> st' <> Unknown -> v <> VNull ->
       canonicalizePayload v <> Ok c) ->
    exists st effect diagnostic,
      (Ok (Unknown, None, Some (js "POMRX_EXEC_DIAG_OUTCOME_INVALID"))
         : res (execution_status * option jsstr * option jsstr)) = Ok (st, effect, diagnostic) /\
      recordable st effect diagnostic /\ recorded_as h raw st effect diagnostic) as Hinv.
  { intros H1 H2. eexists _, _, _. split; [reflexivity|]. split; [by apply recordable_unknown; left|].
    split; [done|]. by right. }
  destruct (captureReferencePlainData h raw (js "execution outcome")) as [outcome|e] eqn:Ec.
  2:{ assert (err_cls e = PlainDataErr) as He.
      { apply (throws_only_Throw is_data_error _ _ (captureReferencePlainData_throws h raw
          (js "execution outcome") ltac:(vm_compute; lia)) Ec). }
      rewrite (bool_decide_true _ He). apply Hinv; [intros (? & ? & _); congruence|].
      intros st' v c (? & ? & _); congruence. }
  pose proof (outcome_captured h raw outcome Ec) as Ho.
  destruct (captureExactDataRecord _ _ _ _ _) as [s|e].
  2:{ destruct Ho as [[Hc Hd] Hn]. rewrite (bool_decide_true _ Hc), Hd, str_eqb_refl. simpl.
      apply Hinv; [by apply Hn|]. intros st' v c H. by apply Hn in H. }
  assert (forall P, P <> VNull <-> is_null P = false) as Hnull by (by intros []).
  destruct (find_status (snap_get (js "execution_status") s)) as [st|].
  2:{ apply Hinv; [by intros [? _]%Ho|]. intros st' v c [? _]%Ho. done. }
  assert (forall st' v, outcome_record h raw st' v <-> st' = st /\ v = get (js "effect") outcome)
    as Hr by (intros; rewrite Ho; split; intros [? ?]; split; congruence).
  set (effect := get (js "effect") outcome) in *. clearbody effect. clear Ho.
  destruct (is_null effect) eqn:En.
  - assert (effect = VNull) as -> by (by destruct effect).
    destruct st; cbn match.
    1,2: apply Hinv; [by intros [? _]%Hr|]; intros st' v c [_ ->]%Hr; done.
    eexists _, _, _. split; [reflexivity|]. split; [by apply recordable_unknown; right|].
    split; [done|]. left. split; [done|]. by apply Hr.
  - apply Hnull in En.
    assert (st <> Unknown -> exists st0 e0 d0, match commitEffect effect with
      | Ok effectHash => Ok (st, Some effectHash, None)
      | Throw error => if bool_decide (err_cls error = ExecutionErr)
            && str_eqb (err_code error) (js "POMRX_EXEC_E_EFFECT_UNCOMMITTABLE")
          then Ok (Unknown, None, Some (js "POMRX_EXEC_DIAG_OUTCOME_INVALID")) else Throw error
      end = Ok (st0, e0, d0) /\ recordable st0 e0 d0 /\ recorded_as h raw st0 e0 d0) as Hk.
    { intros Hst. destruct (commitEffect_cases effect) as [(c & Hc & ->)|(e & -> & [Hc Hd] & Hn)].
      - eexists _, _, _. split; [reflexivity|].
        split; [apply recordable_known; [done|apply sha256_hex_format]|].
        split; [done|]. split; [done|]. exists effect, c. split; [by apply Hr|]. done.
      - rewrite (bool_decide_true _ Hc), Hd, str_eqb_refl. simpl.
        apply Hinv; [intros [? ?]%Hr; by destruct En|]. intros st' v c [_ ->]%Hr. auto. }
    destruct st; [by apply Hk|by apply Hk|].
    apply Hinv; [intros [_ E]%Hr; by destruct En|]. intros st' v c [-> _]%Hr. done.
Qed.

(** ** Building evidence *)

(** [v] is the evidence of an outcome recorded for the handle [x]. *)
Record evidence_for (x : handle_record) (v : jsv) (st : execution_status)
    (effect diagnostic : option jsstr) (recorded : Z) : Prop := {
  ef_recordable : recordable st effect diagnostic;
  ef_valid : time_valid recorded = true;
  ef_order : exists started, hr_started_at x = to_iso_string started /\
    time_valid started = true /\ started <= recorded;
  ef_value : exists canonical,
    canonicalizePayload (VObj PObject (evidence_payload x st effect diagnostic recorded)) = Ok canonical /\
    v = evidence_of (evidence_payload x st effect diagnostic recorded)
          (sha256Hex (evidence_input canonical));
}.

Definition add_evidence (r : recorder) (i : nat) (v : jsv) : recorder :=
  {| exec_last := exec_last r;
     handleState := alter (with_evidence (length (localEvidence r))) i (handleState r);
     localEvidence := localEvidence r ++ [v];
     usedAuthorizationCommitments := usedAuthorizationCommitments r |}.

Lemma buildEvidence_cases r i x b issued expires t st effect diagnostic reading :
  handle_ok x b issued expires t -> recordable st effect diagnostic ->
  (exists last, exec_last r = Some last /\ t <= last) ->
  (exists recorded v,
     sample_clock exec_fail "POMRX_EXEC" (exec_last r) reading = Ok recorded /\
     evidence_for x v st effect diagnostic recorded /\
     buildEvidence r i x st effect diagnostic reading =
       (Ok (length (localEvidence r)), add_evidence (set_last r recorded) i v)) \/
  (exists e, sample_clock exec_fail "POMRX_EXEC" (exec_last r) reading = Throw e /\
     buildEvidence r i x st effect diagnostic reading = (Throw e, r)).
Proof.
  intros Hx Hr (last & Hlast & Hle). unfold buildEvidence, exec_sampleTrustedClock.
  destruct (sample_clock _ _ _ _) as [recorded|e] eqn:Es; [|right; by exists e].
  left. apply sample_clock_valid in Es as Hv. apply sample_clock_Ok in Es as [_ Hmono].
  specialize (Hmono _ Hlast).
  destruct (flat_payload_total PObject (evidence_payload x st effect diagnostic recorded)) as [c Hc];
    [split; [reflexivity|by eapply evidence_payload_fields]|vm_compute; lia|].
  exists recorded, (evidence_of (evidence_payload x st effect diagnostic recorded)
                      (sha256Hex (evidence_input c))).
  split; [done|]. split.
  { split; [done|done| |by exists c]. exists t. split; [apply Hx|]. split; [apply Hx|lia]. }
  unfold commitEvidence. cbn [mbind res_bind]. cbv zeta. rewrite Hc. cbn [mbind res_bind].
  pose proof (validateEvidence_built x b issued expires t st effect diagnostic recorded
    (sha256Hex (evidence_input c)) Hx Hr Hv ltac:(lia) (sha256_hex_format _)) as Hval.
  cbv zeta in Hval. unfold evidence_of in Hval. rewrite Hval. reflexivity.
Qed.

(** ** The invariant of a recorder *)

Record recorder_inv (r : recorder) : Prop := {
  ri_used : usedAuthorizationCommitments r = reverse (hr_commitment <$> handleState r);
  ri_distinct : NoDup (hr_commitment <$> handleState r);
  ri_capacity : (length (handleState r) <= MAX_LOCAL_AUTHORIZATIONS)%nat;
  ri_handles i x : handleState r !! i = Some x ->
    exists b issued expires t last, handle_ok x b issued expires t /\
      exec_last r = Some last /\ t <= last;
  ri_state i x : handleState r !! i = Some x -> hr_state x = RECORDED <-> is_Some (hr_evidence x);
  ri_index i x e : handleState r !! i = Some x -> hr_evidence x = Some e ->
    (e < length (localEvidence r))%nat;
  ri_unique i j x y e : handleState r !! i = Some x -> handleState r !! j = Some y ->
    hr_evidence x = Some e -> hr_evidence y = Some e -> i = j;
  ri_recorded e v : localEvidence r !! e = Some v ->
    exists i x st effect diagnostic recorded, handleState r !! i = Some x /\
      hr_evidence x = Some e /\ evidence_for x v st effect diagnostic recorded;
}.

(** What stays the same of a handle. *)
Record same_handle (x y : handle_record) : Prop := {
  sh_binding : hr_binding y = hr_binding x;
  sh_commitment : hr_commitment y = hr_commitment x;
  sh_started : hr_started_at y = hr_started_at x;
}.

Lemma same_handle_ok x y b i e t : same_handle x y -> handle_ok x b i e t -> handle_ok y b i e t.
Proof. intros [H1 H2 H3] [? ? ? ?]. split; rewrite ?H1, ?H2, ?H3; done. Qed.

Lemma same_handle_evidence x y v st effect diagnostic recorded :
  same_handle x y -> evidence_for x v st effect diagnostic recorded ->
  evidence_for y v st effect diagnostic recorded.
Proof.
  intros [H1 H2 H3] [? ? ? ?].
  assert (evidence_payload y st effect diagnostic recorded
    = evidence_payload x st effect diagnostic recorded) as E
    by (unfold evidence_payload; by rewrite H1, H2, H3).
  split; rewrite ?E, ?H3; done.
Qed.

Lemma set_handle_lookup r i f j :
  handleState (set_handle r i f) !! j =
    (if decide (i = j) then f <$> handleState r !! j else handleState r !! j).
Proof.
  simpl. destruct (decide (i = j)) as [->|]; [by rewrite list_lookup_alter_eq|].
  by rewrite list_lookup_alter_ne.
Qed.

Lemma alter_commitments f i (l : list handle_record) :
  (forall x, hr_commitment (f x) = hr_commitment x) ->
  hr_commitment <$> alter f i l = hr_commitment <$> l.
Proof.
  intros Hf. apply list_eq. intros j. rewrite !list_lookup_fmap.
  destruct (decide (i = j)) as [->|]; [rewrite list_lookup_alter_eq|by rewrite list_lookup_alter_ne].
  destruct (l !! j); simpl; [by rewrite Hf|done].
Qed.

Lemma set_state_inv r i st x :
  recorder_inv r -> handleState r !! i = Some x -> hr_evidence x = None -> st <> RECORDED ->
  recorder_inv (set_handle r i (with_state st)).
Proof.
  intros [] Hx He Hst.
  assert (forall j y, handleState (set_handle r i (with_state st)) !! j = Some y ->
    exists y', handleState r !! j = Some y' /\ same_handle y' y /\ hr_evidence y = hr_evidence y' /\
      (hr_state y = hr_state y' \/ hr_state y = st /\ hr_evidence y' = None)) as Hl.
  { intros j y. rewrite set_handle_lookup. destruct (decide (i = j)) as [<-|].
    - rewrite Hx. intros [= <-]. exists x. split; [done|]. split; [done|]. split; [done|]. by right.
    - intros Hy. exists y. split; [done|]. split; [done|]. split; [done|]. by left. }
  split; cbn [localEvidence usedAuthorizationCommitments exec_last set_handle]; simpl.
  - by rewrite alter_commitments.
  - by rewrite alter_commitments.
  - by rewrite length_alter.
  - intros j y (y' & Hy & Hs & _)%Hl.
    destruct (ri_handles0 j y' Hy) as (b & i' & e & t & last & Hok & ?).
    exists b, i', e, t, last. split; [by eapply same_handle_ok|done].
  - intros j y (y' & Hy & _ & -> & [-> | [-> Hn]])%Hl; [by apply (ri_state0 j)|].
    rewrite Hn. split; [done|by intros []].
  - intros j y e (y' & Hy & _ & -> & _)%Hl. by apply (ri_index0 j).
  - intros j k y z e (y' & Hy & _ & -> & _)%Hl (z' & Hz & _ & -> & _)%Hl. by apply (ri_unique0 j k).
  - intros e v (j & y & st' & effect & diagnostic & recorded & Hy & Hev & Hf)%ri_recorded0.
    exists j, y, st', effect, diagnostic, recorded.
    assert (i <> j) by (intros ->; congruence). by rewrite list_lookup_alter_ne.
Qed.

Lemma set_last_inv r now :
  (forall last, exec_last r = Some last -> last <= now) -> recorder_inv r -> recorder_inv (set_last r now).
Proof.
  intros Hm []. split; try done. intros i x Hx.
  destruct (ri_handles0 i x Hx) as (b & i' & e & t & last & Hok & Hl & Hle).
  exists b, i', e, t, now. split; [done|]. split; [done|]. specialize (Hm _ Hl). lia.
Qed.

Lemma add_evidence_inv r i x v st effect diagnostic recorded :
  recorder_inv r -> handleState r !! i = Some x -> hr_evidence x = None ->
  evidence_for x v st effect diagnostic recorded -> recorder_inv (add_evidence r i v).
Proof.
  intros [] Hx He Hv. set (n := length (localEvidence r)).
  assert (forall j y, handleState (add_evidence r i v) !! j = Some y ->
    exists y', handleState r !! j = Some y' /\ same_handle y' y /\
      (y = y' /\ i <> j \/ i = j /\ y = with_evidence n y' /\ hr_evidence y' = None)) as Hl.
  { intros j y. simpl. destruct (decide (i = j)) as [<-|].
    - rewrite list_lookup_alter_eq, Hx. intros [= <-]. exists x. split; [done|]. split; [done|]. by right.
    - rewrite list_lookup_alter_ne by done. intros Hy. exists y. split; [done|]. split; [done|]. by left. }
  split; cbn [exec_last usedAuthorizationCommitments localEvidence add_evidence];
    cbn [handleState add_evidence] in *.
  - by rewrite alter_commitments.
  - by rewrite alter_commitments.
  - by rewrite length_alter.
  - intros j y (y' & Hy & Hs & _)%Hl.
    destruct (ri_handles0 j y' Hy) as (b & i' & e & t & last & Hok & ?).
    exists b, i', e, t, last. split; [by eapply same_handle_ok|done].
  - intros j y (y' & Hy & _ & [[-> _]|(_ & -> & _)])%Hl; [by apply (ri_state0 j)|].
    split; [by eexists|done].
  - intros j y e (y' & Hy & _ & [[-> _]|(_ & -> & _)])%Hl; rewrite length_app; simpl.
    + intros H. apply (ri_index0 j y' e Hy) in H. lia.
    + intros [= <-]. unfold n. lia.
  - intros j k y z e (y' & Hy & _ & Dy)%Hl (z' & Hz & _ & Dz)%Hl.
    destruct Dy as [[-> ?]|(<- & -> & _)], Dz as [[-> ?]|(<- & -> & _)]; simpl; try done.
    + by apply (ri_unique0 j k).
    + intros Hi [= <-]. apply (ri_index0 j _ _ Hy) in Hi. unfold n in Hi. lia.
    + intros [= <-] Hi. apply (ri_index0 k _ _ Hz) in Hi. unfold n in Hi. lia.
  - intros e w [He'|[Hle Hw]]%lookup_app_Some.
    + destruct (ri_recorded0 e w He') as (j & y & st' & eff & diag & rec & Hy & Hev & Hf).
      exists j, y, st', eff, diag, rec. assert (i <> j) by (intros ->; congruence).
      by rewrite list_lookup_alter_ne.
    + apply list_lookup_singleton_Some in Hw as [Hz <-].
      exists i, (with_evidence n x), st, effect, diagnostic, recorded.
      rewrite list_lookup_alter_eq, Hx. split; [done|]. split; [simpl; f_equal; unfold n; lia|].
      by apply (same_handle_evidence x); [split|].
Qed.

Lemma complete_reserved_inv h i x raw reading r :
  recorder_inv r -> handleState r !! i = Some x -> hr_state x = COMPLETING ->
  recorder_inv (complete_reserved h i raw reading r).2.
Proof.
  intros I Hx Hst. unfold complete_reserved. rewrite Hx.
  assert (hr_evidence x = None) as He.
  { destruct (hr_evidence x) eqn:E; [|done]. assert (hr_state x = RECORDED); [|congruence].
    apply (ri_state _ I i x Hx). by rewrite E. }
  destruct (classify_outcome_Ok h raw) as (st & effect & diagnostic & -> & Hr & _).
  destruct (ri_handles _ I i x Hx) as (b & issued & expires & t & last & Hok & Hlast & Hle).
  destruct (buildEvidence_cases r i x b issued expires t st effect diagnostic reading)
    as [(recorded & v & Hs & Hv & ->)|(e & Hs & ->)]; try done; [by eauto|..]; simpl.
  - apply sample_clock_Ok in Hs as [_ Hm].
    by eapply add_evidence_inv; [apply set_last_inv| | |].
  - by eapply set_state_inv.
Qed.

Lemma begin_inv h input reading r : recorder_inv r -> recorder_inv (begin h input reading r).2.
Proof.
  intros I. unfold begin, exec_sampleTrustedClock.
  destruct (capturedInput ← _; _) as [[binding commitment]|e] eqn:Ec; [|done].
  apply bind_Ok in Ec as (captured & _ & (b & issued & expires & Hb)%captureAuthorizationBinding_Ok).
  destruct (sample_clock _ _ _ _) as [now|e] eqn:Es; [|done]. cbn [mbind res_bind].
  apply sample_clock_valid in Es as Hv. apply sample_clock_Ok in Es as [_ Hm].
  pose proof (set_last_inv r now Hm I) as [].
  destruct (begin_checks (set_last r now) binding commitment now) as [[]|e] eqn:Eb; [|done].
  cbn [mbind res_bind snd]. unfold begin_checks in Eb.
  apply bind_Ok in Eb as (i' & Hi & Eb). apply bind_Ok in Eb as (e' & He & Eb).
  apply guard_bind_Ok in Eb as [[H1%Z.leb_le H2%Z.ltb_lt]%andb_true_iff Eb].
  apply guard_bind_Ok in Eb as [Hnew%negb_true_iff Eb]. apply guard_or_Ok, Nat.ltb_lt in Eb.
  assert (commitment ∉ usedAuthorizationCommitments r) as Hn
    by (intros Hin%mem_str_true; simpl in Hnew; congruence).
  unfold binding_field in Hi, He.
  rewrite (ob_fields _ _ _ _ _ Hb) in Hi, He by decide_now.
  destruct (bw_issued _ _ _ (ob_wf _ _ _ _ _ Hb)) as [Ei Vi], (bw_expires _ _ _ (ob_wf _ _ _ _ _ Hb)) as [Ee Ve].
  rewrite Ei in Hi. rewrite Ee in He. unfold exec_utc in *.
  rewrite (proj2 (canonical_utc_Ok _ _ _ _ issued)) in Hi by done.
  rewrite (proj2 (canonical_utc_Ok _ _ _ _ expires)) in He by done.
  injection Hi as <-. injection He as <-.
  cbn [handleState set_last exec_last localEvidence usedAuthorizationCommitments] in *.
  assert (forall i x, (handleState r ++ [{| hr_state := OPEN; hr_binding := binding;
      hr_commitment := commitment; hr_started_at := to_iso_string now; hr_evidence := None |}]) !! i
      = Some x -> handleState r !! i = Some x \/ x = {| hr_state := OPEN; hr_binding := binding;
      hr_commitment := commitment; hr_started_at := to_iso_string now; hr_evidence := None |}) as Hl.
  { intros i x [?|[_ H]]%lookup_app_Some; [by left|].
    apply list_lookup_singleton_Some in H as [_ <-]. by right. }
  rewrite ri_used0, elem_of_reverse in Hn.
  assert (length (handleState r) = length (usedAuthorizationCommitments r)) as Hlen
    by (rewrite ri_used0, length_reverse, length_fmap; done).
  split; cbn [handleState exec_last localEvidence usedAuthorizationCommitments].
  - rewrite ri_used0, fmap_app, reverse_app. done.
  - rewrite fmap_app, NoDup_app. split; [done|]. split; [|apply NoDup_singleton].
    by intros c Hc ->%list_elem_of_singleton.
  - rewrite length_app. simpl. lia.
  - intros i x [Hx | ->]%Hl; [by apply (ri_handles0 i)|]. exists b, issued, expires, now, now.
    split; [by split|done].
  - intros i x [Hx | ->]%Hl; [by apply (ri_state0 i)|]. split; [done|by intros []].
  - intros i x e [Hx | ->]%Hl; [by apply (ri_index0 i)|done].
  - intros i j x y e [Hx | ->]%Hl [Hy | ->]%Hl; [by apply (ri_unique0 i j)|done..].
  - intros e v (i & x & st & effect & diagnostic & recorded & Hx & ?)%ri_recorded0.
    exists i, x, st, effect, diagnostic, recorded. split; [by apply lookup_app_l_Some|done].
Qed.

Lemma reserve_inv handle r : recorder_inv r -> recorder_inv (reserve r handle).2.
Proof.
  intros I. unfold reserve. destruct (i ← handle; _) as [[i x]|] eqn:E; [|done].
  destruct handle as [j|]; [|done]. simpl in E.
  destruct (handleState r !! j) as [x'|] eqn:Hx; [|done]. injection E as <- <-.
  case_bool_decide as Ho; [|done]. eapply set_state_inv; [done|exact Hx| |done].
  destruct (hr_evidence x') eqn:Ev; [|done].
  assert (hr_state x' = RECORDED); [|congruence]. apply (ri_state _ I j x' Hx). by rewrite Ev.
Qed.

Lemma empty_recorder_inv : recorder_inv empty_recorder.
Proof.
  split; simpl; try done; [apply NoDup_nil_2|lia].
Qed.

Lemma exec_reachable_inv r : exec_reachable r -> recorder_inv r.
Proof.
  unfold exec_reachable. revert r. apply rtc_ind_r; [apply empty_recorder_inv|].
  intros r r' _ Hs IH. destruct Hs; [by apply begin_inv|by apply reserve_inv|].
  by eapply complete_reserved_inv.
Qed.

(** ** What recorded evidence shows *)

Lemma evidence_for_started x v st effect diagnostic recorded b issued expires started :
  evidence_for x v st effect diagnostic recorded -> handle_ok x b issued expires started ->
  started <= recorded.
Proof.
  intros [_ _ (t & Ht & Hv & Hle) _] [_ Hs Hv' _].
  assert (t = started) as <-; [|done]. apply to_iso_string_inj; [done..|congruence].
Qed.

(** C30: Every evidence of a reachable recorder belongs to exactly one handle, opened
    inside the window of an authorization no other handle was opened for; it names
    the fields of that authorization, was not recorded before it was started, claims
    no proof of the execution, carries the hash of its other fields, and the
    recorder recognises it. *)
Theorem execution_evidence_sound r e v :
  exec_reachable r -> localEvidence r !! e = Some v ->
  isLocallyRecorded r (Some e) = Ok true /\
  exists i x b issued expires started st effect diagnostic recorded canonical,
    (handleState r !! i = Some x /\ hr_state x = RECORDED /\ hr_evidence x = Some e) /\
    (forall j y, handleState r !! j = Some y ->
       hr_evidence y = Some e \/ hr_commitment y = hr_commitment x -> j = i) /\
    opened_binding (hr_binding x) (hr_commitment x) b issued expires /\
    hr_started_at x = to_iso_string started /\ issued <= started < expires /\ started <= recorded /\
    recordable st effect diagnostic /\
    let payload := evidence_payload x st effect diagnostic recorded in
    canonicalizePayload (VObj PObject payload) = Ok canonical /\
    v = evidence_of payload (sha256Hex (evidence_input canonical)).
Proof.
  intros I%exec_reachable_inv Hv.
  destruct (ri_recorded _ I e v Hv) as (i & x & st & effect & diagnostic & recorded & Hx & He & Hf).
  destruct (ri_handles _ I i x Hx) as (b & issued & expires & started & last & Hok & _).
  pose proof (evidence_for_started _ _ _ _ _ _ _ _ _ _ Hf Hok) as Hle.
  pose proof Hf as [Hr Hval _ (canonical & Hc & ->)]. split.
  - unfold isLocallyRecorded. simpl. rewrite Hv.
    pose proof (validateEvidence_built x b issued expires started st effect diagnostic recorded
      (sha256Hex (evidence_input canonical)) Hok Hr Hval Hle (sha256_hex_format _)) as E.
    cbv zeta in E. by rewrite E.
  - exists i, x, b, issued, expires, started, st, effect, diagnostic, recorded, canonical.
    split; [split; [done|split; [|done]]|split].
    + apply (ri_state _ I i x Hx). by rewrite He.
    + intros j y Hy [Hj|Hj]; [by eapply (ri_unique _ I)|].
      eapply NoDup_lookup; [apply (ri_distinct _ I)|..]; rewrite list_lookup_fmap;
        [rewrite Hy|rewrite Hx]; simpl; by rewrite ?Hj.
    + destruct Hok. repeat (split; [done|]). done.
Qed.

(** C31: Completing an open handle always classifies the outcome, and records evidence
    of exactly that classification unless the clock fails, which leaves the handle
    failed; any other handle is refused and nothing changes. *)
Theorem complete_exact h i x raw reading r :
  exec_reachable r -> handleState r !! i = Some x ->
  match hr_state x with
  | OPEN =>
      match sample_clock exec_fail "POMRX_EXEC" (exec_last r) reading with
      | Ok recorded => exists st effect diagnostic v,
          recorded_as h raw st effect diagnostic /\
          evidence_for x v st effect diagnostic recorded /\
          complete h (Some i) raw reading r =
            (Ok (length (localEvidence r)), add_evidence (set_last r recorded) i v)
      | Throw e => complete h (Some i) raw reading r = (Throw e, set_handle r i (with_state FAILED))
      end
  | _ => exists e, is_exec_error "POMRX_EXEC_E_HANDLE_STALE" e /\
           complete h (Some i) raw reading r = (Throw e, r)
  end.
Proof.
  intros I%exec_reachable_inv Hx. unfold complete, reserve. simpl. rewrite Hx.
  destruct (hr_state x) eqn:Hst.
  2,3,4: cbn [mbind option_bind]; rewrite Hst, bool_decide_false by done; eexists; split; [|reflexivity]; done.
  cbn [mbind option_bind]. rewrite Hst, bool_decide_true by done.
  destruct (ri_handles _ I i x Hx) as (b & issued & expires & started & last & Hok & Hl & Hle).
  destruct (classify_outcome_Ok h raw) as (st & effect & diagnostic & Hc & Hr & Hrec).
  set (x' := with_state COMPLETING x). set (r' := set_handle r i (with_state COMPLETING)).
  assert (same_handle x x') as Hsame by done. assert (same_handle x' x) as Hsame' by done.
  assert (handleState r' !! i = Some x') as Hx'.
  { unfold r'. rewrite set_handle_lookup, decide_True, Hx by done. done. }
  unfold complete_reserved. fold r'. rewrite Hx', Hc.
  destruct (buildEvidence_cases r' i x' b issued expires started st effect diagnostic reading)
    as [(recorded & v & Hs & Hv & ->)|(e & Hs & ->)]; [by eapply same_handle_ok|done|by exists last|..];
    change (exec_last r') with (exec_last r) in Hs; rewrite Hs.
  - exists st, effect, diagnostic, v. split; [done|]. split; [by eapply same_handle_evidence|].
    f_equal. unfold add_evidence, set_last, r'. simpl. f_equal.
    by rewrite list_alter_alter_eq.
  - f_equal. unfold set_handle, r'. simpl. f_equal.
    by rewrite list_alter_alter_eq.
Qed.

(** ** The life of a handle *)

(** The stages a handle passes through, each at most once. *)
Definition handle_stage (st : handle_state) : nat :=
  match st with OPEN => 0 | COMPLETING => 1 | RECORDED | FAILED => 2 end.

(** [y] is the handle [x] at the same or a later time. *)
Definition later_handle (x y : handle_record) : Prop :=
  same_handle x y /\
  (y = x \/ (handle_stage (hr_state x) < handle_stage (hr_state y))%nat).

(** [r'] is the recorder [r] at the same or a later time. *)
Record later_recorder (r r' : recorder) : Prop := {
  lr_handles i x : handleState r !! i = Some x ->
    exists y, handleState r' !! i = Some y /\ later_handle x y;
  lr_evidence : localEvidence r `prefix_of` localEvidence r';
  lr_clock last : exec_last r = Some last ->
    exists last', exec_last r' = Some last' /\ last <= last';
}.

#[global] Instance later_recorder_preorder : PreOrder later_recorder.
Proof.
  split.
  - intros r. split; [|done|by eauto with lia]. intros i x Hx. exists x; split; [done|]; split; [done|by left].
  - intros r1 r2 r3 [A1 B1 C1] [A2 B2 C2]. split.
    + intros i x (y & (z & Hz & [[] Dz])%A2 & [[] Dy])%A1. exists z. split; [done|].
      split; [split; congruence|]. destruct Dz as [-> | Hz'], Dy as [-> | Hy']; auto. right. lia.
    + by etrans.
    + intros t (t' & (t'' & ? & ?)%C2 & ?)%C1. exists t''. split; [done|lia].
Qed.

Lemma set_last_later r now :
  (forall last, exec_last r = Some last -> last <= now) -> later_recorder r (set_last r now).
Proof.
  intros Hm. split; [intros i x Hx; exists x; split; [done|]; split; [done|by left]|done|].
  intros last Hl%Hm. by exists now.
Qed.

Lemma alter_later r i x f ev :
  handleState r !! i = Some x -> same_handle x (f x) ->
  (handle_stage (hr_state x) < handle_stage (hr_state (f x)))%nat ->
  localEvidence r `prefix_of` ev ->
  later_recorder r {| exec_last := exec_last r; handleState := alter f i (handleState r);
    localEvidence := ev; usedAuthorizationCommitments := usedAuthorizationCommitments r |}.
Proof.
  intros Hx Hs Hst Hev. split; [|done|simpl; by eauto with lia]. intros j y Hy. simpl.
  rewrite list_lookup_alter. case_decide as Hj.
  - subst j. rewrite Hx. replace y with x by congruence. exists (f x). by split; [|split; [|right]].
  - exists y. split; [done|]. split; [done|by left].
Qed.

Lemma sampled_later r reading :
  later_recorder r (exec_sampleTrustedClock r reading).2.
Proof.
  unfold exec_sampleTrustedClock. destruct (sample_clock _ _ _ _) eqn:Es; [|done].
  apply set_last_later. by apply sample_clock_Ok in Es as [_ ?].
Qed.

Lemma exec_step_later r r' : exec_step r r' -> later_recorder r r'.
Proof.
  intros [h input reading|handle|h i x raw reading Hx Hst].
  - unfold begin. destruct (capturedInput ← _; _) as [[binding commitment]|]; [|done].
    pose proof (sampled_later r reading) as Hl.
    destruct (exec_sampleTrustedClock r reading) as [now r1]. simpl in Hl.
    destruct (now ← now; _); [|done]. simpl. etrans; [exact Hl|].
    split; [|done|simpl; by eauto with lia]. intros i x Hx. exists x. simpl.
    split; [by apply lookup_app_l_Some|]. split; [done|by left].
  - unfold reserve. destruct (i ← handle; _) as [[i x]|] eqn:E; [|done].
    destruct handle as [j|]; [|done]. simpl in E.
    destruct (handleState r !! j) as [x'|] eqn:Hx; [|done]. injection E as <- <-.
    case_bool_decide as Ho; [|done]. eapply alter_later; [done|done| |done]. rewrite Ho. simpl. lia.
  - unfold complete_reserved. rewrite Hx. 
    assert (forall r1, later_recorder r r1 -> handleState r1 !! i = Some x ->
      later_recorder r (set_handle r1 i (with_state FAILED))) as Hfail.
    { intros r1 H1 H2. etrans; [exact H1|]. eapply alter_later; [done|done| |done].
      rewrite Hst. simpl. lia. }
    destruct (classify_outcome h raw) as [[[st effect] diagnostic]|]; [|by apply Hfail].
    unfold buildEvidence. pose proof (sampled_later r reading) as Hl.
    assert (handleState (exec_sampleTrustedClock r reading).2 !! i = Some x) as Hx1
      by (unfold exec_sampleTrustedClock; by destruct (sample_clock _ _ _ _)).
    destruct (exec_sampleTrustedClock r reading) as [now r1]. simpl in Hl, Hx1.
    destruct (recordedAt ← now; _) as [v|]; [|by apply Hfail]. simpl. etrans; [exact Hl|].
    eapply alter_later; [done|done| |by apply prefix_app_r]. rewrite Hst. simpl. lia.
Qed.

(** C32: However the calls interleave, a handle keeps the authorization it was opened
    for and only moves from open to completing to recorded or failed, recorded
    evidence is never changed or dropped, and the accepted instants never go back. *)
Theorem recorder_lifecycle r r' : rtc exec_step r r' -> later_recorder r r'.
Proof.
  intros H. induction H as [|r1 r2 r3 H1%exec_step_later _ IH]; [done|by etrans].
Qed.
End execution_proofs.

(** ** A run *)

Section execution_witness.
#[local] Existing Instances plain_string_host checksum_hash_host iso_date_host.

(** Object 0 is the input of [begin], object 1 the binding, object 2 an outcome
    and object 3 its effect. *)
Definition recording_heap : heap := fun l =>
  {| o_proxy := false; o_proto := ObjectPrototype; o_array := None; o_symbols := 0;
     o_props := match l with
       | O => [(js "authorization_binding",
                 {| p_enumerable := true; p_content := Data (HRef 1%nat) |})]
       | 1%nat => map (fun kv => (kv.1, {| p_enumerable := true; p_content := Data kv.2 |}))
                    sample_prepared.1
       | 2%nat => [data_entry "execution_status" (js "success");
                   (js "effect", {| p_enumerable := true; p_content := Data (HRef 3%nat) |})]
       | _ => [data_entry "transferred" (js "12.50")]
       end |}.
Definition reading_at (t : string) : clock_reading := ClockReturned (HStr (js t)) ThenOther.

Definition opened_recorder : recorder :=
  Eval vm_compute in
    (begin recording_heap (HRef 0%nat) (reading_at "2026-03-01T00:00:10.000Z") empty_recorder).2.
Definition reserved_recorder : recorder :=
  Eval vm_compute in (reserve opened_recorder (Some 0%nat)).2.
Definition recorded_recorder : recorder :=
  Eval vm_compute in
    (complete_reserved recording_heap 0 (HRef 2%nat) (reading_at "2026-03-01T00:00:11.000Z")
       reserved_recorder).2.
Definition recorded_evidence : jsv :=
  Eval vm_compute in default VNull (localEvidence recorded_recorder !! 0%nat).

Lemma opened_step : exec_step empty_recorder opened_recorder.
Proof.
  assert (opened_recorder = (begin recording_heap (HRef 0%nat)
    (reading_at "2026-03-01T00:00:10.000Z") empty_recorder).2) as -> by (vm_compute; reflexivity).
  apply step_begin.
Qed.
Lemma reserved_step : exec_step opened_recorder reserved_recorder.
Proof.
  assert (reserved_recorder = (reserve opened_recorder (Some 0%nat)).2) as ->
    by (vm_compute; reflexivity).
  apply step_reserve.
Qed.
Lemma recorded_step : exec_step reserved_recorder recorded_recorder.
Proof.
  assert (recorded_recorder = (complete_reserved recording_heap 0 (HRef 2%nat)
    (reading_at "2026-03-01T00:00:11.000Z") reserved_recorder).2) as -> by (vm_compute; reflexivity).
  destruct (handleState reserved_recorder !! 0%nat) as [x|] eqn:E; [|discriminate E].
  eapply step_complete; [exact E|]. injection E as <-. reflexivity.
Qed.
Lemma recorded_reachable : exec_reachable recorded_recorder.
Proof.
  eapply rtc_l; [apply opened_step|]. eapply rtc_l; [apply reserved_step|].
  apply rtc_once, recorded_step.
Qed.

Lemma execution_evidence_sound_witness :
  get (js "execution_status") recorded_evidence = VStr (js "success") /\
  isLocallyRecorded recorded_recorder (Some 0%nat) = Ok true.
Proof.
  split; [vm_compute; reflexivity|].
  destruct (execution_evidence_sound recorded_recorder 0%nat recorded_evidence recorded_reachable
    eq_refl) as [H _]. exact H.
Defined.

Lemma complete_exact_witness :
  (exists st effect diagnostic v,
     recorded_as recording_heap (HRef 2%nat) st effect diagnostic /\
     complete recording_heap (Some 0%nat) (HRef 2%nat) (reading_at "2026-03-01T00:00:11.000Z")
       opened_recorder = (Ok 0%nat, add_evidence (set_last opened_recorder 1772323211000) 0 v)) /\
  exists e, complete recording_heap (Some 0%nat) HNull ClockThrew recorded_recorder
    = (Throw e, recorded_recorder).
Proof.
  split.
  - destruct (handleState opened_recorder !! 0%nat) as [x|] eqn:E; [|discriminate E].
    pose proof (complete_exact recording_heap 0 x (HRef 2%nat)
      (reading_at "2026-03-01T00:00:11.000Z") opened_recorder (rtc_once _ _ opened_step) E) as H.
    injection E as <-. cbn [hr_state] in H.
    assert (sample_clock exec_fail "POMRX_EXEC" (exec_last opened_recorder)
      (reading_at "2026-03-01T00:00:11.000Z") = Ok 1772323211000) as Es
      by (vm_compute; reflexivity).
    rewrite Es in H. destruct H as (st & effect & diagnostic & v & H1 & _ & H2).
    exists st, effect, diagnostic, v. exact (conj H1 H2).
  - destruct (handleState recorded_recorder !! 0%nat) as [x|] eqn:E; [|discriminate E].
    pose proof (complete_exact recording_heap 0 x HNull ClockThrew recorded_recorder
      recorded_reachable E) as H.
    injection E as <-. cbn [hr_state] in H. destruct H as (e & _ & H). exists e. exact H.
Defined.

Lemma recorder_lifecycle_witness :
  exists x, handleState opened_recorder !! 0%nat = Some x /\
    exists y, handleState recorded_recorder !! 0%nat = Some y /\ later_handle x y.
Proof.
  destruct (handleState opened_recorder !! 0%nat) as [x|] eqn:E; [|discriminate E].
  exists x. split; [reflexivity|].
  destruct (recorder_lifecycle opened_recorder recorded_recorder
    (rtc_l _ _ _ _ reserved_step (rtc_once _ _ recorded_step))) as [H _ _].
  exact (H 0%nat x E).
Defined.
End execution_witness.
