(* ===== verification/Trust.v ===== *)
(** * The witness trust lifecycle

    Models [core/witness/reference-trust-lifecycle.mjs]: the identities an
    administrator enrols, revokes, rotates and recovers, and the decision
    whether a signed preflight receipt may be authorised.  A key argument is a
    key object or data the runtime decodes to one ([key_of]); the proxy test of
    the boundary comes after [Array.isArray], which sees through a proxy, so
    [o_array] of a proxy is that of its target.  Every operation reads the
    clock once, and nothing of the lifecycle is read before: a call the clock
    makes on the lifecycle is an operation that happens first. *)
From stdpp Require Import fin_maps.
From S2P Require Import Prelude JsDate JsValue ProofSdk Canonical Receipt Normal PomRx Base64 Witness JsHeap PlainData Authorization Gate TrustedClock.

#[local] Arguments js : simpl never.

Definition POM_RX_REFERENCE_WITNESS_TRUST_STATE_VERSION : jsstr := js "pom-rx-witness-trust-state/0.1".
Definition POM_RX_REFERENCE_WITNESS_TRUST_HASH_DOMAIN : jsstr :=
  js "swisstokint:pom-rx-witness-trust-state:v1:".
Definition POM_RX_REFERENCE_WITNESS_TRUST_MAX_IDENTITIES : nat := 32.
Definition MAX_VALIDITY_MS : Z := 366 * 24 * 60 * 60 * 1000.
Definition MIN_VALIDITY_MS : Z := 1000.
Definition REVOCATION_REASONS : list jsstr := js <$> ["compromise"; "retired"; "operator"; "policy"].
Definition RECOVERY_REASONS : list jsstr := js <$> ["compromise"; "lost"; "operator_recovery"].

Inductive identity_role := SourceRole | WitnessRole.
#[export] Instance identity_role_eq_dec : EqDecision identity_role.
Proof. solve_decision. Defined.
Definition role_name (r : identity_role) : jsstr :=
  match r with SourceRole => js "source" | WitnessRole => js "witness" end.
Definition ROLES : list identity_role := [SourceRole; WitnessRole].

Inductive identity_status := Active | Revoked | Rotated | Recovered.
#[export] Instance identity_status_eq_dec : EqDecision identity_status.
Proof. solve_decision. Defined.
Definition identity_status_name (s : identity_status) : jsstr :=
  match s with
  | Active => js "active" | Revoked => js "revoked" | Rotated => js "rotated"
  | Recovered => js "recovered"
  end.

Definition trust_fail (code : string) (msg : jsstr) : jserr := Err TrustErr (js code) msg.
Definition trust_invalid (msg : jsstr) : jserr := trust_fail "POMRX_WITNESS_TRUST_E_INVALID" msg.

Definition trust_snapshotExactReferences (h : heap) (value : hval) (expected : list jsstr) (label : string)
  : res snapshot :=
  let fail msg := trust_invalid (js label ++ js msg) in
  o ← match value with
      | HRef l => if bool_decide (o_array (h l) = None) then Ok (h l)
                  else Throw (fail " must be an object")
      | _ => Throw (fail " must be an object")
      end;
  _ ← guard_or (negb (o_proxy o)) (fail " cannot be a Proxy");
  _ ← guard_or (bool_decide (o_proto o ∈ [ObjectPrototype; NullPrototype]))
        (fail " must be a plain object");
  _ ← guard_or (o_symbols o =? 0)%nat (fail " cannot contain symbol keys");
  _ ← guard_or (same_keys (own_names o) expected) (fail " has missing or unknown fields");
  snapshot_keys o expected (fun key =>
    trust_invalid (js label ++ js "." ++ key ++ js " must be an enumerable data property")).

(** [frozenRecord] of an identity *)
Record trust_record := {
  tr_key_id : jsstr;
  tr_role : identity_role;
  tr_spki : jsstr;
  tr_enrolled_at : jsstr;
  tr_valid_until : jsstr;
  tr_status : identity_status;
  tr_predecessor : option jsstr;
  tr_transition_at : option jsstr;
  tr_reason : option jsstr;
}.

Definition record_entries (r : trust_record) : list (jsstr * jsv) :=
  [(js "key_id", VStr (tr_key_id r)); (js "role", VStr (role_name (tr_role r)));
   (js "public_key_spki", VStr (tr_spki r)); (js "enrolled_at", VStr (tr_enrolled_at r));
   (js "valid_until", VStr (tr_valid_until r));
   (js "status", VStr (identity_status_name (tr_status r)));
   (js "predecessor_key_id", opt_value (tr_predecessor r));
   (js "transition_at", opt_value (tr_transition_at r));
   (js "transition_reason", opt_value (tr_reason r))].
Definition record_value (r : trust_record) : jsv := VObj PObject (record_entries r).

(** [{ ...existing, status, transition_at, transition_reason }] *)
Definition with_transition (status : identity_status) (at_ reason : jsstr) (r : trust_record) : trust_record :=
  {| tr_key_id := tr_key_id r; tr_role := tr_role r; tr_spki := tr_spki r;
     tr_enrolled_at := tr_enrolled_at r; tr_valid_until := tr_valid_until r; tr_status := status;
     tr_predecessor := tr_predecessor r; tr_transition_at := Some at_; tr_reason := Some reason |}.

(** The state of a lifecycle. *)
Record lifecycle := {
  tl_records : gmap jsstr trust_record;
  tl_revision : Z;
  tl_last : option Z;                  (* lastTrustedTimeMs *)
}.
Definition empty_lifecycle : lifecycle :=
  {| tl_records := ∅; tl_revision := 0; tl_last := None |}.

(** A snapshot of the trust state: its committed payload and the hash. *)
Record trust_state := {
  ts_payload : list (jsstr * jsv);
  ts_hash : jsstr;
}.

Section trust.
Context `{SH : !StringHost, HH : !HashHost, BH : !ByteHashHost, DH : !DateHost, KH : !KeyHost}.
(** [key?.type === 'public' ? key : crypto.createPublicKey(key)], [None] when it throws *)
Context (key_of : hval -> option public_key).

Definition trust_utc : hval -> string -> res Z := canonical_utc trust_fail "POMRX_WITNESS_TRUST".

Definition trust_toEd25519PublicKey (key : hval) : res public_key :=
  match key_of key with
  | None => Throw (trust_fail "POMRX_WITNESS_TRUST_E_KEY_INVALID" (js "identity key cannot be decoded"))
  | Some k =>
      if is_ed25519 k then Ok k
      else Throw (trust_fail "POMRX_WITNESS_TRUST_E_KEY_INVALID" (js "identity key must be Ed25519"))
  end.

(** [canonicalPublicKeySpki] of a key that is an Ed25519 key object *)
Definition canonicalPublicKeySpki (k : public_key) : jsstr := base64_encode (export_spki k).

Definition validateKeyId (value : hval) (field : string) : res jsstr :=
  match hstr_that key_id_pattern value with
  | Some s => Ok s
  | None => Throw (trust_fail "POMRX_WITNESS_TRUST_E_KEY_INVALID" (js field ++ js " is invalid"))
  end.

Definition find_role (v : hval) : option identity_role :=
  match v with HStr s => List.find (fun r => str_eqb s (role_name r)) ROLES | _ => None end.
Definition validateRole (role : hval) : res identity_role :=
  match find_role role with
  | Some r => Ok r
  | None => Throw (trust_invalid (js "role must be source or witness"))
  end.

Definition recordActiveAt (record : trust_record) (instant : Z) : bool :=
  if time_lt (Some instant) (date_parse (tr_enrolled_at record))
     || time_ge (Some instant) (date_parse (tr_valid_until record)) then false
  else match tr_transition_at record with
       | Some s => negb (time_ge (Some instant) (date_parse s))
       | None => true
       end.

(** [lexicalKeyIdCompare(left, right) <= 0] *)
Definition key_id_leb (left right : trust_record) : bool := str_leb (tr_key_id left) (tr_key_id right).

Definition createReferenceWitnessTrustLifecycle (h : heap) (options : hval) : res lifecycle :=
  bootstrap ← trust_snapshotExactReferences h options [js "trustedClock"]
      "reference Witness trust bootstrap";
  match snap_get (js "trustedClock") bootstrap with
  | HFun _ => Ok empty_lifecycle
  | _ => Throw (trust_invalid (js "trustedClock must be a function"))
  end.

(** [sampleTrustedClock()]: the instant, and the lifecycle after it. *)
Definition trust_sampleTrustedClock (l : lifecycle) (reading : clock_reading) : res Z * lifecycle :=
  match sample_clock trust_fail "POMRX_WITNESS_TRUST" (tl_last l) reading with
  | Ok now => (Ok now, {| tl_records := tl_records l; tl_revision := tl_revision l; tl_last := Some now |})
  | Throw e => (Throw e, l)
  end.

Definition validateValidityWindow (now : Z) (validUntil : hval) : res Z :=
  expiry ← trust_utc validUntil "valid_until";
  _ ← guard_or ((MIN_VALIDITY_MS <=? expiry - now) && (expiry - now <=? MAX_VALIDITY_MS))
        (trust_fail "POMRX_WITNESS_TRUST_E_TIME_INVALID"
           (js "identity validity must be between 1 second and 366 days"));
  Ok expiry.

(** The records by key id; no two have the same one. *)
Definition sorted_records (records : gmap jsstr trust_record) : list trust_record :=
  sort_by key_id_leb (map_to_list records).*2.

Definition trust_payload (records : gmap jsstr trust_record) (revision : Z) : list (jsstr * jsv) :=
  [(js "schema_version", VStr POM_RX_REFERENCE_WITNESS_TRUST_STATE_VERSION);
   (js "revision", VNum (NInt revision));
   (js "identities", VArr (record_value <$> sorted_records records))].

Definition trust_input (canonical : jsstr) : jsstr :=
  POM_RX_REFERENCE_WITNESS_TRUST_HASH_DOMAIN ++ canonical.

Definition buildSnapshot (records : gmap jsstr trust_record) (revision : Z) : res trust_state :=
  let payload := trust_payload records revision in
  canonical ← canonicalizePayload (VObj PObject payload);
  Ok {| ts_payload := payload; ts_hash := sha256Hex (trust_input canonical) |}.

(** The object [buildSnapshot] returns. *)
Definition trust_state_value (t : trust_state) : jsv :=
  VObj PObject (ts_payload t ++
    [(js "trust_state_hash", VStr (ts_hash t)); (js "reference_only", VBool true);
     (js "production_trust_proved", VBool false)]).

Definition trust_snapshot (l : lifecycle) : res trust_state :=
  buildSnapshot (tl_records l) (tl_revision l).

(** What [stageMutation] prepares. *)
Definition stageMutation (l : lifecycle) (applyMutation : gmap jsstr trust_record -> gmap jsstr trust_record)
  : res (gmap jsstr trust_record * Z * trust_state) :=
  let prospectiveRecords := applyMutation (tl_records l) in
  _ ← guard_or (size prospectiveRecords <=? POM_RX_REFERENCE_WITNESS_TRUST_MAX_IDENTITIES)%nat
        (trust_fail "POMRX_WITNESS_TRUST_E_CAPACITY"
           (js "reference Witness trust state is limited to 32 identities"));
  let prospectiveRevision := tl_revision l + 1 in
  trust ← buildSnapshot prospectiveRecords prospectiveRevision;
  Ok (prospectiveRecords, prospectiveRevision, trust).

Definition commitMutation (l : lifecycle) (prepared : gmap jsstr trust_record * Z * trust_state)
  : lifecycle :=
  {| tl_records := prepared.1.1; tl_revision := prepared.1.2; tl_last := tl_last l |}.

(** [ensureNoSuccessor] *)
Definition has_successor (l : lifecycle) (predecessorKeyId : jsstr) : bool :=
  existsb (fun r => bool_decide (tr_predecessor r = Some predecessorKeyId)) (map_to_list (tl_records l)).*2.
Definition ensureNoSuccessor (l : lifecycle) (predecessorKeyId : jsstr) : res unit :=
  guard_or (negb (has_successor l predecessorKeyId))
    (trust_fail "POMRX_WITNESS_TRUST_E_TRANSITION_INVALID" (js "identity already has a successor")).

(** The end of a mutation: its result and the lifecycle after it. *)
Definition finish {A} (l : lifecycle)
    (m : res (A * (gmap jsstr trust_record * Z * trust_state))) : res (A * trust_state) * lifecycle :=
  match m with
  | Ok (identity, prepared) => (Ok (identity, prepared.2), commitMutation l prepared)
  | Throw e => (Throw e, l)
  end.

(** [enrollIdentity(input)] *)
Definition enroll_checks (l : lifecycle) (captured : snapshot) (now : Z)
  : res (trust_record * (gmap jsstr trust_record * Z * trust_state)) :=
  publicKey ← trust_toEd25519PublicKey (snap_get (js "publicKey") captured);
  keyId ← pomRxKeyId publicKey;
  _ ← guard_or (bool_decide (tl_records l !! keyId = None))
        (trust_fail "POMRX_WITNESS_TRUST_E_DUPLICATE" (js "identity is already enrolled"));
  expiry ← validateValidityWindow now (snap_get (js "validUntil") captured);
  role ← validateRole (snap_get (js "role") captured);
  let record :=
    {| tr_key_id := keyId; tr_role := role; tr_spki := canonicalPublicKeySpki publicKey;
       tr_enrolled_at := to_iso_string now; tr_valid_until := to_iso_string expiry;
       tr_status := Active; tr_predecessor := None; tr_transition_at := None; tr_reason := None |} in
  prepared ← stageMutation l (fun records => <[keyId := record]> records);
  Ok (record, prepared).

Definition enrollIdentity (h : heap) (input : hval) (reading : clock_reading) (l : lifecycle)
  : res (trust_record * trust_state) * lifecycle :=
  match trust_snapshotExactReferences h input (js <$> ["publicKey"; "role"; "validUntil"])
          "identity enrollment" with
  | Throw e => (Throw e, l)
  | Ok captured =>
      let '(now, l) := trust_sampleTrustedClock l reading in
      finish l (now ← now; enroll_checks l captured now)
  end.

(** [revokeIdentity(input)] *)
Definition revoke_checks (l : lifecycle) (captured : snapshot) (now : Z)
  : res (trust_record * (gmap jsstr trust_record * Z * trust_state)) :=
  keyId ← validateKeyId (snap_get (js "keyId") captured) "key_id";
  reason ← match hstr_that (fun s => mem_str s REVOCATION_REASONS) (snap_get (js "reason") captured) with
           | Some reason => Ok reason
           | None => Throw (trust_invalid (js "revocation reason is invalid"))
           end;
  existing ← match tl_records l !! keyId with
             | Some existing => Ok existing
             | None => Throw (trust_fail "POMRX_WITNESS_TRUST_E_NOT_ENROLLED"
                                (js "identity is not enrolled"))
             end;
  _ ← guard_or (bool_decide (tr_status existing = Active))
        (trust_fail "POMRX_WITNESS_TRUST_E_TRANSITION_INVALID" (js "identity is not active"));
  let updated := with_transition Revoked (to_iso_string now) reason existing in
  prepared ← stageMutation l (fun records => <[keyId := updated]> records);
  Ok (updated, prepared).

Definition revokeIdentity (h : heap) (input : hval) (reading : clock_reading) (l : lifecycle)
  : res (trust_record * trust_state) * lifecycle :=
  match trust_snapshotExactReferences h input (js <$> ["keyId"; "reason"]) "identity revocation" with
  | Throw e => (Throw e, l)
  | Ok captured =>
      let '(now, l) := trust_sampleTrustedClock l reading in
      finish l (now ← now; revoke_checks l captured now)
  end.

(** [replaceIdentity]: the updated predecessor and its successor. *)
Definition replace_checks (l : lifecycle) (predecessor successorPublicKey validUntil : hval)
    (transitionStatus : identity_status) (reason : jsstr) (now : Z)
  : res (trust_record * trust_record * (gmap jsstr trust_record * Z * trust_state)) :=
  predecessorKeyId ← validateKeyId predecessor "predecessor_key_id";
  existing ← match tl_records l !! predecessorKeyId with
             | Some existing => Ok existing
             | None => Throw (trust_fail "POMRX_WITNESS_TRUST_E_NOT_ENROLLED"
                                (js "predecessor is not enrolled"))
             end;
  _ ← guard_or (bool_decide (tr_status existing = Active) && recordActiveAt existing now)
        (trust_fail "POMRX_WITNESS_TRUST_E_TRANSITION_INVALID"
           (js "predecessor is not currently active"));
  _ ← ensureNoSuccessor l predecessorKeyId;
  successor ← trust_toEd25519PublicKey successorPublicKey;
  successorKeyId ← pomRxKeyId successor;
  _ ← guard_or (negb (str_eqb successorKeyId predecessorKeyId)
                && bool_decide (tl_records l !! successorKeyId = None))
        (trust_fail "POMRX_WITNESS_TRUST_E_DUPLICATE" (js "successor identity is not new"));
  expiry ← validateValidityWindow now validUntil;
  let predecessorUpdated := with_transition transitionStatus (to_iso_string now) reason existing in
  let successorRecord :=
    {| tr_key_id := successorKeyId; tr_role := tr_role existing;
       tr_spki := canonicalPublicKeySpki successor; tr_enrolled_at := to_iso_string now;
       tr_valid_until := to_iso_string expiry; tr_status := Active;
       tr_predecessor := Some predecessorKeyId; tr_transition_at := None; tr_reason := None |} in
  prepared ← stageMutation l (fun records =>
    <[successorKeyId := successorRecord]> (<[predecessorKeyId := predecessorUpdated]> records));
  Ok (predecessorUpdated, successorRecord, prepared).

Definition replaceIdentity (predecessor successorPublicKey validUntil : hval)
    (transitionStatus : identity_status) (reason : jsstr) (reading : clock_reading) (l : lifecycle)
  : res (trust_record * trust_record * trust_state) * lifecycle :=
  let '(now, l) := trust_sampleTrustedClock l reading in
  finish l (now ← now;
    replace_checks l predecessor successorPublicKey validUntil transitionStatus reason now).

Definition rotateIdentity (h : heap) (input : hval) (reading : clock_reading) (l : lifecycle)
  : res (trust_record * trust_record * trust_state) * lifecycle :=
  match trust_snapshotExactReferences h input
          (js <$> ["predecessorKeyId"; "successorPublicKey"; "validUntil"]) "identity rotation" with
  | Throw e => (Throw e, l)
  | Ok captured =>
      replaceIdentity (snap_get (js "predecessorKeyId") captured)
        (snap_get (js "successorPublicKey") captured) (snap_get (js "validUntil") captured)
        Rotated (js "key_rotation") reading l
  end.

Definition recoverIdentity (h : heap) (input : hval) (reading : clock_reading) (l : lifecycle)
  : res (trust_record * trust_record * trust_state) * lifecycle :=
  match
    captured ← trust_snapshotExactReferences h input
        (js <$> ["compromisedKeyId"; "successorPublicKey"; "validUntil"; "reason"]) "identity recovery";
    match hstr_that (fun s => mem_str s RECOVERY_REASONS) (snap_get (js "reason") captured) with
    | Some reason => Ok (captured, reason)
    | None => Throw (trust_invalid (js "recovery reason is invalid"))
    end
  with
  | Throw e => (Throw e, l)
  | Ok (captured, reason) =>
      replaceIdentity (snap_get (js "compromisedKeyId") captured)
        (snap_get (js "successorPublicKey") captured) (snap_get (js "validUntil") captured)
        Recovered reason reading l
  end.

(** ** Authorisation candidates *)

(** A result that is [ok]; the two flags it ends with are constants. *)
Record candidate := {
  ca_source_key_id : jsstr;
  ca_witness_key_id : jsv;
  ca_receipt_hash : jsstr;
  ca_acknowledgement_hash : jsstr;
  ca_current_time : jsstr;
  ca_authorization_valid_until : jsstr;
  ca_trust_revision : Z;
  ca_trust_state_hash : jsstr;
}.
Definition candidate_value (c : candidate) : jsv := VObj PObject
  [(js "ok", VBool true); (js "source_key_id", VStr (ca_source_key_id c));
   (js "witness_key_id", ca_witness_key_id c); (js "receipt_hash", VStr (ca_receipt_hash c));
   (js "acknowledgement_hash", VStr (ca_acknowledgement_hash c));
   (js "current_time", VStr (ca_current_time c));
   (js "authorization_valid_until", VStr (ca_authorization_valid_until c));
   (js "trust_revision", VNum (NInt (ca_trust_revision c)));
   (js "trust_state_hash", VStr (ca_trust_state_hash c)); (js "reference_only", VBool true);
   (js "production_trust_proved", VBool false)].

(** The result of a verification: accepted, or a failure with its code and message. *)
Inductive decision :=
  | Authorizable (c : candidate)
  | NotAuthorizable (code message : jsstr).

(** [return verificationFailure(code, error)] inside the [try] block *)
Definition failure (code : string) (message : jsstr) : res decision :=
  Ok (NotAuthorizable (js code) message).

(** [v.k] of a value that may be [null] *)
Definition read_field (k : string) (v : jsv) : res jsv :=
  match v with
  | VNull => Throw (type_error (js "Cannot read properties of null (reading '" ++ js k ++ js "')"))
  | VUndef => Throw (type_error (js "Cannot read properties of undefined (reading '" ++ js k ++ js "')"))
  | _ => Ok (get (js k) v)
  end.

(** [records.get(v)] *)
Definition find_record (l : lifecycle) (v : jsv) : option trust_record :=
  match v with VStr k => tl_records l !! k | _ => None end.

(** [Math.min] of time values *)
Definition time_min (a b : option Z) : option Z := x ← a; y ← b; Some (Z.min x y).

(** The last checks: the identities, the chronology and the window. *)
Definition decide_candidate (l : lifecycle) (now : Z) (envelope acknowledgement : jsv)
    (source : source_verified) (ack : ack_verified) : res decision :=
  let receipt := c_receipt (sv_committed source) in
  let field k := get (js k) (VObj PObject (av_payload ack)) in
  if negb (bool_decide (p_outcome receipt = Allow)) then
    failure "POMRX_WITNESS_TRUST_E_NOT_AUTHORIZABLE" (js "preflight outcome is not allow")
  else
  match tl_records l !! sv_key_id source, find_record l (field "witness_key_id") with
  | Some sourceRecord, Some witnessRecord =>
      if negb (bool_decide (tr_role sourceRecord = SourceRole)
               && bool_decide (tr_role witnessRecord = WitnessRole)) then
        failure "POMRX_WITNESS_TRUST_E_ROLE_MISMATCH"
          (js "source or witness role does not match trust enrollment")
      else if negb (is_str (get (js "source_public_key") envelope) (tr_spki sourceRecord)
                    && is_str (get (js "witness_public_key") acknowledgement) (tr_spki witnessRecord)) then
        failure "POMRX_WITNESS_TRUST_E_KEY_MISMATCH"
          (js "signed public key does not match enrolled key bytes")
      else
      occurredAt ← trust_utc (HStr (p_occurred_at receipt)) "occurred_at";
      receivedAt ← trust_utc (hval_of (field "received_at")) "received_at";
      if receivedAt <? occurredAt then
        failure "POMRX_WITNESS_TRUST_E_CHRONOLOGY"
          (js "Witness acknowledgement predates the source occurrence time")
      else if negb (recordActiveAt sourceRecord occurredAt && recordActiveAt witnessRecord receivedAt
                    && bool_decide (tr_status sourceRecord = Active)
                    && bool_decide (tr_status witnessRecord = Active)
                    && recordActiveAt sourceRecord now && recordActiveAt witnessRecord now) then
        failure "POMRX_WITNESS_TRUST_E_INACTIVE"
          (js "source or witness identity is inactive at the relevant trusted time")
      else
      acknowledgementValidUntil ← trust_utc (hval_of (field "valid_until")) "acknowledgement valid_until";
      let authorizationValidUntilMs :=
        time_min (Some acknowledgementValidUntil)
          (time_min (date_parse (tr_valid_until sourceRecord)) (date_parse (tr_valid_until witnessRecord))) in
      if time_ge (Some now) authorizationValidUntilMs then
        failure "POMRX_WITNESS_TRUST_E_INACTIVE" (js "trust-bounded authorization window is exhausted")
      else
      trust ← trust_snapshot l;
      validUntil ← to_iso_checked authorizationValidUntilMs;
      Ok (Authorizable
        {| ca_source_key_id := sv_key_id source; ca_witness_key_id := field "witness_key_id";
           ca_receipt_hash := receiptHash (sv_committed source);
           ca_acknowledgement_hash := av_acknowledgementHash ack;
           ca_current_time := to_iso_string now; ca_authorization_valid_until := validUntil;
           ca_trust_revision := tl_revision l; ca_trust_state_hash := ts_hash trust |})
  | _, _ =>
      failure "POMRX_WITNESS_TRUST_E_NOT_ENROLLED" (js "source or witness identity is not enrolled")
  end.

(** The body of the [try] block after the clock; [date] is the text of the
    [new Date()] that the acknowledgement verifier never needs here. *)
Definition verify_candidate (h : heap) (envelope acknowledgement : hval) (date : jsstr) (now : Z)
    (l : lifecycle) : res decision :=
  match captureReferencePlainData h envelope (js "source envelope") with
  | Throw _ => failure "POMRX_WITNESS_TRUST_E_SOURCE_INVALID"
                 (js "source envelope is not inert bounded plain data")
  | Ok envelopeSnapshot =>
      match verifyPomRxSourceEnvelope envelopeSnapshot with
      | Refused error => failure "POMRX_WITNESS_TRUST_E_SOURCE_INVALID" error
      | Verified source =>
          match captureReferencePlainData h acknowledgement (js "witness acknowledgement") with
          | Throw _ => failure "POMRX_WITNESS_TRUST_E_ACK_INVALID"
                         (js "Witness acknowledgement is not inert bounded plain data")
          | Ok acknowledgementSnapshot =>
              witnessKeyId ← read_field "witness_key_id" acknowledgementSnapshot;
              match verifyPomRxWitnessAck acknowledgementSnapshot
                      (expected_of source (VStr (js "witnessed")) witnessKeyId true
                         (VStr (to_iso_string now))) date with
              | Refused error => failure "POMRX_WITNESS_TRUST_E_ACK_INVALID" error
              | Verified ack =>
                  decide_candidate l now envelopeSnapshot acknowledgementSnapshot source ack
              end
          end
      end
  end.

(** [verifyAuthorizationCandidate(envelope, acknowledgement)] *)
Definition verifyAuthorizationCandidate (h : heap) (envelope acknowledgement : hval) (date : jsstr)
    (reading : clock_reading) (l : lifecycle) : decision * lifecycle :=
  let '(now, l) := trust_sampleTrustedClock l reading in
  match (now ← now; verify_candidate h envelope acknowledgement date now l) with
  | Ok d => (d, l)
  | Throw e =>
      (NotAuthorizable
         (if bool_decide (err_cls e = TrustErr) then err_code e
          else js "POMRX_WITNESS_TRUST_E_VERIFY_FAILED") (err_msg e), l)
  end.

(** ** Reachable lifecycles *)

Inductive trust_step (l : lifecycle) : lifecycle -> Prop :=
  | step_enroll h input reading : trust_step l (enrollIdentity h input reading l).2
  | step_revoke h input reading : trust_step l (revokeIdentity h input reading l).2
  | step_rotate h input reading : trust_step l (rotateIdentity h input reading l).2
  | step_recover h input reading : trust_step l (recoverIdentity h input reading l).2
  | step_verify h envelope acknowledgement date reading :
      trust_step l (verifyAuthorizationCandidate h envelope acknowledgement date reading l).2.

Definition trust_reachable : lifecycle -> Prop := rtc trust_step empty_lifecycle.

(** ** Snapshots are always within the limits of a payload *)

Definition reasons_of (st : identity_status) : list jsstr :=
  match st with
  | Active => [] | Revoked => REVOCATION_REASONS | Rotated => [js "key_rotation"]
  | Recovered => RECOVERY_REASONS
  end.

(** A well-formed identity at the instant [last]. *)
Record record_ok (r : trust_record) (last : Z) : Prop := {
  ro_key : exists k, is_ed25519 k = true /\ tr_key_id r = key_id_of k /\
    tr_spki r = canonicalPublicKeySpki k;
  ro_predecessor p : tr_predecessor r = Some p -> key_id_pattern p = true;
  ro_window : exists e u, tr_enrolled_at r = to_iso_string e /\ tr_valid_until r = to_iso_string u /\
    time_valid e = true /\ time_valid u = true /\
    MIN_VALIDITY_MS <= u - e <= MAX_VALIDITY_MS /\ e <= last /\
    match tr_status r with
    | Active => tr_transition_at r = None /\ tr_reason r = None
    | st => exists t reason, tr_transition_at r = Some (to_iso_string t) /\ time_valid t = true /\
        e <= t <= last /\ tr_reason r = Some reason /\ reason ∈ reasons_of st
    end;
}.

Lemma record_ok_later r last last' : record_ok r last -> last <= last' -> record_ok r last'.
Proof.
  intros [Hk Hp (e & u & E1 & E2 & V1 & V2 & W & He & Hs)] Hle. split; [done..|].
  exists e, u. repeat (split; [done|]). split; [lia|].
  destruct (tr_status r); [done|..];
    (destruct Hs as (t & reason & ? & ? & ? & ?); exists t, reason; split; [done|]; split; [done|];
     split; [lia|done]).
Qed.

Lemma spki_plain k : is_ed25519 k = true ->
  plain (canonicalPublicKeySpki k) = true /\ length (canonicalPublicKeySpki k) = 60%nat.
Proof.
  intros Hk. pose proof (export_spki_bytes k) as Hb. pose proof (export_spki_length k Hk) as Hl.
  unfold canonicalPublicKeySpki. split; [|by rewrite base64_encode_length, Hl].
  destruct (encode_shape _ Hb) as (ns & padding & -> & Hn & Hp & _).
  unfold plain. rewrite forallb_app. apply andb_true_iff. split.
  - apply List.forallb_forall. intros c (n & <- & Hin)%List.in_map_iff.
    rewrite List.Forall_forall in Hn. apply Hn in Hin.
    destruct (sextet_char_alphabet n Hin) as [H|[-> | ->]]; [|reflexivity..].
    revert H. generalize (sextet_char n). plain_class.
  - rewrite !elem_of_cons, elem_of_nil in Hp. destruct Hp as [->|[->|[->|[]]]]; reflexivity.
Qed.

Lemma reason_short st reason : reason ∈ reasons_of st -> plain reason = true /\ (length reason <= 17)%nat.
Proof.
  intros H. assert (Forall (fun s => plain s = true /\ (length s <= 17)%nat) (reasons_of st)) as Hf
    by (destruct st; decide_now).
  rewrite Forall_forall in Hf. auto.
Qed.

Lemma record_flat r last : record_ok r last ->
  flat_entries (record_entries r) /\ (text_size (record_value r) <= 412)%nat.
Proof.
  intros [(k & Hk & Ek & Es) Hp (e & u & Ee & Eu & _ & _ & _ & _ & Hs)].
  destruct (spki_plain k Hk) as [Ps Ls].
  destruct (key_id_pattern_plain (tr_key_id r)) as [Pk Lk]; [rewrite Ek; apply key_id_of_pattern|].
  destruct (to_iso_string_plain e) as [Pe Le], (to_iso_string_plain u) as [Pu Lu].
  assert (forall o n, (match o with Some s => plain s = true /\ (length s <= n)%nat | None => True end) ->
    (4 <= n <= 100)%nat -> flat_field (opt_value o) /\ (text_size (opt_value o) <= n + 2)%nat) as Ho.
  { intros [s|] n H Hn; simpl; [destruct H; split; [split; [done|lia]|lia]|split; [done|lia]]. }
  destruct (Ho (tr_predecessor r) 40%nat) as [Fp Tp]; [|lia|].
  { destruct (tr_predecessor r) as [p|]; [|done]. by apply key_id_pattern_plain, Hp. }
  assert ((match tr_transition_at r with Some s => plain s = true /\ (length s <= 27)%nat | None => True end)
    /\ match tr_reason r with Some s => plain s = true /\ (length s <= 17)%nat | None => True end) as [Ht Hr].
  { destruct (tr_status r); [by destruct Hs as [-> ->]|..];
      destruct Hs as (t & reason & -> & _ & _ & -> & Hreason); split;
      apply to_iso_string_plain || by eapply reason_short. }
  destruct (Ho (tr_transition_at r) 27%nat Ht) as [Ft Tt]; [lia|].
  destruct (Ho (tr_reason r) 17%nat Hr) as [Fr Tr]; [lia|].
  split.
  - split; [vm_compute; reflexivity|]. unfold record_entries.
    repeat (apply List.Forall_cons; [cbn [snd]|]); try apply List.Forall_nil; try done;
      try (split; [done|lia]).
    + by destruct (tr_role r); decide_now.
    + by rewrite Es; split; [|lia].
    + rewrite Ee. split; [done|lia].
    + rewrite Eu. split; [done|lia].
    + by destruct (tr_status r); decide_now.
  - assert (length (role_name (tr_role r)) <= 7)%nat by (destruct (tr_role r); vm_compute; lia).
    assert (length (identity_status_name (tr_status r)) <= 9)%nat
      by (destruct (tr_status r); vm_compute; lia).
    rewrite <- Es in Ls. rewrite <- Ee in Le. rewrite <- Eu in Lu.
    unfold record_value, record_entries. cbn [text_size sum_list_with fst snd].
    repeat match goal with |- context [length (js ?s)] =>
      let n := eval vm_compute in (length (js s)) in change (length (js s)) with n end.
    lia.
Qed.

(** Records stored under their key ids, well-formed at [last]. *)
Definition records_ok (records : gmap jsstr trust_record) (last : Z) : Prop :=
  forall k r, records !! k = Some r -> tr_key_id r = k /\ record_ok r last.

Lemma sorted_records_Forall (P : trust_record -> Prop) records :
  (forall k r, records !! k = Some r -> P r) ->
  Forall P (sorted_records records) /\ length (sorted_records records) = size records.
Proof.
  intros H. unfold sorted_records. split.
  - rewrite sort_by_perm. apply Forall_fmap, Forall_forall. intros [k r] Hin%elem_of_map_to_list.
    by eapply H.
  - by rewrite sort_by_perm, length_fmap, length_map_to_list.
Qed.

(** Every trust state of at most 32 identities has a snapshot. *)
Lemma buildSnapshot_total records revision last :
  records_ok records last -> (size records <= POM_RX_REFERENCE_WITNESS_TRUST_MAX_IDENTITIES)%nat ->
  0 <= revision <= max_safe_integer -> exists t, buildSnapshot records revision = Ok t.
Proof.
  intros Hok Hsize Hrev.
  destruct (sorted_records_Forall (fun r => flat_entries (record_entries r) /\
    (text_size (record_value r) <= 412)%nat) records) as [Hall Hlen].
  { intros k r [_ H]%Hok. by eapply record_flat. }
  set (identities := sorted_records records) in *.
  assert (exists c, canonicalizePayload (VObj PObject (trust_payload records revision)) = Ok c) as [c Hc];
    [|unfold buildSnapshot; rewrite Hc; by eexists].
  unfold POM_RX_REFERENCE_WITNESS_TRUST_MAX_IDENTITIES in Hsize.
  unfold trust_payload. fold identities. apply canonicalizePayload_total.
  - cbn [wf_value foldr snd]. split; [decide_now|]. split; [done|]. split; [done|]. split; [|done].
    apply fold_right_Forall, Forall_fmap. eapply Forall_impl; [exact Hall|]. intros r [H _].
    by destruct (flat_record_ok PObject _ 2 H).
  - assert (forall k, safe_key k = true -> PAYLOAD_KEY_PATTERN k = true /\
      normalizedSensitiveKey k ∉ sensitivePayloadKeys) as Hk
      by (intros k (? & ? & _)%safe_key_ok; done).
    cbn [safe_value foldr fst snd]. split; [done|].
    split; [|split; [|split; [|done]]];
      (split; [by apply Hk|]; split; [by apply Hk|]); (split; [done|]).
    + vm_compute. lia.
    + unfold is_safe_integer. rewrite (proj2 (Z.leb_le _ revision)), (proj2 (Z.leb_le revision _)) by lia.
      done.
    + apply fold_right_Forall, Forall_fmap. eapply Forall_impl; [exact Hall|]. intros r [H _].
      by destruct (flat_record_ok PObject _ (0 + 1 + 1) H) as (_ & ? & _).
  - cbn [node_count foldr snd].
    assert (foldr (fun x n => node_count x + n) 0 (record_value <$> identities)
      = 10 * Z.of_nat (length identities)) as ->; [|lia].
    clear -SH Hall. induction Hall as [|r identities [H _] _ IH]; [done|].
    cbn [fmap list_fmap foldr length]. rewrite IH.
    destruct (flat_record_ok PObject _ 0 H) as (_ & _ & E & _); [done|].
    unfold record_value. rewrite E. change (length (record_entries r)) with 9%nat. lia.
  - cbn [plain_value foldr fst snd].
    repeat match goal with |- _ /\ _ => split end; try done; try (vm_compute; reflexivity).
    apply fold_right_Forall, Forall_fmap. eapply Forall_impl; [exact Hall|]. intros r [H _].
    by destruct (flat_record_ok PObject _ 2 H) as (_ & _ & _ & ?).
  - cbn [text_size sum_list_with fst snd].
    assert (sum_list_with (fun x => S (text_size x)) (record_value <$> identities)
      <= 413 * length identities)%nat as Hle.
    { clear -Hall. induction Hall as [|r identities [_ H] _ IH]; [simpl; lia|].
      cbn [fmap list_fmap sum_list_with length] in *. lia. }
    repeat match goal with |- context [length (js ?s)] =>
      let n := eval vm_compute in (length (js s)) in change (length (js s)) with n end.
    change (length POM_RX_REFERENCE_WITNESS_TRUST_STATE_VERSION) with 30%nat.
    unfold MAX_CANONICAL_BYTES. lia.
Qed.

(** ** What an operation changes *)

(** The lifecycle after the clock said [now]. *)
Definition at_time (l : lifecycle) (now : Z) : lifecycle :=
  {| tl_records := tl_records l; tl_revision := tl_revision l; tl_last := Some now |}.
Definition with_records (l : lifecycle) (records : gmap jsstr trust_record) : lifecycle :=
  {| tl_records := records; tl_revision := tl_revision l + 1; tl_last := tl_last l |}.

(** A new identity. *)
Definition new_record (k : public_key) (role : identity_role) (now expiry : Z) (predecessor : option jsstr)
  : trust_record :=
  {| tr_key_id := key_id_of k; tr_role := role; tr_spki := canonicalPublicKeySpki k;
     tr_enrolled_at := to_iso_string now; tr_valid_until := to_iso_string expiry;
     tr_status := Active; tr_predecessor := predecessor; tr_transition_at := None; tr_reason := None |}.

(** A key that may be enrolled now until [expiry]. *)
Record enrollable (records : gmap jsstr trust_record) (k : public_key) (now expiry : Z) : Prop := {
  el_ed25519 : is_ed25519 k = true;
  el_fresh : records !! key_id_of k = None;
  el_valid : time_valid expiry = true;
  el_window : MIN_VALIDITY_MS <= expiry - now <= MAX_VALIDITY_MS;
  el_room : (size records < POM_RX_REFERENCE_WITNESS_TRUST_MAX_IDENTITIES)%nat;
}.

(** What the operations do to the records of [l] at the instant [now]. *)
Inductive mutation (l : lifecycle) (now : Z) : gmap jsstr trust_record -> Prop :=
  | mutation_enroll k role expiry :
      enrollable (tl_records l) k now expiry ->
      mutation l now (<[key_id_of k := new_record k role now expiry None]> (tl_records l))
  | mutation_revoke id r reason :
      tl_records l !! id = Some r -> tr_status r = Active -> reason ∈ reasons_of Revoked ->
      mutation l now
        (<[id := with_transition Revoked (to_iso_string now) reason r]> (tl_records l))
  | mutation_replace id r status reason k expiry :
      tl_records l !! id = Some r -> tr_status r = Active -> recordActiveAt r now = true ->
      has_successor l id = false -> key_id_pattern id = true -> key_id_of k <> id ->
      status = Rotated \/ status = Recovered -> reason ∈ reasons_of status ->
      enrollable (tl_records l) k now expiry ->
      mutation l now
        (<[key_id_of k := new_record k (tr_role r) now expiry (Some id)]>
           (<[id := with_transition status (to_iso_string now) reason r]> (tl_records l))).

(** An operation does nothing, only reads the clock, or also makes one mutation. *)
Inductive trust_change (l : lifecycle) : lifecycle -> Prop :=
  | change_none : trust_change l l
  | change_clock now :
      time_valid now = true -> (forall t, tl_last l = Some t -> t <= now) ->
      trust_change l (at_time l now)
  | change_records now records :
      time_valid now = true -> (forall t, tl_last l = Some t -> t <= now) ->
      mutation (at_time l now) now records -> trust_change l (with_records (at_time l now) records).

Lemma stageMutation_Ok l f prepared :
  stageMutation l f = Ok prepared ->
  (size (f (tl_records l)) <= POM_RX_REFERENCE_WITNESS_TRUST_MAX_IDENTITIES)%nat /\
  exists t, buildSnapshot (f (tl_records l)) (tl_revision l + 1) = Ok t /\
    prepared = (f (tl_records l), tl_revision l + 1, t).
Proof.
  unfold stageMutation. cbv zeta. intros H. apply guard_bind_Ok in H as [H1%Nat.leb_le H].
  apply bind_Ok in H as (t & Ht & [= <-]). split; [done|]. by exists t.
Qed.

Lemma validateValidityWindow_Ok now v expiry :
  validateValidityWindow now v = Ok expiry <->
  v = HStr (to_iso_string expiry) /\ time_valid expiry = true /\
  MIN_VALIDITY_MS <= expiry - now <= MAX_VALIDITY_MS.
Proof.
  unfold validateValidityWindow, trust_utc. split.
  - intros H. apply bind_Ok in H as (t & [-> Hv]%canonical_utc_Ok & H).
    apply guard_bind_Ok in H as [[H1%Z.leb_le H2%Z.leb_le]%andb_true_iff [= <-]]. done.
  - intros (-> & Hv & H1 & H2). rewrite (proj2 (canonical_utc_Ok _ _ _ _ expiry)) by done.
    cbn [mbind res_bind].
    by rewrite (proj2 (Z.leb_le _ _) H1), (proj2 (Z.leb_le _ _) H2).
Qed.

Lemma trust_key_Ok v k :
  trust_toEd25519PublicKey v = Ok k <-> key_of v = Some k /\ is_ed25519 k = true.
Proof.
  unfold trust_toEd25519PublicKey. destruct (key_of v) as [k'|]; [|by split; [|intros []]].
  destruct (is_ed25519 k') eqn:E; split; try done; [by intros [= ->]|by intros [[= ->] _]|].
  intros [[= ->] ?]. congruence.
Qed.

Lemma validateRole_Ok v role : validateRole v = Ok role <-> v = HStr (role_name role).
Proof.
  unfold validateRole, find_role. split.
  - destruct v; try done. destruct (List.find _ _) as [r|] eqn:E; [|done]. intros [= ->].
    by apply List.find_some in E as [_ ->%str_eqb_eq].
  - intros ->. by destruct role.
Qed.

Lemma enroll_checks_Ok l captured now r prepared :
  enroll_checks l captured now = Ok (r, prepared) ->
  exists k role expiry,
    key_of (snap_get (js "publicKey") captured) = Some k /\
    snap_get (js "role") captured = HStr (role_name role) /\
    snap_get (js "validUntil") captured = HStr (to_iso_string expiry) /\
    enrollable (tl_records l) k now expiry /\ r = new_record k role now expiry None /\
    prepared.1 = (<[key_id_of k := r]> (tl_records l), tl_revision l + 1) /\
    buildSnapshot prepared.1.1 prepared.1.2 = Ok prepared.2.
Proof.
  unfold enroll_checks. intros H. apply bind_Ok in H as (k & [Hk Hd]%trust_key_Ok & H).
  apply bind_Ok in H as (id & [_ ->]%pomRxKeyId_Ok & H).
  apply guard_bind_Ok in H as [Hf%bool_decide_eq_true H].
  apply bind_Ok in H as (expiry & (Hv & Hval & Hw)%validateValidityWindow_Ok & H).
  apply bind_Ok in H as (role & Hr%validateRole_Ok & H). cbv zeta in H.
  apply bind_Ok in H as (p & (Hsize & t & Ht & ->)%stageMutation_Ok & [= <- <-]).
  exists k, role, expiry. rewrite map_size_insert_None in Hsize by done.
  split_and!; try done; split; done || lia.
Qed.

Lemma revoke_checks_Ok l captured now r prepared :
  revoke_checks l captured now = Ok (r, prepared) ->
  exists id existing reason,
    snap_get (js "keyId") captured = HStr id /\ snap_get (js "reason") captured = HStr reason /\
    tl_records l !! id = Some existing /\ tr_status existing = Active /\
    reason ∈ reasons_of Revoked /\ r = with_transition Revoked (to_iso_string now) reason existing /\
    prepared.1 = (<[id := r]> (tl_records l), tl_revision l + 1) /\
    buildSnapshot prepared.1.1 prepared.1.2 = Ok prepared.2.
Proof.
  unfold revoke_checks, validateKeyId. intros H. apply bind_Ok in H as (id & Hid & H).
  destruct (hstr_that key_id_pattern _) as [id'|] eqn:E; [|done]. injection Hid as ->.
  apply hstr_that_Some in E as [Hid _]. apply bind_Ok in H as (reason & Hr & H).
  destruct (hstr_that _ _) as [reason'|] eqn:E; [|done]. injection Hr as ->.
  apply hstr_that_Some in E as [Hr Hm%mem_str_true].
  apply bind_Ok in H as (existing & He & H). destruct (tl_records l !! id) eqn:El; [|done].
  injection He as ->. apply guard_bind_Ok in H as [Ha%bool_decide_eq_true H]. cbv zeta in H.
  apply bind_Ok in H as (p & (_ & t & Ht & ->)%stageMutation_Ok & [= <- <-]).
  by exists id, existing, reason.
Qed.

Lemma replace_checks_Ok l predecessor key validUntil status reason now a b prepared :
  replace_checks l predecessor key validUntil status reason now = Ok (a, b, prepared) ->
  exists id r k expiry,
    predecessor = HStr id /\ key_of key = Some k /\ validUntil = HStr (to_iso_string expiry) /\
    tl_records l !! id = Some r /\ tr_status r = Active /\ recordActiveAt r now = true /\
    has_successor l id = false /\ key_id_pattern id = true /\ key_id_of k <> id /\
    enrollable (tl_records l) k now expiry /\ a = with_transition status (to_iso_string now) reason r /\
    b = new_record k (tr_role r) now expiry (Some id) /\
    prepared.1 = (<[key_id_of k := b]> (<[id := a]> (tl_records l)), tl_revision l + 1) /\
    buildSnapshot prepared.1.1 prepared.1.2 = Ok prepared.2.
Proof.
  unfold replace_checks, validateKeyId, ensureNoSuccessor. intros H. apply bind_Ok in H as (id & Hid & H).
  destruct (hstr_that key_id_pattern _) as [id'|] eqn:E; [|done]. injection Hid as ->.
  apply hstr_that_Some in E as [-> Hid].
  apply bind_Ok in H as (r & He & H). destruct (tl_records l !! id) eqn:El; [|done]. injection He as ->.
  apply guard_bind_Ok in H as [[Ha%bool_decide_eq_true Hat]%andb_true_iff H].
  apply bind_Ok in H as ([] & Hs%guard_or_Ok%negb_true_iff & H).
  apply bind_Ok in H as (k & [Hk Hd]%trust_key_Ok & H).
  apply bind_Ok in H as (kid & [_ ->]%pomRxKeyId_Ok & H).
  apply guard_bind_Ok in H as [[Hne%negb_true_iff%str_eqb_neq Hf%bool_decide_eq_true]%andb_true_iff H].
  apply bind_Ok in H as (expiry & (-> & Hval & Hw)%validateValidityWindow_Ok & H). cbv zeta in H.
  apply bind_Ok in H as (p & (Hsize & t & Ht & ->)%stageMutation_Ok & [= <- <- <-]).
  exists id, r, k, expiry. rewrite map_size_insert_None, map_size_insert_Some in Hsize;
    [|by eexists|by rewrite lookup_insert_ne].
  split_and!; try done; split; done || lia.
Qed.

Lemma trust_sample_cases l reading :
  (exists now, sample_clock trust_fail "POMRX_WITNESS_TRUST" (tl_last l) reading = Ok now /\
     trust_sampleTrustedClock l reading = (Ok now, at_time l now) /\
     time_valid now = true /\ (forall t, tl_last l = Some t -> t <= now)) \/
  (exists e, sample_clock trust_fail "POMRX_WITNESS_TRUST" (tl_last l) reading = Throw e /\
     trust_sampleTrustedClock l reading = (Throw e, l)).
Proof.
  unfold trust_sampleTrustedClock. destruct (sample_clock _ _ _ _) as [now|e] eqn:E;
    [left; exists now|right; by exists e].
  pose proof (sample_clock_valid _ _ _ _ _ E). apply sample_clock_Ok in E as [_ ?]. done.
Qed.

(** A prepared mutation of [l] that [finish] commits. *)
Lemma finish_change {A} (l : lifecycle) (now : Z)
    (m : res (A * (gmap jsstr trust_record * Z * trust_state))) :
  time_valid now = true -> (forall t, tl_last l = Some t -> t <= now) ->
  (forall a prepared, m = Ok (a, prepared) ->
     mutation (at_time l now) now prepared.1.1 /\ prepared.1.2 = tl_revision l + 1) ->
  trust_change l (finish (at_time l now) m).2.
Proof.
  intros Hv Hm Hok. destruct m as [[a prepared]|e]; simpl; [|by constructor].
  destruct (Hok a prepared eq_refl) as [Hmut Hrev]. unfold commitMutation. simpl. rewrite Hrev.
  by apply change_records.
Qed.

Lemma replaceIdentity_change predecessor key validUntil status reason reading l :
  status = Rotated \/ status = Recovered -> reason ∈ reasons_of status ->
  trust_change l (replaceIdentity predecessor key validUntil status reason reading l).2.
Proof.
  intros Hst Hr. unfold replaceIdentity.
  destruct (trust_sample_cases l reading) as [(now & _ & -> & Hv & Hm)|(e & _ & ->)]; [|apply change_none].
  apply finish_change; [done..|]. intros [a b] prepared
    (id & r & k & expiry & -> & Hk & -> & Hl & Ha & Hact & Hs & Hid & Hne & He & -> & -> & Hp & _)%replace_checks_Ok.
  rewrite Hp. split; [|done]. by apply mutation_replace.
Qed.

Lemma trust_step_change l l' : trust_step l l' -> trust_change l l'.
Proof.
  intros [h input reading|h input reading|h input reading|h input reading|h env ack date reading].
  - unfold enrollIdentity. destruct (trust_snapshotExactReferences _ _ _ _) as [captured|e]; [|apply change_none].
    destruct (trust_sample_cases l reading) as [(now & _ & -> & Hv & Hm)|(e & _ & ->)]; [|apply change_none].
    apply finish_change; [done..|]. intros a prepared
      (k & role & expiry & _ & _ & _ & He & -> & Hp & _)%enroll_checks_Ok.
    rewrite Hp. split; [|done]. by apply mutation_enroll.
  - unfold revokeIdentity. destruct (trust_snapshotExactReferences _ _ _ _) as [captured|e]; [|apply change_none].
    destruct (trust_sample_cases l reading) as [(now & _ & -> & Hv & Hm)|(e & _ & ->)]; [|apply change_none].
    apply finish_change; [done..|]. intros a prepared
      (id & r & reason & _ & _ & Hl & Ha & Hr & -> & Hp & _)%revoke_checks_Ok.
    rewrite Hp. split; [|done]. by apply mutation_revoke.
  - unfold rotateIdentity. destruct (trust_snapshotExactReferences _ _ _ _) as [captured|e]; [|apply change_none].
    apply replaceIdentity_change; [by left|by left].
  - unfold recoverIdentity. destruct (captured ← _; _) as [[captured reason]|e] eqn:E; [|apply change_none].
    apply bind_Ok in E as (c & _ & E). destruct (hstr_that _ _) as [reason'|] eqn:Hr; [|done].
    injection E as <- <-. apply hstr_that_Some in Hr as [_ Hr%mem_str_true].
    apply replaceIdentity_change; [by right|done].
  - unfold verifyAuthorizationCandidate.
    destruct (trust_sample_cases l reading) as [(now & _ & -> & Hv & Hm)|(e & _ & ->)];
      [|apply change_none].
    destruct (now ← _; _); by apply change_clock.
Qed.

(** ** The invariant of a lifecycle *)

Definition inactive (records : gmap jsstr trust_record) : gmap jsstr trust_record :=
  filter (fun kr => tr_status kr.2 <> Active) records.

Record trust_inv (l : lifecycle) : Prop := {
  ti_size : (size (tl_records l) <= POM_RX_REFERENCE_WITNESS_TRUST_MAX_IDENTITIES)%nat;
  ti_records k r : tl_records l !! k = Some r ->
    tr_key_id r = k /\ exists last, tl_last l = Some last /\ record_ok r last;
  ti_revision : 0 <= tl_revision l <=
    Z.of_nat (size (tl_records l)) + Z.of_nat (size (inactive (tl_records l)));
  ti_predecessor k r p : tl_records l !! k = Some r -> tr_predecessor r = Some p ->
    exists q, tl_records l !! p = Some q /\ (tr_status q = Rotated \/ tr_status q = Recovered) /\
      tr_role q = tr_role r /\ tr_transition_at q = Some (tr_enrolled_at r);
  ti_successor k1 k2 r1 r2 p : tl_records l !! k1 = Some r1 -> tl_records l !! k2 = Some r2 ->
    tr_predecessor r1 = Some p -> tr_predecessor r2 = Some p -> k1 = k2;
}.

Lemma inactive_insert_new records k r :
  records !! k = None -> tr_status r = Active -> inactive (<[k := r]> records) = inactive records.
Proof.
  intros Hk Hr. apply map_filter_insert_not'; simpl; [by intros []|]. intros y. by rewrite Hk.
Qed.

Lemma inactive_insert_closed records k r r' :
  records !! k = Some r -> tr_status r = Active -> tr_status r' <> Active ->
  size (inactive (<[k := r']> records)) = S (size (inactive records)).
Proof.
  intros Hk Hr Hr'. unfold inactive. rewrite map_filter_insert_True by done.
  apply map_size_insert_None, map_lookup_filter_None. right. intros y Hy. simpl.
  assert (y = r) as -> by congruence. rewrite Hr. auto.
Qed.

Lemma has_successor_false l p :
  has_successor l p = false -> forall k r, tl_records l !! k = Some r -> tr_predecessor r <> Some p.
Proof.
  intros H k r Hk Hp. unfold has_successor in H. apply not_true_iff_false in H. apply H.
  apply List.existsb_exists. exists r. split; [|by apply bool_decide_eq_true].
  apply list_elem_of_In, list_elem_of_fmap. exists (k, r). split; [done|]. by apply elem_of_map_to_list.
Qed.

Lemma new_record_ok (l : lifecycle) k role now expiry p :
  time_valid now = true -> enrollable (tl_records l) k now expiry -> (forall id, p = Some id -> key_id_pattern id = true) ->
  record_ok (new_record k role now expiry p) now.
Proof.
  intros Hv [? ? ? ? ?] Hp. split; [by exists k|done|].
  exists now, expiry. split_and!; done || lia.
Qed.

Lemma closed_record_ok r last now status reason :
  record_ok r last -> last <= now -> time_valid now = true -> tr_status r = Active ->
  status <> Active -> reason ∈ reasons_of status ->
  record_ok (with_transition status (to_iso_string now) reason r) now.
Proof.
  intros [Hk Hp (e & u & E1 & E2 & V1 & V2 & W & He & _)] Hle Hv Ha Hst Hr. split; [done|done|].
  exists e, u. split_and!; try done; try lia.
  destruct status; [done|..]; exists now, reason; split_and!; done || lia.
Qed.

Lemma empty_lifecycle_inv : trust_inv empty_lifecycle.
Proof.
  split; [vm_compute; lia| |simpl; lia|..];
    intros *; change (tl_records empty_lifecycle) with (∅ : gmap jsstr trust_record);
    by rewrite lookup_empty.
Qed.

Lemma clock_inv l now :
  (forall t, tl_last l = Some t -> t <= now) -> trust_inv l -> trust_inv (at_time l now).
Proof.
  intros Hm []. split; try done. intros k r (Hk & last & Hl%Hm & Hok)%ti_records0.
  split; [done|]. exists now. split; [done|]. by eapply record_ok_later.
Qed.

(** Closing an active identity keeps the invariant. *)
Lemma close_inv l id r status reason now :
  trust_inv l -> tl_last l = Some now -> time_valid now = true -> tl_records l !! id = Some r ->
  tr_status r = Active -> status <> Active -> reason ∈ reasons_of status ->
  trust_inv (with_records l (<[id := with_transition status (to_iso_string now) reason r]> (tl_records l))).
Proof.
  intros [] Hnow Hv Hl Ha Hst Hr. destruct (ti_records0 id r Hl) as (Hid & last & Hlast & Hok).
  assert (last = now) as -> by congruence. split; simpl.
  - rewrite map_size_insert_Some; [done|by eexists].
  - intros k r1 [[<- <-]|[Hne Hk]]%lookup_insert_Some; [|by apply ti_records0].
    split; [done|]. exists now. split; [done|]. by apply (closed_record_ok r now).
  - rewrite map_size_insert_Some by by eexists. rewrite (inactive_insert_closed _ _ r) by done. lia.
  - assert (forall k r1, <[id:=with_transition status (to_iso_string now) reason r]> (tl_records l) !! k
      = Some r1 -> exists r0, tl_records l !! k = Some r0 /\ tr_predecessor r1 = tr_predecessor r0 /\
        tr_role r1 = tr_role r0 /\ tr_enrolled_at r1 = tr_enrolled_at r0) as Hold.
    { intros k r1 [[<- <-]|[Hne Hk]]%lookup_insert_Some; [by exists r|by exists r1]. }
    intros k r1 p (r0 & Hk & -> & -> & ->)%Hold Hp.
    destruct (ti_predecessor0 k r0 p Hk Hp) as (q & Hq & Hs & ?). exists q.
    rewrite lookup_insert_ne; [done|]. intros ->. assert (q = r) as -> by congruence.
    rewrite Ha in Hs. by destruct Hs.
  - assert (forall k r1, <[id:=with_transition status (to_iso_string now) reason r]> (tl_records l) !! k
      = Some r1 -> exists r0, tl_records l !! k = Some r0 /\ tr_predecessor r1 = tr_predecessor r0) as Hold.
    { intros k r1 [[<- <-]|[Hne Hk]]%lookup_insert_Some; [by exists r|by exists r1]. }
    intros k1 k2 r1 r2 p (? & H1 & ->)%Hold (? & H2 & ->)%Hold. by apply (ti_successor0 k1 k2).
Qed.

(** So does a new identity, of the same role as its predecessor if it has one. *)
Lemma new_inv l k role expiry now predecessor revision :
  trust_inv l -> tl_last l = Some now -> time_valid now = true ->
  enrollable (tl_records l) k now expiry ->
  (forall id, predecessor = Some id -> key_id_pattern id = true /\ has_successor l id = false /\
     exists q, tl_records l !! id = Some q /\ (tr_status q = Rotated \/ tr_status q = Recovered) /\
       tr_role q = role /\ tr_transition_at q = Some (to_iso_string now)) ->
  tl_revision l <= revision <= tl_revision l + 1 ->
  trust_inv {| tl_records := <[key_id_of k := new_record k role now expiry predecessor]> (tl_records l);
    tl_revision := revision; tl_last := tl_last l |}.
Proof.
  intros [] Hnow Hv He Hp Hrev. pose proof He as [Hd Hfresh _ _ Hroom]. split; simpl.
  - rewrite map_size_insert_None by done. lia.
  - intros id r [[<- <-]|[Hne Hk]]%lookup_insert_Some; [|by apply ti_records0].
    split; [done|]. exists now. split; [done|]. apply (new_record_ok l); [done|done|].
    intros id ->. by apply Hp.
  - rewrite map_size_insert_None, inactive_insert_new by done. lia.
  - assert (forall id q, tl_records l !! id = Some q ->
      <[key_id_of k:=new_record k role now expiry predecessor]> (tl_records l) !! id = Some q) as Hkeep.
    { intros id q Hq. rewrite lookup_insert_ne; [done|]. intros <-. congruence. }
    intros id r p [[<- <-]|[Hne Hk]]%lookup_insert_Some Hr; simpl in *.
    + destruct (Hp p Hr) as (_ & _ & q & Hq & ?). exists q. split; [by apply Hkeep|done].
    + destruct (ti_predecessor0 id r p Hk Hr) as (q & Hq & ?). exists q. split; [by apply Hkeep|done].
  - intros k1 k2 r1 r2 p [[<- <-]|[N1 H1]]%lookup_insert_Some [[<- <-]|[N2 H2]]%lookup_insert_Some P1 P2;
      simpl in *; [done| | |by apply (ti_successor0 k1 k2 r1 r2 p)].
    + destruct (Hp p P1) as (_ & Hs & _). by destruct (has_successor_false _ _ Hs _ _ H2).
    + destruct (Hp p P2) as (_ & Hs & _). by destruct (has_successor_false _ _ Hs _ _ H1).
Qed.

Lemma has_successor_closed l id p r status at_ reason :
  tl_records l !! id = Some r -> has_successor l p = false ->
  has_successor (with_records l (<[id := with_transition status at_ reason r]> (tl_records l))) p = false.
Proof.
  intros Hl Hs. pose proof (has_successor_false _ _ Hs) as Hf. unfold has_successor. simpl.
  apply not_true_iff_false. intros (r1 & Hin & Hp%bool_decide_eq_true)%List.existsb_exists.
  apply list_elem_of_In, list_elem_of_fmap in Hin as ([k r2] & -> & Hin%elem_of_map_to_list).
  apply lookup_insert_Some in Hin as [[<- <-]|[_ Hk]]; [by apply (Hf id r)|by apply (Hf k r2)].
Qed.

Lemma mutation_inv l now records :
  trust_inv l -> tl_last l = Some now -> time_valid now = true -> mutation l now records ->
  trust_inv (with_records l records).
Proof.
  intros I Hnow Hv [k role expiry He|id r reason Hl Ha Hr|id r status reason k expiry Hl Ha _ Hs Hid Hne Hst Hr He].
  - apply (new_inv l k role expiry now None); done || lia.
  - by apply close_inv.
  - assert (status <> Active) as Hna by by destruct Hst as [-> | ->].
    pose proof (close_inv l id r status reason now I Hnow Hv Hl Ha Hna Hr) as I'.
    apply (new_inv _ k (tr_role r) expiry now (Some id)) with (revision := tl_revision l + 1) in I';
      simpl; try done; try lia.
    + destruct He. split; simpl; try done.
      * by rewrite lookup_insert_ne.
      * by rewrite map_size_insert_Some by by eexists.
    + intros id' [= <-]. split; [done|]. split; [by apply has_successor_closed|].
      eexists. split; [apply lookup_insert_eq|]. done.
Qed.

Lemma trust_change_inv l l' : trust_inv l -> trust_change l l' -> trust_inv l'.
Proof.
  intros I [|now Hv Hm|now records Hv Hm Hmut]; [done|by apply clock_inv|].
  by eapply mutation_inv; [apply clock_inv| | |].
Qed.

Lemma trust_reachable_inv l : trust_reachable l -> trust_inv l.
Proof.
  unfold trust_reachable. revert l. apply rtc_ind_r; [apply empty_lifecycle_inv|].
  intros l l' _ Hs%trust_step_change I. by eapply trust_change_inv.
Qed.

(** C12: in a reachable lifecycle at most 32 identities are stored, each under the id
    of its Ed25519 key, valid for a second to 366 days, with the transition its
    status asks for; a successor has the role of its predecessor, which was
    closed the moment it was enrolled and has no other successor.  At most 64
    mutations ever succeed, and the state always has a snapshot. *)
Theorem trust_lifecycle_invariant l :
  trust_reachable l ->
  trust_inv l /\ 0 <= tl_revision l <= 64 /\ exists t, trust_snapshot l = Ok t.
Proof.
  intros I%trust_reachable_inv. split; [done|].
  assert (0 <= tl_revision l <= 64) as Hr.
  { destruct I as [Hs _ Hr _ _]. pose proof (map_size_filter (fun kr => tr_status kr.2 <> Active) (tl_records l)).
    unfold inactive, POM_RX_REFERENCE_WITNESS_TRUST_MAX_IDENTITIES in *. lia. }
  split; [done|]. unfold trust_snapshot.
  apply (buildSnapshot_total _ _ (default 0 (tl_last l))); [|apply I|unfold max_safe_integer; lia].
  intros k r (Hk & last & Hl & Hok)%(ti_records _ I). by rewrite Hl.
Qed.

(** ** What stays of an identity *)

(** [r'] is the identity [r] at the same or a later time. *)
Record later_identity (r r' : trust_record) : Prop := {
  li_key_id : tr_key_id r' = tr_key_id r;
  li_role : tr_role r' = tr_role r;
  li_spki : tr_spki r' = tr_spki r;
  li_enrolled : tr_enrolled_at r' = tr_enrolled_at r;
  li_until : tr_valid_until r' = tr_valid_until r;
  li_predecessor : tr_predecessor r' = tr_predecessor r;
  li_status : r' = r \/ tr_status r = Active /\ tr_status r' <> Active;
}.

#[global] Instance later_identity_preorder : PreOrder later_identity.
Proof.
  split.
  - intros r. split; try done. by left.
  - intros r1 r2 r3 [? ? ? ? ? ? S1] [? ? ? ? ? ? S2]. split; try congruence.
    destruct S1 as [-> | [? ?]]; [done|]. destruct S2 as [-> | [? ?]]; [by right|done].
Qed.

Record later_lifecycle (l l' : lifecycle) : Prop := {
  ll_records k r : tl_records l !! k = Some r ->
    exists r', tl_records l' !! k = Some r' /\ later_identity r r';
  ll_revision : tl_revision l <= tl_revision l';
  ll_clock t : tl_last l = Some t -> exists t', tl_last l' = Some t' /\ t <= t';
}.

#[global] Instance later_lifecycle_preorder : PreOrder later_lifecycle.
Proof.
  split.
  - intros l. split; [|lia|intros t Ht; by exists t; split; [|lia]]. intros k r Hk. by exists r.
  - intros l1 l2 l3 [A1 B1 C1] [A2 B2 C2]. split; [|lia|].
    + intros k r (r2 & (r3 & H3 & ?)%A2 & ?)%A1. exists r3. split; [done|]. by etrans.
    + intros t (t2 & (t3 & ? & ?)%C2 & ?)%C1. exists t3. split; [done|lia].
Qed.

Lemma clock_later l now :
  (forall t, tl_last l = Some t -> t <= now) -> later_lifecycle l (at_time l now).
Proof.
  intros Hm. split; [intros k r Hk; by exists r|simpl; lia|]. intros t Ht%Hm. by exists now.
Qed.

Lemma insert_new_later (l : lifecycle) k r :
  tl_records l !! k = None -> later_lifecycle l (with_records l (<[k := r]> (tl_records l))).
Proof.
  intros Hk. split; simpl; [|lia|intros t Ht; exists t; split; [done|lia]].
  intros k' r' Hr. exists r'. split; [|done]. rewrite lookup_insert_ne; [done|]. intros ->. congruence.
Qed.

Lemma close_later l id r status at_ reason :
  tl_records l !! id = Some r -> tr_status r = Active -> status <> Active ->
  later_lifecycle l (with_records l (<[id := with_transition status at_ reason r]> (tl_records l))).
Proof.
  intros Hl Ha Hst. split; simpl; [|lia|intros t Ht; exists t; split; [done|lia]].
  intros k r1 Hk. destruct (decide (id = k)) as [<-|Hne].
  - assert (r1 = r) as -> by congruence. eexists. split; [apply lookup_insert_eq|].
    split; try done. by right.
  - exists r1. by rewrite lookup_insert_ne.
Qed.

Lemma trust_change_later l l' : trust_change l l' -> later_lifecycle l l'.
Proof.
  intros [|now _ Hm|now records _ Hm Hmut]; [done|by apply clock_later|].
  etrans; [by apply clock_later|]. revert Hmut. generalize (at_time l now). clear l Hm. intros l.
  intros [k role expiry []|id r reason Hl Ha _|id r status reason k expiry Hl Ha _ _ _ Hne Hst _ []].
  - by apply insert_new_later.
  - by apply close_later.
  - assert (status <> Active) as Hna by by destruct Hst as [-> | ->].
    set (l1 := with_records l (<[id := with_transition status (to_iso_string now) reason r]> (tl_records l))).
    assert (later_lifecycle l l1) as [A1 B1 C1] by by apply close_later.
    assert (later_lifecycle l1 (with_records l1 (<[key_id_of k := new_record k (tr_role r) now expiry (Some id)]>
      (tl_records l1)))) as [A2 B2 C2].
    { apply insert_new_later. simpl. by rewrite lookup_insert_ne. }
    split; simpl in *; [|lia|intros t Ht; exists t; split; [done|lia]].
    intros k' r' (r2 & (r3 & H3 & ?)%A2 & ?)%A1. exists r3. split; [done|]. by etrans.
Qed.

(** An enrolled identity is never removed, keeps its key, its role, its window and
    its predecessor, and once it is closed it does not change again; the
    revision and the accepted instants never go back. *)
Lemma trust_steps_later l l' : rtc trust_step l l' -> later_lifecycle l l'.
Proof.
  intros H. induction H as [|l1 l2 l3 H1%trust_step_change%trust_change_later _ IH]; [done|by etrans].
Qed.

(** ** Enrolling *)

(** The input asks for key [k] in [role] until [expiry]. *)
Definition enrollment (h : heap) (input : hval) (k : public_key) (role : identity_role) (expiry : Z) : Prop :=
  exists captured,
    trust_snapshotExactReferences h input (js <$> ["publicKey"; "role"; "validUntil"])
      "identity enrollment" = Ok captured /\
    key_of (snap_get (js "publicKey") captured) = Some k /\
    snap_get (js "role") captured = HStr (role_name role) /\
    snap_get (js "validUntil") captured = HStr (to_iso_string expiry).

Lemma enroll_checks_total l captured now k role expiry :
  trust_inv l -> tl_last l = Some now -> time_valid now = true ->
  key_of (snap_get (js "publicKey") captured) = Some k ->
  snap_get (js "role") captured = HStr (role_name role) ->
  snap_get (js "validUntil") captured = HStr (to_iso_string expiry) ->
  enrollable (tl_records l) k now expiry ->
  exists t, enroll_checks l captured now =
    Ok (new_record k role now expiry None,
        (<[key_id_of k := new_record k role now expiry None]> (tl_records l), tl_revision l + 1, t)).
Proof.
  intros I Hl Hv Hk Hr Hu He. pose proof He as [Hd Hf Hval Hw Hroom].
  assert (trust_inv (with_records l (<[key_id_of k := new_record k role now expiry None]> (tl_records l))))
    as I' by by eapply mutation_inv; [..|apply mutation_enroll].
  destruct (buildSnapshot_total (<[key_id_of k := new_record k role now expiry None]> (tl_records l))
    (tl_revision l + 1) now) as [t Ht].
  { intros id r (Hid & last & Hlast & Hok)%(ti_records _ I'). simpl in Hlast.
    assert (last = now) as <- by congruence. done. }
  { apply (ti_size _ I'). }
  { pose proof (ti_revision _ I'). pose proof (ti_size _ I').
    pose proof (map_size_filter (fun kr => tr_status kr.2 <> Active)
      (tl_records (with_records l (<[key_id_of k := new_record k role now expiry None]> (tl_records l))))).
    unfold inactive, POM_RX_REFERENCE_WITNESS_TRUST_MAX_IDENTITIES, max_safe_integer in *. simpl in *. lia. }
  exists t. unfold enroll_checks. rewrite (proj2 (trust_key_Ok _ k)) by done. cbn [mbind res_bind].
  rewrite (proj2 (pomRxKeyId_Ok k (key_id_of k))) by done. cbn [mbind res_bind].
  rewrite bool_decide_true by done. cbn [guard_or mbind res_bind].
  rewrite (proj2 (validateValidityWindow_Ok now _ expiry)) by done. cbn [mbind res_bind].
  rewrite (proj2 (validateRole_Ok _ role)) by done. cbn [mbind res_bind]. cbv zeta.
  unfold stageMutation. fold (new_record k role now expiry None).
  rewrite (proj2 (Nat.leb_le _ _)) by apply (ti_size _ I'). cbn [guard_or mbind res_bind].
  by rewrite Ht.
Qed.

(** an enrolment succeeds exactly when the input asks, in this form, for an
    Ed25519 key that is not enrolled, for a second to 366 days from an accepted
    instant, and there is room; then the identity is stored and the result is
    the snapshot of the new state.  Otherwise at most the clock has moved. *)
Theorem enrollIdentity_exact h input reading l :
  trust_reachable l ->
  match enrollIdentity h input reading l with
  | (Ok (r, t), l') => exists now k role expiry,
      sample_clock trust_fail "POMRX_WITNESS_TRUST" (tl_last l) reading = Ok now /\
      enrollment h input k role expiry /\ enrollable (tl_records l) k now expiry /\
      r = new_record k role now expiry None /\
      l' = with_records (at_time l now) (<[key_id_of k := r]> (tl_records l)) /\
      trust_snapshot l' = Ok t
  | (Throw e, l') =>
      (l' = l \/ exists now, sample_clock trust_fail "POMRX_WITNESS_TRUST" (tl_last l) reading = Ok now /\
                   l' = at_time l now) /\
      forall now k role expiry,
        sample_clock trust_fail "POMRX_WITNESS_TRUST" (tl_last l) reading = Ok now ->
        enrollment h input k role expiry -> ~ enrollable (tl_records l) k now expiry
  end.
Proof.
  intros I%trust_reachable_inv. unfold enrollIdentity.
  destruct (trust_snapshotExactReferences _ _ _ _) as [captured|e] eqn:Ec.
  2:{ split; [by left|]. intros now k role expiry _ (captured & Hc & _). congruence. }
  destruct (trust_sample_cases l reading) as [(now & Hs & -> & Hv & Hm)|(e & Hs & ->)].
  2:{ simpl. split; [by left|]. intros now k role expiry Hs'. congruence. }
  cbn [mbind res_bind]. destruct (enroll_checks (at_time l now) captured now) as [[r [recs t]]|e] eqn:E.
  - apply enroll_checks_Ok in E as (k & role & expiry & Hk & Hr & Hu & He & -> & Hp & Ht).
    simpl in Hp. subst recs. exists now, k, role, expiry. split; [done|].
    split; [by exists captured|]. by repeat (split; [done|]).
  - simpl. split; [right; by exists now|]. intros now' k role expiry Hs' (captured' & Hc & Hk & Hr & Hu) He.
    assert (now' = now) as -> by congruence. assert (captured' = captured) as -> by congruence.
    destruct (enroll_checks_total (at_time l now) captured now k role expiry) as [t Ht]; try done;
      [by apply clock_inv|]. congruence.
Qed.

(** ** What an authorisable candidate shows *)

(** The identity may act at the instant [t]. *)
Record active_identity (r : trust_record) (role : identity_role) (t : Z) : Prop := {
  ai_role : tr_role r = role;
  ai_status : tr_status r = Active;
  ai_window : exists e u, tr_enrolled_at r = to_iso_string e /\ tr_valid_until r = to_iso_string u /\
    time_valid u = true /\ e <= t < u;
}.

Lemma recordActiveAt_Ok r last role t :
  record_ok r last -> tr_role r = role -> tr_status r = Active -> recordActiveAt r t = true ->
  active_identity r role t.
Proof.
  intros [_ _ (e & u & E1 & E2 & V1 & V2 & _)] Hr Ha H. split; [done|done|]. exists e, u.
  split; [done|]. split; [done|]. split; [done|]. unfold recordActiveAt, time_lt, time_ge in H.
  rewrite E1, E2, !date_parse_iso in H by done.
  destruct (t <? e) eqn:H1; [done|]. destruct (u <=? t) eqn:H2; [done|]. lia.
Qed.

Lemma trust_utc_iso t field : time_valid t = true -> trust_utc (HStr (to_iso_string t)) field = Ok t.
Proof. intros Ht. by apply canonical_utc_Ok. Qed.

(** The acknowledgement names the receipt and its source. *)
Record acknowledges (ack : jsv) (committed : committed) (ks : public_key) : Prop := {
  as_hash : get (js "receipt_hash") ack = VStr (receiptHash committed);
  as_id : get (js "receipt_id") ack = VStr (p_receipt_id (c_receipt committed));
  as_run : get (js "run_id") ack = VStr (run_id (c_receipt committed));
  as_outcome : get (js "outcome") ack = VStr (outcome_name (p_outcome (c_receipt committed)));
  as_source : get (js "source_key_id") ack = VStr (key_id_of ks);
  as_mode : get (js "mode") ack = VStr (js "witnessed");
}.

Lemma acknowledges_expected ack source ks wk unexpired t :
  sv_key_id source = key_id_of ks ->
  Forall (fun f => check_expected ack f = Ok tt)
    (expectedFields (expected_of source (VStr (js "witnessed")) wk unexpired t)) ->
  acknowledges ack (sv_committed source) ks.
Proof.
  intros Hid Hex.
  assert (forall field s, (field, VStr s) ∈ expectedFields (expected_of source (VStr (js "witnessed"))
    wk unexpired t) -> get (js field) ack = VStr s) as Hf.
  { intros field s Hin. rewrite Forall_forall in Hex. specialize (Hex _ Hin).
    by apply guard_or_Ok, strict_equal_str in Hex. }
  split; rewrite <- ?Hid; apply Hf;
    [left|do 1 right; left|do 2 right; left|do 3 right; left|do 4 right; left|do 5 right; left].
Qed.

Lemma expected_acknowledges ack source ks unexpired t :
  sv_key_id source = key_id_of ks -> acknowledges ack (sv_committed source) ks ->
  Forall (fun f => check_expected ack f = Ok tt)
    (expectedFields (expected_of source (VStr (js "witnessed")) VUndef unexpired t)).
Proof.
  intros Hid [? ? ? ? ? ?]. unfold expectedFields. rewrite <- Hid in *.
  repeat (apply List.Forall_cons; [|]); try apply List.Forall_nil; unfold check_expected;
    cbn [fst snd expected_of ex_receiptHash ex_receiptId ex_runId ex_outcome ex_sourceKeyId ex_mode
      ex_witnessKeyId]; try done; apply guard_or_Ok, strict_equal_str; done.
Qed.

(** The evidence and the identities behind an authorisable candidate at [now]. *)
Record authorized (l : lifecycle) (now : Z) (envelope ack : jsv) (committed : committed)
    (ks kw : public_key) (sr wr : trust_record) (r u limit : Z) (canonical : jsstr) : Prop := {
  au_envelope : envelope_for envelope committed ks;
  au_allow : p_outcome (c_receipt committed) = Allow;
  au_ack : ack_for ack r u kw canonical;
  au_expected : acknowledges ack committed ks;
  au_source : tl_records l !! key_id_of ks = Some sr;
  au_witness : tl_records l !! key_id_of kw = Some wr;
  au_source_active : active_identity sr SourceRole now;
  au_witness_active : active_identity wr WitnessRole now;
  au_occurred : exists o, p_occurred_at (c_receipt committed) = to_iso_string o /\ o <= r /\
    active_identity sr SourceRole o /\ active_identity wr WitnessRole r;
  au_keys : get (js "source_public_key") envelope = VStr (tr_spki sr) /\
    get (js "witness_public_key") ack = VStr (tr_spki wr);
  au_unexpired : four_digit_year now -> r <= now <= u;
  au_limit : now < limit <= u /\ exists us uw, tr_valid_until sr = to_iso_string us /\
    tr_valid_until wr = to_iso_string uw /\ limit = Z.min u (Z.min us uw);
}.

(** The result for that evidence. *)
Definition candidate_of (l : lifecycle) (now : Z) (committed : committed) (ks kw : public_key)
    (limit : Z) (canonical : jsstr) (t : trust_state) : candidate :=
  {| ca_source_key_id := key_id_of ks; ca_witness_key_id := VStr (key_id_of kw);
     ca_receipt_hash := receiptHash committed;
     ca_acknowledgement_hash := sha256Hex (ack_message canonical);
     ca_current_time := to_iso_string now; ca_authorization_valid_until := to_iso_string limit;
     ca_trust_revision := tl_revision l; ca_trust_state_hash := ts_hash t |}.

Lemma decide_candidate_Ok l now envelope ack source ks r u kw canonical c :
  trust_inv l -> time_valid now = true ->
  envelope_for envelope (sv_committed source) ks -> sv_key_id source = key_id_of ks ->
  ack_for ack r u kw canonical ->
  acknowledges ack (sv_committed source) ks ->
  (four_digit_year now -> r <= now <= u) ->
  decide_candidate l now envelope ack source
    {| av_payload := payload_of_ack ack r u; av_acknowledgementHash := sha256Hex (ack_message canonical) |}
    = Ok (Authorizable c) ->
  exists sr wr limit t,
    authorized l now envelope ack (sv_committed source) ks kw sr wr r u limit canonical /\
    trust_snapshot l = Ok t /\ c = candidate_of l now (sv_committed source) ks kw limit canonical t.
Proof.
  intros I Hnow Henv Hid Hack Hh Hwin. unfold decide_candidate. cbv zeta.
  cbn [av_payload av_acknowledgementHash]. rewrite Hid.
  change (get (js "witness_key_id") (VObj PObject (payload_of_ack ack r u))) with (get (js "witness_key_id") ack).
  change (get (js "received_at") (VObj PObject (payload_of_ack ack r u))) with (VStr (to_iso_string r)).
  change (get (js "valid_until") (VObj PObject (payload_of_ack ack r u))) with (VStr (to_iso_string u)).
  rewrite (ak_witness _ _ _ _ _ Hack). cbn [find_record hval_of].
  destruct (bool_decide (p_outcome _ = Allow)) eqn:Ho; [|done]. apply bool_decide_eq_true in Ho. cbn [negb].
  destruct (tl_records l !! key_id_of ks) as [sr|] eqn:Hsr; [|done].
  destruct (tl_records l !! key_id_of kw) as [wr|] eqn:Hwr; [|done].
  destruct (_ && _) eqn:Hroles; [|done]. apply andb_true_iff in Hroles as [Rs%bool_decide_eq_true Rw%bool_decide_eq_true].
  cbn [negb]. destruct (is_str _ _ && _) eqn:Hkeys; [|done].
  apply andb_true_iff in Hkeys as [Ks%is_str_eq Kw%is_str_eq]. cbn [negb].
  pose proof (commit_committed_ok _ _ (en_receipt _ _ _ Henv)) as [W _].
  destruct (wf_occurred _ W) as (o & Vo & Eo). rewrite Eo, (trust_utc_iso o) by done. cbn [mbind res_bind].
  destruct (ak_times _ _ _ _ _ Hack) as (Vr & Vu & _). rewrite (trust_utc_iso r) by done. cbn [mbind res_bind].
  destruct (r <? o) eqn:Hro; [done|]. apply Z.ltb_ge in Hro.
  destruct (recordActiveAt sr o && _ && _ && _ && _ && _) eqn:Hact; [|done]. cbn [negb].
  rewrite !andb_true_iff, !bool_decide_eq_true in Hact. destruct Hact as [[[[[A1 A2] S1] S2] A3] A4].
  rewrite (trust_utc_iso u) by done. cbn [mbind res_bind].
  destruct (ti_records _ I _ _ Hsr) as (_ & last & _ & Oks), (ti_records _ I _ _ Hwr) as (_ & last' & _ & Okw).
  destruct (ro_window _ _ Oks) as (es & us & _ & Eus & _ & Vus & _).
  destruct (ro_window _ _ Okw) as (ew & uw & _ & Euw & _ & Vuw & _).
  rewrite Eus, Euw, !date_parse_iso by done. cbn [time_min mbind option_bind time_ge].
  destruct (_ <=? now) eqn:Hlim; [done|]. apply Z.leb_gt in Hlim.
  intros (t & Ht & H)%bind_Ok. unfold to_iso_checked in H.
  destruct (time_valid (Z.min u (Z.min us uw))) eqn:Vl; [|done]. cbn [mbind res_bind] in H. injection H as <-.
  exists sr, wr, (Z.min u (Z.min us uw)), t. split; [|done].
  split; try done.
  - by eapply recordActiveAt_Ok.
  - by eapply recordActiveAt_Ok.
  - exists o. split_and!; try done; by eapply recordActiveAt_Ok.
  - split; [lia|]. by exists us, uw.
Qed.

Lemma verify_candidate_Ok h envelope acknowledgement date now l c :
  trust_inv l -> time_valid now = true ->
  verify_candidate h envelope acknowledgement date now l = Ok (Authorizable c) ->
  exists env ack committed ks kw sr wr r u limit canonical t,
    captureReferencePlainData h envelope (js "source envelope") = Ok env /\
    captureReferencePlainData h acknowledgement (js "witness acknowledgement") = Ok ack /\
    authorized l now env ack committed ks kw sr wr r u limit canonical /\
    trust_snapshot l = Ok t /\ c = candidate_of l now committed ks kw limit canonical t.
Proof.
  intros I Hnow. unfold verify_candidate, failure.
  destruct (captureReferencePlainData h envelope _) as [env|]; [|done].
  destruct (verifyPomRxSourceEnvelope env) as [source|] eqn:Hs; [|done].
  apply verification_of_Verified, check_envelope_Ok in Hs as (ks & Henv & Hid).
  destruct (captureReferencePlainData h acknowledgement _) as [ack|]; [|done].
  intros (wk & _ & H)%bind_Ok.
  destruct (verifyPomRxWitnessAck ack _ date) as [v|] eqn:Hv; [|done].
  apply verification_of_Verified, check_ack_Ok in Hv as (r & u & kw & canonical & Hack & Hex & Hun & ->).
  assert (four_digit_year now -> r <= now <= u) as Hwin.
  { intros Hy. unfold check_unexpired, assert in Hun. cbn [expected_of ex_requireUnexpired ex_currentTime] in Hun.
    rewrite normalizeDateTime_iso in Hun by done. cbn [mbind res_bind] in Hun.
    apply guard_bind_Ok in Hun as [H1 H2%guard_or_Ok].
    destruct (ak_times _ _ _ _ _ Hack) as (_ & _ & ?). apply iso_window; done || lia. }
  apply (decide_candidate_Ok _ _ _ _ _ ks r u kw canonical) in H as (sr & wr & limit & t & Ha & Ht & ->); try done.
  - by exists env, ack, (sv_committed source), ks, kw, sr, wr, r, u, limit, canonical, t.
  - by eapply acknowledges_expected.
Qed.

Lemma verifyAuthorizationCandidate_Ok h envelope acknowledgement date reading l c l' :
  trust_inv l ->
  verifyAuthorizationCandidate h envelope acknowledgement date reading l = (Authorizable c, l') ->
  exists now, sample_clock trust_fail "POMRX_WITNESS_TRUST" (tl_last l) reading = Ok now /\
    l' = at_time l now /\ time_valid now = true /\ trust_inv l' /\
    verify_candidate h envelope acknowledgement date now l' = Ok (Authorizable c).
Proof.
  intros I. unfold verifyAuthorizationCandidate.
  destruct (trust_sample_cases l reading) as [(now & Hs & -> & Hv & Hm)|(e & _ & ->)]; [|done].
  cbn [mbind res_bind]. destruct (verify_candidate _ _ _ _ _ _) as [d|] eqn:E; [|done].
  intros [= -> <-]. exists now. split_and!; try done. by apply clock_inv.
Qed.

(** C10: an authorisable result is always for a signed preflight that allows and a
    witness acknowledgement of that receipt, signed by two different keys that
    are enrolled and active as source and witness, at the occurrence, at the
    receipt and now; the authorisation ends with the first of the three windows,
    after now, and the identities are not changed. *)
Theorem verifyAuthorizationCandidate_sound h envelope acknowledgement date reading l c l' :
  trust_reachable l ->
  verifyAuthorizationCandidate h envelope acknowledgement date reading l = (Authorizable c, l') ->
  exists now env ack committed ks kw sr wr r u limit canonical t,
    sample_clock trust_fail "POMRX_WITNESS_TRUST" (tl_last l) reading = Ok now /\ l' = at_time l now /\
    captureReferencePlainData h envelope (js "source envelope") = Ok env /\
    captureReferencePlainData h acknowledgement (js "witness acknowledgement") = Ok ack /\
    authorized l' now env ack committed ks kw sr wr r u limit canonical /\
    p_phase (c_receipt committed) = Preflight /\ key_id_of ks <> key_id_of kw /\
    trust_snapshot l' = Ok t /\ c = candidate_of l' now committed ks kw limit canonical t.
Proof.
  intros I%trust_reachable_inv (now & Hs & -> & Hv & I' & H)%verifyAuthorizationCandidate_Ok; [|done].
  apply verify_candidate_Ok in H as (env & ack & committed & ks & kw & sr & wr & r & u & limit & canonical &
    t & He & Ha & Hau & Ht & ->); [|done..].
  exists now, env, ack, committed, ks, kw, sr, wr, r, u, limit, canonical, t.
  split_and!; try done.
  - destruct (commit_committed_ok _ _ (en_receipt _ _ _ (au_envelope _ _ _ _ _ _ _ _ _ _ _ _ _ Hau))) as [W _].
    pose proof (wf_outcome _ W) as Ho. rewrite (au_allow _ _ _ _ _ _ _ _ _ _ _ _ _ Hau) in Ho.
    destruct (p_phase (c_receipt committed)); [done|..]; cbn [PHASE_OUTCOMES] in Ho;
      rewrite !elem_of_cons, elem_of_nil in Ho; naive_solver.
  - intros E. apply (ak_distinct _ _ _ _ _ (au_ack _ _ _ _ _ _ _ _ _ _ _ _ _ Hau)).
    destruct (au_expected _ _ _ _ _ _ _ _ _ _ _ _ _ Hau) as [_ _ _ _ -> _]. by rewrite E.
Qed.

(** C11: an identity that was revoked, rotated or recovered is never the source or the
    witness of an authorisable result again. *)
Theorem closed_identity_never_authorizes l id r l' h envelope acknowledgement date reading c l'' :
  trust_reachable l -> tl_records l !! id = Some r -> tr_status r <> Active -> rtc trust_step l l' ->
  verifyAuthorizationCandidate h envelope acknowledgement date reading l' = (Authorizable c, l'') ->
  ca_source_key_id c <> id /\ ca_witness_key_id c <> VStr id.
Proof.
  intros Hl Hid Hr Hsteps H.
  assert (trust_inv l') as I by by apply trust_reachable_inv; unfold trust_reachable in *; etrans.
  destruct (ll_records _ _ (trust_steps_later _ _ Hsteps) id r Hid) as (r' & Hid' & [_ _ _ _ _ _ Hst]).
  assert (tr_status r' <> Active) as Hr' by by destruct Hst as [-> | [? ?]].
  apply verifyAuthorizationCandidate_Ok in H as (now & _ & -> & Hv & I' & H); [|done].
  apply verify_candidate_Ok in H as (env & ack & committed & ks & kw & sr & wr & rr & u & limit & canonical &
    t & _ & _ & Hau & _ & ->); [|done..].
  destruct Hau as [_ _ _ _ Hs Hw [_ As _] [_ Aw _] _ _ _ _]. simpl in *.
  split; [intros <-|intros [= <-]]; congruence.
Qed.
End trust.

(** ** A run *)

Section trust_witness.
#[local] Existing Instances plain_string_host checksum_hash_host checksum_bytes_host iso_date_host
  toy_key_host.

Definition toy_id (k : N) : jsstr := key_id_of (KH := toy_key_host) k.

(** A key argument is the number of the key. *)
Definition toy_key_of (v : hval) : option (@public_key toy_key_host) :=
  match v with HNum (NInt z) => Some (Z.to_N z) | _ => None end.

Definition enrollment_value (key : Z) (role : string) : jsv := VObj PObject
  [(js "publicKey", VNum (NInt key)); (js "role", VStr (js role));
   (js "validUntil", VStr (js "2026-06-01T00:00:00.000Z"))].

(** Three enrolments, the envelope and the acknowledgement, and a revocation. *)
Definition trust_world : list hval * list hobj :=
  Eval vm_compute in
    foldl (fun '(values, objects) v => let '(value, objects) := store v objects in
                                       (values ++ [value], objects))
      ([], [])
      [enrollment_value 1 "source"; enrollment_value 2 "witness"; sample_envelope; sample_ack;
       enrollment_value 3 "source"; VObj PObject [(js "keyId", VStr (toy_id 3)); (js "reason", VStr (js "retired"))]].
Definition trust_heap : heap := heap_of trust_world.2.
Definition trust_value (i : nat) : hval := default HUndef (trust_world.1 !! i).
Definition reading_of (t : string) : clock_reading := ClockReturned (HStr (js t)) ThenOther.

Definition lifecycle1 : lifecycle :=
  Eval vm_compute in (enrollIdentity toy_key_of trust_heap (trust_value 0)
    (reading_of "2026-02-01T00:00:00.000Z") empty_lifecycle).2.
Definition lifecycle2 : lifecycle :=
  Eval vm_compute in (enrollIdentity toy_key_of trust_heap (trust_value 1)
    (reading_of "2026-02-01T00:00:01.000Z") lifecycle1).2.
Definition lifecycle3 : lifecycle :=
  Eval vm_compute in (enrollIdentity toy_key_of trust_heap (trust_value 4)
    (reading_of "2026-02-01T00:00:02.000Z") lifecycle2).2.
Definition lifecycle4 : lifecycle :=
  Eval vm_compute in (revokeIdentity trust_heap (trust_value 5)
    (reading_of "2026-02-02T00:00:00.000Z") lifecycle3).2.

Lemma lifecycle1_step : trust_step toy_key_of empty_lifecycle lifecycle1.
Proof.
  assert (lifecycle1 = (enrollIdentity toy_key_of trust_heap (trust_value 0)
    (reading_of "2026-02-01T00:00:00.000Z") empty_lifecycle).2) as -> by (vm_compute; reflexivity).
  apply step_enroll.
Qed.
Lemma lifecycle2_step : trust_step toy_key_of lifecycle1 lifecycle2.
Proof.
  assert (lifecycle2 = (enrollIdentity toy_key_of trust_heap (trust_value 1)
    (reading_of "2026-02-01T00:00:01.000Z") lifecycle1).2) as -> by (vm_compute; reflexivity).
  apply step_enroll.
Qed.
Lemma lifecycle3_step : trust_step toy_key_of lifecycle2 lifecycle3.
Proof.
  assert (lifecycle3 = (enrollIdentity toy_key_of trust_heap (trust_value 4)
    (reading_of "2026-02-01T00:00:02.000Z") lifecycle2).2) as -> by (vm_compute; reflexivity).
  apply step_enroll.
Qed.
Lemma lifecycle4_step : trust_step toy_key_of lifecycle3 lifecycle4.
Proof.
  assert (lifecycle4 = (revokeIdentity trust_heap (trust_value 5)
    (reading_of "2026-02-02T00:00:00.000Z") lifecycle3).2) as -> by (vm_compute; reflexivity).
  apply step_revoke.
Qed.
Lemma lifecycle4_reachable : trust_reachable toy_key_of lifecycle4.
Proof.
  eapply rtc_l; [apply lifecycle1_step|]. eapply rtc_l; [apply lifecycle2_step|].
  eapply rtc_l; [apply lifecycle3_step|]. apply rtc_once, lifecycle4_step.
Qed.

Definition sample_decision : decision * lifecycle :=
  Eval vm_compute in verifyAuthorizationCandidate trust_heap (trust_value 2) (trust_value 3) []
    (reading_of "2026-03-01T00:00:10.000Z") lifecycle4.
Definition sample_candidate : candidate :=
  Eval vm_compute in
    match sample_decision.1 with
    | Authorizable c => c
    | NotAuthorizable _ _ => Build_candidate [] VNull [] [] [] [] 0 []
    end.

Lemma sample_candidate_Ok :
  verifyAuthorizationCandidate trust_heap (trust_value 2) (trust_value 3) []
    (reading_of "2026-03-01T00:00:10.000Z") lifecycle4 = (Authorizable sample_candidate, sample_decision.2).
Proof. vm_compute. reflexivity. Qed.

Lemma trust_lifecycle_invariant_witness :
  size (tl_records lifecycle4) = 3%nat /\ 0 <= tl_revision lifecycle4 <= 64.
Proof.
  split; [vm_compute; reflexivity|].
  destruct (trust_lifecycle_invariant toy_key_of lifecycle4 lifecycle4_reachable) as (_ & H & _).
  exact H.
Defined.

Lemma enrollIdentity_exact_witness :
  exists k role expiry, enrollment toy_key_of trust_heap (trust_value 0) k role expiry.
Proof.
  pose proof (enrollIdentity_exact toy_key_of trust_heap (trust_value 0)
    (reading_of "2026-02-01T00:00:00.000Z") empty_lifecycle (rtc_refl _ _)) as H.
  destruct (enrollIdentity toy_key_of trust_heap (trust_value 0)
    (reading_of "2026-02-01T00:00:00.000Z") empty_lifecycle) as [[[r t]|e] l'] eqn:E;
    [|vm_compute in E; discriminate E].
  destruct H as (_ & k & role & expiry & _ & H & _). exists k, role, expiry. exact H.
Defined.

Lemma verifyAuthorizationCandidate_sound_witness :
  ca_authorization_valid_until sample_candidate = js "2026-03-01T00:00:31.000Z" /\
  exists t, trust_snapshot sample_decision.2 = Ok t.
Proof.
  split; [vm_compute; reflexivity|].
  destruct (verifyAuthorizationCandidate_sound toy_key_of trust_heap (trust_value 2) (trust_value 3) []
    (reading_of "2026-03-01T00:00:10.000Z") lifecycle4 sample_candidate sample_decision.2
    lifecycle4_reachable sample_candidate_Ok)
    as (now & env & ack & committed & ks & kw & sr & wr & r & u & limit & canonical & t & H).
  destruct H as (_ & _ & _ & _ & _ & _ & _ & H & _). exists t. exact H.
Defined.

(** Key 3 was revoked; the sample is authorisable, by the keys 1 and 2. *)
Lemma closed_identity_never_authorizes_witness :
  ca_source_key_id sample_candidate = toy_id 1 /\ ca_source_key_id sample_candidate <> toy_id 3.
Proof.
  split; [vm_compute; reflexivity|].
  destruct (tl_records lifecycle4 !! toy_id 3) as [r|] eqn:E; [|vm_compute in E; discriminate E].
  assert (tr_status r <> Active) as Hr.
  { vm_compute in E. injection E as <-. discriminate. }
  exact (proj1 (closed_identity_never_authorizes toy_key_of lifecycle4 (toy_id 3) r lifecycle4 trust_heap
    (trust_value 2) (trust_value 3) [] (reading_of "2026-03-01T00:00:10.000Z") sample_candidate
    sample_decision.2 lifecycle4_reachable E Hr (rtc_refl _ _) sample_candidate_Ok)).
Defined.
End trust_witness.
