(* ===== verification/EvidenceBinding.v ===== *)
(** * Evidence bindings

    Models [core/witness/reference-evidence-binding.mjs]: the check that a result
    of the trust lifecycle identifies the signed evidence it is presented with.
    The check and the lifecycle meet in the last two theorems: the evidence of
    an authorisable result binds to it, and nothing else does. *)
From S2P Require Import Prelude JsDate JsValue ProofSdk Canonical Receipt Normal PomRx Base64 Witness JsHeap PlainData Authorization Gate TrustedClock Trust.

#[local] Arguments js : simpl never.

Definition POM_RX_REFERENCE_WITNESS_EVIDENCE_BINDING_VERSION : jsstr :=
  js "pom-rx-witness-evidence-binding/0.1".

(** The fields of an accepted binding; [ok] and the version are constants. *)
Record evidence_binding := {
  eb_receipt_hash : jsstr;
  eb_acknowledgement_hash : jsstr;
  eb_source_key_id : jsstr;
  eb_witness_key_id : jsv;
  eb_received_at : jsv;
  eb_valid_until : jsv;
}.

Inductive binding_outcome :=
  | Bound (b : evidence_binding)
  | NotBound (code message : jsstr).

Section binding.
Context `{SH : !StringHost, HH : !HashHost, BH : !ByteHashHost, DH : !DateHost, KH : !KeyHost}.

Definition binding_failure (code message : string) : res binding_outcome :=
  Ok (NotBound (js code) (js message)).

(** [verifyReferenceWitnessEvidenceResultBinding]; [date] is the text of the
    [new Date()] the acknowledgement verifier never needs here. *)
Definition verifyReferenceWitnessEvidenceResultBinding (h : heap)
    (sourceEnvelope witnessAcknowledgement verificationResult : hval) (date : jsstr)
  : res binding_outcome :=
  sourceSnapshot ← captureReferencePlainData h sourceEnvelope
      (js "POM-RX Witness binding source envelope");
  acknowledgementSnapshot ← captureReferencePlainData h witnessAcknowledgement
      (js "POM-RX Witness binding acknowledgement");
  resultSnapshot ← captureReferencePlainData h verificationResult
      (js "POM-RX Witness binding verification result");
  match verifyPomRxSourceEnvelope sourceSnapshot with
  | Refused _ =>
      binding_failure "POMRX_WITNESS_BINDING_E_SOURCE"
        "source envelope does not verify against the exact supplied evidence"
  | Verified source =>
      match verifyPomRxWitnessAck acknowledgementSnapshot
              (expected_of source (VStr (js "witnessed")) VUndef false VUndef) date with
      | Refused _ =>
          binding_failure "POMRX_WITNESS_BINDING_E_ACK"
            "Witness acknowledgement does not verify against the exact supplied source evidence"
      | Verified ack =>
          let payload k := get (js k) (VObj PObject (av_payload ack)) in
          receipt_hash ← read_field "receipt_hash" resultSnapshot;
          if negb (strict_equal receipt_hash (VStr (receiptHash (sv_committed source)))
                   && strict_equal (get (js "source_key_id") resultSnapshot) (VStr (sv_key_id source))
                   && strict_equal (get (js "acknowledgement_hash") resultSnapshot)
                        (VStr (av_acknowledgementHash ack))
                   && strict_equal (get (js "witness_key_id") resultSnapshot) (payload "witness_key_id"))
          then binding_failure "POMRX_WITNESS_BINDING_E_RESULT"
                 "Witness verification result does not identify the exact supplied signed evidence"
          else Ok (Bound
            {| eb_receipt_hash := receiptHash (sv_committed source);
               eb_acknowledgement_hash := av_acknowledgementHash ack;
               eb_source_key_id := sv_key_id source; eb_witness_key_id := payload "witness_key_id";
               eb_received_at := payload "received_at"; eb_valid_until := payload "valid_until" |})
      end
  end.

(** ** What an accepted binding shows *)

(** The evidence of a binding. *)
Record bound_evidence (b : evidence_binding) (envelope ack : jsv) (committed : committed)
    (ks kw : public_key) (r u : Z) (canonical : jsstr) : Prop := {
  be_envelope : envelope_for envelope committed ks;
  be_ack : ack_for ack r u kw canonical;
  be_receipt : acknowledges ack committed ks;
  be_receipt_hash : eb_receipt_hash b = receiptHash committed;
  be_source_key : eb_source_key_id b = key_id_of ks;
  be_acknowledgement : eb_acknowledgement_hash b = sha256Hex (ack_message canonical);
  be_witness_key : eb_witness_key_id b = VStr (key_id_of kw);
  be_window : eb_received_at b = VStr (to_iso_string r) /\ eb_valid_until b = VStr (to_iso_string u);
}.

(** [result] names the evidence of [b]. *)
Definition identifies (result : jsv) (b : evidence_binding) : Prop :=
  get (js "receipt_hash") result = VStr (eb_receipt_hash b) /\
  get (js "source_key_id") result = VStr (eb_source_key_id b) /\
  get (js "acknowledgement_hash") result = VStr (eb_acknowledgement_hash b) /\
  get (js "witness_key_id") result = eb_witness_key_id b.

(** The data that the three arguments are captured as. *)
Record presents (h : heap) (env_ref ack_ref result_ref : hval) (envelope ack result : jsv) : Prop := {
  pr_envelope : captureReferencePlainData h env_ref (js "POM-RX Witness binding source envelope") = Ok envelope;
  pr_ack : captureReferencePlainData h ack_ref (js "POM-RX Witness binding acknowledgement") = Ok ack;
  pr_result : captureReferencePlainData h result_ref (js "POM-RX Witness binding verification result") = Ok result;
}.

Lemma read_field_get k v w : read_field k v = Ok w -> w = get (js k) v.
Proof. by destruct v; try discriminate; intros [= <-]. Qed.

Lemma verifyBinding_Bound h env_ref ack_ref result_ref date b :
  verifyReferenceWitnessEvidenceResultBinding h env_ref ack_ref result_ref date = Ok (Bound b) ->
  exists envelope ack result committed ks kw r u canonical,
    presents h env_ref ack_ref result_ref envelope ack result /\
    bound_evidence b envelope ack committed ks kw r u canonical /\ identifies result b.
Proof.
  unfold verifyReferenceWitnessEvidenceResultBinding, binding_failure.
  intros (envelope & He & H)%bind_Ok. apply bind_Ok in H as (ack & Ha & H).
  apply bind_Ok in H as (result & Hr & H).
  destruct (verifyPomRxSourceEnvelope envelope) as [source|] eqn:Hs; [|done].
  apply verification_of_Verified, check_envelope_Ok in Hs as (ks & Henv & Hid).
  destruct (verifyPomRxWitnessAck ack _ date) as [v|] eqn:Hv; [|done].
  apply verification_of_Verified, check_ack_Ok in Hv as (r & u & kw & canonical & Hack & Hex & _ & ->).
  apply bind_Ok in H as (rh & ->%read_field_get & H). cbv zeta in H.
  cbn [av_payload av_acknowledgementHash] in H.
  change (get (js "witness_key_id") (VObj PObject (payload_of_ack ack r u)))
    with (get (js "witness_key_id") ack) in H. rewrite (ak_witness _ _ _ _ _ Hack) in H.
  destruct (_ && _) eqn:E; [|done]. cbn [negb] in H. injection H as <-.
  rewrite !andb_true_iff, !strict_equal_str in E. destruct E as [[[E1 E2] E3] E4].
  exists envelope, ack, result, (sv_committed source), ks, kw, r, u, canonical.
  split_and!; try done. split; try done. by eapply acknowledges_expected.
Qed.

(** A capture does not depend on its label. *)
Lemma capture_relabel h v label label' d :
  (1 <= length label' <= 128)%nat ->
  captureReferencePlainData h v label = Ok d -> captureReferencePlainData h v label' = Ok d.
Proof.
  intros Hl. unfold captureReferencePlainData. rewrite !guard_bind_Ok, !andb_true_iff, !Nat.leb_le, !fmap_Ok.
  intros (_ & [d' rem] & H & E). split; [done|]. exists (d', rem). split; [|done].
  apply captureValue_Ok in H; [|done]. by apply captureValue_Ok.
Qed.

(** Evidence and a result that names it are bound. *)
Lemma verifyBinding_accepts h env_ref ack_ref result_ref date envelope ack result committed ks kw r u
    canonical :
  captureReferencePlainData h env_ref (js "POM-RX Witness binding source envelope") = Ok envelope ->
  captureReferencePlainData h ack_ref (js "POM-RX Witness binding acknowledgement") = Ok ack ->
  captureReferencePlainData h result_ref (js "POM-RX Witness binding verification result") = Ok result ->
  envelope_for envelope committed ks -> ack_for ack r u kw canonical -> acknowledges ack committed ks ->
  let b := {| eb_receipt_hash := receiptHash committed;
              eb_acknowledgement_hash := sha256Hex (ack_message canonical);
              eb_source_key_id := key_id_of ks; eb_witness_key_id := VStr (key_id_of kw);
              eb_received_at := VStr (to_iso_string r); eb_valid_until := VStr (to_iso_string u) |} in
  identifies result b ->
  verifyReferenceWitnessEvidenceResultBinding h env_ref ack_ref result_ref date = Ok (Bound b).
Proof.
  intros He Ha Hr Henv Hack Hexp b (E1 & E2 & E3 & E4). simpl in *.
  set (source := {| sv_committed := committed; sv_key_id := key_id_of ks |}).
  unfold verifyReferenceWitnessEvidenceResultBinding. rewrite He, Ha, Hr. cbn [mbind res_bind].
  assert (verifyPomRxSourceEnvelope envelope = Verified source) as ->.
  { apply verification_of_Verified, check_envelope_Ok. by exists ks. }
  assert (verifyPomRxWitnessAck ack (expected_of source (VStr (js "witnessed")) VUndef false VUndef) date
    = Verified {| av_payload := payload_of_ack ack r u;
                  av_acknowledgementHash := sha256Hex (ack_message canonical) |}) as ->.
  { apply verification_of_Verified, check_ack_Ok. exists r, u, kw, canonical. split; [done|].
    split; [by eapply expected_acknowledges|]. done. }
  cbn [av_payload av_acknowledgementHash].
  change (get (js "witness_key_id") (VObj PObject (payload_of_ack ack r u)))
    with (get (js "witness_key_id") ack). rewrite (ak_witness _ _ _ _ _ Hack).
  assert (read_field "receipt_hash" result = Ok (VStr (receiptHash committed))) as ->.
  { rewrite <- E1. destruct result; done. }
  cbn [mbind res_bind sv_committed sv_key_id source].
  by rewrite E2, E3, E4, !(proj2 (strict_equal_str _ _)) by done.
Qed.

(** the evidence of an authorisable result, presented again with that result,
    is bound to it. *)
Theorem authorizable_result_binds (key_of : hval -> option public_key) h envelope acknowledgement
    date reading l c l' result_ref result :
  trust_reachable key_of l ->
  verifyAuthorizationCandidate h envelope acknowledgement date reading l = (Authorizable c, l') ->
  captureReferencePlainData h result_ref (js "POM-RX Witness binding verification result") = Ok result ->
  (forall k, k ∈ ["receipt_hash"; "source_key_id"; "acknowledgement_hash"; "witness_key_id"] ->
     get (js k) result = get (js k) (candidate_value c)) ->
  exists b, verifyReferenceWitnessEvidenceResultBinding h envelope acknowledgement result_ref date
      = Ok (Bound b) /\ identifies (candidate_value c) b.
Proof.
  intros I%trust_reachable_inv H Hr Hf.
  apply verifyAuthorizationCandidate_Ok in H as (now & _ & -> & Hv & I' & H); [|done].
  apply verify_candidate_Ok in H as (env & ack & committed & ks & kw & sr & wr & r & u & limit & canonical &
    t & He & Ha & [Henv _ Hack Hexp _ _ _ _ _ _ _ _] & _ & ->); [|done..].
  eexists. split.
  - eapply verifyBinding_accepts; [| |exact Hr|exact Henv|exact Hack|exact Hexp|].
    + eapply capture_relabel; [|exact He]. vm_compute. lia.
    + eapply capture_relabel; [|exact Ha]. vm_compute. lia.
    + unfold identifies. rewrite !Hf by decide_now. done.
  - done.
Qed.

Lemma verifyBinding_iff h env_ref ack_ref result_ref date b :
  verifyReferenceWitnessEvidenceResultBinding h env_ref ack_ref result_ref date = Ok (Bound b) <->
  exists envelope ack result committed ks kw r u canonical,
    presents h env_ref ack_ref result_ref envelope ack result /\
    bound_evidence b envelope ack committed ks kw r u canonical /\ identifies result b.
Proof.
  split; [apply verifyBinding_Bound|].
  intros (envelope & ack & result & committed & ks & kw & r & u & canonical & [He Ha Hr] &
    [Henv Hack Hexp E1 E2 E3 E4 [E5 E6]] & Hid).
  destruct b as [rh ah sk wk received valid]. cbn in E1, E2, E3, E4, E5, E6. subst.
  by eapply verifyBinding_accepts.
Qed.

(** C13: A binding is accepted exactly when the envelope and the acknowledgement
    that are presented verify - the envelope signs the receipt and the
    acknowledgement acknowledges it - and the result that is presented names the
    hashes of this receipt and of this signed acknowledgement, and their two keys;
    the binding then tells these, and the window of the acknowledgement.  So a
    result is bound to one receipt and one acknowledgement: two presentations
    that are accepted with results naming the same two hashes are of the same
    normalised receipt and the same signed text, or show a SHA-256 collision. *)
Theorem binding_identifies_evidence h1 env1 ack1 res1 date1 h2 env2 ack2 res2 date2 :
  (forall b, verifyReferenceWitnessEvidenceResultBinding h1 env1 ack1 res1 date1 = Ok (Bound b) <->
     exists envelope ack result committed ks kw r u canonical,
       presents h1 env1 ack1 res1 envelope ack result /\
       bound_evidence b envelope ack committed ks kw r u canonical /\ identifies result b) /\
  (forall b1 b2 e1 a1 d1 e2 a2 d2,
     verifyReferenceWitnessEvidenceResultBinding h1 env1 ack1 res1 date1 = Ok (Bound b1) ->
     verifyReferenceWitnessEvidenceResultBinding h2 env2 ack2 res2 date2 = Ok (Bound b2) ->
     presents h1 env1 ack1 res1 e1 a1 d1 -> presents h2 env2 ack2 res2 e2 a2 d2 ->
     (forall k, k ∈ ["receipt_hash"; "acknowledgement_hash"] -> get (js k) d1 = get (js k) d2) ->
     exists c1 s1 w1 r1 u1 t1 c2 s2 w2 r2 u2 t2,
       bound_evidence b1 e1 a1 c1 s1 w1 r1 u1 t1 /\ bound_evidence b2 e2 a2 c2 s2 w2 r2 u2 t2 /\
       (c1 = c2 \/ receipt_collision c1 c2) /\
       (t1 = t2 \/ ack_message t1 <> ack_message t2 /\
                   sha256Hex (ack_message t1) = sha256Hex (ack_message t2))).
Proof.
  split; [intros b; apply verifyBinding_iff|].
  intros b1 b2 e1 a1 d1 e2 a2 d2
    (e1' & a1' & d1' & c1 & s1 & w1 & r1 & u1 & t1 & [He1 Ha1 Hd1] & B1 & I1)%verifyBinding_Bound
    (e2' & a2' & d2' & c2 & s2 & w2 & r2 & u2 & t2 & [He2 Ha2 Hd2] & B2 & I2)%verifyBinding_Bound
    [He1' Ha1' Hd1'] [He2' Ha2' Hd2'] Hsame.
  assert (e1' = e1 /\ a1' = a1 /\ d1' = d1) as (-> & -> & ->) by (split_and!; congruence).
  assert (e2' = e2 /\ a2' = a2 /\ d2' = d2) as (-> & -> & ->) by (split_and!; congruence).
  exists c1, s1, w1, r1, u1, t1, c2, s2, w2, r2, u2, t2. do 2 (split; [done|]).
  destruct I1 as (R1 & _ & K1 & _), I2 as (R2 & _ & K2 & _). rewrite Hsame in R1, K1 by decide_now.
  destruct B1 as [E1 _ _ H1 _ A1 _ _], B2 as [E2 _ _ H2 _ A2 _ _].
  split.
  - apply committed_hash_inj; [by eapply commit_committed_ok, en_receipt..|congruence].
  - destruct (decide (t1 = t2)) as [->|Hne]; [by left|right]. split; [|congruence].
    unfold ack_message. by intros ?%app_inv_head.
Qed.
End binding.

(** ** The sample *)

Section binding_witness.
#[local] Existing Instances plain_string_host checksum_hash_host checksum_bytes_host iso_date_host
  toy_key_host.

(** The objects of the trust run, and the result on top of them. *)
Definition binding_world : hval * list hobj :=
  Eval vm_compute in store (candidate_value sample_candidate) trust_world.2.
Definition binding_heap : heap := heap_of binding_world.2.

Definition sample_result : jsv :=
  Eval vm_compute in
    match captureReferencePlainData binding_heap binding_world.1
            (js "POM-RX Witness binding verification result") with Ok d => d | Throw _ => VNull end.
Definition sample_bound : evidence_binding :=
  Eval vm_compute in
    match verifyReferenceWitnessEvidenceResultBinding binding_heap (trust_value 2) (trust_value 3)
            binding_world.1 [] with
    | Ok (Bound b) => b
    | _ => Build_evidence_binding [] [] [] VNull VNull VNull
    end.
Lemma sample_bound_Ok :
  verifyReferenceWitnessEvidenceResultBinding binding_heap (trust_value 2) (trust_value 3)
    binding_world.1 [] = Ok (Bound sample_bound).
Proof. vm_compute. reflexivity. Qed.

Lemma authorizable_result_binds_witness :
  exists b, verifyReferenceWitnessEvidenceResultBinding binding_heap (trust_value 2) (trust_value 3)
      binding_world.1 [] = Ok (Bound b).
Proof.
  assert (verifyAuthorizationCandidate binding_heap (trust_value 2) (trust_value 3) []
    (reading_of "2026-03-01T00:00:10.000Z") lifecycle4 = (Authorizable sample_candidate, sample_decision.2))
    as H by (vm_compute; reflexivity).
  assert (captureReferencePlainData binding_heap binding_world.1
    (js "POM-RX Witness binding verification result") = Ok sample_result) as Hr by (vm_compute; reflexivity).
  destruct (authorizable_result_binds toy_key_of binding_heap (trust_value 2) (trust_value 3) []
    (reading_of "2026-03-01T00:00:10.000Z") lifecycle4 sample_candidate sample_decision.2
    binding_world.1 sample_result lifecycle4_reachable H Hr) as (b & Hb & _).
  - intros k Hk. rewrite !elem_of_cons, elem_of_nil in Hk.
    destruct Hk as [-> | [-> | [-> | [-> | []]]]]; vm_compute; reflexivity.
  - exists b. exact Hb.
Defined.

Lemma binding_identifies_evidence_witness :
  exists e a c s w r u t,
    presents binding_heap (trust_value 2) (trust_value 3) binding_world.1 e a sample_result /\
    bound_evidence sample_bound e a c s w r u t /\ identifies sample_result sample_bound.
Proof.
  destruct (binding_identifies_evidence binding_heap (trust_value 2) (trust_value 3) binding_world.1 []
    binding_heap (trust_value 2) (trust_value 3) binding_world.1 []) as [Hiff _].
  destruct (proj1 (Hiff sample_bound) sample_bound_Ok) as (e & a & d & c & s & w & r & u & t & Hp & Hb & Hi).
  assert (captureReferencePlainData binding_heap binding_world.1
    (js "POM-RX Witness binding verification result") = Ok sample_result) as Hr by (vm_compute; reflexivity).
  assert (d = sample_result) as -> by (pose proof (pr_result _ _ _ _ _ _ _ Hp); congruence).
  by exists e, a, c, s, w, r, u, t.
Defined.
End binding_witness.
