(* ===== verification/Observation.v ===== *)
(** * Observation and reconciliation

    Models [core/observation/reference-observation-reconciliation.mjs]: the
    one-shot channel an independent observer reports through, the observation
    record, its classification against an exact authorization, and the
    reconciliation that commits to both.  [captureAndReconcile] is cut at its
    [await]: the call up to it, every use of the observer's two callbacks, the
    return of the observer and the rest of the call are separate steps, so other
    calls, and calls the observer keeps for later, run in between. *)
From S2P Require Import Prelude JsDate JsValue ProofSdk Canonical Receipt Normal JsHeap PlainData Authorization Gate TrustedClock Execution.

#[local] Arguments js : simpl never.

Definition POM_RX_REFERENCE_OBSERVATION_VERSION : jsstr := js "pom-rx-reference-observation/0.1".
Definition POM_RX_REFERENCE_RECONCILIATION_VERSION : jsstr :=
  js "pom-rx-reference-reconciliation/0.1".
Definition POM_RX_REFERENCE_OBSERVATION_HASH_DOMAIN : jsstr :=
  js "swisstokint:pom-rx-reference-observation:v1:".
Definition POM_RX_REFERENCE_RECONCILIATION_HASH_DOMAIN : jsstr :=
  js "swisstokint:pom-rx-reference-reconciliation:v1:".

(** [/^[A-Za-z0-9][A-Za-z0-9._:-]{15,127}$/u] *)
Definition OBS_ID_PATTERN : jsstr -> bool :=
  re_head_class is_alnum (fun c => is_alnum c || is_one_of "._:-" c) 15 127.

Inductive expected_status := ExpectSuccess | ExpectError | ExpectAny.
Definition expected_status_name (s : expected_status) : jsstr :=
  match s with ExpectSuccess => js "success" | ExpectError => js "error" | ExpectAny => js "any" end.
Definition EXPECTED_EXECUTION_STATUSES : list expected_status :=
  [ExpectSuccess; ExpectError; ExpectAny].

Definition EXPECTED_KEYS : list jsstr := js <$>
  ["authorization_binding"; "expected_execution_status"; "expected_effect_commitment"].
Definition OBSERVED_KEYS : list jsstr := js <$>
  ["binding_profile"; "run_id"; "action_commitment"; "context_commitment"; "execution_status";
   "effect_commitment"; "executed_at"; "observed_at"].
Definition CAPTURE_KEYS : list jsstr := js <$> ["expected"; "observationRef"].

Definition obs_fail (code : string) (msg : jsstr) : jserr := Err ObservationErr (js code) msg.
Definition obs_invalid (msg : jsstr) : jserr := obs_fail "POMRX_OBS_E_INVALID" msg.
Definition observer_invalid (msg : jsstr) : jserr := obs_fail "POMRX_OBS_E_OBSERVER_INVALID" msg.

Definition obs_snapshotExactReferences (h : heap) (value : hval) (expected : list jsstr)
    (label : string) : res snapshot :=
  let fail msg := obs_invalid (js label ++ js msg) in
  o ← match value with
      | HRef l => if bool_decide (o_array (h l) = None) then Ok (h l)
                  else Throw (fail " must be an object")
      | _ => Throw (fail " must be an object")
      end;
  _ ← guard_or (negb (o_proxy o)) (fail " cannot be a Proxy");
  _ ← guard_or (bool_decide (o_proto o ∈ [ObjectPrototype; NullPrototype]))
        (fail " must be a plain object");
  _ ← guard_or (o_symbols o =? 0)%nat (fail " cannot contain symbol keys");
  _ ← guard_or (same_keys (own_names o) expected) (fail " has missing or unknown fields");
  snapshot_keys o expected (fun key =>
    obs_invalid (js label ++ js "." ++ key ++ js " must be an enumerable data property")).

(** [snapshotPlainData(value, label, errorCode)] *)
Definition snapshotPlainData (h : heap) (value : hval) (label errorCode : string) : res jsv :=
  catch (captureReferencePlainData h value (js label))
    (fun _ => Throw (obs_fail errorCode (js label ++ js " must be inert bounded plain data"))).

(** [exactKeys] of a captured value *)
Definition exactKeys (value : jsv) (expected : list jsstr) (label code : string) : res unit :=
  _ ← guard_or (is_record value) (obs_fail code (js label ++ js " must be an object"));
  guard_or (same_keys (keys_of value) expected)
    (obs_fail code (js label ++ js " has missing or unknown fields")).

Definition obs_hash (value : jsv) (field code : string) : res jsstr :=
  match str_that hash_pattern value with
  | Some s => Ok s
  | None => Throw (obs_fail code (js field ++ js " must be a lowercase SHA-256 hash"))
  end.
Definition obs_nullable_hash (value : jsv) (field code : string) : res (option jsstr) :=
  match value with
  | VNull => Ok None
  | _ =>
      match str_that hash_pattern value with
      | Some s => Ok (Some s)
      | None => Throw (obs_fail code (js field ++ js " must be a lowercase SHA-256 hash or null"))
      end
  end.
(** [assertId] and [assertProfile] *)
Definition obs_pattern (pattern : jsstr -> bool) (value : jsv) (field code : string) : res jsstr :=
  match str_that pattern value with
  | Some s => Ok s
  | None => Throw (obs_fail code (js field ++ js " is invalid"))
  end.

(** What [normalizeExpected] returns. *)
Record expected_terms := {
  xt_profile : jsstr;
  xt_run : jsstr;
  xt_authorization : jsstr;
  xt_action : jsstr;
  xt_context : jsstr;
  xt_issued_at : jsstr;
  xt_valid_until : jsstr;
  xt_status : expected_status;
  xt_effect : option jsstr;
}.

(** What [normalizeObserved] returns. *)
Record observation := {
  ob_profile : jsstr;
  ob_run : jsstr;
  ob_action : jsstr;
  ob_context : jsstr;
  ob_status : execution_status;
  ob_effect : option jsstr;
  ob_executed_at : jsstr;
  ob_observed_at : jsstr;
}.

Definition observation_entries (o : observation) : list (jsstr * jsv) :=
  [(js "schema_version", VStr POM_RX_REFERENCE_OBSERVATION_VERSION);
   (js "binding_profile", VStr (ob_profile o)); (js "run_id", VStr (ob_run o));
   (js "action_commitment", VStr (ob_action o)); (js "context_commitment", VStr (ob_context o));
   (js "execution_status", VStr (status_name (ob_status o)));
   (js "effect_commitment", null_or_str (ob_effect o));
   (js "executed_at", VStr (ob_executed_at o)); (js "observed_at", VStr (ob_observed_at o))].

Inductive mismatch_reason :=
  | MismatchProfile | MismatchRun | MismatchAction | MismatchContext | MismatchWindow
  | MismatchStatus | MismatchEffect.
Inductive recon_verdict := MATCH | MISMATCH | INDETERMINATE.
#[export] Instance mismatch_reason_eq_dec : EqDecision mismatch_reason.
Proof. solve_decision. Defined.
#[export] Instance recon_verdict_eq_dec : EqDecision recon_verdict.
Proof. solve_decision. Defined.
Definition reason_code (r : mismatch_reason) : jsstr :=
  match r with
  | MismatchProfile => js "POMRX_RECON_MISMATCH_BINDING_PROFILE"
  | MismatchRun => js "POMRX_RECON_MISMATCH_RUN"
  | MismatchAction => js "POMRX_RECON_MISMATCH_ACTION"
  | MismatchContext => js "POMRX_RECON_MISMATCH_CONTEXT"
  | MismatchWindow => js "POMRX_RECON_MISMATCH_AUTH_WINDOW"
  | MismatchStatus => js "POMRX_RECON_MISMATCH_STATUS"
  | MismatchEffect => js "POMRX_RECON_MISMATCH_EFFECT"
  end.
Definition verdict_text (v : recon_verdict) : jsstr :=
  match v with
  | MATCH => js "MATCH" | MISMATCH => js "MISMATCH" | INDETERMINATE => js "INDETERMINATE"
  end.

(** [{ verdict, reasons }] *)
Record classification := { cl_verdict : recon_verdict; cl_reasons : list jsstr }.

Section observation.
Context `{SH : !StringHost, HH : !HashHost, DH : !DateHost}.

(** [canonicalUtcInstant(value, field, code)] of captured data *)
Definition obs_utc (value : jsv) (field code : string) : res Z :=
  match o ← str_that (fun _ => true) value; canonical_instant o with
  | Some t => Ok t
  | None => Throw (obs_fail code (js field ++ js " must be a canonical UTC instant"))
  end.

Definition find_expected_status (v : jsv) : option expected_status :=
  match v with
  | VStr s => List.find (fun st => str_eqb (expected_status_name st) s) EXPECTED_EXECUTION_STATUSES
  | _ => None
  end.

(** The string in a field; every field of a committed binding is one. *)
Definition text_field (binding : jsv) (k : string) : jsstr :=
  match get (js k) binding with VStr s => s | _ => [] end.

Definition normalizeExpected (value : jsv) : res expected_terms :=
  _ ← exactKeys value EXPECTED_KEYS "expected reconciliation input" "POMRX_OBS_E_INVALID";
  expectedExecutionStatus ←
    match find_expected_status (get (js "expected_execution_status") value) with
    | Some st => Ok st
    | None => Throw (obs_invalid (js "expected_execution_status must be success, error or any"))
    end;
  let authorizationBinding := get (js "authorization_binding") value in
  '(_, commitment) ←
    catch (commitExactAuthorizationBinding (inert_heap authorizationBinding)
             (inert_ref authorizationBinding))
      (fun _ => Throw (obs_fail "POMRX_OBS_E_AUTHORIZATION_INVALID"
                         (js "exact authorization binding is invalid")));
  effect ← obs_nullable_hash (get (js "expected_effect_commitment") value)
             "expected_effect_commitment" "POMRX_OBS_E_INVALID";
  let field := text_field authorizationBinding in
  Ok {| xt_profile := field "binding_profile"; xt_run := field "run_id";
        xt_authorization := commitment; xt_action := field "action_commitment";
        xt_context := field "context_commitment"; xt_issued_at := field "issued_at";
        xt_valid_until := field "expires_at"; xt_status := expectedExecutionStatus;
        xt_effect := effect |}.

Definition normalizeObserved (value : jsv) (trustedNow : Z) : res observation :=
  let field k := get (js k) value in
  let code := "POMRX_OBS_E_OBSERVER_INVALID"%string in
  _ ← exactKeys value OBSERVED_KEYS "independent observation" code;
  status ← match find_status (hval_of (field "execution_status")) with
           | Some st => Ok st
           | None => Throw (observer_invalid (js "execution_status is invalid"))
           end;
  executedAt ← obs_utc (field "executed_at") "executed_at" code;
  observedAt ← obs_utc (field "observed_at") "observed_at" code;
  _ ← guard_or (executedAt <=? observedAt)
        (observer_invalid (js "observation cannot predate execution"));
  _ ← guard_or (observedAt <=? trustedNow)
        (observer_invalid (js "observer reported a future observation"));
  effect ← obs_nullable_hash (field "effect_commitment") "effect_commitment" code;
  _ ← guard_or (bool_decide (status = Unknown) || bool_decide (is_Some effect))
        (observer_invalid (js "known execution status requires an effect commitment"));
  profile ← obs_pattern profile_pattern (field "binding_profile") "observed binding_profile" code;
  run ← obs_pattern OBS_ID_PATTERN (field "run_id") "observed run_id" code;
  action ← obs_hash (field "action_commitment") "observed action_commitment" code;
  context ← obs_hash (field "context_commitment") "observed context_commitment" code;
  Ok {| ob_profile := profile; ob_run := run; ob_action := action; ob_context := context;
        ob_status := status; ob_effect := effect; ob_executed_at := to_iso_string executedAt;
        ob_observed_at := to_iso_string observedAt |}.

Definition observation_input (canonical : jsstr) : jsstr :=
  POM_RX_REFERENCE_OBSERVATION_HASH_DOMAIN ++ canonical.
Definition reconciliation_input (canonical : jsstr) : jsstr :=
  POM_RX_REFERENCE_RECONCILIATION_HASH_DOMAIN ++ canonical.

(** [{ canonical_observation, observation_hash }] *)
Definition commitObservation (o : observation) : res (jsstr * jsstr) :=
  canonical ← canonicalizePayload (VObj PObject (observation_entries o));
  Ok (canonical, sha256Hex (observation_input canonical)).

(** [if (cond) reasons.push(r)] *)
Definition push_if (cond : bool) (r : mismatch_reason) : list mismatch_reason :=
  if cond then [r] else [].

(** Whether a known status differs from the expected one. *)
Definition status_differs (expected : expected_status) (st : execution_status) : bool :=
  negb (bool_decide (st = Unknown)) && negb (str_eqb (expected_status_name expected) (js "any"))
  && negb (str_eqb (status_name st) (expected_status_name expected)).

(** [reasons] of [classify] *)
Definition mismatches (expected : expected_terms) (o : observation) : list mismatch_reason :=
  let executedMs := date_parse (ob_executed_at o) in
  push_if (negb (str_eqb (ob_profile o) (xt_profile expected))) MismatchProfile ++
  push_if (negb (str_eqb (ob_run o) (xt_run expected))) MismatchRun ++
  push_if (negb (str_eqb (ob_action o) (xt_action expected))) MismatchAction ++
  push_if (negb (str_eqb (ob_context o) (xt_context expected))) MismatchContext ++
  push_if (time_lt executedMs (date_parse (xt_issued_at expected))
           || time_ge executedMs (date_parse (xt_valid_until expected))) MismatchWindow ++
  push_if (status_differs (xt_status expected) (ob_status o)) MismatchStatus ++
  push_if (match xt_effect expected with
           | Some effect => negb (bool_decide (ob_status o = Unknown))
                            && negb (bool_decide (ob_effect o = Some effect))
           | None => false
           end) MismatchEffect.

Definition classify (expected : expected_terms) (o : observation) : classification :=
  match mismatches expected o with
  | [] =>
      if bool_decide (ob_status o = Unknown)
      then {| cl_verdict := INDETERMINATE;
              cl_reasons := [js "POMRX_RECON_INDETERMINATE_EXECUTION"] |}
      else {| cl_verdict := MATCH; cl_reasons := [] |}
  | reasons => {| cl_verdict := MISMATCH; cl_reasons := reason_code <$> reasons |}
  end.

Definition reconciliation_payload (expected : expected_terms) (observationHash : jsstr)
    (c : classification) : list (jsstr * jsv) :=
  [(js "schema_version", VStr POM_RX_REFERENCE_RECONCILIATION_VERSION);
   (js "binding_profile", VStr (xt_profile expected)); (js "run_id", VStr (xt_run expected));
   (js "authorization_commitment", VStr (xt_authorization expected));
   (js "action_commitment", VStr (xt_action expected));
   (js "context_commitment", VStr (xt_context expected));
   (js "expected_execution_status", VStr (expected_status_name (xt_status expected)));
   (js "expected_effect_commitment", null_or_str (xt_effect expected));
   (js "observation_hash", VStr observationHash); (js "verdict", VStr (verdict_text (cl_verdict c)));
   (js "reasons", VArr (VStr <$> cl_reasons c))].

(** The fields of a reconciliation that are not constant. *)
Record reconciliation := {
  rn_payload : list (jsstr * jsv);
  rn_classification : classification;
  rn_hash : jsstr;
}.
Definition reconciliation_value (r : reconciliation) : jsv :=
  VObj PObject (rn_payload r ++
    [(js "reconciliation_hash", VStr (rn_hash r)); (js "reference_only", VBool true);
     (js "external_world_proved", VBool false)]).

Definition commitReconciliation (expected : expected_terms) (observationHash : jsstr)
    (c : classification) : res reconciliation :=
  let payload := reconciliation_payload expected observationHash c in
  canonical ← canonicalizePayload (VObj PObject payload);
  Ok {| rn_payload := payload; rn_classification := c;
        rn_hash := sha256Hex (reconciliation_input canonical) |}.

(** ** The channel of the observer *)

Definition observerProtocolError (message : string) : jserr := observer_invalid (js message).
Definition observerFailureError : jserr :=
  obs_fail "POMRX_OBS_E_OBSERVER_FAILED" (js "independent observer failed").

(** The variables of [captureObserverOutput] and its promise. [terminal] is what
    the promise will be settled with. *)
Record channel := {
  invocationReturned : bool;
  settled : bool;
  terminal : option (res jsv);
  promise : option (res jsv);
}.
Definition new_channel : channel :=
  {| invocationReturned := false; settled := false; terminal := None; promise := None |}.

Definition settleIfReady (c : channel) : channel :=
  match invocationReturned c, settled c, terminal c with
  | true, false, Some t =>
      {| invocationReturned := true; settled := true; terminal := Some t; promise := Some t |}
  | _, _, _ => c
  end.

Definition put_terminal (c : channel) (t : res jsv) : channel :=
  {| invocationReturned := invocationReturned c; settled := settled c; terminal := Some t;
     promise := promise c |}.

(** [setTerminal(next)]: what it returns and the channel after it. *)
Definition setTerminal (next : res jsv) (c : channel) : bool * channel :=
  if settled c then (false, c)
  else
    match terminal c with
    | Some _ =>
        let c := if invocationReturned c then c
                 else put_terminal c (Throw (observerProtocolError
                        "independent observer reported conflicting synchronous terminal outcomes")) in
        (false, settleIfReady c)
    | None => (true, settleIfReady (put_terminal c next))
    end.

(** A use of one of the two callbacks. *)
Inductive observer_call := CallDeliver (h : heap) (value : hval) | CallFail.

(** What a callback makes the terminal. *)
Definition reported (call : observer_call) : res jsv :=
  match call with
  | CallDeliver h value =>
      snapshotPlainData h value "independent observation" "POMRX_OBS_E_OBSERVER_INVALID"
  | CallFail => Throw observerFailureError
  end.

(** [deliverObservation] and [reportObserverFailure] *)
Definition observer_callback (call : observer_call) (c : channel) : bool * channel :=
  match reported call with
  | Throw error =>
      let '(set, c) := setTerminal (Throw error) c in
      (match call with CallDeliver _ _ => false | CallFail => set end, c)
  | Ok captured => setTerminal (Ok captured) c
  end.

(** How [observeExecution] ends. *)
Inductive observer_end := ObserverThrew | ObserverReturned (v : hval).

(** The rest of [captureObserverOutput] once [observeExecution] has ended. *)
Definition observer_ended (e : observer_end) (c : channel) : channel :=
  let c := match e with
           | ObserverThrew => put_terminal c (Throw observerFailureError)
           | ObserverReturned HUndef => c
           | ObserverReturned _ => put_terminal c (Throw (observerProtocolError
               "independent observer must deliver through the one-shot capture callback and return undefined"))
           end in
  settleIfReady {| invocationReturned := true; settled := settled c; terminal := terminal c;
                   promise := promise c |}.

(** [captureObserverOutput] for an observer that makes the calls [sync], ends,
    and makes the calls [async] later. *)
Definition captureObserverOutput (sync : list observer_call) (e : observer_end)
    (async : list observer_call) : channel :=
  let calls := fold_left (fun c call => (observer_callback call c).2) in
  calls async (observer_ended e (calls sync new_channel)).

(** ** The reconciler *)

(** A call of [captureAndReconcile] that is past its first clock sample; its
    result, once it has one. *)
Record capture := {
  cp_expected : expected_terms;
  cp_channel : channel;
  cp_result : option (res (observation * jsstr * reconciliation));
}.
Record reconciler := {
  ob_last : option Z;                    (* lastTrustedTimeMs *)
  captures : list capture;
}.
Definition empty_reconciler : reconciler := {| ob_last := None; captures := [] |}.

(** [createReferenceObservationReconciliation]: its check of the options. *)
Definition createReferenceObservationReconciliation (h : heap) (options : hval) : res reconciler :=
  bootstrap ← obs_snapshotExactReferences h options (js <$> ["trustedClock"; "observeExecution"])
      "observation/reconciliation bootstrap";
  match snap_get (js "trustedClock") bootstrap, snap_get (js "observeExecution") bootstrap with
  | HFun _, HFun _ => Ok empty_reconciler
  | _, _ => Throw (obs_invalid (js "trustedClock and observeExecution must be functions"))
  end.

(** [sampleTrustedClock()] *)
Definition obs_sampleTrustedClock (last : option Z) (reading : clock_reading) : res Z :=
  now ← match reading with
        | ClockThrew => Throw (obs_fail "POMRX_OBS_E_TIME_INVALID" (js "trusted clock failed"))
        | ClockReturned raw _ => canonical_utc obs_fail "POMRX_OBS" raw "trusted clock"
        end;
  _ ← guard_or (match last with Some t => t <=? now | None => true end)
        (obs_fail "POMRX_OBS_E_TIME_ROLLBACK" (js "trusted clock moved backwards"));
  Ok now.

(** What [captureAndReconcile] checks before it reads the clock: the terms and
    the reference for the observer. *)
Definition capture_input (h : heap) (input : hval) : res (expected_terms * jsv) :=
  captured ← snapshotPlainData h input "capture/reconcile input" "POMRX_OBS_E_REFERENCE_INVALID";
  _ ← exactKeys captured CAPTURE_KEYS "capture/reconcile input" "POMRX_OBS_E_INVALID";
  expected ← normalizeExpected (get (js "expected") captured);
  Ok (expected, get (js "observationRef") captured).

(** [captureAndReconcile] up to the call of the observer: the reference it is
    called with. *)
Definition start_capture (h : heap) (input : hval) (reading : clock_reading) (r : reconciler)
  : res jsv * reconciler :=
  match
    '(expected, observationRef) ← capture_input h input;
    now ← obs_sampleTrustedClock (ob_last r) reading;
    Ok (expected, observationRef, now)
  with
  | Throw e => (Throw e, r)
  | Ok (expected, observationRef, now) =>
      (Ok observationRef,
       {| ob_last := Some now;
          captures := captures r ++
            [{| cp_expected := expected; cp_channel := new_channel; cp_result := None |}] |})
  end.

(** What follows the second clock sample. *)
Definition reconcile (expected : expected_terms) (observedSnapshot : jsv) (trustedNow : Z)
  : res (observation * jsstr * reconciliation) :=
  observation ← normalizeObserved observedSnapshot trustedNow;
  '(_, observation_hash) ← commitObservation observation;
  reconciliation ← commitReconciliation expected observation_hash (classify expected observation);
  Ok (observation, observation_hash, reconciliation).

(** The rest of a call whose promise settled with [output]: its result and the
    last trusted time. *)
Definition finish_call (expected : expected_terms) (output : res jsv) (reading : clock_reading)
    (last : option Z) : res (observation * jsstr * reconciliation) * option Z :=
  match output with
  | Throw e => (Throw e, last)
  | Ok observedSnapshot =>
      match obs_sampleTrustedClock last reading with
      | Throw e => (Throw e, last)
      | Ok trustedNow => (reconcile expected observedSnapshot trustedNow, Some trustedNow)
      end
  end.

Definition with_channel (f : channel -> channel) (c : capture) : capture :=
  {| cp_expected := cp_expected c; cp_channel := f (cp_channel c); cp_result := cp_result c |}.
Definition with_result (result : res (observation * jsstr * reconciliation)) (c : capture) : capture :=
  {| cp_expected := cp_expected c; cp_channel := cp_channel c; cp_result := Some result |}.

(** The reconciler after its call [i] got a callback, after the observer of the
    call ended, and after the call went on with the outcome of its promise. *)
Definition after_callback (i : nat) (call : observer_call) (r : reconciler) : reconciler :=
  {| ob_last := ob_last r;
     captures := alter (with_channel (fun c => (observer_callback call c).2)) i (captures r) |}.
Definition after_end (i : nat) (e : observer_end) (r : reconciler) : reconciler :=
  {| ob_last := ob_last r; captures := alter (with_channel (observer_ended e)) i (captures r) |}.
Definition after_clock (i : nat) (expected : expected_terms) (output : res jsv) (reading : clock_reading)
    (r : reconciler) : reconciler :=
  let '(result, last) := finish_call expected output reading (ob_last r) in
  {| ob_last := last; captures := alter (with_result result) i (captures r) |}.

(** Interleavings: the steps of the call [i] and new calls, in any order. *)
Inductive obs_step (r : reconciler) : reconciler -> Prop :=
  | step_start h input reading : obs_step r (start_capture h input reading r).2
  | step_callback i call : obs_step r (after_callback i call r)
  | step_ended i c e :
      captures r !! i = Some c -> invocationReturned (cp_channel c) = false ->
      obs_step r (after_end i e r)
  | step_finish i c output reading :
      captures r !! i = Some c -> promise (cp_channel c) = Some output -> cp_result c = None ->
      obs_step r (after_clock i (cp_expected c) output reading r).

Definition obs_reachable : reconciler -> Prop := rtc obs_step empty_reconciler.
End observation.

(** ** Terms and observations *)

Section observation_proofs.
Context `{SH : !StringHost, HH : !HashHost, DH : !DateHost}.

Definition is_observation_error (e : jserr) : Prop := err_cls e = ObservationErr.

(** The terms of a committed binding. *)
Record terms_ok (x : expected_terms) (issued expires : Z) : Prop := {
  xo_binding : exists d b, opened_binding d (xt_authorization x) b issued expires /\
    Forall (fun '(k, v) => snap_get (js k) b = HStr v)
      [("binding_profile"%string, xt_profile x); ("run_id"%string, xt_run x);
       ("action_commitment"%string, xt_action x); ("context_commitment"%string, xt_context x);
       ("issued_at"%string, xt_issued_at x); ("expires_at"%string, xt_valid_until x)];
  xo_profile : short_plain (xt_profile x);
  xo_run : short_plain (xt_run x);
  xo_action : hash_pattern (xt_action x) = true;
  xo_context : hash_pattern (xt_context x) = true;
  xo_authorization : hash_pattern (xt_authorization x) = true;
  xo_issued : xt_issued_at x = to_iso_string issued /\ time_valid issued = true;
  xo_expires : xt_valid_until x = to_iso_string expires /\ time_valid expires = true;
  xo_effect e : xt_effect x = Some e -> hash_pattern e = true;
}.

Lemma obs_nullable_hash_Ok v f c o :
  obs_nullable_hash v f c = Ok o <->
  v = null_or_str o /\ (forall s, o = Some s -> hash_pattern s = true).
Proof.
  unfold obs_nullable_hash, str_that. split.
  - destruct v; try done.
    + intros [= <-]. done.
    + destruct (hash_pattern s) eqn:E; [|done]. intros [= <-]. split; [done|]. by intros ? [= <-].
  - intros [-> Ho]. destruct o as [s|]; [|done]. simpl. by rewrite Ho.
Qed.

Lemma obs_hash_Ok v f c s : obs_hash v f c = Ok s <-> v = VStr s /\ hash_pattern s = true.
Proof.
  unfold obs_hash, str_that. split.
  - destruct v; try done. destruct (hash_pattern s0) eqn:E; [|done]. by intros [= <-].
  - by intros [-> ->].
Qed.

Lemma obs_pattern_Ok p v f c s : obs_pattern p v f c = Ok s <-> v = VStr s /\ p s = true.
Proof.
  unfold obs_pattern, str_that. split.
  - destruct v; try done. destruct (p s0) eqn:E; [|done]. by intros [= <-].
  - by intros [-> ->].
Qed.

Lemma obs_utc_Ok v f c t :
  obs_utc v f c = Ok t <-> v = VStr (to_iso_string t) /\ time_valid t = true.
Proof.
  unfold obs_utc. split.
  - destruct v; try done. simpl. destruct (canonical_instant s) as [u|] eqn:E; [|done].
    intros [= <-]. by apply canonical_instant_Some in E as [? ->].
  - intros [-> Hv]. simpl.
    by rewrite (proj2 (canonical_instant_Some (to_iso_string t) t)) by done.
Qed.

Lemma exactKeys_Ok v keys label code u :
  exactKeys v keys label code = Ok u <-> is_record v = true /\ keys_of v ≡ₚ keys.
Proof.
  unfold exactKeys. rewrite guard_bind_Ok, guard_or_Ok. by rewrite same_keys_iff.
Qed.

Lemma find_expected_status_name st : find_expected_status (VStr (expected_status_name st)) = Some st.
Proof. by destruct st. Qed.

Lemma text_field_opened d commitment b i e k :
  opened_binding d commitment b i e -> js k ∈ BINDING_KEYS ->
  snap_get (js k) b = HStr (text_field d k) /\ short_plain (text_field d k).
Proof.
  intros Ho Hk. destruct (opened_field _ _ _ _ _ _ Ho Hk) as (s & Hg & Hs & ?).
  unfold text_field. by rewrite Hg.
Qed.

Lemma text_field_hash d commitment b i e k :
  opened_binding d commitment b i e -> js k ∈ BINDING_KEYS -> js k ∈ hash_fields ->
  hash_pattern (text_field d k) = true.
Proof.
  intros Ho Hk Hh. destruct (text_field_opened _ _ _ _ _ _ Ho Hk) as [Hs _].
  pose proof (bw_hashes _ _ _ (ob_wf _ _ _ _ _ Ho)) as Hall. rewrite Forall_forall in Hall.
  destruct (Hall _ Hh) as (u & Hu & ?). congruence.
Qed.

(** The terms of a call are those of an exact authorization. *)
Lemma normalizeExpected_terms v x :
  normalizeExpected v = Ok x ->
  exists b i e, opened_binding (get (js "authorization_binding") v) (xt_authorization x) b i e /\
    terms_ok x i e.
Proof.
  unfold normalizeExpected. intros (u & _ & H)%bind_Ok. apply bind_Ok in H as (st & _ & H).
  apply bind_Ok in H as ([c commitment] & Hc & H). apply bind_Ok in H as (effect & He & [= <-]).
  apply catch_Ok in Hc as [Hc|(? & _ & [=])].
  destruct (commit_inert_opened _ _ _ Hc) as (b & i & e & Ho). exists b, i, e. split; [done|].
  apply obs_nullable_hash_Ok in He as [_ He].
  pose proof (ob_wf _ _ _ _ _ Ho) as W.
  split; cbn; try (eapply text_field_opened; [done|decide_now]);
    try (eapply text_field_hash; [done|decide_now..]); try done.
  - exists (get (js "authorization_binding") v), b. split; [done|].
    repeat apply List.Forall_cons; try (eapply text_field_opened; [done|decide_now]). constructor.
  - destruct (ob_commit _ _ _ _ _ Ho) as [c' Hc']. by eapply commitment_hash.
  - destruct (text_field_opened _ _ _ _ _ "issued_at" Ho ltac:(decide_now)) as [Hs _].
    destruct (bw_issued _ _ _ W) as [Hi Hv]. split; [congruence|done].
  - destruct (text_field_opened _ _ _ _ _ "expires_at" Ho ltac:(decide_now)) as [Hs _].
    destruct (bw_expires _ _ _ W) as [Hi Hv]. split; [congruence|done].
Qed.

(** A well-formed observation at the instant [now]. *)
Record observed_as (v : jsv) (now : Z) (o : observation) (executed observed : Z) : Prop := {
  oa_record : is_record v = true /\ keys_of v ≡ₚ OBSERVED_KEYS;
  oa_profile : get (js "binding_profile") v = VStr (ob_profile o) /\ profile_pattern (ob_profile o) = true;
  oa_run : get (js "run_id") v = VStr (ob_run o) /\ OBS_ID_PATTERN (ob_run o) = true;
  oa_action : get (js "action_commitment") v = VStr (ob_action o) /\ hash_pattern (ob_action o) = true;
  oa_context : get (js "context_commitment") v = VStr (ob_context o) /\ hash_pattern (ob_context o) = true;
  oa_status : get (js "execution_status") v = VStr (status_name (ob_status o));
  oa_effect : get (js "effect_commitment") v = null_or_str (ob_effect o) /\
    (forall s, ob_effect o = Some s -> hash_pattern s = true);
  oa_known : ob_status o = Unknown \/ is_Some (ob_effect o);
  oa_executed : get (js "executed_at") v = VStr (ob_executed_at o) /\
    ob_executed_at o = to_iso_string executed /\ time_valid executed = true;
  oa_observed : get (js "observed_at") v = VStr (ob_observed_at o) /\
    ob_observed_at o = to_iso_string observed /\ time_valid observed = true;
  oa_order : executed <= observed <= now;
}.

Lemma find_status_value v st : find_status (hval_of v) = Some st <-> v = VStr (status_name st).
Proof.
  rewrite find_status_Some. split; [|by intros ->]. destruct v; try done. by intros [= ->].
Qed.

Lemma normalizeObserved_Ok v now o :
  normalizeObserved v now = Ok o <-> exists executed observed, observed_as v now o executed observed.
Proof.
  unfold normalizeObserved. cbv zeta. split.
  - intros (u & [Hr Hk]%exactKeys_Ok & H)%bind_Ok. apply bind_Ok in H as (st & Hst & H).
    destruct (find_status _) as [st'|] eqn:Ef; [|done]. injection Hst as ->.
    apply find_status_value in Ef.
    apply bind_Ok in H as (ex & [Hex Hvx]%obs_utc_Ok & H).
    apply bind_Ok in H as (ob & [Hob Hvo]%obs_utc_Ok & H).
    apply guard_bind_Ok in H as [H1%Z.leb_le H]. apply guard_bind_Ok in H as [H2%Z.leb_le H].
    apply bind_Ok in H as (eff & Heff%obs_nullable_hash_Ok & H).
    apply guard_bind_Ok in H as [Hkn H].
    apply bind_Ok in H as (pr & Hpr%obs_pattern_Ok & H). apply bind_Ok in H as (ru & Hru%obs_pattern_Ok & H).
    apply bind_Ok in H as (ac & Hac%obs_hash_Ok & H). apply bind_Ok in H as (co & Hco%obs_hash_Ok & [= <-]).
    exists ex, ob. rewrite orb_true_iff, !bool_decide_eq_true in Hkn. by split.
  - intros (ex & ob & [[Hr Hk] Hpr Hru Hac Hco Hst Heff Hkn (Hex & Ex & Hvx) (Hob & Eo & Hvo) [H1 H2]]).
    destruct o as [pr ru ac co st eff exs obs]. cbn in Hpr, Hru, Hac, Hco, Hst, Heff, Hkn, Hex, Ex, Hob, Eo. subst exs obs.
    rewrite (proj2 (exactKeys_Ok v OBSERVED_KEYS _ _ tt)) by done. cbn [mbind res_bind].
    rewrite (proj2 (find_status_value _ st)) by done. cbn [mbind res_bind].
    rewrite (proj2 (obs_utc_Ok _ _ _ ex) (conj Hex Hvx)). cbn [mbind res_bind].
    rewrite (proj2 (obs_utc_Ok _ _ _ ob) (conj Hob Hvo)). cbn [mbind res_bind].
    rewrite (proj2 (Z.leb_le _ _) H1), (proj2 (Z.leb_le _ _) H2). cbn [guard_or mbind res_bind].
    rewrite (proj2 (obs_nullable_hash_Ok _ _ _ eff) Heff). cbn [mbind res_bind].
    replace (bool_decide (st = Unknown) || bool_decide (is_Some eff)) with true
      by (symmetry; by rewrite orb_true_iff, !bool_decide_eq_true).
    cbn [guard_or mbind res_bind].
    rewrite (proj2 (obs_pattern_Ok _ _ _ _ pr) Hpr). cbn [mbind res_bind].
    rewrite (proj2 (obs_pattern_Ok _ _ _ _ ru) Hru). cbn [mbind res_bind].
    rewrite (proj2 (obs_hash_Ok _ _ _ ac) Hac). cbn [mbind res_bind].
    by rewrite (proj2 (obs_hash_Ok _ _ _ co) Hco).
Qed.

(** ** Both records can always be committed *)

Lemma hash_flat s : hash_pattern s = true -> flat_field (VStr s).
Proof. intros [? ?]%hash_pattern_plain. split; [done|lia]. Qed.
Lemma iso_flat t : flat_field (VStr (to_iso_string t)).
Proof. destruct (to_iso_string_plain t). split; [done|lia]. Qed.
Lemma opt_hash_flat o : (forall s, o = Some s -> hash_pattern s = true) -> flat_field (null_or_str o).
Proof. destruct o as [s|]; [|done]. intros H. by apply hash_flat, H. Qed.

Lemma obs_id_plain s : OBS_ID_PATTERN s = true -> plain s = true /\ (length s <= 128)%nat.
Proof. apply (re_head_class_plain _ _ 15 127); plain_class. Qed.

Lemma observation_flat v now o ex ob :
  observed_as v now o ex ob -> flat_entries (observation_entries o).
Proof.
  intros [_ [_ Hpr%profile_pattern_plain] [_ Hru%obs_id_plain] [_ Hac] [_ Hco] _ [_ Heff] _
    (_ & Ex & _) (_ & Eo & _) _].
  split; [by vm_compute|]. unfold observation_entries. rewrite Ex, Eo.
  repeat (apply List.Forall_cons; [cbn [snd]|]); auto using hash_flat, iso_flat, opt_hash_flat.
  - split; [reflexivity|vm_compute; lia].
  - destruct (ob_status o); (split; [reflexivity|vm_compute; lia]).
Qed.

Lemma commitObservation_total v now o ex ob :
  observed_as v now o ex ob ->
  exists c, commitObservation o = Ok (c, sha256Hex (observation_input c)) /\
    canonicalizePayload (VObj PObject (observation_entries o)) = Ok c.
Proof.
  intros H%observation_flat. destruct (flat_payload_total PObject _ H) as [c Hc]; [simpl; lia|].
  exists c. unfold commitObservation. by rewrite Hc.
Qed.

Definition reconciliation_fields (x : expected_terms) (hash : jsstr) (c : classification)
  : list (jsstr * jsv) := take 10 (reconciliation_payload x hash c).

Lemma reconciliation_payload_split x hash c :
  reconciliation_payload x hash c
  = reconciliation_fields x hash c ++ [(js "reasons", VArr (VStr <$> cl_reasons c))].
Proof. reflexivity. Qed.

Lemma reconciliation_fields_flat x i e hash c :
  terms_ok x i e -> hash_pattern hash = true ->
  Forall (fun kv => flat_field kv.2) (reconciliation_fields x hash c).
Proof.
  intros [_ Hp Hr Ha Hc Hau _ _ He] Hh. unfold reconciliation_fields, reconciliation_payload. cbn [take].
  repeat (apply List.Forall_cons; [cbn [snd]|]); auto using hash_flat, opt_hash_flat.
  - split; [reflexivity|vm_compute; lia].
  - destruct (xt_status x); (split; [reflexivity|vm_compute; lia]).
  - destruct (cl_verdict c); (split; [reflexivity|vm_compute; lia]).
Qed.

(** The reasons a classification can give. *)
Definition RECON_REASONS : list jsstr := Eval vm_compute in
  js "POMRX_RECON_INDETERMINATE_EXECUTION" :: (reason_code <$>
    [MismatchProfile; MismatchRun; MismatchAction; MismatchContext; MismatchWindow; MismatchStatus;
     MismatchEffect]).

Lemma push_if_length c r : (length (push_if c r) <= 1)%nat.
Proof. by destruct c; simpl; lia. Qed.

Lemma mismatches_length x o : (length (mismatches x o) <= 7)%nat.
Proof.
  unfold mismatches. rewrite !length_app.
  repeat match goal with |- context [length (push_if ?c ?r)] =>
    pose proof (push_if_length c r); generalize dependent (length (push_if c r)); intros end. lia.
Qed.

Lemma classify_reasons x o :
  (length (cl_reasons (classify x o)) <= 7)%nat /\ (forall r, r ∈ cl_reasons (classify x o) -> r ∈ RECON_REASONS).
Proof.
  unfold classify. pose proof (mismatches_length x o) as Hl.
  destruct (mismatches x o) as [|r l]; [case_bool_decide; simpl; (split; [lia|])|].
  - intros r ->%list_elem_of_singleton. left.
  - by intros r ?%not_elem_of_nil.
  - cbn [cl_reasons]. rewrite length_fmap. split; [done|].
    intros r' (m & -> & _)%list_elem_of_fmap. destruct m; decide_now.
Qed.

Lemma reasons_flat x o : Forall flat_field (VStr <$> cl_reasons (classify x o)).
Proof.
  apply Forall_fmap, Forall_forall. intros r Hr%(proj2 (classify_reasons x o)).
  assert (Forall (fun r => plain r = true /\ (length r <= 128)%nat) RECON_REASONS) as H.
  { apply List.Forall_forall. intros s Hs.
    assert (forallb (fun r => plain r && (length r <=? 128)%nat) RECON_REASONS = true) as Hb by reflexivity.
    rewrite List.forallb_forall in Hb. specialize (Hb s Hs).
    by rewrite andb_true_iff, Nat.leb_le in Hb. }
  rewrite Forall_forall in H. by apply H.
Qed.

Lemma commitReconciliation_total x i e hash o :
  terms_ok x i e -> hash_pattern hash = true ->
  let c := classify x o in
  exists canonical,
    canonicalizePayload (VObj PObject (reconciliation_payload x hash c)) = Ok canonical /\
    commitReconciliation x hash c = Ok {| rn_payload := reconciliation_payload x hash c;
      rn_classification := c; rn_hash := sha256Hex (reconciliation_input canonical) |}.
Proof.
  intros Hx Hh c. unfold commitReconciliation. cbv zeta.
  destruct (flat_list_payload_total PObject (reconciliation_fields x hash c) (js "reasons")
    (VStr <$> cl_reasons c)) as [t Ht].
  - by vm_compute.
  - by eapply reconciliation_fields_flat.
  - apply reasons_flat.
  - rewrite length_fmap. etrans; [apply classify_reasons|lia].
  - simpl. lia.
  - rewrite <- reconciliation_payload_split in Ht. exists t. by rewrite Ht.
Qed.

(** ** Classification *)

(** How an observation can disagree with the terms. *)
Definition disagrees (x : expected_terms) (issued expires : Z) (o : observation) (executed : Z)
    (r : mismatch_reason) : Prop :=
  match r with
  | MismatchProfile => ob_profile o <> xt_profile x
  | MismatchRun => ob_run o <> xt_run x
  | MismatchAction => ob_action o <> xt_action x
  | MismatchContext => ob_context o <> xt_context x
  | MismatchWindow => ~ issued <= executed < expires
  | MismatchStatus => ob_status o <> Unknown /\ xt_status x <> ExpectAny /\
      status_name (ob_status o) <> expected_status_name (xt_status x)
  | MismatchEffect => ob_status o <> Unknown /\ exists e, xt_effect x = Some e /\ ob_effect o <> Some e
  end.

Lemma elem_of_push_if c m r : m ∈ push_if c r <-> c = true /\ m = r.
Proof.
  destruct c; simpl.
  - rewrite list_elem_of_singleton. naive_solver.
  - split; [by intros ?%not_elem_of_nil|by intros []].
Qed.

Lemma mismatches_spec x i e v now o ex ob r :
  terms_ok x i e -> observed_as v now o ex ob -> r ∈ mismatches x o <-> disagrees x i e o ex r.
Proof.
  intros [_ _ _ _ _ _ [Hi Hvi] [He Hve] _] [_ _ _ _ _ _ _ _ (_ & Ex & Hvx) _ _].
  unfold mismatches. rewrite !elem_of_app, !elem_of_push_if, Hi, He, Ex, !date_parse_iso by done.
  cbn [time_lt time_ge]. unfold status_differs.
  rewrite orb_true_iff, Z.ltb_lt, Z.leb_le, !andb_true_iff, !negb_true_iff, !str_eqb_neq, !bool_decide_eq_false.
  destruct r; cbn [disagrees].
  1-4: clear; naive_solver.
  - assert (~ i <= ex < e <-> ex < i \/ e <= ex) as -> by lia. clear; naive_solver.
  - assert (xt_status x <> ExpectAny <-> expected_status_name (xt_status x) <> js "any") as ->
      by (destruct (xt_status x); vm_compute; naive_solver).
    clear; naive_solver.
  - destruct (xt_effect x) as [eff|].
    + rewrite andb_true_iff, !negb_true_iff, !bool_decide_eq_false. clear; naive_solver.
    + clear; naive_solver.
Qed.

(** The verdict and the reasons are exactly what the comparison shows. *)
Record verdict_exact (x : expected_terms) (issued expires : Z) (o : observation) (executed : Z)
    (c : classification) : Prop := {
  ve_mismatch : cl_verdict c = MISMATCH <-> exists r, disagrees x issued expires o executed r;
  ve_match : cl_verdict c = MATCH <->
    (forall r, ~ disagrees x issued expires o executed r) /\ ob_status o <> Unknown;
  ve_indeterminate : cl_verdict c = INDETERMINATE <->
    (forall r, ~ disagrees x issued expires o executed r) /\ ob_status o = Unknown;
  ve_reasons r : reason_code r ∈ cl_reasons c <-> disagrees x issued expires o executed r;
}.

Lemma reason_code_inj r1 r2 : reason_code r1 = reason_code r2 -> r1 = r2.
Proof. destruct r1, r2; vm_compute; congruence. Qed.

Lemma classify_exact x i e v now o ex ob :
  terms_ok x i e -> observed_as v now o ex ob -> verdict_exact x i e o ex (classify x o).
Proof.
  intros Hx Ho. pose proof (fun r => mismatches_spec x i e v now o ex ob r Hx Ho) as Hm.
  unfold classify. destruct (mismatches x o) as [|r l] eqn:E.
  - assert (forall r, ~ disagrees x i e o ex r) as Hno.
    { intros r Hr%Hm. by apply not_elem_of_nil in Hr. }
    case_bool_decide as Hu; split; cbn [cl_verdict cl_reasons]; try naive_solver.
    + intros r. split; [|by intros ?%Hno]. intros Hr%list_elem_of_singleton. destruct r; discriminate Hr.
    + intros r. split; [by intros ?%not_elem_of_nil|by intros ?%Hno].
  - assert (disagrees x i e o ex r) as Hr by (apply Hm; left).
    split; cbn [cl_verdict cl_reasons]; try naive_solver.
    intros r'. rewrite <- Hm. split.
    + intros (m & Hc%reason_code_inj & Hin)%list_elem_of_fmap. congruence.
    + intros Hin. by apply (list_elem_of_fmap_2 reason_code).
Qed.

(** ** What a reconciliation is *)

(** [hash] commits to the observation [o]. *)
Definition commits_observation (o : observation) (hash : jsstr) : Prop :=
  exists t, canonicalizePayload (VObj PObject (observation_entries o)) = Ok t /\
    hash = sha256Hex (observation_input t).

(** [rn] is the reconciliation of the classified observation with this hash. *)
Definition reconciles (x : expected_terms) (o : observation) (hash : jsstr) (rn : reconciliation)
  : Prop :=
  rn_classification rn = classify x o /\ rn_payload rn = reconciliation_payload x hash (classify x o) /\
  exists t, canonicalizePayload (VObj PObject (rn_payload rn)) = Ok t /\
    rn_hash rn = sha256Hex (reconciliation_input t).

Lemma commits_observation_format o hash : commits_observation o hash -> hash_pattern hash = true.
Proof. intros (t & _ & ->). apply sha256_hex_format. Qed.

Lemma reconcile_Ok x i e v now o hash rn :
  terms_ok x i e ->
  reconcile x v now = Ok (o, hash, rn) <->
  (exists ex ob, observed_as v now o ex ob) /\ commits_observation o hash /\ reconciles x o hash rn.
Proof.
  intros Hx. unfold reconcile. split.
  - intros (o' & Ho & H)%bind_Ok. apply normalizeObserved_Ok in Ho as (ex & ob & Ho).
    destruct (commitObservation_total _ _ _ _ _ Ho) as (t & Hco & Ht). rewrite Hco in H. cbn [mbind res_bind] in H.
    assert (commits_observation o' (sha256Hex (observation_input t))) as Hc by by exists t.
    destruct (commitReconciliation_total x i e _ o' Hx (commits_observation_format _ _ Hc)) as (t' & Ht' & E).
    cbv zeta in E. rewrite E in H. cbn [mbind res_bind] in H. injection H as -> <- <-.
    split; [by exists ex, ob|]. split; [done|]. split; [done|]. split; [done|]. by exists t'.
  - intros ((ex & ob & Ho) & (t & Ht & ->) & Hc & Hp & t' & Ht' & Hh).
    rewrite (proj2 (normalizeObserved_Ok v now o)) by by exists ex, ob. cbn [mbind res_bind].
    unfold commitObservation. rewrite Ht. cbn [mbind res_bind].
    unfold commitReconciliation. rewrite Hp in Ht'. rewrite Ht'. cbn [mbind res_bind].
    destruct rn. simpl in *. by subst.
Qed.

(** Only a malformed observation makes the comparison throw. *)
Lemma normalizeObserved_throws v now :
  throws_only (fun e => is_observation_error e /\ err_code e = js "POMRX_OBS_E_OBSERVER_INVALID")
    (normalizeObserved v now).
Proof.
  unfold normalizeObserved, exactKeys, obs_utc, obs_nullable_hash, obs_pattern, obs_hash. cbv zeta.
  repeat first
    [ done
    | apply throws_only_guard; done
    | apply throws_only_bind; [|intros ? _]
    | case_match ].
Qed.

Lemma reconcile_throws x i e v now er :
  terms_ok x i e -> reconcile x v now = Throw er ->
  is_observation_error er /\ err_code er = js "POMRX_OBS_E_OBSERVER_INVALID" /\
  forall o ex ob, ~ observed_as v now o ex ob.
Proof.
  intros Hx H. destruct (normalizeObserved v now) as [o|e'] eqn:E.
  - apply normalizeObserved_Ok in E as (ex & ob & Ho).
    destruct (commitObservation_total _ _ _ _ _ Ho) as (t & _ & Ht).
    assert (commits_observation o (sha256Hex (observation_input t))) as Hc by by exists t.
    destruct (commitReconciliation_total x i e _ o Hx (commits_observation_format _ _ Hc)) as (t' & Ht' & Er).
    assert (reconcile x v now = Ok (o, sha256Hex (observation_input t),
      {| rn_payload := reconciliation_payload x (sha256Hex (observation_input t)) (classify x o);
         rn_classification := classify x o; rn_hash := sha256Hex (reconciliation_input t') |}))
      as Hok; [|congruence].
    apply (reconcile_Ok x i e); [done|]. split; [by exists ex, ob|]. split; [done|].
    split; [done|]. split; [done|]. by exists t'.
  - pose proof (throws_only_Throw _ _ _ (normalizeObserved_throws v now) E) as [? ?].
    assert (e' = er) as -> by (unfold reconcile in H; rewrite E in H; by injection H).
    split; [done|]. split; [done|]. intros o ex ob Ho.
    assert (normalizeObserved v now = Ok o) by (apply normalizeObserved_Ok; by exists ex, ob). congruence.
Qed.

(** ** The channel *)

(** What the promise of [captureObserverOutput] is settled with, if it is. *)
Definition observer_outcome (sync : list observer_call) (e : observer_end) (async : list observer_call)
  : option (res jsv) :=
  match e with
  | ObserverThrew => Some (Throw observerFailureError)
  | ObserverReturned HUndef =>
      match sync with
      | [] => reported <$> head async
      | [call] => Some (reported call)
      | _ => Some (Throw (observerProtocolError
               "independent observer reported conflicting synchronous terminal outcomes"))
      end
  | ObserverReturned _ => Some (Throw (observerProtocolError
      "independent observer must deliver through the one-shot capture callback and return undefined"))
  end.

Lemma callback_channel call c : (observer_callback call c).2 = (setTerminal (reported call) c).2.
Proof. unfold observer_callback. by destruct (reported call); [|destruct (setTerminal _ c)]. Qed.

Lemma callback_settled call c : settled c = true -> (observer_callback call c).2 = c.
Proof. intros H. rewrite callback_channel. unfold setTerminal. by rewrite H. Qed.

Lemma settled_calls calls c :
  settled c = true -> fold_left (fun c call => (observer_callback call c).2) calls c = c.
Proof. intros H. induction calls as [|call calls IH]; [done|]. simpl. by rewrite callback_settled. Qed.

(** The running channel and its terminal. *)
Definition running (t : option (res jsv)) : channel :=
  {| invocationReturned := false; settled := false; terminal := t; promise := None |}.
Definition waiting : channel :=
  {| invocationReturned := true; settled := false; terminal := None; promise := None |}.
Definition settled_with (t : res jsv) : channel :=
  {| invocationReturned := true; settled := true; terminal := Some t; promise := Some t |}.

Lemma callback_running call t :
  (observer_callback call (running t)).2 = running (Some
    match t with
    | None => reported call
    | Some _ => Throw (observerProtocolError
        "independent observer reported conflicting synchronous terminal outcomes")
    end).
Proof. rewrite callback_channel. by destruct t. Qed.

Lemma callback_waiting call : (observer_callback call waiting).2 = settled_with (reported call).
Proof. by rewrite callback_channel. Qed.

Lemma ended_running e t :
  observer_ended e (running t) =
  match e with
  | ObserverThrew => settled_with (Throw observerFailureError)
  | ObserverReturned HUndef => match t with Some t => settled_with t | None => waiting end
  | ObserverReturned _ => settled_with (Throw (observerProtocolError
      "independent observer must deliver through the one-shot capture callback and return undefined"))
  end.
Proof. destruct e as [|[]]; try done. by destruct t. Qed.

Lemma running_calls calls t :
  fold_left (fun c call => (observer_callback call c).2) calls (running t) = running
    match calls, t with
    | [], _ => t
    | [call], None => Some (reported call)
    | _, _ => Some (Throw (observerProtocolError
        "independent observer reported conflicting synchronous terminal outcomes"))
    end.
Proof.
  revert t. induction calls as [|call calls IH]; intros t; [done|].
  cbn [fold_left]. rewrite callback_running, IH. by destruct calls as [|? []], t.
Qed.

(** C27: The promise for an observer is settled exactly as its uses of the channel
    say: with the outcome it reports first, unless it reports twice before it
    returns, throws, or returns a value; later reports change nothing, and an
    observer that never reports leaves it pending. *)
Theorem captureObserverOutput_exact sync e async :
  promise (captureObserverOutput sync e async) = observer_outcome sync e async /\
  (is_Some (observer_outcome sync e async) <-> settled (captureObserverOutput sync e async) = true).
Proof.
  unfold captureObserverOutput. cbv zeta. change new_channel with (running None).
  rewrite running_calls, ended_running.
  assert (forall t, promise (fold_left (fun c call => (observer_callback call c).2) async (settled_with t))
    = Some t /\ settled (fold_left (fun c call => (observer_callback call c).2) async (settled_with t)) = true)
    as Hs by (intros t; by rewrite settled_calls).
  assert (forall t u, promise (fold_left (fun c call => (observer_callback call c).2) async (settled_with t)) = Some t
    /\ (is_Some (Some (A := res jsv) u) <-> settled (fold_left (fun c call => (observer_callback call c).2) async (settled_with t)) = true))
    as Hs' by (intros t u; by rewrite settled_calls).
  unfold observer_outcome. destruct e as [|[]]; try (apply Hs'; done).
  destruct sync as [|call [|? ?]]; try (apply Hs'; done).
  destruct async as [|call async]; cbn [fold_left].
  - split; [done|]. split; [by intros []|done].
  - rewrite callback_waiting, settled_calls by done. split; [done|]. by split.
Qed.

(** ** Reachable states *)

(** The shape of a channel between two steps. *)
Inductive channel_shape : channel -> Prop :=
  | shape_running t : channel_shape (running t)
  | shape_waiting : channel_shape waiting
  | shape_settled t : channel_shape (settled_with t).

(** The accepted clock sample after which a call was finished. *)
Record finished_call (last : option Z) (c : capture) (o : observation) (hash : jsstr)
    (rn : reconciliation) (v : jsv) (now : Z) : Prop := {
  fc_promise : promise (cp_channel c) = Some (Ok v);
  fc_clock : exists t, last = Some t /\ now <= t;
  fc_reconcile : reconcile (cp_expected c) v now = Ok (o, hash, rn);
}.

Record capture_inv (last : option Z) (c : capture) : Prop := {
  ci_terms : exists issued expires, terms_ok (cp_expected c) issued expires;
  ci_channel : channel_shape (cp_channel c);
  ci_result : is_Some (cp_result c) -> is_Some (promise (cp_channel c));
  ci_finished o hash rn : cp_result c = Some (Ok (o, hash, rn)) ->
    exists v now, finished_call last c o hash rn v now;
}.
Definition reconciler_inv (r : reconciler) : Prop := Forall (capture_inv (ob_last r)) (captures r).

Lemma obs_sample_Ok last reading now :
  obs_sampleTrustedClock last reading = Ok now -> forall t, last = Some t -> t <= now.
Proof.
  unfold obs_sampleTrustedClock. intros (u & _ & H)%bind_Ok t ->.
  apply guard_bind_Ok in H as [H%Z.leb_le [= <-]]. done.
Qed.

(** The last trusted time only grows. *)
Definition clock_le (last last' : option Z) : Prop :=
  forall t, last = Some t -> exists t', last' = Some t' /\ t <= t'.
#[local] Instance clock_le_preorder : PreOrder clock_le.
Proof.
  split; [intros l t Ht; exists t; by split|].
  intros l1 l2 l3 H1 H2 t (t' & (t'' & ? & ?)%H2 & ?)%H1. exists t''. split; [done|lia].
Qed.

Lemma sample_clock_le last reading now :
  obs_sampleTrustedClock last reading = Ok now -> clock_le last (Some now).
Proof. intros H t Ht. exists now. split; [done|]. by eapply obs_sample_Ok. Qed.

Lemma finish_clock x output reading last result last' :
  finish_call x output reading last = (result, last') -> clock_le last last'.
Proof.
  unfold finish_call. destruct output as [v|]; [|by intros [= _ <-]].
  destruct (obs_sampleTrustedClock last reading) as [now|] eqn:E; [|by intros [= _ <-]].
  intros [= _ <-]. by eapply sample_clock_le.
Qed.

Lemma capture_inv_clock last last' c : clock_le last last' -> capture_inv last c -> capture_inv last' c.
Proof.
  intros Hl [H1 H2 H3 H4]. split; [done..|]. intros o hash rn H.
  destruct (H4 _ _ _ H) as (v & now & [Hp (t & Ht & Hn) Hr]). exists v, now.
  split; [done| |done]. destruct (Hl t Ht) as (t' & ? & ?). exists t'. split; [done|lia].
Qed.

Lemma callback_shape call c : channel_shape c -> channel_shape (observer_callback call c).2.
Proof.
  intros []; rewrite ?callback_running, ?callback_waiting, ?callback_settled by done; constructor.
Qed.

Lemma ended_shape e c :
  channel_shape c -> invocationReturned c = false -> channel_shape (observer_ended e c).
Proof.
  intros [] H; try discriminate H. rewrite ended_running. destruct e as [|[]]; try constructor.
  destruct t; constructor.
Qed.

(** A settled promise keeps its outcome. *)
Lemma settled_promise_callback call c p :
  channel_shape c -> promise c = Some p -> promise (observer_callback call c).2 = Some p.
Proof. intros [] H; try discriminate H. by rewrite callback_settled. Qed.

(** One call at the same or a later time. *)
Definition phase (c : capture) : nat :=
  match cp_result c, promise (cp_channel c), invocationReturned (cp_channel c) with
  | Some _, _, _ => 3
  | None, Some _, _ => 2
  | None, None, true => 1
  | None, None, false => 0
  end.
Record later_capture (c c' : capture) : Prop := {
  lc_expected : cp_expected c' = cp_expected c;
  lc_promise p : promise (cp_channel c) = Some p -> promise (cp_channel c') = Some p;
  lc_result x : cp_result c = Some x -> cp_result c' = Some x;
  lc_phase : (phase c <= phase c')%nat;
}.
#[local] Instance later_capture_preorder : PreOrder later_capture.
Proof.
  split; [by split|]. intros c1 c2 c3 [A1 B1 C1 D1] [A2 B2 C2 D2].
  split; [congruence|auto|auto|lia].
Qed.

Lemma alter_Forall2 {A} (R : relation A) `{!PreOrder R} f i (l : list A) :
  (forall x, l !! i = Some x -> R x (f x)) -> Forall2 R l (alter f i l).
Proof.
  intros H. apply Forall2_same_length_lookup. rewrite length_alter. split; [done|].
  intros j x y Hx. rewrite list_lookup_alter. case_decide as Hj; [subst j|].
  - rewrite Hx. intros [= <-]. auto.
  - rewrite Hx. intros [= <-]. done.
Qed.

Lemma alter_inv last f i (l : list capture) :
  Forall (capture_inv last) l ->
  (forall c, l !! i = Some c -> capture_inv last c -> capture_inv last (f c)) ->
  Forall (capture_inv last) (alter f i l).
Proof.
  intros H Hf. apply Forall_lookup. intros j c. rewrite list_lookup_alter.
  rewrite Forall_lookup in H. case_decide as Hj; [subst j|by apply H].
  destruct (l !! i) as [c'|] eqn:E; [|done]. intros [= <-]. by eapply Hf, H.
Qed.

Lemma with_channel_inv last f c :
  capture_inv last c -> channel_shape (f (cp_channel c)) ->
  (forall p, promise (cp_channel c) = Some p -> promise (f (cp_channel c)) = Some p) ->
  capture_inv last (with_channel f c).
Proof.
  intros [H1 H2 H3 H4] Hs Hp. split; cbn [with_channel cp_expected cp_channel cp_result]; [done..| |].
  - intros [p Hp']%H3. rewrite (Hp _ Hp'). by eexists.
  - intros o hash rn H. destruct (H4 _ _ _ H) as (v & now & [? ? ?]). exists v, now. split; auto.
Qed.

Lemma obs_step_inv r r' : obs_step r r' -> reconciler_inv r -> reconciler_inv r'.
Proof.
  unfold reconciler_inv. intros Hs I. destruct Hs as [h input reading|i call|i c e Hc He|i c output reading Hc Hp Hr].
  - unfold start_capture.
    destruct ('(expected, observationRef) ← capture_input h input; _) as [[[x ref] now]|] eqn:E; [|done].
    cbn [snd ob_last captures]. apply bind_Ok in E as ([x' ref'] & Hin & E).
    apply bind_Ok in E as (now' & Hnow & [= <- <- <-]). apply Forall_app. split.
    + eapply Forall_impl; [exact I|]. intros c. apply capture_inv_clock. by eapply sample_clock_le.
    + apply List.Forall_cons; [|done]. unfold capture_input in Hin.
      apply bind_Ok in Hin as (d & _ & Hin). apply bind_Ok in Hin as (u & _ & Hin).
      apply bind_Ok in Hin as (x & (b & i & e & _ & ?)%normalizeExpected_terms & [= <- <-]).
      split; cbn [cp_expected cp_channel cp_result]; [by exists i, e|apply (shape_running None)| |done].
      by intros [].
  - cbn [after_callback ob_last captures]. apply alter_inv; [done|]. intros c _ Ic.
    apply with_channel_inv; [done|apply callback_shape, Ic|].
    intros p. apply settled_promise_callback, Ic.
  - cbn [after_end ob_last captures]. apply alter_inv; [done|]. intros c' Hc' Ic. replace c' with c by congruence.
    replace c' with c in Ic by congruence.
    apply with_channel_inv; [done|by apply ended_shape; [apply Ic|]|].
    intros p Hp. destruct (ci_channel _ _ Ic); try discriminate Hp. discriminate He.
  - unfold after_clock. destruct (finish_call _ output reading (ob_last r)) as [result last] eqn:Hf.
    cbn [ob_last captures]. pose proof (finish_clock _ _ _ _ _ _ Hf) as Hl.
    apply alter_inv.
    + eapply Forall_impl; [exact I|]. intros c'. by apply capture_inv_clock.
    + intros c' Hc' [H1 H2 H3 H4]. replace c' with c in * by congruence.
      split; cbn [with_result cp_expected cp_channel cp_result]; [done..| |].
      * intros _. by rewrite Hp.
      * intros o hash rn [= Hres]. subst result. unfold finish_call in Hf.
        destruct output as [v|]; [|done].
        destruct (obs_sampleTrustedClock (ob_last r) reading) as [now|] eqn:En; [|done].
        injection Hf as Hrec <-. exists v, now. split; [done|exists now; split; [done|lia]|done].
Qed.

Lemma obs_reachable_inv r : obs_reachable r -> reconciler_inv r.
Proof.
  unfold obs_reachable. revert r. apply rtc_ind_r; [apply Forall_nil; done|].
  intros r r' _ Hs I. by eapply obs_step_inv.
Qed.

(** [r'] is the reconciler [r] at the same or a later time. *)
Record later_reconciler (r r' : reconciler) : Prop := {
  lo_captures i c : captures r !! i = Some c -> exists c', captures r' !! i = Some c' /\ later_capture c c';
  lo_clock : clock_le (ob_last r) (ob_last r');
}.
#[local] Instance later_reconciler_preorder : PreOrder later_reconciler.
Proof.
  split; [intros r; split; [intros i c Hc; by exists c|done]|].
  intros r1 r2 r3 [A1 B1] [A2 B2]. split; [|by etrans].
  intros i c (c' & (c'' & ? & ?)%A2 & ?)%A1. exists c''. split; [done|by etrans].
Qed.

Lemma with_channel_later f c :
  (forall p, promise (cp_channel c) = Some p -> promise (f (cp_channel c)) = Some p) ->
  (invocationReturned (cp_channel c) = true -> invocationReturned (f (cp_channel c)) = true) ->
  later_capture c (with_channel f c).
Proof.
  intros Hp Hr. split; [done|done|done|]. unfold phase. cbn [with_channel cp_channel cp_result].
  destruct (cp_result c); [done|]. destruct (promise (cp_channel c)) as [p|]; [by rewrite (Hp p)|].
  destruct (invocationReturned (cp_channel c)); [rewrite Hr by done; case_match; lia|lia].
Qed.

Lemma alter_later_captures f i (l : list capture) :
  (forall c, l !! i = Some c -> later_capture c (f c)) ->
  forall j c, l !! j = Some c -> exists c', alter f i l !! j = Some c' /\ later_capture c c'.
Proof.
  intros H j c Hc. pose proof (alter_Forall2 later_capture f i l H) as Hf.
  rewrite Forall2_lookup in Hf. specialize (Hf j). rewrite Hc in Hf.
  inversion Hf as [? c' ? E E'|]; subst. by exists c'.
Qed.

Lemma obs_step_later r r' : reconciler_inv r -> obs_step r r' -> later_reconciler r r'.
Proof.
  unfold reconciler_inv. rewrite Forall_lookup.
  intros I [h input reading|i call|i c e Hc He|i c output reading Hc Hp Hr].
  - unfold start_capture.
    destruct ('(expected, observationRef) ← capture_input h input; _) as [[[x ref] now]|] eqn:E; [|done].
    apply bind_Ok in E as ([x' ref'] & _ & E). apply bind_Ok in E as (now' & Hnow & [= <- <- <-]).
    split; [|by eapply sample_clock_le].
    intros i c Hc. exists c. split; [by apply lookup_app_l_Some|done].
  - split; [|done]. apply alter_later_captures. intros c Hc. pose proof (ci_channel _ _ (I _ _ Hc)) as Hs.
    apply with_channel_later; [intros p; by apply settled_promise_callback|].
    destruct Hs; rewrite ?callback_running, ?callback_waiting, ?callback_settled by done; done.
  - split; [|done]. apply alter_later_captures. intros c' Hc'. replace c' with c by congruence.
    apply with_channel_later; revert He; destruct (ci_channel _ _ (I _ _ Hc)); try (intros [=]; fail); intros _.
    + by intros p [=].
    + by intros [=].
  - unfold after_clock. destruct (finish_call _ output reading (ob_last r)) as [result last] eqn:Hf.
    split; [|by eapply finish_clock]. apply alter_later_captures. intros c' Hc'. replace c' with c by congruence.
    split; [done|done|by rewrite Hr|]. unfold phase. cbn [with_result cp_result]. rewrite Hr, Hp. lia.
Qed.

Lemma obs_rtc_later r r' : reconciler_inv r -> rtc obs_step r r' -> later_reconciler r r'.
Proof.
  intros I H. induction H as [|r1 r2 r3 Hs _ IH]; [done|].
  etrans; [by eapply obs_step_later|]. apply IH. by eapply obs_step_inv.
Qed.

(** C26: Every reconciliation of a reachable state compares the terms of an exact
    authorization with the data the observer delivered: the data is a well-formed
    observation made no later than the trusted time, the verdict and the reasons
    are exactly what the comparison shows, and both hashes commit to it. *)
Theorem reconciliation_sound r i c o hash rn :
  obs_reachable r -> captures r !! i = Some c -> cp_result c = Some (Ok (o, hash, rn)) ->
  exists v now issued expires executed observed,
    promise (cp_channel c) = Some (Ok v) /\ terms_ok (cp_expected c) issued expires /\
    observed_as v now o executed observed /\ (exists t, ob_last r = Some t /\ now <= t) /\
    commits_observation o hash /\ reconciles (cp_expected c) o hash rn /\
    verdict_exact (cp_expected c) issued expires o executed (rn_classification rn).
Proof.
  intros I%obs_reachable_inv Hc Hres. unfold reconciler_inv in I. rewrite Forall_lookup in I.
  destruct (I _ _ Hc) as [(issued & e & Hx) _ _ Hf]. destruct (Hf _ _ _ Hres) as (v & now & [Hp Hn Hr]).
  apply (reconcile_Ok _ issued e) in Hr as ((ex & ob & Ho) & Hco & Hrec); [|done].
  exists v, now, issued, e, ex, ob. split_and!; try done.
  destruct Hrec as (-> & _ & _). by eapply classify_exact.
Qed.

(** C28: Once a delivery has been accepted and the clock answers, the call returns
    the reconciliation of that observation if it is well-formed, and otherwise
    throws the observer error; nothing else can happen. *)
Theorem reconciliation_exact r i c v reading now :
  obs_reachable r -> captures r !! i = Some c -> promise (cp_channel c) = Some (Ok v) ->
  obs_sampleTrustedClock (ob_last r) reading = Ok now ->
  match finish_call (cp_expected c) (Ok v) reading (ob_last r) with
  | (Ok (o, hash, rn), last) =>
      last = Some now /\ (exists executed observed, observed_as v now o executed observed) /\
      commits_observation o hash /\ reconciles (cp_expected c) o hash rn
  | (Throw e, last) =>
      last = Some now /\ is_observation_error e /\
      err_code e = js "POMRX_OBS_E_OBSERVER_INVALID" /\
      forall o executed observed, ~ observed_as v now o executed observed
  end.
Proof.
  intros I%obs_reachable_inv Hc _ Hn. unfold reconciler_inv in I. rewrite Forall_lookup in I.
  destruct (ci_terms _ _ (I _ _ Hc)) as (issued & e & Hx). unfold finish_call. rewrite Hn.
  destruct (reconcile (cp_expected c) v now) as [[[o hash] rn]|er] eqn:E.
  - split; [done|]. by apply (reconcile_Ok _ issued e) in E.
  - split; [done|]. by eapply reconcile_throws.
Qed.

Lemma capture_moves r i c f :
  captures r !! i = Some c -> alter f i (captures r) !! i = Some (f c).
Proof. intros H. rewrite list_lookup_alter, decide_True, H by done. done. Qed.

(** What the observer's end makes of what it reported before. *)
Definition end_outcome (e : observer_end) (terminal : option (res jsv)) : option (res jsv) :=
  match e with
  | ObserverThrew => Some (Throw observerFailureError)
  | ObserverReturned HUndef => terminal
  | ObserverReturned _ => Some (Throw (observerProtocolError
      "independent observer must deliver through the one-shot capture callback and return undefined"))
  end.

(** What a report makes of the ones before it, while the observer runs. *)
Definition sync_report (call : observer_call) (terminal : option (res jsv)) : res jsv :=
  match terminal, call with
  | Some _, _ => Throw (observerProtocolError
      "independent observer reported conflicting synchronous terminal outcomes")
  | None, CallDeliver h v => snapshotPlainData h v "independent observation" "POMRX_OBS_E_OBSERVER_INVALID"
  | None, CallFail => Throw observerFailureError
  end.

(** The call [i] in the state [r] is in the phase [n], with a channel [ch]. *)
Definition in_phase (r : reconciler) (i n : nat) (ch : channel) : Prop :=
  exists c, captures r !! i = Some c /\ phase c = n /\ cp_channel c = ch.

Lemma alter_in_phase r i c f n ch last :
  captures r !! i = Some c -> phase (with_channel f c) = n -> f (cp_channel c) = ch ->
  in_phase {| ob_last := last; captures := alter (with_channel f) i (captures r) |} i n ch.
Proof. intros Hc Hn Hch. exists (with_channel f c). split; [by apply capture_moves|]. by split. Qed.

(** C29: Whatever else runs, a call keeps its terms, the outcome of its promise and
    its result.  And it is never stuck: in each phase, every event it can wait for
    is a step, and takes it on.  While the observer runs, the first report is kept,
    and a second one turns it into a protocol error.  The end of the observer
    settles the promise with the failure when it threw, with the protocol error
    when it returned a value, with the report when there is one, and otherwise the
    call waits.  Then the first report, a delivery or a failure, settles the
    promise with itself.  A settled call gets its result at the next answer of
    the clock: the failure, or the outcome of the comparison at that time. *)
Theorem reconciliation_progress r i c :
  obs_reachable r -> captures r !! i = Some c ->
  (forall r', rtc obs_step r r' -> exists c', captures r' !! i = Some c' /\ later_capture c c') /\
  match phase c with
  | 0%nat => exists t, cp_channel c = running t /\
      (forall call, obs_step r (after_callback i call r) /\
         in_phase (after_callback i call r) i 0 (running (Some (sync_report call t)))) /\
      (forall e, obs_step r (after_end i e r) /\
         match end_outcome e t with
         | Some p => in_phase (after_end i e r) i 2 (settled_with p)
         | None => in_phase (after_end i e r) i 1 waiting
         end)
  | 1%nat => cp_channel c = waiting /\
      forall call, obs_step r (after_callback i call r) /\
        in_phase (after_callback i call r) i 2 (settled_with (sync_report call None))
  | 2%nat => exists output, cp_channel c = settled_with output /\
      forall reading, let r' := after_clock i (cp_expected c) output reading r in
        obs_step r r' /\
        exists c' result, captures r' !! i = Some c' /\ cp_result c' = Some result /\
          match output with
          | Throw e => result = Throw e /\ ob_last r' = ob_last r
          | Ok v =>
              match obs_sampleTrustedClock (ob_last r) reading with
              | Throw e => result = Throw e /\ ob_last r' = ob_last r
              | Ok now => result = reconcile (cp_expected c) v now /\ ob_last r' = Some now
              end
          end
  | _ => is_Some (cp_result c)
  end.
Proof.
  intros I%obs_reachable_inv Hc. split.
  { intros r' Hr. by apply (lo_captures _ _ (obs_rtc_later _ _ I Hr)). }
  unfold reconciler_inv in I. rewrite Forall_lookup in I. pose proof (ci_channel _ _ (I _ _ Hc)) as Hs.
  unfold phase. destruct (cp_result c) as [x|] eqn:Hres; [by eexists|].
  destruct c as [x ch res]. cbn [cp_channel cp_result] in *. subst res.
  destruct Hs as [t| |t]; cbn [promise invocationReturned running waiting settled_with] in *.
  - exists t. split; [done|]. split.
    + intros call. split; [apply step_callback|]. eapply alter_in_phase; [done|..]; cbn [cp_channel].
      * unfold phase. cbn [with_channel cp_channel cp_result]. by rewrite callback_running.
      * rewrite callback_running. by destruct t, call.
    + intros e. split; [by eapply step_ended|].
      assert (observer_ended e (running t) =
        match end_outcome e t with Some p => settled_with p | None => waiting end) as E.
      { rewrite ended_running. unfold end_outcome. by destruct e as [|[]]. }
      destruct (end_outcome e t) as [p|]; (eapply alter_in_phase; [done|..]; [|exact E]);
        unfold phase; cbn [with_channel cp_channel cp_result]; by rewrite E.
  - split; [done|]. intros call. split; [apply step_callback|].
    assert ((observer_callback call waiting).2 = settled_with (sync_report call None)) as E
      by (rewrite callback_waiting; by destruct call).
    eapply alter_in_phase; [done| |exact E]. unfold phase. cbn [with_channel cp_channel cp_result]. by rewrite E.
  - exists t. split; [done|]. intros reading. cbv zeta. split; [by eapply (step_finish r i)|].
    unfold after_clock, finish_call. cbn [cp_expected].
    destruct t as [v|e]; [destruct (obs_sampleTrustedClock (ob_last r) reading) as [now|e]|];
      (eexists _, _; split; [by apply capture_moves|]; split; [done|]; by split).
Qed.

(** ** What a reconciliation hash binds *)

Definition observation_collision (o1 o2 : observation) : Prop :=
  exists t1 t2, canonicalizePayload (VObj PObject (observation_entries o1)) = Ok t1 /\
    canonicalizePayload (VObj PObject (observation_entries o2)) = Ok t2 /\ t1 <> t2 /\
    sha256Hex (observation_input t1) = sha256Hex (observation_input t2).
Definition reconciliation_collision (rn1 rn2 : reconciliation) : Prop :=
  exists t1 t2, canonicalizePayload (VObj PObject (rn_payload rn1)) = Ok t1 /\
    canonicalizePayload (VObj PObject (rn_payload rn2)) = Ok t2 /\ t1 <> t2 /\
    sha256Hex (reconciliation_input t1) = sha256Hex (reconciliation_input t2).

(** The terms a reconciliation commits to; the window is in the authorization. *)
Definition same_terms (x1 x2 : expected_terms) : Prop :=
  xt_profile x1 = xt_profile x2 /\ xt_run x1 = xt_run x2 /\
  xt_authorization x1 = xt_authorization x2 /\ xt_action x1 = xt_action x2 /\
  xt_context x1 = xt_context x2 /\ xt_status x1 = xt_status x2 /\ xt_effect x1 = xt_effect x2.

Lemma flat_fields_normal (l : list (jsstr * jsv)) :
  Forall (fun kv => flat_field kv.2) l -> Forall (fun kv => is_normal kv.2 /\ wf_value kv.2) l.
Proof.
  intros H. eapply Forall_impl; [exact H|]. intros [k v] Hv. split; [by apply flat_field_normal|].
  by destruct v.
Qed.

Lemma null_or_str_inj o1 o2 : null_or_str o1 = null_or_str o2 -> o1 = o2.
Proof. destruct o1, o2; simpl; congruence. Qed.

Lemma observation_entries_inj o1 o2 : observation_entries o1 = observation_entries o2 -> o1 = o2.
Proof.
  destruct o1, o2. unfold observation_entries. cbn. intros H. injection H as -> -> -> -> ?%status_name_inj
    ?%null_or_str_inj -> ->. by subst.
Qed.

Lemma commits_observation_inj v1 n1 o1 e1 b1 v2 n2 o2 e2 b2 hash :
  observed_as v1 n1 o1 e1 b1 -> observed_as v2 n2 o2 e2 b2 ->
  commits_observation o1 hash -> commits_observation o2 hash ->
  o1 = o2 \/ observation_collision o1 o2.
Proof.
  intros [_ F1]%observation_flat [_ F2]%observation_flat (t1 & C1 & ->) (t2 & C2 & E).
  destruct (decide (t1 = t2)) as [<-|Hne]; [left|right; by exists t1, t2].
  apply observation_entries_inj.
  eapply (record_text_inj PObject PObject); [done| |by apply flat_fields_normal..|exact C1|exact C2].
  decide_now.
Qed.

Lemma expected_status_name_inj s1 s2 : expected_status_name s1 = expected_status_name s2 -> s1 = s2.
Proof. destruct s1, s2; vm_compute; congruence. Qed.
Lemma verdict_text_inj v1 v2 : verdict_text v1 = verdict_text v2 -> v1 = v2.
Proof. destruct v1, v2; vm_compute; congruence. Qed.
#[local] Instance VStr_inj : Inj (=) (=) VStr.
Proof. by intros ?? [=]. Qed.

Lemma reconciliation_payload_inj x1 h1 c1 x2 h2 c2 :
  reconciliation_payload x1 h1 c1 = reconciliation_payload x2 h2 c2 ->
  same_terms x1 x2 /\ h1 = h2 /\ c1 = c2.
Proof.
  destruct x1, x2, c1, c2. unfold reconciliation_payload, same_terms. cbn. intros H.
  injection H as -> -> -> -> -> ?%expected_status_name_inj ?%null_or_str_inj -> ?%verdict_text_inj Hr.
  apply (inj (fmap VStr)) in Hr. by subst.
Qed.

(** Two reconciliations with the same hash agree on the authorization, on every
    other term they name, on the whole observation and on the verdict and its
    reasons, or they show a SHA-256 collision. *)
Theorem reconciliation_binds r1 i1 c1 o1 h1 rn1 r2 i2 c2 o2 h2 rn2 :
  obs_reachable r1 -> captures r1 !! i1 = Some c1 -> cp_result c1 = Some (Ok (o1, h1, rn1)) ->
  obs_reachable r2 -> captures r2 !! i2 = Some c2 -> cp_result c2 = Some (Ok (o2, h2, rn2)) ->
  rn_hash rn1 = rn_hash rn2 ->
  (same_terms (cp_expected c1) (cp_expected c2) /\ o1 = o2 /\
   rn_classification rn1 = rn_classification rn2) \/
  observation_collision o1 o2 \/ reconciliation_collision rn1 rn2.
Proof.
  intros I1%obs_reachable_inv E1 R1 I2%obs_reachable_inv E2 R2 Hh.
  unfold reconciler_inv in I1, I2. rewrite Forall_lookup in I1, I2.
  destruct (I1 _ _ E1) as [(a1 & b1 & X1) _ _ F1], (I2 _ _ E2) as [(a2 & b2 & X2) _ _ F2].
  destruct (F1 _ _ _ R1) as (v1 & n1 & [_ _ G1]), (F2 _ _ _ R2) as (v2 & n2 & [_ _ G2]).
  apply (reconcile_Ok _ a1 b1) in G1 as ((e1 & ob1 & O1) & K1 & L1 & P1 & t1 & T1 & H1); [|done].
  apply (reconcile_Ok _ a2 b2) in G2 as ((e2 & ob2 & O2) & K2 & L2 & P2 & t2 & T2 & H2); [|done].
  destruct (decide (t1 = t2)) as [<-|Hne].
  2:{ right; right. exists t1, t2. split_and!; try done. congruence. }
  assert (forall x a b o h, terms_ok x a b -> commits_observation o h ->
    Forall (fun kv => is_normal kv.2 /\ wf_value kv.2) (reconciliation_payload x h (classify x o))) as Hn.
  { intros x a b o h Hx Ho. rewrite reconciliation_payload_split. apply Forall_app. split.
    - eapply flat_fields_normal, reconciliation_fields_flat; [done|by eapply commits_observation_format].
    - apply List.Forall_cons; [|done]. pose proof (reasons_flat x o) as Hr. split.
      + apply list_normal. eapply Forall_impl; [exact Hr|]. apply flat_field_normal.
      + cbn [wf_value]. apply fold_right_Forall. eapply Forall_impl; [exact Hr|]. by intros []. }
  rewrite P1 in T1. rewrite P2 in T2.
  assert (reconciliation_payload (cp_expected c1) h1 (classify (cp_expected c1) o1)
    = reconciliation_payload (cp_expected c2) h2 (classify (cp_expected c2) o2)) as Hp.
  { eapply (record_text_inj PObject PObject); [done| |by eapply Hn..|exact T1|exact T2]. decide_now. }
  apply reconciliation_payload_inj in Hp as (Hs & -> & Hcl).
  destruct (commits_observation_inj _ _ _ _ _ _ _ _ _ _ _ O1 O2 K1 K2) as [->|?]; [left|by right; left].
  split; [done|]. split; [done|]. congruence.
Qed.
End observation_proofs.

(** ** A run *)

Section observation_witness.
#[local] Existing Instances plain_string_host checksum_hash_host iso_date_host.

Definition sample_call_input : jsv :=
  VObj PObject
    [(js "expected", VObj PObject
       [(js "authorization_binding", binding_value sample_prepared.1);
        (js "expected_execution_status", VStr (js "success"));
        (js "expected_effect_commitment", VNull)]);
     (js "observationRef", VStr (js "transaction-1"))].
Definition sample_observed : jsv :=
  VObj PObject
    [(js "binding_profile", VStr (js "profile/v1")); (js "run_id", VStr (js "run-0000000000000001"));
     (js "action_commitment", VStr (repeat 99%N 64)); (js "context_commitment", VStr (repeat 100%N 64));
     (js "execution_status", VStr (js "success")); (js "effect_commitment", VStr (repeat 97%N 64));
     (js "executed_at", VStr (js "2026-03-01T00:00:20.000Z"));
     (js "observed_at", VStr (js "2026-03-01T00:00:21.000Z"))].

Definition obs_world : list hval * list hobj :=
  Eval vm_compute in
    let '(input, objects) := store sample_call_input [] in
    let '(observed, objects) := store sample_observed objects in ([input; observed], objects).
Definition obs_heap : heap := heap_of obs_world.2.
Definition obs_input : hval := default HUndef (obs_world.1 !! 0%nat).
Definition obs_value : hval := default HUndef (obs_world.1 !! 1%nat).

Definition started_reconciler : reconciler :=
  Eval vm_compute in
    (start_capture obs_heap obs_input (reading_at "2026-03-01T00:00:10.000Z") empty_reconciler).2.
Definition capture0 (r : reconciler) : capture :=
  default {| cp_expected := Build_expected_terms [] [] [] [] [] [] [] ExpectAny None;
             cp_channel := new_channel; cp_result := None |} (captures r !! 0%nat).
Definition delivered_reconciler : reconciler :=
  Eval vm_compute in after_callback 0 (CallDeliver obs_heap obs_value) started_reconciler.
Definition ended_reconciler : reconciler :=
  Eval vm_compute in after_end 0 (ObserverReturned HUndef) delivered_reconciler.
Definition obs_finish : clock_reading := reading_at "2026-03-01T00:00:30.000Z".
Definition sample_finish : res (observation * jsstr * reconciliation) * option Z :=
  Eval vm_compute in
    finish_call (cp_expected (capture0 ended_reconciler))
      (default (Throw observerFailureError) (promise (cp_channel (capture0 ended_reconciler))))
      obs_finish (ob_last ended_reconciler).
Definition finished_reconciler : reconciler :=
  Eval vm_compute in
    after_clock 0 (cp_expected (capture0 ended_reconciler))
      (default (Throw observerFailureError) (promise (cp_channel (capture0 ended_reconciler))))
      obs_finish ended_reconciler.

Lemma started_step : obs_step empty_reconciler started_reconciler.
Proof.
  assert (started_reconciler = (start_capture obs_heap obs_input
    (reading_at "2026-03-01T00:00:10.000Z") empty_reconciler).2) as -> by (vm_compute; reflexivity).
  apply step_start.
Qed.
Lemma delivered_step : obs_step started_reconciler delivered_reconciler.
Proof.
  assert (delivered_reconciler = after_callback 0 (CallDeliver obs_heap obs_value) started_reconciler) as ->
    by (vm_compute; reflexivity).
  apply step_callback.
Qed.
Lemma ended_step : obs_step delivered_reconciler ended_reconciler.
Proof.
  assert (ended_reconciler = after_end 0 (ObserverReturned HUndef) delivered_reconciler) as ->
    by (vm_compute; reflexivity).
  by apply (step_ended delivered_reconciler 0 (capture0 delivered_reconciler)).
Qed.
Lemma ended_reachable : obs_reachable ended_reconciler.
Proof.
  eapply rtc_l; [apply started_step|]. eapply rtc_l; [apply delivered_step|]. apply rtc_once, ended_step.
Qed.
Lemma finished_reachable : obs_reachable finished_reconciler.
Proof.
  eapply rtc_r; [apply ended_reachable|].
  assert (finished_reconciler = after_clock 0 (cp_expected (capture0 ended_reconciler))
      (default (Throw observerFailureError) (promise (cp_channel (capture0 ended_reconciler))))
      obs_finish ended_reconciler) as -> by (vm_compute; reflexivity).
  apply (step_finish ended_reconciler 0 (capture0 ended_reconciler)); vm_compute; reflexivity.
Qed.

Definition sample_reconciled : observation * jsstr * reconciliation :=
  Eval vm_compute in
    match sample_finish.1 with
    | Ok x => x
    | Throw _ => (Build_observation [] [] [] [] Unknown None [] [], [],
                  Build_reconciliation [] (Build_classification MISMATCH []) [])
    end.
Lemma sample_result_Ok :
  cp_result (capture0 finished_reconciler)
  = Some (Ok (sample_reconciled.1.1, sample_reconciled.1.2, sample_reconciled.2)).
Proof. vm_compute. reflexivity. Qed.

Lemma reconciliation_sound_witness :
  cl_verdict (rn_classification sample_reconciled.2) = MATCH /\
  exists v now executed observed, observed_as v now sample_reconciled.1.1 executed observed.
Proof.
  split; [vm_compute; reflexivity|].
  destruct (reconciliation_sound finished_reconciler 0 (capture0 finished_reconciler)
    sample_reconciled.1.1 sample_reconciled.1.2 sample_reconciled.2 finished_reachable eq_refl
    sample_result_Ok) as (v & now & i & e & ex & ob & _ & _ & H & _).
  exists v, now, ex, ob. exact H.
Defined.

Lemma reconciliation_exact_witness :
  exists v, promise (cp_channel (capture0 ended_reconciler)) = Some (Ok v) /\
    exists executed observed, observed_as v 1772323230000 sample_reconciled.1.1 executed observed.
Proof.
  destruct (promise (cp_channel (capture0 ended_reconciler))) as [[v|]|] eqn:E; try discriminate E.
  exists v. split; [reflexivity|].
  assert (obs_sampleTrustedClock (ob_last ended_reconciler) obs_finish = Ok 1772323230000) as Hn
    by (vm_compute; reflexivity).
  assert (finish_call (cp_expected (capture0 ended_reconciler)) (Ok v) obs_finish
    (ob_last ended_reconciler)
    = (Ok (sample_reconciled.1.1, sample_reconciled.1.2, sample_reconciled.2), sample_finish.2)) as Hf.
  { injection E as <-. vm_compute. reflexivity. }
  pose proof (reconciliation_exact ended_reconciler 0 (capture0 ended_reconciler) v obs_finish
    1772323230000 ended_reachable eq_refl E Hn) as H. rewrite Hf in H.
  destruct H as (_ & H & _). exact H.
Defined.

(** The call of the run gets its result at the next reading of the clock. *)
Lemma reconciliation_progress_witness :
  exists output, cp_channel (capture0 ended_reconciler) = settled_with output /\
    let r := after_clock 0 (cp_expected (capture0 ended_reconciler)) output obs_finish ended_reconciler in
    obs_step ended_reconciler r /\ exists c result, captures r !! 0%nat = Some c /\ cp_result c = Some result.
Proof.
  destruct (reconciliation_progress ended_reconciler 0 (capture0 ended_reconciler) ended_reachable
    eq_refl) as [_ H].
  destruct H as (output & E & H). destruct (H obs_finish) as (Hs & c & result & Hc & Hr & _).
  exists output. split; [exact E|]. split; [exact Hs|]. by exists c, result.
Defined.

Lemma reconciliation_binds_witness :
  same_terms (cp_expected (capture0 finished_reconciler)) (cp_expected (capture0 finished_reconciler)) \/
  observation_collision sample_reconciled.1.1 sample_reconciled.1.1 \/
  reconciliation_collision sample_reconciled.2 sample_reconciled.2.
Proof.
  destruct (reconciliation_binds finished_reconciler 0 (capture0 finished_reconciler)
    sample_reconciled.1.1 sample_reconciled.1.2 sample_reconciled.2 finished_reconciler 0
    (capture0 finished_reconciler) sample_reconciled.1.1 sample_reconciled.1.2 sample_reconciled.2
    finished_reachable eq_refl sample_result_Ok finished_reachable eq_refl sample_result_Ok eq_refl)
    as [(H & _) | H]; [left; exact H | right; exact H].
Defined.
End observation_witness.
