(* ===== verification/FileSystem.v ===== *)
(** * The file system calls of the claim store

    The durable claim store is the only part of the core that keeps its state in
    files, so its operations are programs of a small free monad over the calls
    of [node:fs/promises] they make; the reading of those calls is here.  A world
    has the entries that calls see and those that are on the disk: a directory
    is written by [sync] of its handle, a file by [sync] of its own, and a crash
    may undo everything that was not.  Every call may fail for reasons of its
    own.  Paths are lists of names; the functions of [node:path] on absolute
    paths are list operations. *)
From stdpp Require Import fin_maps.
From S2P Require Import Prelude JsDate JsValue ProofSdk.

#[local] Arguments js : simpl never.

Definition path := list jsstr.

(** The parts of [process] and [node:path] the store consults. *)
Class ProcessHost := {
  current_uid : option Z;                     (* process.getuid, where there is one *)
  is_win32 : bool;                            (* process.platform === 'win32' *)
  process_pid : jsstr;
  absolute_path : jsstr -> option path;       (* path.resolve of an absolute path *)
  real_path : path -> path;                   (* where a path leads through links *)
}.

(** What [readFile] decodes, the size, and whether the contents are on the disk. *)
Record file := { f_text : jsstr; f_size : N; f_synced : bool }.
#[export] Instance file_eq_dec : EqDecision file.
Proof. solve_decision. Defined.
Inductive node :=
  | NDir (mode uid : Z)
  | NFile (f : file)
  | NOther (symlink : bool).
#[export] Instance node_eq_dec : EqDecision node.
Proof. solve_decision. Defined.

(** The answers of [lstat] that the store reads; mode and owner of directories only. *)
Definition is_file (n : node) : bool := match n with NFile _ => true | _ => false end.
Definition is_directory (n : node) : bool := match n with NDir _ _ => true | _ => false end.
Definition is_symbolic_link (n : node) : bool := match n with NOther b => b | _ => false end.
Definition stat_mode (n : node) : Z := match n with NDir mode _ => mode | _ => 0 end.
Definition stat_uid (n : node) : Z := match n with NDir _ uid => uid | _ => 0 end.
Definition stat_size (n : node) : N := match n with NFile f => f_size f | _ => 0 end.

(** The directory entries as calls see them and as they are on the disk. *)
Record fs := { fs_live : gmap path node; fs_disk : gmap path node }.

(** A handle is named by the path it was opened with. *)
Inductive fs_call :=
  | Lstat (p : path)
  | Realpath (p : path)
  | Mkdir (p : path)                          (* mkdir(p, { mode: 0o700 }) *)
  | OpenDir (p : path)                        (* open(p, 'r') *)
  | OpenNew (p : path)                        (* open(p, 'wx', 0o600) *)
  | WriteFile (p : path) (text : jsstr)       (* handle.writeFile(text, 'utf8') *)
  | Sync (p : path)                           (* handle.sync() *)
  | Close (p : path)                          (* handle.close() *)
  | Link (p q : path)
  | Unlink (p : path)
  | ReadFile (p : path).                      (* readFile(p, 'utf8') *)

Definition fs_ret (c : fs_call) : Set :=
  match c with
  | Lstat _ => node
  | Realpath _ => path
  | ReadFile _ => jsstr
  | _ => unit
  end.
(** The value of a call or the [code] of its error. *)
Definition fs_answer (c : fs_call) : Set := fs_ret c + jsstr.

Definition ENOENT : jsstr := js "ENOENT".
Definition EEXIST : jsstr := js "EEXIST".

Definition parent (p : path) : path := take (length p - 1) p.

Section fs_host.
Context `{PH : !ProcessHost}.

Definition with_live (s : fs) (live : gmap path node) : fs :=
  {| fs_live := live; fs_disk := fs_disk s |}.

Definition is_child (d p : path) : bool :=
  match p with [] => false | _ => bool_decide (parent p = d) end.

(** The entries of the directory [d] are written to the disk. *)
Definition sync_dir (d : path) (s : fs) : fs :=
  {| fs_live := fs_live s;
     fs_disk := map_imap (fun p n => if is_child d p then Some n else None) (fs_live s)
                ∪ map_imap (fun p n => if is_child d p then None else Some n) (fs_disk s) |}.

Definition sync_file (f : file) : file :=
  {| f_text := f_text f; f_size := f_size f; f_synced := true |}.
Definition unsynced (text : jsstr) : file :=
  {| f_text := text; f_size := utf8_length text; f_synced := false |}.

(** The file at [p] gets new contents, under all entries with that path. *)
Definition set_file (p : path) (f : file) (s : fs) : fs :=
  let set n := match n with NFile _ => NFile f | _ => n end in
  {| fs_live := alter set p (fs_live s); fs_disk := alter set p (fs_disk s) |}.

(** Whether an entry can be made at [p]: its directory is there. *)
Definition in_directory (p : path) (live : gmap path node) : bool :=
  match p, live !! parent p with _ :: _, Some (NDir _ _) => true | _, _ => false end.

(** A call that nothing external goes wrong with: its answer and what it does. *)
Definition fs_exec (c : fs_call) (s : fs) : fs_answer c * fs :=
  let live := fs_live s in
  match c return fs_answer c * fs with
  | Lstat p => (match live !! p with Some n => inl n | None => inr ENOENT end, s)
  | Realpath p => (match live !! p with Some _ => inl (real_path p) | None => inr ENOENT end, s)
  | Mkdir p =>
      match live !! p, in_directory p live with
      | Some _, _ => (inr EEXIST, s)
      | None, false => (inr ENOENT, s)
      | None, true => (inl tt, with_live s (<[p := NDir 448 (default 0 current_uid)]> live))
      end
  | OpenDir p => (match live !! p with Some _ => inl tt | None => inr ENOENT end, s)
  | OpenNew p =>
      match live !! p, in_directory p live with
      | Some _, _ => (inr EEXIST, s)
      | None, false => (inr ENOENT, s)
      | None, true => (inl tt, with_live s (<[p := NFile (unsynced [])]> live))
      end
  | WriteFile p text => (inl tt, set_file p (unsynced text) s)
  | Sync p =>
      match live !! p with
      | Some (NFile f) => (inl tt, set_file p (sync_file f) s)
      | _ => (inl tt, sync_dir p s)
      end
  | Close p => (inl tt, s)
  | Link p q =>
      match live !! p, live !! q, in_directory q live with
      | None, _, _ | _, None, false => (inr ENOENT, s)
      | Some _, Some _, _ => (inr EEXIST, s)
      | Some (NDir _ _), None, true => (inr (js "EPERM"), s)
      | Some n, None, true => (inl tt, with_live s (<[q := n]> live))
      end
  | Unlink p =>
      match live !! p with
      | Some (NDir _ _) => (inr (js "EPERM"), s)
      | Some _ => (inl tt, with_live s (delete p live))
      | None => (inr ENOENT, s)
      end
  | ReadFile p =>
      (match live !! p with
       | Some (NFile f) => inl (f_text f)
       | Some _ => inr (js "EISDIR")
       | None => inr ENOENT
       end, s)
  end.

(** What a failed call may leave behind: a failed write any contents. *)
Definition fault_leaves (c : fs_call) (s s' : fs) : Prop :=
  match c with
  | WriteFile p _ =>
      s' = s \/ exists text, s' = set_file p (unsynced text) s
  | _ => s' = s
  end.

Inductive fs_step (c : fs_call) (s : fs) : fs_answer c -> fs -> Prop :=
  | fs_works : fs_step c s (fs_exec c s).1 (fs_exec c s).2
  | fs_faults code s' :
      code <> ENOENT -> code <> EEXIST -> fault_leaves c s s' -> fs_step c s (inr code) s'.

(** An entry after a crash: contents that were not on the disk may be anything. *)
Definition survives (n n' : node) : Prop :=
  match n with
  | NFile f => if f_synced f then n' = n else exists f', n' = NFile f'
  | _ => n' = n
  end.

(** Links share their file here only until it is written again, which the store
    never does.  Entries that [volatile] does not name come back from the disk or as they
    were; those it names, the temporary files, may come back in any way.  Paths are
    the keys, so an entry that is on the disk comes back whether or not the entries
    of the directories above it are there.  The store syncs the directory of its
    root, then its root, before it makes anything below a new entry, so this only
    leaves out the loss of directories above those. *)
Definition crashes (volatile : path -> Prop) (s s' : fs) : Prop :=
  fs_live s' = fs_disk s' /\
  forall p, volatile p \/
    match fs_live s' !! p with
    | None => fs_live s !! p = None \/ fs_disk s !! p = None
    | Some n' => exists n, (fs_live s !! p = Some n \/ fs_disk s !! p = Some n) /\ survives n n'
    end.
End fs_host.

(** ** Programs

    A program makes calls and continues with their answers; it ends with a value
    or throws.  Nothing runs between two calls of one program, as between two
    [await]s. *)

Section programs.
Context {E : Type} {R : E -> Type}.

Inductive prog (A : Type) :=
  | Done (r : res A)
  | Perform (e : E) (k : R e -> prog A).
Arguments Done {A} _.
Arguments Perform {A} _ _.

Fixpoint prog_then {A B} (p : prog A) (f : res A -> prog B) : prog B :=
  match p with
  | Done r => f r
  | Perform e k => Perform e (fun a => prog_then (k a) f)
  end.
#[global] Instance prog_bind : MBind prog := fun A B f p =>
  prog_then p (fun r => match r with Ok a => f a | Throw e => Done (Throw e) end).

Definition perform (e : E) : prog (R e) := Perform e (fun a => Done (Ok a)).

(** [try { p } catch (e) { h(e) }] *)
Definition try_catch {A} (p : prog A) (h : jserr -> prog A) : prog A :=
  prog_then p (fun r => match r with Ok a => Done (Ok a) | Throw e => h e end).
(** The outcome of [p] as a value. *)
Definition attempt {A} (p : prog A) : prog (res A) := prog_then p (fun r => Done (Ok r)).

(** ** Reasoning about programs

    A monitor follows a program from the outside: [allowed m e] is what the
    program owes before it makes the call [e] in the monitor's state [m], and
    [after m e a] the state after the answer [a], which is a [possible] one. *)
Context {M : Type} (allowed : M -> E -> Prop) (possible : forall e, R e -> Prop)
  (after : M -> forall e, R e -> M).

Fixpoint wp {A} (m : M) (p : prog A) (Q : M -> res A -> Prop) : Prop :=
  match p with
  | Done r => Q m r
  | Perform e k => allowed m e /\ forall a, possible e a -> wp (after m e a) (k a) Q
  end.

Lemma wp_mono {A} m (p : prog A) (Q Q' : M -> res A -> Prop) :
  (forall m r, Q m r -> Q' m r) -> wp m p Q -> wp m p Q'.
Proof.
  intros HQ. revert m. induction p as [r|e k IH]; simpl; [auto|]. intros m [? H]. auto.
Qed.

Lemma wp_then {A B} m (p : prog A) (f : res A -> prog B) Q :
  wp m (prog_then p f) Q <-> wp m p (fun m r => wp m (f r) Q).
Proof.
  revert m. induction p as [r|e k IH]; simpl; [done|]. intros m.
  split; intros [? H]; (split; [done|]); intros a Ha; by apply IH, H.
Qed.

Lemma wp_bind {A B} m (p : prog A) (f : A -> prog B) Q :
  wp m (p ≫= f) Q <->
  wp m p (fun m r => match r with Ok a => wp m (f a) Q | Throw e => Q m (Throw e) end).
Proof.
  unfold mbind, prog_bind. rewrite wp_then.
  split; apply wp_mono; by intros m' [].
Qed.

Lemma wp_attempt {A} m (p : prog A) Q :
  wp m (attempt p) Q <-> wp m p (fun m r => Q m (Ok r)).
Proof. apply wp_then. Qed.
End programs.
Arguments prog {E} R A.
Arguments Done {E R A} _.
Arguments Perform {E R A} _ _.
