(* ===== verification/DurableClaims.v ===== *)
(** * The durable claim store

    Models [core/gate/reference-durable-claim-store.mjs]: a capability is claimed
    by making its directory and finished by publishing a terminal record, both
    exclusively and both on the disk before the operation succeeds.  The
    operations are programs over the calls of [FileSystem] and the variables of
    a store; any number of stores, in any number of processes, run them
    interleaved on one file system, calls fail, and the machine may crash. *)
From stdpp Require Import fin_maps.
From S2P Require Import Prelude JsDate JsValue ProofSdk Json Canonical Receipt Normal JsHeap PlainData Authorization Gate TrustedClock FileSystem.

#[local] Arguments js : simpl never.

Definition POM_RX_DURABLE_CLAIM_SCHEMA_VERSION : jsstr := js "pom-rx-durable-claim/0.1".
Definition POM_RX_DURABLE_TERMINAL_SCHEMA_VERSION : jsstr := js "pom-rx-durable-terminal/0.1".
Definition CLAIM_COMMIT_DOMAIN : jsstr := js "swisstokint:pom-rx-durable-claim:v1:".
Definition TERMINAL_COMMIT_DOMAIN : jsstr := js "swisstokint:pom-rx-durable-terminal:v1:".
Definition MAX_RECORD_BYTES : N := 16 * 1024.
Definition DURABLE_BOOTSTRAP_KEYS : list jsstr := [js "rootDir"].
Definition INSPECT_KEYS : list jsstr := js <$> ["capabilityId"; "authorizationCommitment"].
Definition CLAIM_RECORD_KEYS : list jsstr := js <$>
  ["schema_version"; "capability_id"; "authorization_commitment"; "claim_commitment";
   "reference_only"; "exclusive_claim_recorded"; "local_filesystem_atomicity_assumed";
   "distributed_consensus_proved"; "network_filesystem_atomicity_proved"; "crash_recovery_proved"].
Definition TERMINAL_RECORD_KEYS : list jsstr := js <$>
  ["schema_version"; "capability_id"; "authorization_commitment"; "claim_commitment";
   "terminal_state"; "terminal_commitment"; "reference_only"].

Definition durable_fail (code : string) (msg : jsstr) : jserr := Err DurableErr (js code) msg.
Definition durable_invalid (msg : jsstr) : jserr := durable_fail "POMRX_GATE_E_DURABLE_INVALID" msg.
Definition durable_corrupt (msg : string) : jserr :=
  durable_fail "POMRX_GATE_E_DURABLE_CORRUPT" (js msg).
Definition durable_io (msg : string) : jserr := durable_fail "POMRX_GATE_E_DURABLE_IO" (js msg).

Definition exactOwnData (h : heap) (value : hval) (expectedKeys : list jsstr) (label : string)
  : res snapshot :=
  let not_plain := durable_invalid (js label ++ js " must be a non-Proxy plain object") in
  o ← match object_of h value with
      | Some o => if bool_decide (o_array o = None) then Ok o else Throw not_plain
      | None => Throw not_plain
      end;
  _ ← guard_or (bool_decide (o_proto o = ObjectPrototype) && (o_symbols o =? 0)%nat)
        (durable_invalid (js label ++ js " must be a plain object without symbols"));
  _ ← guard_or (same_keys (own_names o) expectedKeys)
        (durable_invalid (js label ++ js " has missing, hidden or unknown fields"));
  snapshot_keys o expectedKeys (fun key =>
    durable_invalid (js label ++ js "." ++ key ++ js " must be an enumerable data property")).

Definition validateCapabilityId (value : hval) : res jsstr :=
  match hstr_that capability_id_pattern value with
  | Some s => Ok s
  | None => Throw (durable_invalid (js "capabilityId has an invalid format"))
  end.
Definition validateAuthorizationCommitment (value : hval) : res jsstr :=
  match hstr_that hash_pattern value with
  | Some s => Ok s
  | None => Throw (durable_invalid
              (js "authorizationCommitment must be a lowercase SHA-256 hash"))
  end.

Definition normalizePersistedValidation {A} (label : string) (operation : res A) : res A :=
  catch operation (fun error =>
    if bool_decide (err_cls error = DurableErr)
       && str_eqb (err_code error) (js "POMRX_GATE_E_DURABLE_INVALID")
    then Throw (durable_fail "POMRX_GATE_E_DURABLE_CORRUPT"
                  (js label ++ js " is structurally invalid"))
    else Throw error).

(** The fields of a claim record that are not constant. *)
Record claim_record := {
  cr_capability : jsstr;
  cr_authorization : jsstr;
  cr_commitment : jsstr;
}.
Definition claim_payload (capability authorization : jsstr) : list (jsstr * jsv) :=
  [(js "schema_version", VStr POM_RX_DURABLE_CLAIM_SCHEMA_VERSION);
   (js "capability_id", VStr capability); (js "authorization_commitment", VStr authorization)].
Definition claim_entries (r : claim_record) : list (jsstr * jsv) :=
  claim_payload (cr_capability r) (cr_authorization r) ++
  [(js "claim_commitment", VStr (cr_commitment r)); (js "reference_only", VBool true);
   (js "exclusive_claim_recorded", VBool true); (js "local_filesystem_atomicity_assumed", VBool true);
   (js "distributed_consensus_proved", VBool false);
   (js "network_filesystem_atomicity_proved", VBool false);
   (js "crash_recovery_proved", VBool false)].

Inductive terminal_state := CONSUMED_SUCCESS | CONSUMED_ERROR.
#[export] Instance terminal_state_eq_dec : EqDecision terminal_state.
Proof. solve_decision. Defined.
Definition terminal_name (s : terminal_state) : jsstr :=
  match s with CONSUMED_SUCCESS => js "CONSUMED_SUCCESS" | CONSUMED_ERROR => js "CONSUMED_ERROR" end.
Definition find_terminal (v : hval) : option terminal_state :=
  match v with
  | HStr s => List.find (fun st => str_eqb (terminal_name st) s) [CONSUMED_SUCCESS; CONSUMED_ERROR]
  | _ => None
  end.

(** A terminal record, with the claim it is bound to. *)
Record terminal_record := {
  te_claim : claim_record;
  te_state : terminal_state;
  te_commitment : jsstr;
}.
Definition terminal_payload (c : claim_record) (st : terminal_state) : list (jsstr * jsv) :=
  [(js "schema_version", VStr POM_RX_DURABLE_TERMINAL_SCHEMA_VERSION);
   (js "capability_id", VStr (cr_capability c));
   (js "authorization_commitment", VStr (cr_authorization c));
   (js "claim_commitment", VStr (cr_commitment c)); (js "terminal_state", VStr (terminal_name st))].
Definition terminal_entries (t : terminal_record) : list (jsstr * jsv) :=
  terminal_payload (te_claim t) (te_state t) ++
  [(js "terminal_commitment", VStr (te_commitment t)); (js "reference_only", VBool true)].

(** [{ state, capability_id, ... }] of an inspection *)
Inductive claim_state := ABSENT | RESERVED_INCOMPLETE | RESERVED | CONSUMED (st : terminal_state).
Record inspection := {
  in_state : claim_state;
  in_capability : option jsstr;
  in_authorization : option jsstr;
  in_claim : option jsstr;
  in_terminal : option jsstr;
  in_recorded : bool;                    (* exclusive_claim_recorded *)
}.
Definition makeInspection (state : claim_state) (claim : option claim_record)
    (terminal : option terminal_record) : inspection :=
  {| in_state := state; in_capability := cr_capability <$> claim;
     in_authorization := cr_authorization <$> claim; in_claim := cr_commitment <$> claim;
     in_terminal := te_commitment <$> terminal; in_recorded := bool_decide (is_Some claim) |}.

(** ** The variables of a store *)

Inductive handle_status := HOpen | HFinalizing | HTerminal (st : terminal_state) | HFailedClosed.
#[export] Instance handle_status_eq_dec : EqDecision handle_status.
Proof. solve_decision. Defined.
Record handle_data := {
  hd_status : handle_status;
  hd_directory : path;
  hd_claim : claim_record;
}.
(** [trustedRootPromise] *)
Inductive root_memo := RootUnset | RootPending | RootSettled (r : res path).
Record store := {
  st_root : path;                        (* configuredRoot *)
  st_memo : root_memo;
  st_handles : list handle_data;
}.

(** The calls of the operations: those on files, and the steps on the variables
    of the store, each of which the source takes without an [await]. *)
Inductive op :=
  | Fs (c : fs_call)
  | BeginRoot                            (* reads the promise, and makes it when there is none *)
  | SettleRoot (r : res path)
  | AwaitRoot
  | NewHandle (directory : path) (claim : claim_record)
  | ReserveHandle (handle : option nat) (outcome : hval)
  | SetStatus (i : nat) (status : handle_status).
Definition op_ret (o : op) : Type :=
  match o with
  | Fs c => fs_answer c
  | BeginRoot => root_memo
  | AwaitRoot => res path
  | NewHandle _ _ => nat
  | ReserveHandle _ _ => res (nat * handle_data * terminal_state)
  | SettleRoot _ | SetStatus _ _ => unit
  end.
Abbreviation program := (prog op_ret).

(** A call on files and what follows its answer. *)
Definition on_call {A} (c : fs_call) (k : fs_answer c -> program A) : program A :=
  Perform (R := op_ret) (Fs c) k.
Definition on_store (o : op) : program (op_ret o) := perform o.

(** The start of [complete]: the handle is checked and reserved. *)
Definition with_status (status : handle_status) (d : handle_data) : handle_data :=
  {| hd_status := status; hd_directory := hd_directory d; hd_claim := hd_claim d |}.
Definition set_status (i : nat) (status : handle_status) (s : store) : store :=
  {| st_root := st_root s; st_memo := st_memo s;
     st_handles := alter (with_status status) i (st_handles s) |}.
Definition reserve_handle (handle : option nat) (outcome : hval) (s : store)
  : res (nat * handle_data * terminal_state) * store :=
  match (i ← handle; d ← st_handles s !! i; Some (i, d)) with
  | Some (i, d) =>
      if bool_decide (hd_status d = HOpen)
      then
        if bool_decide (outcome = HStr (js "success"))
        then (Ok (i, d, CONSUMED_SUCCESS), set_status i HFinalizing s)
        else if bool_decide (outcome = HStr (js "error"))
        then (Ok (i, d, CONSUMED_ERROR), set_status i HFinalizing s)
        else (Throw (durable_invalid (js "durable claim outcome must be success or error")), s)
      else (Throw (durable_fail "POMRX_GATE_E_DURABLE_STALE"
                     (js "durable claim handle is foreign or no longer open")), s)
  | None => (Throw (durable_fail "POMRX_GATE_E_DURABLE_STALE"
                      (js "durable claim handle is foreign or no longer open")), s)
  end.

Definition set_memo (memo : root_memo) (s : store) : store :=
  {| st_root := st_root s; st_memo := memo; st_handles := st_handles s |}.

(** A step on the variables; [None] while it has to wait. *)
Definition store_exec (o : op) (s : store) : option (op_ret o * store) :=
  match o return option (op_ret o * store) with
  | Fs _ => None
  | BeginRoot =>
      Some (st_memo s, match st_memo s with RootUnset => set_memo RootPending s | _ => s end)
  | SettleRoot r => Some (tt, set_memo (RootSettled r) s)
  | AwaitRoot => match st_memo s with RootSettled r => Some (r, s) | _ => None end
  | NewHandle directory claim =>
      Some (length (st_handles s),
        {| st_root := st_root s; st_memo := st_memo s;
           st_handles := st_handles s ++
             [{| hd_status := HOpen; hd_directory := directory; hd_claim := claim |}] |})
  | ReserveHandle handle outcome => Some (reserve_handle handle outcome s)
  | SetStatus i status => Some (tt, set_status i status s)
  end.

(** ** The operations *)

Section durable.
Context `{SH : !StringHost, HH : !HashHost, PH : !ProcessHost}.

Definition lift {A} (m : res A) : program A := Done m.
(** A call whose error is thrown on as [error code]. *)
Definition call_or (c : fs_call) (error : jsstr -> jserr) : program (fs_ret c) :=
  on_call c (fun a => match a with inl v => Done (Ok v) | inr code => Done (Throw (error code)) end).
(** A call whose error is caught and dropped. *)
Definition call_ignore (c : fs_call) : program unit := on_call c (fun _ => Done (Ok tt)).
(** An error of a call, as [node:fs/promises] throws it. *)
Definition system_error (code : jsstr) : jserr := Err SystemErr code [].

Definition claim_input (canonical : jsstr) : jsstr := CLAIM_COMMIT_DOMAIN ++ canonical.
Definition terminal_input (canonical : jsstr) : jsstr := TERMINAL_COMMIT_DOMAIN ++ canonical.

Definition makeClaimRecord (capabilityId authorizationCommitment : jsstr) : res claim_record :=
  canonical ← canonicalizePayload (VObj PObject (claim_payload capabilityId authorizationCommitment));
  Ok {| cr_capability := capabilityId; cr_authorization := authorizationCommitment;
        cr_commitment := sha256Hex (claim_input canonical) |}.

Definition makeTerminalRecord (claimRecord : claim_record) (terminalState : terminal_state)
  : res terminal_record :=
  canonical ← canonicalizePayload (VObj PObject (terminal_payload claimRecord terminalState));
  Ok {| te_claim := claimRecord; te_state := terminalState;
        te_commitment := sha256Hex (terminal_input canonical) |}.

Definition validateClaimRecord (value : jsv) : res claim_record :=
  normalizePersistedValidation "durable claim record"
    (record ← exactOwnData (inert_heap value) (inert_ref value) CLAIM_RECORD_KEYS
         "durable claim record";
     let field k := snap_get (js k) record in
     _ ← guard_or (bool_decide (field "schema_version" = HStr POM_RX_DURABLE_CLAIM_SCHEMA_VERSION)
                   && bool_decide (field "reference_only" = HBool true)
                   && bool_decide (field "exclusive_claim_recorded" = HBool true)
                   && bool_decide (field "local_filesystem_atomicity_assumed" = HBool true)
                   && bool_decide (field "distributed_consensus_proved" = HBool false)
                   && bool_decide (field "network_filesystem_atomicity_proved" = HBool false)
                   && bool_decide (field "crash_recovery_proved" = HBool false))
           (durable_corrupt "durable claim record flags/version are invalid");
     capability_id ← validateCapabilityId (field "capability_id");
     authorization_commitment ← validateAuthorizationCommitment (field "authorization_commitment");
     claim_commitment ← match hstr_that hash_pattern (field "claim_commitment") with
                        | Some s => Ok s
                        | None => Throw (durable_corrupt "durable claim commitment is invalid")
                        end;
     expected ← makeClaimRecord capability_id authorization_commitment;
     _ ← guard_or (str_eqb (cr_commitment expected) claim_commitment)
           (durable_corrupt "durable claim commitment does not match record contents");
     Ok {| cr_capability := capability_id; cr_authorization := authorization_commitment;
           cr_commitment := claim_commitment |}).

Definition validateTerminalRecord (value : jsv) (claimRecord : claim_record) : res terminal_record :=
  normalizePersistedValidation "durable terminal record"
    (record ← exactOwnData (inert_heap value) (inert_ref value) TERMINAL_RECORD_KEYS
         "durable terminal record";
     let field k := snap_get (js k) record in
     let invalid := durable_corrupt "durable terminal record flags/version/state are invalid" in
     _ ← guard_or (bool_decide (field "schema_version" = HStr POM_RX_DURABLE_TERMINAL_SCHEMA_VERSION)
                   && bool_decide (field "reference_only" = HBool true)) invalid;
     terminalState ← match find_terminal (field "terminal_state") with
                     | Some st => Ok st
                     | None => Throw invalid
                     end;
     _ ← guard_or (bool_decide (field "capability_id" = HStr (cr_capability claimRecord))
                   && bool_decide (field "authorization_commitment" = HStr (cr_authorization claimRecord))
                   && bool_decide (field "claim_commitment" = HStr (cr_commitment claimRecord)))
           (durable_corrupt "durable terminal record is not bound to the persisted claim");
     terminal_commitment ← match hstr_that hash_pattern (field "terminal_commitment") with
                           | Some s => Ok s
                           | None => Throw (durable_corrupt "durable terminal commitment is invalid")
                           end;
     expected ← makeTerminalRecord claimRecord terminalState;
     _ ← guard_or (str_eqb (te_commitment expected) terminal_commitment)
           (durable_corrupt "durable terminal commitment does not match record contents");
     Ok {| te_claim := claimRecord; te_state := terminalState; te_commitment := terminal_commitment |}).

Definition fsyncDirectory (directory : path) : program unit :=
  let failed := durable_io "durable directory synchronization failed" in
  _ ← call_or (OpenDir directory) (fun _ => failed);
  synced ← attempt (call_or (Sync directory) (fun _ => failed));
  _ ← call_ignore (Close directory);
  lift synced.

(** [path.basename], and the name of the temporary file *)
Definition basename (p : path) : jsstr := List.last p [].
Definition temp_path (filePath : path) (uuid : jsstr) : path :=
  parent filePath ++
  [js "." ++ basename filePath ++ js "." ++ process_pid ++ js "." ++ uuid ++ js ".tmp"].

(** The [try] block of [writeExclusiveDurable]: how it ends, whether [handle] is
    still set and whether [tempExists]. *)
Definition publish (filePath tempPath : path) (body : jsstr) : program (res unit * (bool * bool)) :=
  let next c left k : program (res unit * (bool * bool)) :=
    on_call c (fun a => match a with
      | inl _ => k
      | inr code => Done (Ok (Throw (system_error code), left))
      end) in
  next (OpenNew tempPath) (false, false)
  (next (WriteFile tempPath body) (true, true)
  (next (Sync tempPath) (true, true)
  (next (Close tempPath) (true, true)
  (on_call (Link tempPath filePath) (fun a => match a with
     | inr code =>
         Done (Ok (Throw (if str_eqb code EEXIST
                          then durable_fail "POMRX_GATE_E_DURABLE_REPLAY"
                                 (js "durable terminal/claim record already exists")
                          else system_error code), (false, true)))
     | inl _ =>
         next (Unlink tempPath) (false, true)
         (synced ← attempt (fsyncDirectory (parent filePath)); Done (Ok (synced, (false, false))))
     end))))).

Definition writeExclusiveDurable (filePath : path) (value : jsv) (uuid : jsstr) : program unit :=
  canonical ← lift (canonicalizePayload value);
  let body := canonical ++ [10%N] in
  _ ← lift (guard_or (utf8_length body <=? MAX_RECORD_BYTES)%N
              (durable_invalid (js "durable record exceeds the maximum size")));
  let tempPath := temp_path filePath uuid in
  '(outcome, (handle, tempExists)) ← publish filePath tempPath body;
  let outcome := catch outcome (fun error =>
    if bool_decide (err_cls error = DurableErr) then Throw error
    else Throw (durable_io "durable record publication failed")) in
  _ ← (if (handle : bool) then call_ignore (Close tempPath) else Done (Ok tt));
  _ ← (if (tempExists : bool) then call_ignore (Unlink tempPath) else Done (Ok tt));
  lift outcome.

(** [readBoundedJson]: [null] when there is no such file. *)
Definition readBoundedJson (filePath : path) : program jsv :=
  on_call (Lstat filePath) (fun a => match a with
    | inr code =>
        if str_eqb code ENOENT then Done (Ok VNull)
        else Done (Throw (durable_io "durable record metadata could not be inspected"))
    | inl stat =>
        _ ← lift (guard_or (is_file stat && negb (is_symbolic_link stat)
                            && (2 <=? stat_size stat)%N && (stat_size stat <=? MAX_RECORD_BYTES)%N)
                    (durable_corrupt "durable record is not a bounded regular file"));
        text ← call_or (ReadFile filePath) (fun _ => durable_io "durable record could not be read");
        match json_parse text with
        | Some v => Done (Ok v)
        | None => Done (Throw (durable_corrupt "durable record JSON is invalid"))
        end
    end).

(** [createReferenceDurableClaimStore]: the store it makes. *)
Definition createReferenceDurableClaimStore (h : heap) (options : hval) : res store :=
  bootstrap ← exactOwnData h options DURABLE_BOOTSTRAP_KEYS "durable claim store bootstrap";
  let invalid := durable_invalid (js "rootDir must be a bounded absolute path") in
  match hstr_that (fun s => (2 <=? length s)%nat && (length s <=? 4096)%nat)
          (snap_get (js "rootDir") bootstrap) with
  | Some rootDir =>
      match absolute_path rootDir with
      | Some configuredRoot =>
          Ok {| st_root := configuredRoot; st_memo := RootUnset; st_handles := [] |}
      | None => Throw invalid
      end
  | None => Throw invalid
  end.

(** The [async] body of [trustedRoot] *)
Definition check_root (configuredRoot : path) : program path :=
  let error code :=
    if str_eqb code ENOENT
    then durable_fail "POMRX_GATE_E_DURABLE_ROOT_INVALID"
           (js "durable claim root must be pre-existing and durably provisioned")
    else durable_io "durable claim root could not be inspected" in
  stat ← call_or (Lstat configuredRoot) error;
  resolved ← call_or (Realpath configuredRoot) error;
  let unsafePermissions := negb is_win32 && negb (Z.land (stat_mode stat) 18 =? 0) in
  let wrongOwner := match current_uid with Some u => negb (stat_uid stat =? u) | None => false end in
  _ ← lift (guard_or (is_directory stat && negb (is_symbolic_link stat)
                      && bool_decide (resolved = configuredRoot)
                      && negb unsafePermissions && negb wrongOwner)
       (durable_fail "POMRX_GATE_E_DURABLE_ROOT_INVALID"
         (js "durable claim root must be a direct process-owned directory without group/world write access or symlink indirection")));
  _ ← fsyncDirectory (parent configuredRoot);
  lift (Ok resolved).

Definition trustedRoot (configuredRoot : path) : program path :=
  memo ← on_store BeginRoot;
  match memo with
  | RootUnset =>
      resolved ← attempt (check_root configuredRoot);
      _ ← on_store (SettleRoot resolved);
      lift resolved
  | _ =>
      resolved ← on_store AwaitRoot;
      lift resolved
  end.

(** What [inspect] and [claim] check before their first [await]. *)
Definition capture_claim_input (h : heap) (input : hval) (label : string) : res (jsstr * jsstr) :=
  captured ← exactOwnData h input INSPECT_KEYS label;
  capabilityId ← validateCapabilityId (snap_get (js "capabilityId") captured);
  authorizationCommitment ← validateAuthorizationCommitment
      (snap_get (js "authorizationCommitment") captured);
  Ok (capabilityId, authorizationCommitment).

Definition claim_file (directory : path) : path := directory ++ [js "claim.json"].
Definition terminal_file (directory : path) : path := directory ++ [js "terminal.json"].

(** [inspect] for a checked input *)
Definition inspect_captured (configuredRoot : path) (capabilityId authorizationCommitment : jsstr)
  : program inspection :=
  root ← trustedRoot configuredRoot;
  let claimDirectory := root ++ [capabilityId] in
  on_call (Lstat claimDirectory) (fun a => match a with
    | inr code =>
        if str_eqb code ENOENT then Done (Ok (makeInspection ABSENT None None))
        else Done (Throw (durable_io "durable claim directory could not be inspected"))
    | inl directoryStat =>
        _ ← lift (guard_or (is_directory directoryStat && negb (is_symbolic_link directoryStat))
              (durable_corrupt "durable capability claim path is not a regular directory"));
        rawClaim ← readBoundedJson (claim_file claimDirectory);
        if is_null rawClaim
        then Done (Ok {| in_state := RESERVED_INCOMPLETE; in_capability := Some capabilityId;
                         in_authorization := None; in_claim := None; in_terminal := None;
                         in_recorded := false |})
        else
          claimRecord ← lift (validateClaimRecord rawClaim);
          _ ← lift (guard_or (str_eqb (cr_capability claimRecord) capabilityId
                              && str_eqb (cr_authorization claimRecord) authorizationCommitment)
                (durable_fail "POMRX_GATE_E_DURABLE_BINDING_MISMATCH"
                   (js "persisted durable claim does not match the expected authorization binding")));
          rawTerminal ← readBoundedJson (terminal_file claimDirectory);
          if is_null rawTerminal then Done (Ok (makeInspection RESERVED (Some claimRecord) None))
          else
            terminalRecord ← lift (validateTerminalRecord rawTerminal claimRecord);
            Done (Ok (makeInspection (CONSUMED (te_state terminalRecord)) (Some claimRecord)
                        (Some terminalRecord)))
    end).
Definition inspect (configuredRoot : path) (h : heap) (input : hval) : program inspection :=
  '(capabilityId, authorizationCommitment) ←
      lift (capture_claim_input h input "durable claim inspection");
  inspect_captured configuredRoot capabilityId authorizationCommitment.

(** [claim] for a checked input: the handle and the claim. *)
Definition claim_captured (configuredRoot : path) (capabilityId authorizationCommitment uuid : jsstr)
  : program (nat * claim_record) :=
  root ← trustedRoot configuredRoot;
  let claimDirectory := root ++ [capabilityId] in
  _ ← call_or (Mkdir claimDirectory) (fun code =>
        if str_eqb code EEXIST
        then durable_fail "POMRX_GATE_E_DURABLE_REPLAY"
               (js "capability already has a durable claim tombstone")
        else durable_io "durable capability claim could not be reserved");
  _ ← fsyncDirectory root;
  claimRecord ← lift (makeClaimRecord capabilityId authorizationCommitment);
  _ ← writeExclusiveDurable (claim_file claimDirectory) (VObj PObject (claim_entries claimRecord)) uuid;
  handle ← (on_store (NewHandle claimDirectory claimRecord) : program nat);
  lift (Ok (handle, claimRecord)).
Definition claim (configuredRoot : path) (h : heap) (input : hval) (uuid : jsstr)
  : program (nat * claim_record) :=
  '(capabilityId, authorizationCommitment) ← lift (capture_claim_input h input "durable claim request");
  claim_captured configuredRoot capabilityId authorizationCommitment uuid.

(** The [try] block of [complete] *)
Definition publish_terminal (state : handle_data) (terminalRecord : terminal_record) (uuid : jsstr)
  : program unit :=
  rawPersistedClaim ← readBoundedJson (claim_file (hd_directory state));
  _ ← lift (guard_or (negb (is_null rawPersistedClaim))
        (durable_corrupt "persisted claim metadata disappeared before completion"));
  persistedClaim ← lift (validateClaimRecord rawPersistedClaim);
  _ ← lift (guard_or (str_eqb (cr_capability persistedClaim) (cr_capability (hd_claim state))
                      && str_eqb (cr_authorization persistedClaim) (cr_authorization (hd_claim state))
                      && str_eqb (cr_commitment persistedClaim) (cr_commitment (hd_claim state)))
        (durable_corrupt "persisted claim changed before terminal completion"));
  writeExclusiveDurable (terminal_file (hd_directory state))
    (VObj PObject (terminal_entries terminalRecord)) uuid.

Definition complete (handle : option nat) (outcome : hval) (uuid : jsstr) : program inspection :=
  reserved ← on_store (ReserveHandle handle outcome);
  '(i, state, terminalState) ← lift reserved;
  terminalRecord ← lift (makeTerminalRecord (hd_claim state) terminalState);
  published ← attempt (publish_terminal state terminalRecord uuid);
  match published with
  | Ok _ =>
      _ ← on_store (SetStatus i (HTerminal terminalState));
      Done (Ok (makeInspection (CONSUMED terminalState) (Some (hd_claim state)) (Some terminalRecord)))
  | Throw error =>
      _ ← on_store (SetStatus i HFailedClosed);
      lift (Throw error)
  end.
End durable.
