(* ===== verification/DurableRecords.v ===== *)
(** * The records of the durable claim store

    A claim or terminal record on the disk is a canonical JSON text and a line
    feed.  The validators accept exactly the records that the store makes, and
    such a text, read as [readBoundedJson] reads it, validates to the record it
    was made from. *)
From S2P Require Import Prelude JsDate JsValue ProofSdk Json Canonical Receipt Normal JsHeap PlainData Authorization Gate TrustedClock FileSystem DurableClaims.

#[local] Arguments js : simpl never.

Section records.
Context `{SH : !StringHost, HH : !HashHost}.

(** The text of a record's file. *)
Definition body_of (v : jsv) (text : jsstr) : Prop :=
  exists canonical, canonicalizePayload v = Ok canonical /\ text = canonical ++ [10%N] /\
    (utf8_length text <= MAX_RECORD_BYTES)%N.
Definition claim_value (c : claim_record) : jsv := VObj PObject (claim_entries c).
Definition terminal_value (t : terminal_record) : jsv := VObj PObject (terminal_entries t).
Definition claim_ok (c : claim_record) : Prop :=
  capability_id_pattern (cr_capability c) = true /\ hash_pattern (cr_authorization c) = true /\
  makeClaimRecord (cr_capability c) (cr_authorization c) = Ok c.
Definition terminal_ok (t : terminal_record) : Prop :=
  claim_ok (te_claim t) /\ makeTerminalRecord (te_claim t) (te_state t) = Ok t.

(** [v] is a plain object with these fields, in whatever order. *)
Definition has_fields (v : jsv) (entries : list (jsstr * jsv)) : Prop :=
  exists actual, v = VObj PObject actual /\ actual.*1 ≡ₚ entries.*1 /\
    forall k x, alist_get k entries = Some x -> get k v = x.

(** ** Reading one record *)

Lemma exactOwnData_inert v keys label s :
  exactOwnData (inert_heap v) (inert_ref v) keys label = Ok s ->
  exists entries, v = VObj PObject entries /\ entries.*1 ≡ₚ keys /\
    forall k, k ∈ keys -> snap_get k s = hval_of (get k v).
Proof.
  unfold exactOwnData. intros (o & Ho & H)%bind_Ok. apply guard_bind_Ok in H as [H1 H].
  apply guard_bind_Ok in H as [Hk%same_keys_iff H]. apply snapshot_keys_Ok in H.
  rewrite !andb_true_iff, bool_decide_eq_true in H1. destruct H1 as [Hp _].
  destruct v as [| | | | | | | |items|p entries]; try done.
  assert (o = inert_object (VObj p entries)) as -> by (by injection Ho). clear Ho.
  assert (p = PObject) as -> by (by destruct p). exists entries. split; [done|].
  rewrite inert_own_names in Hk. split; [done|]. intros k Hin.
  pose proof (snap_get_Forall2 _ _ _ k Hin H) as Hd. rewrite inert_own_descriptor in Hd. cbn [get].
  destruct (alist_get k entries); [|done]. cbn in Hd. unfold inert_prop in Hd. by injection Hd as <-.
Qed.

Lemma inert_exactOwnData entries keys label :
  entries.*1 ≡ₚ keys -> let v := VObj PObject entries in
  exists s, exactOwnData (inert_heap v) (inert_ref v) keys label = Ok s /\
    forall k, k ∈ keys -> snap_get k s = hval_of (get k v).
Proof.
  intros Hk v. assert (exists s, exactOwnData (inert_heap v) (inert_ref v) keys label = Ok s) as [s Hs].
  { unfold exactOwnData. cbn [inert_ref v object_of inert_heap Nat.eqb].
    change (inert_object v) with (inert_object (VObj PObject entries)).
    change (o_proxy _) with false. cbn iota.
    rewrite bool_decide_true by done. cbn [mbind res_bind]. change (bool_decide _ && _) with true.
    cbn [guard_or mbind res_bind]. rewrite inert_own_names.
    apply same_keys_iff in Hk as Hs. rewrite Hs. cbn [guard_or mbind res_bind].
    setoid_rewrite snapshot_keys_Ok. clear Hs.
    assert (forall k, k ∈ keys -> k ∈ entries.*1) as Hin by (intros k; by rewrite Hk).
    clear Hk v. induction keys as [|k keys IH]; [by exists []|].
    destruct IH as [s Hs]; [intros; apply Hin; by right|].
    assert (is_Some (alist_get k entries)) as [x Hx] by (apply alist_get_is_Some, Hin; left).
    exists ((k, hval_of x) :: s). constructor; [|done]. split; [done|].
    by rewrite inert_own_descriptor, Hx. }
  exists s. split; [done|]. by apply exactOwnData_inert in Hs as (e & _ & _ & ?).
Qed.

(** ** Texts *)

Lemma json_parse_line v c :
  canonical_data v -> canonicalizeValue v = Ok c -> json_parse (c ++ [10%N]) = Some (normalize v).
Proof.
  intros Hd Hc. pose proof (jsize_bound v c Hd Hc).
  destruct (canonical_reads_back v c Hd Hc) as [_ Hr].
  unfold json_parse. rewrite length_app. rewrite (Hr [10%N]) by (done || lia). done.
Qed.

Lemma normal_fields entries :
  NoDup entries.*1 -> Forall (fun kv => is_normal kv.2) entries ->
  has_fields (normalize (VObj PObject entries)) entries.
Proof.
  intros Hn Hf. eexists. split; [reflexivity|]. split.
  - rewrite (sort_by_perm entry_leb), <- list_fmap_compose.
    apply reflexive_eq, list_fmap_ext. by intros ? [].
  - intros k x Hx. change (VObj PObject (sort_by _ _)) with (normalize (VObj PObject entries)).
    rewrite get_normalize by done. cbn [get]. rewrite Hx. simpl.
    apply alist_get_Some in Hx. rewrite Forall_forall in Hf. by rewrite (Hf _ Hx : normalize x = x).
Qed.

Lemma body_reads_back entries text :
  flat_entries entries -> body_of (VObj PObject entries) text ->
  exists v, json_parse text = Some v /\ has_fields v entries /\ (2 <= utf8_length text)%N.
Proof.
  intros Hf (c & (_ & Hs & _ & Hc & _)%canonicalizePayload_Ok & -> & _).
  pose proof (flat_entries_Forall _ Hf) as [Hn Hall].
  destruct (flat_record_ok PObject entries 0 Hf) as (Hw & _ & _ & Hp); [done|].
  assert (canonical_data (VObj PObject entries)) as Hd by by eapply safe_canonical_data.
  exists (normalize (VObj PObject entries)). split; [by apply json_parse_line|]. split.
  - apply normal_fields; [done|]. eapply Forall_impl; [exact Hall|]. intros kv [_ ?]. by apply flat_field_normal.
  - destruct (canonical_size _ c Hp Hd Hc) as [Ha _].
    rewrite utf8_length_ascii by (rewrite forallb_app; by rewrite Ha).
    destruct (canonical_reads_back _ c Hd Hc) as [(x & q & -> & _) _]. rewrite length_app. simpl. lia.
Qed.

(** ** Claim records *)

Lemma makeClaimRecord_fields capability authorization c :
  makeClaimRecord capability authorization = Ok c ->
  cr_capability c = capability /\ cr_authorization c = authorization.
Proof. by intros (t & _ & [= <-])%bind_Ok. Qed.
Lemma makeTerminalRecord_fields c st t :
  makeTerminalRecord c st = Ok t -> te_claim t = c /\ te_state t = st.
Proof. by intros (x & _ & [= <-])%bind_Ok. Qed.
Lemma makeClaimRecord_commitment capability authorization c :
  makeClaimRecord capability authorization = Ok c -> hash_pattern (cr_commitment c) = true.
Proof. intros (t & _ & [= <-])%bind_Ok. apply sha256_hex_format. Qed.
Lemma makeTerminalRecord_commitment c st t :
  makeTerminalRecord c st = Ok t -> hash_pattern (te_commitment t) = true.
Proof. intros (x & _ & [= <-])%bind_Ok. apply sha256_hex_format. Qed.

Lemma hash_field s : hash_pattern s = true -> flat_field (VStr s).
Proof. intros [? ?]%hash_pattern_plain. split; [done|lia]. Qed.
Lemma capability_field s : capability_id_pattern s = true -> flat_field (VStr s).
Proof. intros [? ?]%capability_id_pattern_plain. split; [done|lia]. Qed.

Lemma constant_field s : plain s && (length s <=? 128)%nat = true -> flat_field (VStr s).
Proof. by intros [? ?%Nat.leb_le]%andb_true_iff. Qed.

Lemma claim_entries_flat c : claim_ok c -> flat_entries (claim_entries c).
Proof.
  intros (Hc & Ha & Hm). split; [reflexivity|].
  unfold claim_entries, claim_payload. cbn [app].
  repeat (apply Forall_cons; split); try done;
    try by apply constant_field.
  - exact (capability_field _ Hc).
  - exact (hash_field _ Ha).
  - exact (hash_field _ (makeClaimRecord_commitment _ _ _ Hm)).
Qed.

Lemma normalize_persisted_Ok {A} label (m : res A) x :
  normalizePersistedValidation label m = Ok x <-> m = Ok x.
Proof. destruct m as [y|e]; [done|]. unfold normalizePersistedValidation. simpl. by case_match. Qed.

Lemma hval_of_flat x y : flat_field x -> hval_of y = hval_of x -> y = x.
Proof. destruct x, y; simpl; congruence || done. Qed.

(** The fields a validator has found in an inert record. *)
Lemma found_fields entries actual keys s :
  flat_entries entries -> keys ≡ₚ entries.*1 -> actual.*1 ≡ₚ keys ->
  (forall k, k ∈ keys -> snap_get k s = hval_of (get k (VObj PObject actual))) ->
  Forall (fun kv => snap_get kv.1 s = hval_of kv.2) entries ->
  has_fields (VObj PObject actual) entries.
Proof.
  intros [_ Hflat] Hk Ha Hs Hf. exists actual. split; [done|]. split; [by rewrite Ha|].
  intros k x Hx. apply alist_get_Some in Hx. rewrite Forall_forall in Hf, Hflat.
  apply hval_of_flat; [by apply (Hflat _ Hx)|].
  rewrite <- Hs; [by apply (Hf _ Hx)|]. rewrite Hk. apply list_elem_of_fmap. by exists (k, x).
Qed.

Lemma validateClaimRecord_sound v c :
  validateClaimRecord v = Ok c -> claim_ok c /\ has_fields v (claim_entries c).
Proof.
  unfold validateClaimRecord. rewrite normalize_persisted_Ok.
  intros (s & (entries & -> & Hk & Hf)%exactOwnData_inert & H)%bind_Ok. cbv zeta in H.
  apply guard_bind_Ok in H as [Hg H]. rewrite !andb_true_iff, !bool_decide_eq_true in Hg.
  destruct Hg as [[[[[[G1 G2] G3] G4] G5] G6] G7].
  unfold validateCapabilityId, validateAuthorizationCommitment in H.
  destruct (hstr_that capability_id_pattern _) as [cap|] eqn:Ecap; [|done]. cbn [mbind res_bind] in H.
  destruct (hstr_that hash_pattern (snap_get (js "authorization_commitment") s)) as [auth|] eqn:Eauth; [|done].
  cbn [mbind res_bind] in H.
  destruct (hstr_that hash_pattern (snap_get (js "claim_commitment") s)) as [commit|] eqn:Ecom; [|done].
  cbn [mbind res_bind] in H.
  apply hstr_that_Some in Ecap as [Vcap Pcap], Eauth as [Vauth Pauth], Ecom as [Vcom _].
  apply bind_Ok in H as (e & He & H). apply guard_bind_Ok in H as [Hc%str_eqb_eq [= <-]].
  destruct (makeClaimRecord_fields _ _ _ He) as [E1 E2].
  assert (e = {| cr_capability := cap; cr_authorization := auth; cr_commitment := commit |}) as ->
    by (destruct e; simpl in *; by subst).
  assert (claim_ok {| cr_capability := cap; cr_authorization := auth; cr_commitment := commit |}) as Hok by done.
  split; [done|]. eapply found_fields; [by apply claim_entries_flat| |exact Hk|exact Hf|]; [reflexivity|].
  unfold claim_entries, claim_payload. cbn [app]. by repeat (apply Forall_cons; split).
Qed.

Lemma validateClaimRecord_accepts v c :
  claim_ok c -> has_fields v (claim_entries c) -> validateClaimRecord v = Ok c.
Proof.
  unfold validateClaimRecord. rewrite normalize_persisted_Ok.
  intros Hok (entries & -> & Hk & Hf).
  destruct (inert_exactOwnData entries CLAIM_RECORD_KEYS "durable claim record" Hk) as (s & Hs & Hv).
  rewrite Hs. cbn [mbind res_bind]. cbv zeta.
  assert (forall k x, mem_str (js k) CLAIM_RECORD_KEYS = true ->
    alist_get (js k) (claim_entries c) = Some x -> snap_get (js k) s = hval_of x) as G
    by (intros k x Hin%mem_str_true Hx; by rewrite Hv, (Hf _ _ Hx)).
  destruct Hok as (Hcap & Hauth & Hm). pose proof (makeClaimRecord_commitment _ _ _ Hm) as Hcom.
  rewrite (G "schema_version" _ eq_refl eq_refl), (G "reference_only" _ eq_refl eq_refl),
    (G "exclusive_claim_recorded" _ eq_refl eq_refl),
    (G "local_filesystem_atomicity_assumed" _ eq_refl eq_refl),
    (G "distributed_consensus_proved" _ eq_refl eq_refl),
    (G "network_filesystem_atomicity_proved" _ eq_refl eq_refl),
    (G "crash_recovery_proved" _ eq_refl eq_refl), (G "capability_id" _ eq_refl eq_refl),
    (G "authorization_commitment" _ eq_refl eq_refl), (G "claim_commitment" _ eq_refl eq_refl).
  cbn [hval_of]. rewrite !bool_decide_true by done. cbn [andb guard_or mbind res_bind].
  unfold validateCapabilityId, validateAuthorizationCommitment. cbn [hstr_that].
  rewrite Hcap, Hauth, Hcom. cbn [mbind res_bind]. rewrite Hm. cbn [mbind res_bind].
  rewrite str_eqb_refl. by destruct c.
Qed.

(** The validator of persisted claim records accepts exactly the plain
    objects with the fields of a claim record the store makes: a capability
    identifier and a hash of the right format, the commitment of the two, and
    the fixed version and flags. *)
Theorem validateClaimRecord_exact v c :
  validateClaimRecord v = Ok c <-> claim_ok c /\ has_fields v (claim_entries c).
Proof.
  split; [apply validateClaimRecord_sound|]. intros [? ?]. by apply validateClaimRecord_accepts.
Qed.

(** ** Terminal records *)

Lemma terminal_entries_flat t : terminal_ok t -> flat_entries (terminal_entries t).
Proof.
  intros [(Hc & Ha & Hcm) Hm]. split; [reflexivity|].
  unfold terminal_entries, terminal_payload. cbn [app].
  repeat (apply Forall_cons; split); try done; try by apply constant_field.
  - exact (capability_field _ Hc).
  - exact (hash_field _ Ha).
  - exact (hash_field _ (makeClaimRecord_commitment _ _ _ Hcm)).
  - by destruct (te_state t); apply constant_field.
  - exact (hash_field _ (makeTerminalRecord_commitment _ _ _ Hm)).
Qed.

Lemma find_terminal_Some v st : find_terminal v = Some st <-> v = HStr (terminal_name st).
Proof.
  split; [|intros ->; by destruct st]. destruct v; try done. unfold find_terminal. cbn [List.find].
  destruct (str_eqb (terminal_name CONSUMED_SUCCESS) s) eqn:E1;
    [apply str_eqb_eq in E1 as <-; by intros [= <-]|].
  destruct (str_eqb (terminal_name CONSUMED_ERROR) s) eqn:E2; [|done].
  apply str_eqb_eq in E2 as <-. by intros [= <-].
Qed.

Lemma validateTerminalRecord_sound v c t :
  claim_ok c -> validateTerminalRecord v c = Ok t ->
  te_claim t = c /\ terminal_ok t /\ has_fields v (terminal_entries t).
Proof.
  intros Hc. unfold validateTerminalRecord. rewrite normalize_persisted_Ok.
  intros (s & (entries & -> & Hk & Hf)%exactOwnData_inert & H)%bind_Ok. cbv zeta in H.
  apply guard_bind_Ok in H as [Hg H]. rewrite andb_true_iff, !bool_decide_eq_true in Hg.
  destruct Hg as [G1 G2].
  destruct (find_terminal _) as [st|] eqn:Est; [|done]. cbn [mbind res_bind] in H.
  apply find_terminal_Some in Est.
  apply guard_bind_Ok in H as [Hg H]. rewrite !andb_true_iff, !bool_decide_eq_true in Hg.
  destruct Hg as [[G3 G4] G5].
  destruct (hstr_that hash_pattern _) as [commit|] eqn:Ecom; [|done]. cbn [mbind res_bind] in H.
  apply hstr_that_Some in Ecom as [Vcom _].
  apply bind_Ok in H as (e & He & H). apply guard_bind_Ok in H as [He'%str_eqb_eq [= <-]].
  destruct (makeTerminalRecord_fields _ _ _ He) as [E1 E2].
  assert (e = {| te_claim := c; te_state := st; te_commitment := commit |}) as ->
    by (destruct e; simpl in *; by subst).
  assert (terminal_ok {| te_claim := c; te_state := st; te_commitment := commit |}) as Hok by done.
  split; [done|]. split; [done|].
  eapply found_fields; [by apply terminal_entries_flat| |exact Hk|exact Hf|]; [reflexivity|].
  unfold terminal_entries, terminal_payload. cbn [app]. by repeat (apply Forall_cons; split).
Qed.

Lemma validateTerminalRecord_accepts v t :
  terminal_ok t -> has_fields v (terminal_entries t) -> validateTerminalRecord v (te_claim t) = Ok t.
Proof.
  unfold validateTerminalRecord. rewrite normalize_persisted_Ok.
  intros Hok (entries & -> & Hk & Hf).
  destruct (inert_exactOwnData entries TERMINAL_RECORD_KEYS "durable terminal record" Hk) as (s & Hs & Hv).
  rewrite Hs. cbn [mbind res_bind]. cbv zeta.
  assert (forall k x, mem_str (js k) TERMINAL_RECORD_KEYS = true ->
    alist_get (js k) (terminal_entries t) = Some x -> snap_get (js k) s = hval_of x) as G
    by (intros k x Hin%mem_str_true Hx; by rewrite Hv, (Hf _ _ Hx)).
  destruct Hok as [_ Hm]. pose proof (makeTerminalRecord_commitment _ _ _ Hm) as Hcom.
  rewrite (G "schema_version" _ eq_refl eq_refl), (G "reference_only" _ eq_refl eq_refl),
    (G "terminal_state" _ eq_refl eq_refl), (G "capability_id" _ eq_refl eq_refl),
    (G "authorization_commitment" _ eq_refl eq_refl), (G "claim_commitment" _ eq_refl eq_refl),
    (G "terminal_commitment" _ eq_refl eq_refl).
  cbn [hval_of]. rewrite !bool_decide_true by done. cbn [andb guard_or mbind res_bind].
  rewrite (proj2 (find_terminal_Some _ _) eq_refl). cbn [andb guard_or mbind res_bind hstr_that].
  rewrite Hcom. cbn [mbind res_bind]. rewrite Hm. cbn [mbind res_bind].
  rewrite str_eqb_refl. by destruct t.
Qed.

(** ** Published texts validate *)

Lemma claim_reads_back c text :
  claim_ok c -> body_of (claim_value c) text ->
  exists v, json_parse text = Some v /\ is_null v = false /\ (2 <= utf8_length text)%N /\
    validateClaimRecord v = Ok c.
Proof.
  intros Hc Hb. destruct (body_reads_back _ _ (claim_entries_flat _ Hc) Hb) as (v & Hv & Hf & Hl).
  exists v. split_and!; try done; [|by apply validateClaimRecord_accepts]. by destruct Hf as (? & -> & _).
Qed.

Lemma terminal_reads_back t text :
  terminal_ok t -> body_of (terminal_value t) text ->
  exists v, json_parse text = Some v /\ is_null v = false /\ (2 <= utf8_length text)%N /\
    validateTerminalRecord v (te_claim t) = Ok t.
Proof.
  intros Hc Hb. destruct (body_reads_back _ _ (terminal_entries_flat _ Hc) Hb) as (v & Hv & Hf & Hl).
  exists v. split_and!; try done; [|by apply validateTerminalRecord_accepts]. by destruct Hf as (? & -> & _).
Qed.
End records.
