(* ===== verification/DurableWorld.v ===== *)
(** * The durable claim store at work

    Stores of any number of processes on one file system: their operations
    interleave between calls, every call may fail, and the machine may crash,
    which ends all processes and keeps of the file system what was on the disk.
    The theorems follow a program by a ghost state that records the paths it
    has published and the temporary file it owns. *)
From stdpp Require Import fin_maps.
From S2P Require Import Prelude JsDate JsValue ProofSdk Json Canonical Receipt Normal JsHeap PlainData Authorization Gate TrustedClock FileSystem DurableClaims DurableRecords.

#[local] Arguments js : simpl never.

Inductive request :=
  | RInspect (h : heap) (input : hval)
  | RClaim (h : heap) (input : hval) (uuid : jsstr)
  | RComplete (handle : option nat) (outcome : hval) (uuid : jsstr).
Inductive response :=
  | Inspected (i : inspection)
  | Claimed (handle : nat) (claim : claim_record)
  | Completed (i : inspection).

(** A call of an operation of the store [th_store], with the root it was made
    with; it has no program any more when it was lost in a crash. *)
Record thread := {
  th_store : nat;
  th_root : path;
  th_request : request;
  th_prog : option (program response);
}.
Record world := {
  w_fs : fs;
  w_stores : list (option store);
  w_threads : list thread;
}.

(** The temporary files of [writeExclusiveDurable]. *)
Definition is_temp (p : path) : Prop := exists d n, p = d ++ [js "." ++ n].

Section world.
Context `{SH : !StringHost, HH : !HashHost, PH : !ProcessHost}.

Definition operation (root : path) (req : request) : program response :=
  match req with
  | RInspect h input => i ← inspect root h input; lift (Ok (Inspected i))
  | RClaim h input uuid => '(handle, c) ← claim root h input uuid; lift (Ok (Claimed handle c))
  | RComplete handle outcome uuid => i ← complete handle outcome uuid; lift (Ok (Completed i))
  end.

Definition set_prog (p : option (program response)) (t : thread) : thread :=
  {| th_store := th_store t; th_root := th_root t; th_request := th_request t; th_prog := p |}.

(** A thread whose program has not ended does not survive a crash. *)
Definition lose_thread (t : thread) : thread :=
  match th_prog t with
  | Some (Done r) => t
  | _ => set_prog None t
  end.

Inductive world_step (w : world) : world -> Prop :=
  | step_store h options s :
      createReferenceDurableClaimStore h options = Ok s ->
      world_step w {| w_fs := w_fs w; w_stores := w_stores w ++ [Some s]; w_threads := w_threads w |}
  | step_request i s req :
      w_stores w !! i = Some (Some s) ->
      world_step w {| w_fs := w_fs w; w_stores := w_stores w;
        w_threads := w_threads w ++
          [{| th_store := i; th_root := st_root s; th_request := req;
              th_prog := Some (operation (st_root s) req) |}] |}
  | step_fs j t c k a s' :
      w_threads w !! j = Some t -> th_prog t = Some (Perform (R := op_ret) (Fs c) k) ->
      fs_step c (w_fs w) a s' ->
      world_step w {| w_fs := s'; w_stores := w_stores w;
        w_threads := alter (set_prog (Some (k a))) j (w_threads w) |}
  | step_variables j t o k s a s' :
      w_threads w !! j = Some t -> th_prog t = Some (Perform (R := op_ret) o k) ->
      w_stores w !! th_store t = Some (Some s) -> store_exec o s = Some (a, s') ->
      world_step w {| w_fs := w_fs w; w_stores := <[th_store t := Some s']> (w_stores w);
        w_threads := alter (set_prog (Some (k a))) j (w_threads w) |}
  | step_crash s' :
      crashes is_temp (w_fs w) s' ->
      world_step w {| w_fs := s'; w_stores := (fun _ => None) <$> w_stores w;
        w_threads := lose_thread <$> w_threads w |}.

Definition initial_world (s : fs) : world := {| w_fs := s; w_stores := []; w_threads := [] |}.
(** [w] is reached from a file system [s] that no store is using yet. *)
Definition world_reachable (s : fs) : world -> Prop := rtc world_step (initial_world s).

(** An operation alone, no call failing: its result and what it leaves; [None]
    when it waits for ever. *)
Fixpoint run {A} (p : program A) : fs -> store -> option (res A * fs * store) :=
  match p with
  | Done r => fun files s => Some (r, files, s)
  | Perform o k => fun files s =>
      match o return (op_ret o -> fs -> store -> option (res A * fs * store)) ->
                     option (res A * fs * store) with
      | Fs c => fun continue => let '(a, files) := fs_exec c files in continue a files s
      | o => fun continue =>
          match store_exec o s with Some (a, s) => continue a files s | None => None end
      end (fun a => run (k a))
  end.
End world.

(** ** The ghost state of a program *)

(** The temporary file a program owns: opened, written, or on the disk. *)
Inductive stage := SOpen | SWritten (text : jsstr) | SSynced (text : jsstr).
(** [g_pub]: the entries the program made under their final names, and whether
    they are on the disk; [g_known]: the reserved handle's directory and claim. *)
Record ghost := {
  g_own : option (path * stage);
  g_pub : gmap path (node * bool);
  g_known : option (path * claim_record);
}.
Definition no_ghost : ghost := {| g_own := None; g_pub := ∅; g_known := None |}.

Definition complete_file (text : jsstr) : node :=
  NFile {| f_text := text; f_size := utf8_length text; f_synced := true |}.
Definition mark (d : path) (pub : gmap path (node * bool)) : gmap path (node * bool) :=
  map_imap (fun q x => Some (x.1, x.2 || is_child d q)) pub.

Definition with_own (own : option (path * stage)) (g : ghost) : ghost :=
  {| g_own := own; g_pub := g_pub g; g_known := g_known g |}.
Definition with_pub (pub : gmap path (node * bool)) (g : ghost) : ghost :=
  {| g_own := g_own g; g_pub := pub; g_known := g_known g |}.

Section ghosts.
Context `{SH : !StringHost, HH : !HashHost, PH : !ProcessHost}.

(** The directory of a claim below a root. *)
Definition dir_of (root : path) (c : claim_record) : path := root ++ [cr_capability c].

(** [text] may be published at [q]. *)
Definition publishable (root : path) (g : ghost) (q : path) (text : jsstr) : Prop :=
  (exists c, claim_ok c /\ q = claim_file (dir_of root c) /\ body_of (claim_value c) text) \/
  (exists t, terminal_ok t /\ q = terminal_file (dir_of root (te_claim t)) /\
     g_known g = Some (dir_of root (te_claim t), te_claim t) /\ body_of (terminal_value t) text).

(** What a program of a store with this root owes before a call. *)
Definition allowed (root : path) (g : ghost) (o : op) : Prop :=
  match o with
  | Fs (Mkdir p) => exists cap, p = root ++ [cap] /\ capability_id_pattern cap = true
  | Fs (OpenNew p) => is_temp p /\ g_own g = None
  | Fs (WriteFile p _) => g_own g = Some (p, SOpen)
  | Fs (Link p q) => exists text, g_own g = Some (p, SSynced text) /\ publishable root g q text
  | Fs (Unlink p) => exists st, g_own g = Some (p, st)
  | SettleRoot (Ok p) => p = root
  | NewHandle d c => claim_ok c /\ d = dir_of root c /\
      (exists mode uid, g_pub g !! d = Some (NDir mode uid, true)) /\
      exists text, body_of (claim_value c) text /\
        g_pub g !! claim_file d = Some (complete_file text, true)
  | _ => True
  end.

(** What it may take for granted about an answer. *)
Definition possible (root : path) (o : op) : op_ret o -> Prop :=
  match o with
  | BeginRoot => fun memo => match memo with RootSettled (Ok p) => p = root | _ => True end
  | AwaitRoot => fun r => match r with Ok p => p = root | Throw _ => True end
  | ReserveHandle _ _ => fun r =>
      match r with
      | Ok (_, d, _) => claim_ok (hd_claim d) /\ hd_directory d = dir_of root (hd_claim d)
      | Throw _ => True
      end
  | _ => fun _ => True
  end.

Definition after_fs (g : ghost) (c : fs_call) : fs_answer c -> ghost :=
  match c with
  | Mkdir p => fun a => match a with
      | inl _ => with_pub (<[p := (NDir 448 (default 0 current_uid), false)]> (g_pub g)) g
      | inr _ => g
      end
  | OpenNew p => fun a => match a with inl _ => with_own (Some (p, SOpen)) g | inr _ => g end
  | WriteFile p text => fun a =>
      match a with inl _ => with_own (Some (p, SWritten text)) g | inr _ => g end
  | Sync p => fun a => match a with
      | inl _ =>
          with_pub (mark p (g_pub g))
            match g_own g with
            | Some (p', SWritten text) =>
                if decide (p' = p) then with_own (Some (p, SSynced text)) g else g
            | _ => g
            end
      | inr _ => g
      end
  | Link p q => fun a => match a, g_own g with
      | inl _, Some (_, SSynced text) => with_pub (<[q := (complete_file text, false)]> (g_pub g)) g
      | _, _ => g
      end
  | Unlink p => fun a => match a with inl _ => with_own None g | inr _ => g end
  | _ => fun _ => g
  end.
Definition after (g : ghost) (o : op) : op_ret o -> ghost :=
  match o with
  | Fs c => after_fs g c
  | ReserveHandle _ _ => fun r => match r with
      | Ok (_, d, _) =>
          {| g_own := g_own g; g_pub := g_pub g; g_known := Some (hd_directory d, hd_claim d) |}
      | Throw _ => g
      end
  | _ => fun _ => g
  end.

(** What an operation has published when it ends. *)
Definition delivered (root : path) (g : ghost) (r : res response) : Prop :=
  match r with
  | Ok (Claimed _ c) => claim_ok c /\
      (exists mode uid, g_pub g !! dir_of root c = Some (NDir mode uid, true)) /\
      exists text, body_of (claim_value c) text /\
        g_pub g !! claim_file (dir_of root c) = Some (complete_file text, true)
  | Ok (Completed i) => exists t text, terminal_ok t /\
      g_known g = Some (dir_of root (te_claim t), te_claim t) /\
      i = makeInspection (CONSUMED (te_state t)) (Some (te_claim t)) (Some t) /\
      body_of (terminal_value t) text /\
      g_pub g !! terminal_file (dir_of root (te_claim t)) = Some (complete_file text, true)
  | _ => True
  end.

Definition follows {A} (root : path) : ghost -> program A -> (ghost -> res A -> Prop) -> Prop :=
  wp (allowed root) (possible root) after.

(** ** Every operation keeps to its ghost state *)

Lemma mark_lookup d pub q :
  mark d pub !! q = (fun x => (x.1, x.2 || is_child d q)) <$> pub !! q.
Proof. unfold mark. rewrite map_lookup_imap. by destruct (pub !! q). Qed.

Lemma mark_durable d pub q n : pub !! q = Some (n, true) -> mark d pub !! q = Some (n, true).
Proof. intros H. by rewrite mark_lookup, H. Qed.

Lemma parent_snoc d x : parent (d ++ [x]) = d.
Proof. unfold parent. rewrite length_app. simpl. rewrite Nat.add_sub. by rewrite take_app_length. Qed.

Lemma is_child_snoc d x : is_child d (d ++ [x]) = true.
Proof.
  unfold is_child. rewrite parent_snoc. destruct (d ++ [x]) eqn:E; [by destruct d|].
  by rewrite bool_decide_true.
Qed.

Lemma temp_path_temp q uuid : is_temp (temp_path q uuid).
Proof. unfold temp_path. eexists _, _. reflexivity. Qed.

Lemma follows_bind {A B} root g (p : program A) (f : A -> program B) Q :
  follows root g (p ≫= f) Q <->
  follows root g p (fun g r => match r with Ok a => follows root g (f a) Q | Throw e => Q g (Throw e) end).
Proof. apply wp_bind. Qed.
Lemma follows_attempt {A} root g (p : program A) Q :
  follows root g (attempt p) Q <-> follows root g p (fun g r => Q g (Ok r)).
Proof. apply wp_attempt. Qed.
Lemma follows_lift {A} root g (r : res A) Q : follows root g (lift r) Q <-> Q g r.
Proof. done. Qed.
Lemma follows_mono {A} root g (p : program A) (Q Q' : ghost -> res A -> Prop) :
  (forall g r, Q g r -> Q' g r) -> follows root g p Q -> follows root g p Q'.
Proof. apply wp_mono. Qed.
Lemma follows_call {A} root g c (k : fs_answer c -> program A) Q :
  follows root g (on_call c k) Q <->
  allowed root g (Fs c) /\ forall a, follows root (after_fs g c a) (k a) Q.
Proof. unfold follows, on_call. simpl. split; intros [? H]; (split; [done|]); auto. Qed.
Lemma follows_store root g o Q :
  follows root g (on_store o) Q <->
  allowed root g o /\ forall a, possible root o a -> Q (after g o a) (Ok a).
Proof. done. Qed.
Lemma unit_value (v : unit) : v = tt.
Proof. by destruct v. Qed.
Lemma follows_call_or root g c error Q :
  allowed root g (Fs c) ->
  (forall v, Q (after_fs g c (inl v)) (Ok v)) ->
  (forall code, Q (after_fs g c (inr code)) (Throw (error code))) ->
  follows root g (call_or c error) Q.
Proof. intros Ha H1 H2. unfold call_or. apply follows_call. split; [done|]. by intros []; simpl. Qed.
Lemma follows_call_ignore root g c Q :
  allowed root g (Fs c) -> (forall a, Q (after_fs g c a) (Ok tt)) -> follows root g (call_ignore c) Q.
Proof. intros Ha H. unfold call_ignore. by apply follows_call. Qed.

(** The ghost after the directory [d] is synchronised. *)
Definition synced_dir (d : path) (g : ghost) : ghost := after_fs g (Sync d) (inl tt).

Lemma fsyncDirectory_follows root g d (Q : ghost -> res unit -> Prop) :
  Q (synced_dir d g) (Ok tt) -> (forall e, Q g (Throw e)) -> follows root g (fsyncDirectory d) Q.
Proof.
  intros H1 H2. unfold fsyncDirectory. apply follows_bind, follows_call_or; [done| |done].
  intros v0. cbn [after_fs]. apply follows_bind, follows_attempt, follows_call_or; [done| |].
  - intros v. pose proof (unit_value v). subst v. apply follows_bind, follows_call_ignore; [done|]. intros a. by apply follows_lift.
  - intros code. apply follows_bind, follows_call_ignore; [done|]. intros a. by apply follows_lift.
Qed.

Lemma synced_dir_pub d g : g_pub (synced_dir d g) = mark d (g_pub g).
Proof. done. Qed.
Lemma synced_dir_own d g : g_own g = None -> g_own (synced_dir d g) = None.
Proof. unfold synced_dir. simpl. intros H. by rewrite H. Qed.
Lemma synced_dir_known d g : g_known (synced_dir d g) = g_known g.
Proof.
  unfold synced_dir. cbn [after_fs]. destruct (g_own g) as [[p [| |]]|]; try done. by case_decide.
Qed.

(** What is left to clean up when a record was not published. *)
Lemma cleanup_follows root g temp e handle tempExists (Q : ghost -> res unit -> Prop) :
  (tempExists = true -> exists st, g_own g = Some (temp, st)) ->
  (forall g' e, Q g' (Throw e)) ->
  follows root g (_ ← (if (handle : bool) then call_ignore (Close temp) else Done (Ok tt));
    _ ← (if (tempExists : bool) then call_ignore (Unlink temp) else Done (Ok tt));
    lift (catch (Throw e) (fun error =>
      if bool_decide (err_cls error = DurableErr) then Throw error
      else Throw (durable_io "durable record publication failed")))) Q.
Proof.
  intros Ht HThrow. set (outcome := catch _ _).
  assert (forall g', Q g' outcome) as Hend by (intros g'; unfold outcome, catch; by case_bool_decide).
  assert (follows root g (_ ← (if tempExists then call_ignore (Unlink temp) else Done (Ok tt)); lift outcome) Q)
    as Hu.
  { apply follows_bind. destruct tempExists; [|exact (Hend g)].
    apply follows_call_ignore; [by apply Ht|]. intros a. exact (Hend _). }
  apply follows_bind. destruct handle; [|exact Hu]. apply follows_call_ignore; [done|]. intros a. exact Hu.
Qed.

Lemma writeExclusiveDurable_follows root g q v uuid (Q : ghost -> res unit -> Prop) :
  g_own g = None ->
  (forall text, body_of v text -> publishable root g q text) ->
  (forall g' text, body_of v text -> g_known g' = g_known g ->
     g_pub g' = mark (parent q) (<[q := (complete_file text, false)]> (mark (temp_path q uuid) (g_pub g))) ->
     Q g' (Ok tt)) ->
  (forall g' e, Q g' (Throw e)) ->
  follows root g (writeExclusiveDurable q v uuid) Q.
Proof.
  intros Hown Hpub HOk HThrow. unfold writeExclusiveDurable.
  apply follows_bind, follows_lift. destruct (canonicalizePayload v) as [canonical|e] eqn:Hc; [|done].
  apply follows_bind, follows_lift.
  destruct (guard_or (utf8_length (canonical ++ [10%N]) <=? MAX_RECORD_BYTES)%N _) as [[]|e] eqn:Hg; [|done].
  apply guard_or_Ok, N.leb_le in Hg. set (text := canonical ++ [10%N]) in *.
  assert (body_of v text) as Hbody by (by exists canonical).
  set (temp := temp_path q uuid). assert (is_temp temp) as Htemp by apply temp_path_temp.
  apply follows_bind. unfold publish. cbv zeta.
  apply follows_call. split; [done|]. intros [?|code]; [|by apply (cleanup_follows _ _ temp)].
  cbn [after_fs]. set (g1 := with_own (Some (temp, SOpen)) g).
  apply follows_call. split; [done|]. intros [?|code]; [|by apply (cleanup_follows _ _ temp); eauto].
  cbn [after_fs]. apply follows_call. split; [done|].
  intros [?|code]; [|by apply (cleanup_follows _ _ temp); cbn; eauto].
  cbn [after_fs g_own with_own]. rewrite decide_True by done.
  match goal with |- follows root ?g _ _ => set (g2 := g) end.
  assert (g_own g2 = Some (temp, SSynced text)) as Hown2 by done.
  apply follows_call. split; [done|]. intros [?|code]; [|by apply (cleanup_follows _ _ temp); eauto].
  cbn [after_fs]. apply follows_call. split.
  { exists text. split; [done|]. destruct (Hpub _ Hbody) as [Hl|Hr]; [by left|by right]. }
  intros [?|code]; [|by apply (cleanup_follows _ _ temp); eauto]. cbn [after_fs]. rewrite Hown2.
  match goal with |- follows root ?g _ _ => set (g3 := g) end.
  apply follows_call. split; [by eexists|]. intros [?|code]; [|apply (cleanup_follows _ _ temp); [intros _; by eexists|done]].
  cbn [after_fs]. match goal with |- follows root ?g _ _ => set (g4 := g) end.
  apply follows_bind, follows_attempt, fsyncDirectory_follows.
  - refine (HOk _ text Hbody _ _); [by rewrite synced_dir_known|by rewrite synced_dir_pub].
  - intros e. by refine (cleanup_follows _ _ temp e false false _ _ _).
Qed.

Lemma readBoundedJson_follows root g q (Q : ghost -> res jsv -> Prop) :
  (forall r, Q g r) -> follows root g (readBoundedJson q) Q.
Proof.
  intros H. unfold readBoundedJson. apply follows_call. split; [done|]. intros [stat|code].
  - cbn [after_fs]. apply follows_bind, follows_lift. destruct (guard_or _ _) as [[]|]; [|done].
    apply follows_bind, follows_call_or; [done| |done]. intros text. destruct (json_parse text); apply H.
  - destruct (str_eqb code ENOENT); apply H.
Qed.

Lemma trustedRoot_follows root g (Q : ghost -> res path -> Prop) :
  g_own g = None ->
  (forall g', g_own g' = None -> g_pub g' = mark (parent root) (g_pub g) \/ g_pub g' = g_pub g ->
     Q g' (Ok root)) ->
  (forall g' e, Q g' (Throw e)) ->
  follows root g (trustedRoot root) Q.
Proof.
  intros Hown HOk HThrow. unfold trustedRoot.
  assert (follows root g (resolved ← on_store AwaitRoot; lift resolved) Q) as Hwait.
  { apply follows_bind, follows_store. split; [done|]. intros [p|e] Hp; apply follows_lift; [|apply HThrow].
    simpl in Hp. subst p. apply HOk; auto. }
  apply follows_bind, follows_store. split; [done|]. intros memo Hm.
  destruct memo as [| |r]; [|exact Hwait..].
  apply follows_bind, follows_attempt. unfold check_root. cbv zeta.
  assert (forall g' r, (match r with Ok p => p = root /\ g_own g' = None /\
        (g_pub g' = mark (parent root) (g_pub g) \/ g_pub g' = g_pub g) | Throw _ => True end) ->
    follows root g' (_ ← on_store (SettleRoot r); lift r) Q) as Hset.
  { intros g' r Hr. apply follows_bind, follows_store. split; [by destruct r as [p|e]; [destruct Hr|]|].
    intros a _. apply follows_lift.
    destruct r as [p|e]; [destruct Hr as (-> & ? & ?); by apply HOk|apply HThrow]. }
  apply follows_bind, follows_call_or; [done| |intros code; by apply Hset]. intros stat.
  apply follows_bind, follows_call_or; [done| |intros code; by apply Hset]. intros resolved.
  apply follows_bind, follows_lift. destruct (guard_or _ _) as [[]|] eqn:Hg; [|by apply Hset].
  apply guard_or_Ok in Hg. rewrite !andb_true_iff, bool_decide_eq_true in Hg. destruct Hg as [[[_ ->] _] _].
  apply follows_bind, fsyncDirectory_follows; [|intros e; by apply Hset].
  apply follows_lift, Hset. split; [done|]. split; [by apply synced_dir_own|]. left. apply synced_dir_pub.
Qed.

Lemma capture_claim_input_Ok h input label capability authorization :
  capture_claim_input h input label = Ok (capability, authorization) ->
  capability_id_pattern capability = true /\ hash_pattern authorization = true.
Proof.
  unfold capture_claim_input, validateCapabilityId, validateAuthorizationCommitment.
  intros (s & _ & H)%bind_Ok. apply bind_Ok in H as (c & Hc & H). apply bind_Ok in H as (a & Ha & [= <- <-]).
  destruct (hstr_that capability_id_pattern _) as [c'|] eqn:Ec; [|done]. injection Hc as <-.
  destruct (hstr_that hash_pattern _) as [a'|] eqn:Ea; [|done]. injection Ha as <-.
  by apply hstr_that_Some in Ec as [_ ?], Ea as [_ ?].
Qed.

Lemma capability_file_ne capability : capability_id_pattern capability = true ->
  capability <> js "claim.json" /\ capability <> js "terminal.json" /\ forall n, capability <> js "." ++ n.
Proof.
  intros H. split_and!; [intros ->; vm_compute in H; done..|].
  intros n ->. by vm_compute in H.
Qed.

Lemma mark_empty d : mark d ∅ = ∅.
Proof. apply map_imap_empty. Qed.

Lemma claim_file_ne d c : claim_file (d ++ [c]) <> d ++ [c].
Proof. unfold claim_file. intros E%(f_equal length). rewrite !length_app in E. simpl in E. lia. Qed.

Lemma claim_follows root h input uuid :
  follows root no_ghost (operation root (RClaim h input uuid)) (delivered root).
Proof.
  cbn [operation]. apply follows_bind. unfold claim. apply follows_bind, follows_lift.
  destruct (capture_claim_input _ _ _) as [[capability authorization]|e] eqn:Hc; [|done].
  apply capture_claim_input_Ok in Hc as [Hcap Hauth]. unfold claim_captured.
  apply follows_bind, trustedRoot_follows; [done| |done]. intros g1 Hown1 Hpub1.
  assert (g_pub g1 = ∅) as Hp1 by (destruct Hpub1 as [-> | ->]; [apply mark_empty|done]). clear Hpub1.
  set (dir := root ++ [capability]).
  apply follows_bind, follows_call_or; [by exists capability| |by intros]. intros v1.
  cbn [after_fs]. rewrite Hp1, insert_empty.
  match goal with |- follows root ?g _ _ => set (g2 := g) end.
  apply follows_bind, fsyncDirectory_follows; [|done].
  apply follows_bind, follows_lift.
  destruct (makeClaimRecord capability authorization) as [c|e] eqn:Hm; [|done].
  destruct (makeClaimRecord_fields _ _ _ Hm) as [Ec Ea].
  assert (claim_ok c) as Hok by (split_and!; by rewrite ?Ec, ?Ea).
  assert (dir_of root c = dir) as Hdir by (unfold dir_of; by rewrite Ec).
  apply follows_bind, writeExclusiveDurable_follows; [by apply synced_dir_own| | |done].
  { intros text Ht. left. exists c. by rewrite Hdir. }
  intros g3 text Ht Hk3 Hp3. rewrite synced_dir_pub in Hp3.
  assert (g_pub g3 !! claim_file dir = Some (complete_file text, true)) as Hfile.
  { rewrite Hp3, mark_lookup, lookup_insert, decide_True by done. simpl.
    unfold claim_file. by rewrite parent_snoc, is_child_snoc. }
  assert (exists mode uid, g_pub g3 !! dir = Some (NDir mode uid, true)) as Hn.
  { exists 448, (default 0 current_uid). rewrite Hp3. rewrite mark_lookup.
    rewrite lookup_insert_ne by apply claim_file_ne.
    rewrite !mark_lookup. unfold g2. simpl. rewrite lookup_singleton, decide_True by done. simpl.
    unfold dir. by rewrite is_child_snoc. }
  apply follows_bind, follows_store. split.
  { do 3 (split; [done|]). by exists text. }
  intros handle _. apply follows_lift, follows_lift. cbn. rewrite Hdir.
  do 2 (split; [done|]). by exists text.
Qed.

Lemma inspect_follows root h input :
  follows root no_ghost (operation root (RInspect h input)) (delivered root).
Proof.
  cbn [operation]. apply follows_bind. unfold inspect. apply follows_bind, follows_lift.
  destruct (capture_claim_input _ _ _) as [[capability authorization]|e]; [|done].
  unfold inspect_captured. apply follows_bind, trustedRoot_follows; [done| |done]. intros g _ _.
  apply follows_call. split; [done|]. intros [stat|code]; cbn [after_fs].
  2:{ by destruct (str_eqb code ENOENT). }
  apply follows_bind, follows_lift. destruct (guard_or _ _) as [[]|]; [|done].
  apply follows_bind, readBoundedJson_follows. intros [v|e]; [|done]. destruct (is_null v); [done|].
  apply follows_bind, follows_lift. destruct (validateClaimRecord v) as [c|e]; [|done].
  apply follows_bind, follows_lift. destruct (guard_or _ _) as [[]|]; [|done].
  apply follows_bind, readBoundedJson_follows. intros [v'|e]; [|done]. destruct (is_null v'); [done|].
  apply follows_bind, follows_lift. by destruct (validateTerminalRecord v' c).
Qed.

Lemma complete_follows root handle outcome uuid :
  follows root no_ghost (operation root (RComplete handle outcome uuid)) (delivered root).
Proof.
  cbn [operation]. apply follows_bind. unfold complete. apply follows_bind, follows_store.
  split; [done|]. intros [[[i d] st]|e] Hp; [|by apply follows_bind, follows_lift].
  destruct Hp as [Hok Hdir]. apply follows_bind, follows_lift. cbn [after].
  apply follows_bind, follows_lift. destruct (makeTerminalRecord (hd_claim d) st) as [t|e] eqn:Hm; [|done].
  destruct (makeTerminalRecord_fields _ _ _ Hm) as [Ec Es].
  assert (terminal_ok t) as Ht by (split; [by rewrite Ec|by rewrite Ec, Es]).
  apply follows_bind, follows_attempt. unfold publish_terminal.
  assert (forall g e, follows root g (_ ← on_store (SetStatus i HFailedClosed); lift (Throw e : res inspection))
    (fun g r => match r with Ok a => follows root g (lift (Ok (Completed a))) (delivered root)
                | Throw e => delivered root g (Throw e) end)) as Hfail.
  { intros g e. apply follows_bind, follows_store. done. }
  apply follows_bind, readBoundedJson_follows. intros [v|e]; [|apply Hfail].
  apply follows_bind, follows_lift. destruct (guard_or _ _) as [[]|]; [|apply Hfail].
  apply follows_bind, follows_lift. destruct (validateClaimRecord v) as [c|e]; [|apply Hfail].
  apply follows_bind, follows_lift. destruct (guard_or _ _) as [[]|]; [|apply Hfail].
  apply writeExclusiveDurable_follows; [done| | |intros; apply Hfail].
  { intros text Hb. right. exists t. rewrite Ec, Hdir in *. done. }
  intros g text Hb Hk Hpub. apply follows_bind, follows_store. split; [done|]. intros a _.
  apply follows_lift, follows_lift. exists t, text. rewrite Ec, Es, <- Hdir.
  do 4 (split; [done|]). cbn [after].
  rewrite Hpub, mark_lookup, lookup_insert, decide_True by done. simpl.
  unfold terminal_file. by rewrite parent_snoc, is_child_snoc.
Qed.

(** Every operation publishes only what it may, cleans up only what is its own,
    and ends successfully only with its records on the disk. *)
Lemma operation_follows root req : follows root no_ghost (operation root req) (delivered root).
Proof. destruct req; [apply inspect_follows|apply claim_follows|apply complete_follows]. Qed.
End ghosts.
