(* ===== verification/DurableSafety.v ===== *)
(** * Safety of the durable claim store

    What holds in every world the stores of [DurableWorld] reach: nobody shares a
    claim or a terminal file, nobody sees half of one, and what an operation has
    answered is still there after a crash.  The invariant ties each thread's
    ghost state to the entries of the file system; a step of one program [keeps]
    what the others rely on, and a crash keeps what was on the disk. *)
From stdpp Require Import fin_maps.
From S2P Require Import Prelude JsDate JsValue ProofSdk Json Canonical Receipt Normal JsHeap PlainData Authorization Gate TrustedClock FileSystem DurableClaims DurableRecords DurableWorld.

#[local] Arguments js : simpl never.

Section safety.
Context `{SH : !StringHost, HH : !HashHost, PH : !ProcessHost}.

(** ** What holds in every world *)

Definition persisted (s : fs) (q : path) (n : node) : Prop :=
  fs_live s !! q = Some n /\ fs_disk s !! q = Some n.
(** The directory [d] and its claim file, which is that of [c], are on the disk. *)
Definition claim_persisted (s : fs) (d : path) (c : claim_record) : Prop :=
  ~ is_temp d /\ (exists mode uid, persisted s d (NDir mode uid)) /\
  exists text, body_of (claim_value c) text /\ persisted s (claim_file d) (complete_file text).

(** A node a crash cannot change while its entry survives. *)
Definition solid (n : node) : Prop := match n with NFile f => f_synced f = true | _ => True end.
Definition stage_ok (st : stage) (f : file) : Prop :=
  match st with
  | SOpen => True
  | SWritten text => f_text f = text /\ f_size f = utf8_length text
  | SSynced text => NFile f = complete_file text
  end.

Definition pub_ok (s : fs) (q : path) (n : node) (durable : bool) : Prop :=
  ~ is_temp q /\ solid n /\ q <> [] /\ fs_live s !! q = Some n /\
  if durable then fs_disk s !! q = Some n
  else exists mode uid, fs_live s !! parent q = Some (NDir mode uid).
Record ghost_ok (s : fs) (g : ghost) : Prop := {
  go_own p st : g_own g = Some (p, st) ->
    is_temp p /\ exists f, fs_live s !! p = Some (NFile f) /\ stage_ok st f;
  go_pub q n durable : g_pub g !! q = Some (n, durable) -> pub_ok s q n durable;
  go_known d c : g_known g = Some (d, c) -> claim_persisted s d c;
}.

(** The files the store publishes, and what is in them. *)
Definition is_final (q : path) : Prop :=
  exists d capability, capability_id_pattern capability = true /\
    (q = claim_file (d ++ [capability]) \/ q = terminal_file (d ++ [capability])).
Inductive final_ok (s : fs) (q : path) (n : node) : Prop :=
  | final_claim d c text :
      claim_ok c -> q = claim_file (dir_of d c) -> body_of (claim_value c) text ->
      n = complete_file text -> final_ok s q n
  | final_terminal d t text :
      terminal_ok t -> q = terminal_file (dir_of d (te_claim t)) ->
      body_of (terminal_value t) text -> n = complete_file text ->
      claim_persisted s (dir_of d (te_claim t)) (te_claim t) -> final_ok s q n.
Definition finals_ok (s : fs) : Prop :=
  forall q n, is_final q -> fs_live s !! q = Some n \/ fs_disk s !! q = Some n -> final_ok s q n.

(** What one step leaves alone, except for the owner of [own]. *)
Record keeps (own : option path) (s s' : fs) : Prop := {
  kp_live q n : ~ is_temp q -> solid n -> fs_live s !! q = Some n -> fs_live s' !! q = Some n;
  kp_disk q n : ~ is_temp q -> solid n -> persisted s q n -> fs_disk s' !! q = Some n;
  kp_dir q mode uid : fs_live s !! q = Some (NDir mode uid) -> fs_live s' !! q = Some (NDir mode uid);
  kp_temp p f : is_temp p -> own <> Some p -> fs_live s !! p = Some (NFile f) ->
    exists f', fs_live s' !! p = Some (NFile f') /\ f_text f' = f_text f /\ f_size f' = f_size f /\
      (f_synced f = true -> f_synced f' = true);
}.

Lemma keeps_refl own s : keeps own s s.
Proof. split; try done. - by intros q n _ _ [_ ?]. - intros p f _ _ H. by exists f. Qed.

Lemma claim_file_not_temp d : ~ is_temp (claim_file d).
Proof. intros (x & n & E). unfold claim_file in E. apply app_inj_tail in E as [_ E]. by vm_compute in E. Qed.
Lemma terminal_file_not_temp d : ~ is_temp (terminal_file d).
Proof. intros (x & n & E). unfold terminal_file in E. apply app_inj_tail in E as [_ E]. by vm_compute in E. Qed.

Lemma dir_not_temp root capability : capability_id_pattern capability = true -> ~ is_temp (root ++ [capability]).
Proof.
  intros H (d & n & E). apply app_inj_tail in E as [_ ->].
  by apply (proj2 (proj2 (capability_file_ne _ H)) n).
Qed.

Lemma publishable_final root g q text :
  publishable root g q text -> ~ is_temp q /\ q <> [].
Proof.
  intros [(c & _ & -> & _)|(t & _ & -> & _)]; split;
    auto using claim_file_not_temp, terminal_file_not_temp; unfold claim_file, terminal_file;
    intros E; by apply app_eq_nil in E as [_ ?].
Qed.

Lemma is_final_not_temp q : is_final q -> ~ is_temp q.
Proof.
  intros (d & c & _ & [-> | ->]); auto using claim_file_not_temp, terminal_file_not_temp.
Qed.

Lemma set_file_live p f s q :
  fs_live (set_file p f s) !! q =
  (if decide (p = q) then (fun n => match n with NFile _ => NFile f | _ => n end) <$> fs_live s !! q
   else fs_live s !! q).
Proof.
  unfold set_file. simpl. rewrite lookup_alter. case_decide; by subst.
Qed.
Lemma set_file_disk p f s q :
  fs_disk (set_file p f s) !! q =
  (if decide (p = q) then (fun n => match n with NFile _ => NFile f | _ => n end) <$> fs_disk s !! q
   else fs_disk s !! q).
Proof.
  unfold set_file. simpl. rewrite lookup_alter. case_decide; by subst.
Qed.

Lemma sync_dir_disk d s q :
  fs_disk (sync_dir d s) !! q = if is_child d q then fs_live s !! q else fs_disk s !! q.
Proof.
  unfold sync_dir. simpl. rewrite lookup_union, !map_lookup_imap.
  by destruct (fs_live s !! q), (fs_disk s !! q), (is_child d q) eqn:E; simpl; rewrite ?E.
Qed.

(** Writing to a temporary file leaves everything else alone. *)
Lemma keeps_set_file own p f s :
  (is_temp p /\ own = Some p) \/
  (exists f0, fs_live s !! p = Some (NFile f0) /\ f = sync_file f0) ->
  keeps own s (set_file p f s).
Proof.
  intros Hp. split.
  - intros q n Hq Hn Hl. rewrite set_file_live. case_decide as E; [subst q|done].
    destruct Hp as [[? _]|(f0 & Hf & ->)]; [done|]. rewrite Hl in Hf. injection Hf as ->. rewrite Hl.
    simpl. do 2 f_equal. destruct f0. simpl in *. by subst.
  - intros q n Hq Hn [Hl Hd]. rewrite set_file_disk. case_decide as E; [subst q|done].
    destruct Hp as [[? _]|(f0 & Hf & ->)]; [done|]. rewrite Hl in Hf. injection Hf as ->. rewrite Hd.
    simpl. do 2 f_equal. destruct f0. simpl in *. by subst.
  - intros q m u Hl. rewrite set_file_live. case_decide; [by rewrite Hl|done].
  - intros q f' Hq Ho Hl. rewrite set_file_live. case_decide as E; [subst q|by exists f'].
    destruct Hp as [[_ ?]|(f0 & Hf & ->)]; [done|]. rewrite Hl in Hf. injection Hf as ->. rewrite Hl.
    by eexists.
Qed.

Lemma keeps_insert own p n s : fs_live s !! p = None -> keeps own s (with_live s (<[p := n]> (fs_live s))).
Proof.
  intros Hp. assert (forall q n', fs_live s !! q = Some n' ->
    <[p := n]> (fs_live s) !! q = Some n') as H.
  { intros q n' Hq. rewrite lookup_insert_ne; [done|congruence]. }
  split; simpl; auto.
  - by intros q n' _ _ [_ ?].
  - intros q f _ _ Hq. exists f. auto.
Qed.

Lemma fs_step_keeps root g c s a s' :
  ghost_ok s g -> allowed root g (Fs c) -> fs_step c s a s' -> keeps (fst <$> g_own g) s s'.
Proof.
  intros G Ha Hs. destruct Hs as [|code s' _ _ Hf].
  2:{ destruct c; simpl in Hf; try (subst; apply keeps_refl).
      destruct Hf as [->|[t ->]]; [apply keeps_refl|]. simpl in Ha.
      apply keeps_set_file. left. rewrite Ha. split; [|done]. by apply (go_own _ _ G p SOpen). }
  destruct c; cbn [fs_exec]; try apply keeps_refl.
  - destruct (fs_live s !! p) eqn:E; [apply keeps_refl|]. destruct (in_directory _ _); [|apply keeps_refl].
    by apply keeps_insert.
  - destruct (fs_live s !! p) eqn:E; [apply keeps_refl|]. destruct (in_directory _ _); [|apply keeps_refl].
    by apply keeps_insert.
  - simpl in Ha. apply keeps_set_file. left. rewrite Ha. split; [|done]. by apply (go_own _ _ G p SOpen).
  - destruct (fs_live s !! p) as [[m u|f|b]|] eqn:E; cbn [snd].
    2:{ apply keeps_set_file. right. by exists f. }
    all: split; [done| |done|intros q f' _ _ Hq; by exists f'].
    all: intros q n _ _ [Hl Hd]; rewrite sync_dir_disk; by case_match.
  - destruct (fs_live s !! p) as [n|] eqn:E; [|apply keeps_refl].
    destruct (fs_live s !! q) as [n'|] eqn:E'; [by destruct n; apply keeps_refl|].
    destruct n; destruct (in_directory q _); try apply keeps_refl; by apply keeps_insert.
  - simpl in Ha. destruct Ha as [st Ha]. destruct (go_own _ _ G p st Ha) as (Ht & f & Hf & _). rewrite Hf.
    split; simpl.
    + intros q n Hq _ Hl. rewrite lookup_delete_ne; [done|]. by intros ->.
    + by intros q n _ _ [_ ?].
    + intros q m u Hl. rewrite lookup_delete_ne; [done|]. intros ->. congruence.
    + intros q f' Hq Ho Hl. exists f'. rewrite lookup_delete_ne; [done|]. intros ->. by rewrite Ha in Ho.
Qed.

(** Facts that a step leaves alone stay true. *)
Lemma complete_file_solid text : solid (complete_file text).
Proof. done. Qed.

Lemma keeps_persisted own s s' q n :
  keeps own s s' -> ~ is_temp q -> solid n -> persisted s q n -> persisted s' q n.
Proof. intros K Hq Hn Hp. split; [by eapply kp_live; [..|apply Hp]|by eapply kp_disk]. Qed.

Lemma keeps_claim own s s' d c : keeps own s s' -> claim_persisted s d c -> claim_persisted s' d c.
Proof.
  intros K (Ht & (m & u & Hd) & t & Hb & Hp). split; [done|]. split.
  { exists m, u. by eapply keeps_persisted. }
  exists t. split; [done|]. eapply keeps_persisted; [done|apply claim_file_not_temp|done|done].
Qed.

Lemma stage_ok_keeps st f f' :
  f_text f' = f_text f -> f_size f' = f_size f -> (f_synced f = true -> f_synced f' = true) ->
  stage_ok st f -> stage_ok st f'.
Proof.
  destruct f, f'. simpl. intros -> -> Hs. destruct st; simpl; try done.
  intros [= -> -> ->]. by rewrite Hs.
Qed.

Lemma keeps_pub own s s' q n durable : keeps own s s' -> pub_ok s q n durable -> pub_ok s' q n durable.
Proof.
  intros K (Ht & Hs & Hne & Hl & Hd). split_and!; try done; [by eapply kp_live|].
  destruct durable; [by eapply kp_disk|]. destruct Hd as (m & u & Hp). exists m, u. by eapply kp_dir.
Qed.

Lemma keeps_ghost own s s' g :
  keeps own s s' -> (forall p, own = Some p -> fst <$> g_own g <> Some p) -> ghost_ok s g -> ghost_ok s' g.
Proof.
  intros K Ho [H1 H2 H3]. split.
  - intros p st Hg. destruct (H1 _ _ Hg) as (Ht & f & Hf & Hst). split; [done|].
    destruct (kp_temp _ _ _ K p f Ht) as (f' & Hf' & ? & ? & ?); [|done|].
    + intros E. apply (Ho _ E). by rewrite Hg.
    + exists f'. split; [done|]. by eapply stage_ok_keeps.
  - intros q n b Hg. eapply keeps_pub; [done|by apply H2].
  - intros d c Hg. eapply keeps_claim; [done|auto].
Qed.

(** A ghost stays true to the file system when its own program makes a call. *)
Lemma with_own_ok s g own :
  ghost_ok s g ->
  (forall p st, own = Some (p, st) ->
     is_temp p /\ exists f, fs_live s !! p = Some (NFile f) /\ stage_ok st f) ->
  ghost_ok s (with_own own g).
Proof. intros [H1 H2 H3] H. split; simpl; auto. Qed.

Lemma with_pub_ok s g q n :
  ghost_ok s g -> ~ is_temp q -> solid n -> q <> [] -> fs_live s !! q = Some n ->
  (exists mode uid, fs_live s !! parent q = Some (NDir mode uid)) ->
  ghost_ok s (with_pub (<[q := (n, false)]> (g_pub g)) g).
Proof.
  intros [H1 H2 H3] ? ? ? ? ?. split; simpl; [done| |done]. intros q' n' b. rewrite lookup_insert.
  case_decide as E; [subst|by apply H2]. by intros [= <- <-].
Qed.

Lemma in_directory_true p live :
  in_directory p live = true -> p <> [] /\ exists mode uid, live !! parent p = Some (NDir mode uid).
Proof.
  unfold in_directory. destruct p; [done|]. destruct (live !! _) as [[]|]; try done. intros _.
  split; [done|]. eauto.
Qed.

Lemma parent_ne p : p <> [] -> parent p <> p.
Proof.
  intros Hp E%(f_equal length). unfold parent in E. rewrite length_take in E.
  destruct p; simpl in *; [done|lia].
Qed.

(** Synchronising a path marks the published entries below it. *)
Lemma mark_ok s g p own :
  ghost_ok s g ->
  (forall q n, g_pub g !! q = Some (n, false) -> is_child p q = true -> fs_disk s !! q = Some n) ->
  (forall p' st, own = Some (p', st) ->
     is_temp p' /\ exists f, fs_live s !! p' = Some (NFile f) /\ stage_ok st f) ->
  ghost_ok s (with_pub (mark p (g_pub g)) (with_own own g)).
Proof.
  intros [H1 H2 H3] Hd Ho. split; simpl; [done| |done]. intros q n b. rewrite mark_lookup.
  destruct (g_pub g !! q) as [[n' b']|] eqn:E; [|done]. intros [= -> <-].
  destruct (H2 _ _ _ E) as (? & ? & ? & ? & Hb). split_and!; try done.
  destruct b'; [done|]. simpl. destruct (is_child p q) eqn:Ec; [by eapply Hd|done].
Qed.

Lemma is_child_parent d q : is_child d q = true -> parent q = d.
Proof. unfold is_child. destruct q; [done|]. apply bool_decide_eq_true. Qed.

Lemma child_of_dir s g p q n :
  ghost_ok s g -> g_pub g !! q = Some (n, false) -> is_child p q = true ->
  (exists mode uid, fs_live s !! p = Some (NDir mode uid)) /\ fs_live s !! q = Some n.
Proof. intros G Hq <-%is_child_parent. by destruct (go_pub _ _ G _ _ _ Hq) as (_ & _ & _ & ? & ?). Qed.

(** The temporary file changes hands or contents, the rest is left alone. *)
Lemma keeps_own_ok own s s' g own' :
  keeps own s s' -> ghost_ok s g ->
  (forall p st, own' = Some (p, st) ->
     is_temp p /\ exists f, fs_live s' !! p = Some (NFile f) /\ stage_ok st f) ->
  ghost_ok s' (with_own own' g).
Proof.
  intros K [H1 H2 H3] Ho. split; simpl; [done| |].
  - intros q n b Hg. eapply keeps_pub; [done|by apply H2].
  - intros d c Hg. eapply keeps_claim; [done|auto].
Qed.

Lemma with_own_same g : with_own (g_own g) g = g.
Proof. by destruct g. Qed.

Lemma write_ok s g p st text f :
  ghost_ok s g -> g_own g = Some (p, st) -> stage_ok f (unsynced text) ->
  ghost_ok (set_file p (unsynced text) s) (with_own (Some (p, f)) g).
Proof.
  intros G Ha Hf. destruct (go_own _ _ G p st Ha) as (Ht & f0 & Hf0 & _).
  eapply (keeps_own_ok (Some p)); [apply keeps_set_file; by left|done|].
  intros p' st' [= <- <-]. split; [done|]. exists (unsynced text). split; [|done].
  pose proof (set_file_live p (unsynced text) s p) as Hl. by rewrite decide_True, Hf0 in Hl by done.
Qed.

Lemma mkdir_ok root s g p :
  ghost_ok s g -> allowed root g (Fs (Mkdir p)) ->
  ghost_ok (fs_exec (Mkdir p) s).2 (after_fs g (Mkdir p) (fs_exec (Mkdir p) s).1).
Proof.
  intros G (cap & Hp & Hcap). cbn [fs_exec after_fs].
  destruct (fs_live s !! p) eqn:E; [exact G|].
  destruct (in_directory p (fs_live s)) eqn:Hdir; [|exact G]. cbn [fst snd].
  apply in_directory_true in Hdir as (Hne & m & u & Hpar). apply with_pub_ok; try done.
  - rewrite <- (with_own_same g). eapply (keeps_own_ok None); [by apply keeps_insert|done|].
    intros p' st Hp'. destruct (go_own _ _ G _ _ Hp') as (? & f & Hf & ?). split; [done|]. exists f. simpl.
    rewrite lookup_insert_ne; [done|congruence].
  - rewrite Hp. by apply dir_not_temp.
  - simpl. by rewrite lookup_insert, decide_True.
  - exists m, u. simpl. rewrite lookup_insert_ne; [done|]. intros E'. by apply (parent_ne p).
Qed.

Lemma open_ok root s g p :
  ghost_ok s g -> allowed root g (Fs (OpenNew p)) ->
  ghost_ok (fs_exec (OpenNew p) s).2 (after_fs g (OpenNew p) (fs_exec (OpenNew p) s).1).
Proof.
  intros G [Ht Hown]. cbn [fs_exec after_fs].
  destruct (fs_live s !! p) eqn:E; [exact G|].
  destruct (in_directory p (fs_live s)); [|exact G]. cbn [fst snd].
  eapply (keeps_own_ok None); [by apply keeps_insert|done|].
  intros p' st [= <- <-]. split; [done|]. simpl. eexists. by rewrite lookup_insert, decide_True.
Qed.

Lemma sync_own_ok s s1 g p :
  ghost_ok s g -> keeps None s s1 ->
  (forall q n, g_pub g !! q = Some (n, false) -> is_child p q = true -> fs_disk s1 !! q = Some n) ->
  (forall f, fs_live s !! p = Some (NFile f) -> fs_live s1 !! p = Some (NFile (sync_file f))) ->
  ghost_ok s1 (synced_dir p g).
Proof.
  intros G K Hc Hf1. assert (ghost_ok s1 g) as G1 by by eapply keeps_ghost.
  assert (ghost_ok s1 (with_pub (mark p (g_pub g)) (with_own (g_own g) g))) as Hsame
    by (apply mark_ok; [done..|apply (go_own _ _ G1)]).
  rewrite with_own_same in Hsame. unfold synced_dir. cbn [after_fs].
  destruct (g_own g) as [[p' [|text|text]]|] eqn:Eo; try exact Hsame.
  case_decide as Ep; [subst p'|exact Hsame]. apply mark_ok; [done..|].
  intros p' st [= <- <-]. destruct (go_own _ _ G _ _ Eo) as (Ht & f & Hf & Hst1 & Hst2).
  split; [done|]. exists (sync_file f). split; [by apply Hf1|]. simpl.
  unfold complete_file, sync_file. by rewrite Hst1, Hst2.
Qed.

Lemma sync_ok s g p :
  ghost_ok s g -> ghost_ok (fs_exec (Sync p) s).2 (after_fs g (Sync p) (fs_exec (Sync p) s).1).
Proof.
  intros G. cbn [fs_exec].
  destruct (fs_live s !! p) as [[m u|f|b]|] eqn:E; cbn [fst snd]; apply (sync_own_ok s); try done.
  4:{ apply keeps_set_file. right. by exists f. }
  4:{ intros q n Hq Hc. destruct (child_of_dir _ _ _ _ _ G Hq Hc) as [(m & u & ?) _]. congruence. }
  4:{ intros f' Hf'. rewrite E in Hf'. injection Hf' as <-. by rewrite set_file_live, decide_True, E by done. }
  all: try (intros q n Hq Hc; rewrite sync_dir_disk, Hc; by destruct (child_of_dir _ _ _ _ _ G Hq Hc)).
  all: try (intros f Hf; congruence).
  all: split; [done| |done|intros q f' _ _ Hq; by exists f'].
  all: intros q n _ _ [Hl Hd]; rewrite sync_dir_disk; by case_match.
Qed.

Lemma link_ok root s g p q :
  ghost_ok s g -> allowed root g (Fs (Link p q)) ->
  ghost_ok (fs_exec (Link p q) s).2 (after_fs g (Link p q) (fs_exec (Link p q) s).1).
Proof.
  intros G (text & Hown & Hpub). destruct (publishable_final _ _ _ _ Hpub) as [Hqt Hqne].
  destruct (go_own _ _ G _ _ Hown) as (Ht & f & Hf & Hst). simpl in Hst. cbn [fs_exec after_fs].
  rewrite Hf. destruct (fs_live s !! q) as [n'|] eqn:Eq; [exact G|].
  destruct (in_directory q (fs_live s)) eqn:Hdir; [|exact G]. cbn [fst snd]. rewrite Hown.
  apply in_directory_true in Hdir as (_ & m & u & Hpar). apply with_pub_ok; try done.
  - eapply keeps_ghost; [by apply (keeps_insert None)|done|done].
  - simpl. by rewrite lookup_insert, decide_True, Hst.
  - exists m, u. simpl. rewrite lookup_insert_ne; [done|]. intros E'. by apply (parent_ne q).
Qed.

Lemma after_fs_ok root g c s a s' :
  ghost_ok s g -> allowed root g (Fs c) -> fs_step c s a s' -> ghost_ok s' (after_fs g c a).
Proof.
  intros G Ha Hs. pose proof (fs_step_keeps _ _ _ _ _ _ G Ha Hs) as K. destruct Hs as [|code s' _ _ Hf].
  - destruct c; try exact G.
    + by eapply mkdir_ok.
    + by eapply open_ok.
    + by eapply write_ok.
    + by eapply sync_ok.
    + by eapply link_ok.
    + destruct Ha as [st Ha]. destruct (go_own _ _ G p st Ha) as (Ht & f & Hf & _).
      cbn [fs_exec after_fs] in *. rewrite Hf in *. by eapply keeps_own_ok.
  - assert (after_fs g c (inr code) = g) as -> by by destruct c.
    destruct c; simpl in Hf; try by subst. destruct Hf as [->|[t ->]]; [done|]. simpl in Ha.
    rewrite <- (with_own_same g), Ha. by eapply write_ok.
Qed.

(** ** Published files *)

Lemma final_ok_keeps own s s' q n : keeps own s s' -> final_ok s q n -> final_ok s' q n.
Proof.
  intros K []; [by eapply final_claim|]. eapply final_terminal; [done..|by eapply keeps_claim].
Qed.

Lemma final_ok_solid s q n : final_ok s q n -> exists text, n = complete_file text.
Proof. intros [d c text _ _ _ ->|d t text _ _ _ -> _]; by exists text. Qed.

Lemma mkdir_not_final root q capability :
  q = root ++ [capability] -> capability_id_pattern capability = true -> ~ is_final q.
Proof.
  intros -> H (d & c & _ & [E|E]); unfold claim_file, terminal_file in E;
    apply app_inj_tail in E as [_ E]; destruct (capability_file_ne _ H) as (? & ? & _); done.
Qed.

(** An entry under a final name after a step was there before or is new and right. *)
Lemma new_final root g c s a s' q n :
  ghost_ok s g -> allowed root g (Fs c) -> fs_step c s a s' -> finals_ok s -> is_final q ->
  fs_live s' !! q = Some n \/ fs_disk s' !! q = Some n ->
  (exists n', (fs_live s !! q = Some n' \/ fs_disk s !! q = Some n') /\ n = n') \/
  exists text, n = complete_file text /\ publishable root g q text.
Proof.
  intros G Ha Hs F Hq Hn. pose proof (is_final_not_temp _ Hq) as Hnt.
  destruct Hs as [|code s' _ _ Hf].
  2:{ left. destruct c; simpl in Hf; try (subst; by exists n). destruct Hf as [->|[t ->]]; [by exists n|].
      simpl in Ha. destruct (go_own _ _ G p SOpen Ha) as (Ht & _).
      assert (p <> q) as Hpq by (by intros ->).
    rewrite set_file_live, set_file_disk, !decide_False in Hn by done. by exists n. }
  destruct c; cbn [fs_exec] in Hn; try (left; by exists n).
  - left. simpl in Ha. destruct Ha as (cap & Hp & Hcap).
    destruct (fs_live s !! p); [by exists n|]. destruct (in_directory _ _); [|by exists n]. simpl in Hn.
    rewrite lookup_insert_ne in Hn; [by exists n|]. intros ->. by eapply mkdir_not_final.
  - left. destruct Ha as [Ht _].
    destruct (fs_live s !! p); [by exists n|]. destruct (in_directory _ _); [|by exists n]. simpl in Hn.
    rewrite lookup_insert_ne in Hn; [by exists n|]. by intros ->.
  - left. simpl in Ha. destruct (go_own _ _ G p SOpen Ha) as (Ht & _). cbn [snd] in Hn.
    assert (p <> q) as Hpq by (by intros ->).
    rewrite set_file_live, set_file_disk, !decide_False in Hn by done. by exists n.
  - left. destruct (fs_live s !! p) as [[m u|f|b]|] eqn:E; cbn [snd] in Hn.
    2:{ rewrite set_file_live, set_file_disk in Hn. case_decide as Ep; [subst q|by exists n].
        rewrite E in Hn. exists (NFile f). split; [by left|].
        assert (exists text, NFile f = complete_file text) as [text Hf]
          by (eapply final_ok_solid, F; [done|by left]).
        injection Hf as ->. destruct Hn as [[= <-]|Hn]; [done|].
        destruct (fs_disk s !! p) as [n'|] eqn:Ed; [|done].
        assert (exists text', n' = complete_file text') as [text' ->]
          by (eapply final_ok_solid, F; [done|by right]).
        by injection Hn as <-. }
    all: rewrite sync_dir_disk in Hn; simpl in Hn; exists n; split; [|done]; destruct Hn as [?|Hn]; [by left|];
      case_match; auto.
  - simpl in Ha. destruct Ha as (text & Hown & Hpub). destruct (go_own _ _ G _ _ Hown) as (Ht & f & Hf & Hst).
    rewrite Hf in Hn. destruct (fs_live s !! q0) as [n'|] eqn:Eq; [left; by exists n|].
    destruct (in_directory _ _); [|left; by exists n]. cbn [snd fs_live fs_disk with_live] in Hn.
    destruct (decide (q0 = q)) as [->|Hne].
    + rewrite lookup_insert, decide_True in Hn by done. destruct Hn as [[= <-]|Hn].
      * right. exists text. by rewrite <- Hst.
      * left. exists n. split; [by right|done].
    + rewrite lookup_insert_ne in Hn by done. left. by exists n.
  - left. destruct Ha as [st Ha]. destruct (go_own _ _ G p st Ha) as (Ht & f & Hf & _). rewrite Hf in Hn.
    cbn [snd fs_live fs_disk with_live] in Hn. rewrite lookup_delete_ne in Hn by (by intros ->). by exists n.
Qed.

Lemma fs_step_finals root g c s a s' :
  ghost_ok s g -> allowed root g (Fs c) -> fs_step c s a s' -> finals_ok s -> finals_ok s'.
Proof.
  intros G Ha Hs F q n Hq Hn. pose proof (fs_step_keeps _ _ _ _ _ _ G Ha Hs) as K.
  destruct (new_final _ _ _ _ _ _ _ _ G Ha Hs F Hq Hn) as [(n' & Hn' & ->)|(text & -> & Hp)].
  - eapply final_ok_keeps; [done|by apply F].
  - destruct Hp as [(c' & ? & -> & ?)|(t & ? & -> & Hk & ?)]; [by eapply final_claim|].
    eapply final_terminal; [done..|]. eapply keeps_claim; [done|by apply (go_known _ _ G)].
Qed.

(** ** Crashes *)

Lemma crash_persisted s s' q n :
  crashes is_temp s s' -> ~ is_temp q -> solid n -> persisted s q n -> persisted s' q n.
Proof.
  intros [Hl Hc] Hq Hn [Hpl Hpd]. destruct (Hc q) as [?|H]; [done|].
  unfold persisted. rewrite <- Hl. assert (fs_live s' !! q = Some n) as ->; [|done].
  destruct (fs_live s' !! q) as [n'|]; [|destruct H; congruence].
  destruct H as (n0 & Hn0 & Hs). assert (n0 = n) as -> by (destruct Hn0; congruence).
  destruct n; simpl in *; [congruence| |congruence]. rewrite Hn in Hs. congruence.
Qed.

Lemma crash_claim s s' d c : crashes is_temp s s' -> claim_persisted s d c -> claim_persisted s' d c.
Proof.
  intros K (Ht & (m & u & Hd) & t & Hb & Hp). split; [done|]. split.
  { exists m, u. by eapply crash_persisted. }
  exists t. split; [done|]. eapply crash_persisted; [done|apply claim_file_not_temp|done|done].
Qed.

Lemma crash_finals s s' : crashes is_temp s s' -> finals_ok s -> finals_ok s'.
Proof.
  intros K F q n Hq Hn. destruct K as [Hl Hc].
  assert (fs_live s' !! q = Some n) as Hn' by (destruct Hn; [done|by rewrite Hl]).
  destruct (Hc q) as [Ht|H]; [by apply is_final_not_temp in Hq|]. rewrite Hn' in H.
  destruct H as (n0 & Hn0 & Hs). pose proof (F q n0 Hq Hn0) as F0.
  assert (n = n0) as -> by (by destruct (final_ok_solid _ _ _ F0) as [text ->]).
  destruct F0; [by eapply final_claim|]. eapply final_terminal; [done..|by eapply crash_claim].
Qed.

(** What a program that has ended keeps of its ghost state in a crash. *)
Definition crash_ghost (g : ghost) : ghost :=
  {| g_own := None; g_known := g_known g;
     g_pub := omap (fun x => if (x.2 : bool) then Some x else None) (g_pub g) |}.

Lemma crash_ghost_pub g q x : g_pub (crash_ghost g) !! q = Some x <-> g_pub g !! q = Some x /\ x.2 = true.
Proof.
  simpl. rewrite lookup_omap. destruct (g_pub g !! q) as [[n b]|]; simpl; [|split; [done|by intros []]].
  destruct b; split; try done; [by intros [= <-]|by intros [[= <-] _]|intros [[= <-] ?]; done].
Qed.

Lemma crash_delivered root g r : delivered root g r -> delivered root (crash_ghost g) r.
Proof.
  destruct r as [[i|handle c|i]|e]; simpl; try done.
  - intros (Hok & (m & u & Hn) & text & Hb & Ht). split; [done|]. split.
    + exists m, u. by apply crash_ghost_pub.
    + exists text. split; [done|]. by apply crash_ghost_pub.
  - intros (t & text & Hok & Hk & Hi & Hb & Ht). exists t, text. split_and!; try done. by apply crash_ghost_pub.
Qed.

(** ** The invariant of worlds *)

Definition store_ok (s : fs) (st : store) : Prop :=
  (forall p, st_memo st = RootSettled (Ok p) -> p = st_root st) /\
  forall d, d ∈ st_handles st ->
    claim_ok (hd_claim d) /\ hd_directory d = dir_of (st_root st) (hd_claim d) /\
    claim_persisted s (hd_directory d) (hd_claim d).

Record thread_ok (w : world) (t : thread) (g : ghost) : Prop := {
  to_ghost : ghost_ok (w_fs w) g;
  to_prog p : th_prog t = Some p -> follows (th_root t) g p (delivered (th_root t));
  to_store : exists o, w_stores w !! th_store t = Some o /\ forall s, o = Some s -> st_root s = th_root t;
}.

(** No entry is published by two programs, and no file owned by two. *)
Record separate (gs : list ghost) : Prop := {
  se_pub i j g g' q : gs !! i = Some g -> gs !! j = Some g' ->
    is_Some (g_pub g !! q) -> is_Some (g_pub g' !! q) -> i = j;
  se_own i j g g' p : gs !! i = Some g -> gs !! j = Some g' ->
    fst <$> g_own g = Some p -> fst <$> g_own g' = Some p -> i = j;
}.

Record world_inv (s0 : fs) (w : world) (gs : list ghost) : Prop := {
  wi_threads : Forall2 (thread_ok w) (w_threads w) gs;
  wi_separate : separate gs;
  wi_stores i s : w_stores w !! i = Some (Some s) -> store_ok (w_fs w) s;
  wi_finals : finals_ok s0 -> finals_ok (w_fs w);
}.

Lemma separate_snoc gs : separate gs -> separate (gs ++ [no_ghost]).
Proof.
  intros [H1 H2]. split.
  - intros i j g g' q Hi Hj Hq Hq'.
    assert (forall k x, (gs ++ [no_ghost]) !! k = Some x -> is_Some (g_pub x !! q) -> gs !! k = Some x) as H.
    { intros k x [?|[_ Hk]]%lookup_app_Some Hx; [done|]. apply list_lookup_singleton_Some in Hk as [_ <-].
      simpl in Hx. rewrite lookup_empty in Hx. by destruct Hx. }
    eapply H1; eauto.
  - intros i j g g' p Hi Hj Ho Ho'.
    assert (forall k x, (gs ++ [no_ghost]) !! k = Some x -> fst <$> g_own x = Some p -> gs !! k = Some x) as H.
    { intros k x [?|[_ Hk]]%lookup_app_Some Hx; [done|]. by apply list_lookup_singleton_Some in Hk as [_ <-]. }
    eapply H2; eauto.
Qed.

Lemma separate_fmap f gs :
  (forall g q, is_Some (g_pub (f g) !! q) -> is_Some (g_pub g !! q)) ->
  (forall g p, fst <$> g_own (f g) = Some p -> fst <$> g_own g = Some p) ->
  separate gs -> separate (f <$> gs).
Proof.
  intros Hp Ho [H1 H2]. split.
  - intros i j g g' q (x & -> & Hi)%list_lookup_fmap_Some (y & -> & Hj)%list_lookup_fmap_Some ? ?.
    eapply (H1 i j); eauto.
  - intros i j g g' q (x & -> & Hi)%list_lookup_fmap_Some (y & -> & Hj)%list_lookup_fmap_Some ? ?.
    eapply (H2 i j); eauto.
Qed.

(** A program changes its ghost state: what it gains nobody else has. *)
Lemma separate_insert gs j g g' :
  gs !! j = Some g ->
  (forall q, is_Some (g_pub g' !! q) -> is_Some (g_pub g !! q) \/
     forall i x, gs !! i = Some x -> i <> j -> g_pub x !! q = None) ->
  (forall p, fst <$> g_own g' = Some p -> fst <$> g_own g = Some p \/
     forall i x, gs !! i = Some x -> i <> j -> fst <$> g_own x <> Some p) ->
  separate gs -> separate (<[j := g']> gs).
Proof.
  intros Hj Hp Ho [H1 H2]. split.
  - intros i k a b q [(<- & <- & _)|[Hne Hi]]%list_lookup_insert_Some
      [(<- & <- & _)|[Hne' Hk]]%list_lookup_insert_Some Ha Hb; [done| | |by eapply H1].
    + destruct (Hp q Ha) as [?|Hx]; [by eapply H1|]. rewrite (Hx _ _ Hk) in Hb by done. by destruct Hb.
    + destruct (Hp q Hb) as [?|Hx]; [by eapply H1|]. rewrite (Hx _ _ Hi) in Ha by done. by destruct Ha.
  - intros i k a b p [(<- & <- & _)|[Hne Hi]]%list_lookup_insert_Some
      [(<- & <- & _)|[Hne' Hk]]%list_lookup_insert_Some Ha Hb; [done| | |by eapply H2].
    + destruct (Ho p Ha) as [?|Hx]; [by eapply H2|]. by destruct (Hx _ _ Hk).
    + destruct (Ho p Hb) as [?|Hx]; [by eapply H2|]. by destruct (Hx _ _ Hi).
Qed.

(** What a call publishes or opens was not there before. *)
Lemma after_fs_new root g c s a s' :
  allowed root g (Fs c) -> fs_step c s a s' ->
  (forall q, is_Some (g_pub (after_fs g c a) !! q) -> is_Some (g_pub g !! q) \/ fs_live s !! q = None) /\
  (forall p, fst <$> g_own (after_fs g c a) = Some p ->
     fst <$> g_own g = Some p \/ fs_live s !! p = None).
Proof.
  intros Ha Hs. destruct Hs as [|code s' _ _ _].
  2:{ assert (after_fs g c (inr code) = g) as -> by by destruct c. auto. }
  destruct c; cbn [fs_exec after_fs] in *; auto.
  - destruct (fs_live s !! p) eqn:E; [auto|]. destruct (in_directory _ _); simpl; [|auto].
    split; [|auto]. intros q. rewrite lookup_insert. case_decide; [subst; auto|auto].
  - destruct (fs_live s !! p) eqn:E; [auto|]. destruct (in_directory _ _); simpl; [|auto].
    split; [auto|]. intros p' [= <-]. auto.
  - simpl. split; [auto|]. intros p' [= <-]. left. by rewrite Ha.
  - assert (forall g', g_pub g' = g_pub g -> fst <$> g_own g' = fst <$> g_own g ->
      (forall q, is_Some (g_pub (with_pub (mark p (g_pub g)) g') !! q) ->
         is_Some (g_pub g !! q) \/ fs_live s !! q = None) /\
      (forall p', fst <$> g_own (with_pub (mark p (g_pub g)) g') = Some p' ->
         fst <$> g_own g = Some p' \/ fs_live s !! p' = None)) as Hm.
    { intros g' _ Ho. simpl. rewrite Ho. split; [|auto]. intros q. rewrite mark_lookup, fmap_is_Some. auto. }
    assert (forall b : fs_answer (Sync p), b = inl tt ->
      (forall q, is_Some (g_pub (after_fs g (Sync p) b) !! q) -> is_Some (g_pub g !! q) \/ fs_live s !! q = None) /\
      (forall p', fst <$> g_own (after_fs g (Sync p) b) = Some p' ->
         fst <$> g_own g = Some p' \/ fs_live s !! p' = None)) as Hb.
    { intros b ->. cbn [after_fs]. apply Hm; destruct (g_own g) as [[p' [|t|t]]|] eqn:Eo; try done; try (by rewrite Eo);
        case_decide; simpl; rewrite ?Eo; try done; by subst. }
    apply Hb. by destruct (fs_live s !! p) as [[]|].
  - destruct Ha as (text & Hown & _).
    assert (forall b : fs_answer (Link p q), (b = inl tt -> fs_live s !! q = None) ->
      (forall q', is_Some (g_pub (after_fs g (Link p q) b) !! q') -> is_Some (g_pub g !! q') \/ fs_live s !! q' = None) /\
      (forall p', fst <$> g_own (after_fs g (Link p q) b) = Some p' ->
         fst <$> g_own g = Some p' \/ fs_live s !! p' = None)) as Hb.
    { intros [v|code] Hb; cbn [after_fs]; [|auto]. rewrite Hown. simpl. rewrite Hown. split; [|auto].
      intros q'. rewrite lookup_insert. case_decide; [subst|auto]. right. apply Hb. by destruct v. }
    apply Hb. destruct (fs_live s !! p) as [n|]; [|done]. destruct (fs_live s !! q); [by destruct n|done].
  - destruct (fs_live s !! p) as [[]|]; simpl; (split; [auto|]); intros p'; auto; done.
Qed.

Lemma fs_world_step s0 w gs j t c k a s' :
  world_inv s0 w gs -> w_threads w !! j = Some t -> th_prog t = Some (Perform (R := op_ret) (Fs c) k) ->
  fs_step c (w_fs w) a s' ->
  exists gs', world_inv s0 {| w_fs := s'; w_stores := w_stores w;
    w_threads := alter (set_prog (Some (k a))) j (w_threads w) |} gs'.
Proof.
  intros [HT HS HR HF] Hj Hp Hs. destruct (Forall2_lookup_l _ _ _ _ _ HT Hj) as (g & Hg & [Gok Gp Gs]).
  destruct (Gp _ Hp) as [Ha Hk]. pose proof (fs_step_keeps _ _ _ _ _ _ Gok Ha Hs) as K.
  exists (<[j := after_fs g c a]> gs). split.
  - cbn [w_threads]. apply Forall2_same_length_lookup. rewrite length_alter, length_insert.
    split; [by eapply Forall2_length|]. intros i x y Hx [(<- & <- & _)|[Hne Hy]]%list_lookup_insert_Some.
    + rewrite list_lookup_alter, decide_True, Hj in Hx by done. injection Hx as <-. split; cbn.
      * by eapply after_fs_ok.
      * intros p' [= <-]. by apply Hk.
      * done.
    + rewrite list_lookup_alter, decide_False in Hx by done.
      destruct (Forall2_lookup_lr _ _ _ _ _ _ HT Hx Hy) as [Go1 Go2 Go3]. split; cbn; [|done|done].
      eapply keeps_ghost; [done| |done]. intros p Hown Hown'. destruct Hne. by eapply (se_own _ HS j i).
  - destruct (after_fs_new _ _ _ _ _ _ Ha Hs) as [Hn1 Hn2].
    eapply separate_insert; [done| | |done].
    + intros q [?|Hq]%Hn1; [by left|right]. intros i x Hi _.
      destruct (Forall2_lookup_r _ _ _ _ _ HT Hi) as (t' & _ & [Go _ _]).
      destruct (g_pub x !! q) as [[n b]|] eqn:E; [|done].
      destruct (go_pub _ _ Go _ _ _ E) as (_ & _ & _ & Hl & _). congruence.
    + intros p [?|Hq]%Hn2; [by left|right]. intros i x Hi _ E.
      destruct (Forall2_lookup_r _ _ _ _ _ HT Hi) as (t' & _ & [Go _ _]).
      destruct (g_own x) as [[p' st]|] eqn:Eo; [|done]. injection E as ->.
      destruct (go_own _ _ Go _ _ Eo) as (_ & f & Hf & _). congruence.
  - intros i st Hi. destruct (HR _ _ Hi) as [H1 H2]. split; [done|]. intros d Hd.
    destruct (H2 d Hd) as (? & ? & ?). split_and!; try done. by eapply keeps_claim.
  - intros F. eapply fs_step_finals; [done..|by apply HF].
Qed.

(** A step on the variables of a store. *)
Lemma store_exec_ok s st o a st' root g :
  store_exec o st = Some (a, st') -> st_root st = root -> store_ok s st -> ghost_ok s g ->
  allowed root g o ->
  possible root o a /\ st_root st' = root /\ store_ok s st' /\ ghost_ok s (after g o a) /\
  g_pub (after g o a) = g_pub g /\ g_own (after g o a) = g_own g.
Proof.
  intros He Hroot [H1 H2] G Ha.
  assert (forall i status, store_ok s (set_status i status st)) as Hset.
  { intros i status. split; [done|]. intros d [i' Hd]%list_elem_of_lookup. simpl in Hd.
    rewrite list_lookup_alter in Hd. case_decide as Hi; [|by apply H2; apply list_elem_of_lookup; eauto].
    apply fmap_Some in Hd as (d' & Hd & ->). apply (H2 d'). apply list_elem_of_lookup. eauto. }
  destruct o; cbn [store_exec] in He; try done; try (injection He as <- <-).
  - (* BeginRoot *) split_and!; try done.
    + cbn. destruct (st_memo st) as [| |[p|e]] eqn:E; try done. rewrite <- Hroot. by apply H1.
    + by destruct (st_memo st).
    + by destruct (st_memo st) eqn:E; split; rewrite ?E.
  - (* SettleRoot *) split_and!; try done. split; [|done]. simpl. intros p [= ->]. by rewrite Hroot.
  - (* AwaitRoot *) destruct (st_memo st) as [| |r'] eqn:E; try done. injection He as <- <-.
    split_and!; try done; [|by split; rewrite ?E]. cbn. destruct r' as [p|e]; [|done]. rewrite <- Hroot. by apply H1.
  - (* NewHandle *) destruct Ha as (Hc & Hd & (m & u & Hdir) & text & Hb & Hpub). split_and!; try done.
    split; [done|]. simpl. intros d [Hin|Hin]%elem_of_app; [by apply H2|].
    apply list_elem_of_singleton in Hin as ->. simpl. rewrite Hroot. split_and!; try done.
    destruct (go_pub _ _ G _ _ _ Hpub) as (_ & _ & _ & Hl & Hdk).
    destruct (go_pub _ _ G _ _ _ Hdir) as (Ht & _ & _ & Hdl & Hdd).
    split; [done|]. split; [by exists m, u|]. exists text. split; [done|]. by split.
  - (* ReserveHandle *)
    assert (reserve_handle handle outcome st = (a, st')) as Hr by congruence. clear He.
    unfold reserve_handle in Hr. destruct (i ← handle; d ← st_handles st !! i; Some (i, d)) as [[i d]|] eqn:Ed.
    2:{ injection Hr as <- <-. split_and!; done. }
    assert (st_handles st !! i = Some d) as Hd.
    { destruct handle as [i'|]; [|done]. simpl in Ed.
      destruct (st_handles st !! i') eqn:E; [|done]. by injection Ed as -> ->. }
    assert (d ∈ st_handles st) as Hin by (apply list_elem_of_lookup; eauto).
    destruct (H2 d Hin) as (Hc & Hdir & Hper).
    assert (forall ts, possible root (ReserveHandle handle outcome) (Ok (i, d, ts))) as Hpos.
    { intros ts. simpl. by rewrite <- Hroot. }
    assert (forall ts, ghost_ok s (after g (ReserveHandle handle outcome) (Ok (i, d, ts)))) as Hgh.
    { intros ts. destruct G as [G1 G2 G3]. split; simpl; auto. by intros d' c' [= <- <-]. }
    repeat case_bool_decide; injection Hr as <- <-; split_and!; try done; auto.
    all: by apply Hgh.
  - split_and!; auto.
Qed.

Lemma variables_world_step s0 w gs j t o k st a st' :
  world_inv s0 w gs -> w_threads w !! j = Some t -> th_prog t = Some (Perform (R := op_ret) o k) ->
  w_stores w !! th_store t = Some (Some st) -> store_exec o st = Some (a, st') ->
  exists gs', world_inv s0 {| w_fs := w_fs w; w_stores := <[th_store t := Some st']> (w_stores w);
    w_threads := alter (set_prog (Some (k a))) j (w_threads w) |} gs'.
Proof.
  intros [HT HS HR HF] Hj Hp Hst He. destruct (Forall2_lookup_l _ _ _ _ _ HT Hj) as (g & Hg & [Gok Gp Gs]).
  destruct (Gp _ Hp) as [Ha Hk]. destruct Gs as (o' & Ho' & Hroot). rewrite Hst in Ho'. injection Ho' as <-.
  specialize (Hroot st eq_refl).
  destruct (store_exec_ok _ _ _ _ _ _ _ He Hroot (HR _ _ Hst) Gok Ha)
    as (Hpos & Hroot' & Hst' & Gok' & Hpub & Hown).
  exists (<[j := after g o a]> gs). split.
  - cbn [w_threads]. apply Forall2_same_length_lookup. rewrite length_alter, length_insert.
    split; [by eapply Forall2_length|]. intros i x y Hx Hy.
    assert (forall u, (exists o, w_stores w !! th_store u = Some o /\ forall s, o = Some s -> st_root s = th_root u) ->
      exists o, <[th_store t := Some st']> (w_stores w) !! th_store u = Some o /\
        forall s, o = Some s -> st_root s = th_root u) as Hstores.
    { intros u (ou & Hou & Hru). destruct (decide (th_store t = th_store u)) as [E|E].
      - exists (Some st'). rewrite E, list_lookup_insert_eq by (by eapply lookup_lt_Some). split; [done|].
        intros s [= <-]. rewrite Hroot', <- Hroot. apply Hru. rewrite <- E, Hst in Hou. by injection Hou.
      - exists ou. by rewrite list_lookup_insert_ne. }
    apply list_lookup_insert_Some in Hy as [(<- & <- & _)|[Hne Hy]].
    + rewrite list_lookup_alter, decide_True, Hj in Hx by done. injection Hx as <-. split; cbn.
      * done.
      * intros p' [= <-]. by apply Hk.
      * apply (Hstores t). exists (Some st). split; [done|]. by intros s [= <-].
    + rewrite list_lookup_alter, decide_False in Hx by done.
      destruct (Forall2_lookup_lr _ _ _ _ _ _ HT Hx Hy) as [Go1 Go2 Go3]. split; cbn; [done..|by apply Hstores].
  - eapply separate_insert; [done| | |done]; rewrite ?Hpub, ?Hown; auto.
  - cbn. intros i s [(<- & [= <-] & _)|[_ Hi]]%list_lookup_insert_Some; [done|by eapply HR].
  - done.
Qed.

Lemma Forall2_snoc_inv {A B} (P Q : A -> B -> Prop) l k x y :
  Forall2 P l k -> (forall x y, P x y -> Q x y) -> Q x y -> Forall2 Q (l ++ [x]) (k ++ [y]).
Proof. intros H HPQ Hxy. apply Forall2_app; [by eapply Forall2_impl|by repeat constructor]. Qed.

Lemma no_ghost_ok s : ghost_ok s no_ghost.
Proof. split; simpl; [done| |done]. intros q n b. by rewrite lookup_empty. Qed.

Lemma request_world_step s0 w gs i s req :
  world_inv s0 w gs -> w_stores w !! i = Some (Some s) ->
  world_inv s0 {| w_fs := w_fs w; w_stores := w_stores w; w_threads := w_threads w ++
    [{| th_store := i; th_root := st_root s; th_request := req;
        th_prog := Some (operation (st_root s) req) |}] |} (gs ++ [no_ghost]).
Proof.
  intros [HT HS HR HF] Hi. split; [|by apply separate_snoc|done|done].
  eapply Forall2_snoc_inv; [exact HT|by intros x y []|]. split; cbn.
  - apply no_ghost_ok.
  - intros p [= <-]. apply operation_follows.
  - exists (Some s). split; [done|]. by intros s' [= <-].
Qed.

Lemma store_world_step s0 w gs s :
  world_inv s0 w gs -> st_memo s = RootUnset -> st_handles s = [] ->
  world_inv s0 {| w_fs := w_fs w; w_stores := w_stores w ++ [Some s]; w_threads := w_threads w |} gs.
Proof.
  intros [HT HS HR HF] Hm Hh. split; [|done| |done].
  - eapply Forall2_impl; [exact HT|]. intros t g [H1 H2 (o & Ho & Hr)]. split; [done..|]. exists o. cbn.
    split; [by apply lookup_app_l_Some|done].
  - cbn. intros i s' [Hi|[_ Hi]]%lookup_app_Some; [by eapply HR|].
    apply list_lookup_singleton_Some in Hi as [_ [= <-]]. split; rewrite ?Hm, ?Hh; [done|].
    by intros d ?%elem_of_nil.
Qed.

Lemma crash_world_step s0 w gs s' :
  world_inv s0 w gs -> crashes is_temp (w_fs w) s' ->
  world_inv s0 {| w_fs := s'; w_stores := (fun _ => None) <$> w_stores w;
    w_threads := lose_thread <$> w_threads w |} (crash_ghost <$> gs).
Proof.
  intros [HT HS HR HF] Hc. split.
  - cbn [w_threads]. apply Forall2_fmap. eapply Forall2_impl; [exact HT|].
    intros t g [Gok Gp (o & Ho & _)]. assert (th_root (lose_thread t) = th_root t /\
      th_store (lose_thread t) = th_store t) as [Hr Hs].
    { unfold lose_thread. by destruct (th_prog t) as [[]|]. }
    split; rewrite ?Hr, ?Hs; cbn.
    + split; [done| |].
      2:{ intros d c Hk. eapply crash_claim; [done|by apply (go_known _ _ Gok)]. }
      intros q n b [Hq Hb]%crash_ghost_pub. simpl in Hb. subst b.
      destruct (go_pub _ _ Gok _ _ _ Hq) as (Ht & Hsol & Hne & Hl & Hd).
      by destruct (crash_persisted _ _ _ _ Hc Ht Hsol (conj Hl Hd)).
    + intros p Hp. unfold lose_thread in Hp. destruct (th_prog t) as [[r|]|] eqn:E; try done.
      simpl in Hp. rewrite E in Hp. injection Hp as <-. apply crash_delivered, (Gp _ eq_refl).
    + exists None. rewrite list_lookup_fmap, Ho. by split.
  - apply separate_fmap; [|done|done]. intros g q [x [Hx _]%crash_ghost_pub]. by exists x.
  - cbn. intros i s (o & [=] & _)%list_lookup_fmap_Some.
  - intros F. eapply crash_finals; [done|by apply HF].
Qed.

Lemma create_store_empty h options s :
  createReferenceDurableClaimStore h options = Ok s -> st_memo s = RootUnset /\ st_handles s = [].
Proof.
  unfold createReferenceDurableClaimStore. intros (b & _ & H)%bind_Ok.
  destruct (hstr_that _ _) as [r|]; [|done]. destruct (absolute_path r); [|done]. by injection H as <-.
Qed.

Lemma world_reachable_inv s0 w : world_reachable s0 w -> exists gs, world_inv s0 w gs.
Proof.
  revert w. apply (rtc_ind_r (fun w => exists gs, world_inv s0 w gs)).
  - exists []. split; cbn; [constructor|by split; intros i j g g' ? Hi|done|done].
  - intros w w' _ Hw [gs IH]. destruct Hw.
    + exists gs. apply create_store_empty in H as [? ?]. by apply store_world_step.
    + eexists. by apply request_world_step.
    + by eapply fs_world_step.
    + by eapply variables_world_step.
    + eexists. by apply crash_world_step.
Qed.

(** A thread that has ended, and its ghost. *)
Definition ended (w : world) (j : nat) (root : path) (r : response) : Prop :=
  exists t, w_threads w !! j = Some t /\ th_root t = root /\ th_prog t = Some (Done (Ok r)).

Lemma ended_delivered s0 w gs j root r :
  world_inv s0 w gs -> ended w j root r ->
  exists g, gs !! j = Some g /\ ghost_ok (w_fs w) g /\ delivered root g (Ok r).
Proof.
  intros [HT _ _ _] (t & Hj & <- & Hp). destruct (Forall2_lookup_l _ _ _ _ _ HT Hj) as (g & Hg & [G Hf _]).
  exists g. split_and!; try done. exact (Hf _ Hp).
Qed.

(** C35: A capability is claimed once.  When [claim] has succeeded for two calls on
    stores of one root with the same capability, the two calls are the same,
    whatever authorization they were for and whatever ran in between, failed or
    crashed. *)
Theorem claim_exclusive s0 w root i j h h' c c' :
  world_reachable s0 w ->
  ended w i root (Claimed h c) -> ended w j root (Claimed h' c') ->
  cr_capability c = cr_capability c' -> i = j.
Proof.
  intros [gs I]%world_reachable_inv Hi Hj Hc.
  destruct (ended_delivered _ _ _ _ _ _ I Hi) as (g & Hg & _ & _ & (m & u & Hn) & _).
  destruct (ended_delivered _ _ _ _ _ _ I Hj) as (g' & Hg' & _ & _ & (m' & u' & Hn') & _).
  eapply (se_pub _ (wi_separate _ _ _ I) i j g g'); [done..| |].
  - by eexists.
  - unfold dir_of in *. rewrite Hc. by eexists.
Qed.

Lemma terminal_file_inj d d' : terminal_file d = terminal_file d' -> d = d'.
Proof. unfold terminal_file. by intros [? _]%app_inj_tail. Qed.
Lemma claim_file_inj d d' : claim_file d = claim_file d' -> d = d'.
Proof. unfold claim_file. by intros [? _]%app_inj_tail. Qed.
Lemma terminal_claim_ne d d' : terminal_file d <> claim_file d'.
Proof. unfold terminal_file, claim_file. intros [_ E]%app_inj_tail. by vm_compute in E. Qed.

(** A capability is finished once.  When [complete] has succeeded for two
    calls on stores of one root with the same capability, the two calls are the
    same, whatever ran in between, failed or crashed. *)
Theorem complete_exclusive s0 w root i j r r' :
  world_reachable s0 w ->
  ended w i root (Completed r) -> ended w j root (Completed r') ->
  in_capability r = in_capability r' -> i = j.
Proof.
  intros [gs I]%world_reachable_inv Hi Hj Hc.
  destruct (ended_delivered _ _ _ _ _ _ I Hi) as (g & Hg & _ & t & text & _ & _ & -> & _ & Ht).
  destruct (ended_delivered _ _ _ _ _ _ I Hj) as (g' & Hg' & _ & t' & text' & _ & _ & -> & _ & Ht').
  injection Hc as Hc. eapply (se_pub _ (wi_separate _ _ _ I) i j g g'); [done..| |].
  - by eexists.
  - unfold dir_of in *. rewrite Hc. by eexists.
Qed.

(** C36: Nobody ever sees half a record.  If every claim and terminal file is a
    complete record when the first store starts, then so it stays on the disk and
    off it, with any interleaving, failures and crashes; and a terminal file is
    only there with the claim it is bound to. *)
Theorem published_files_complete s0 w :
  finals_ok s0 -> world_reachable s0 w -> finals_ok (w_fs w).
Proof. intros F [gs I]%world_reachable_inv. by apply (wi_finals _ _ _ I). Qed.

(** ** Reading it back *)

Lemma run_bind {A B} (p : program A) (f : A -> program B) files s :
  run (p ≫= f) files s =
  match run p files s with
  | Some (Ok a, files', s') => run (f a) files' s'
  | Some (Throw e, files', s') => Some (Throw e, files', s')
  | None => None
  end.
Proof.
  revert files s. induction p as [[a|e]|o k IH]; intros files s; [done|done|].
  unfold mbind, prog_bind in *. cbn [prog_then]. destruct o; cbn [run].
  1: destruct (fs_exec c files); apply IH.
  all: destruct (store_exec _ s) as [[]|]; [apply IH|done].
Qed.

Lemma run_attempt {A} (p : program A) files s :
  run (attempt p) files s = (fun '(r, files, s) => (Ok r, files, s)) <$> run p files s.
Proof.
  revert files s. induction p as [r|o k IH]; intros files s; [done|].
  unfold attempt in *. cbn [prog_then]. destruct o; cbn [run].
  1: destruct (fs_exec c files); apply IH.
  all: destruct (store_exec _ s) as [[]|]; [apply IH|done].
Qed.

Lemma exec_Lstat p n s : fs_live s !! p = Some n -> fs_exec (Lstat p) s = (inl n, s).
Proof. intros H. unfold fs_exec. by rewrite H. Qed.
Lemma exec_Lstat_absent p s : fs_live s !! p = None -> fs_exec (Lstat p) s = (inr ENOENT, s).
Proof.
  intros H. exact (f_equal (fun o : option node => (match o with Some n => inl n | None => inr ENOENT end, s)) H).
Qed.
Lemma exec_Realpath p n s : fs_live s !! p = Some n -> fs_exec (Realpath p) s = (inl (real_path p), s).
Proof. intros H. unfold fs_exec. by rewrite H. Qed.
Lemma exec_ReadFile p f s : fs_live s !! p = Some (NFile f) -> fs_exec (ReadFile p) s = (inl (f_text f), s).
Proof. intros H. unfold fs_exec. by rewrite H. Qed.
Lemma exec_OpenDir p n s : fs_live s !! p = Some n -> fs_exec (OpenDir p) s = (inl tt, s).
Proof. intros H. unfold fs_exec. by rewrite H. Qed.
Lemma exec_Sync_dir p mode uid s :
  fs_live s !! p = Some (NDir mode uid) -> fs_exec (Sync p) s = (inl tt, sync_dir p s).
Proof. intros H. unfold fs_exec. by rewrite H. Qed.

(** What [trustedRoot] asks of the root. *)
Definition root_ready (root : path) (s : fs) : Prop :=
  real_path root = root /\
  (exists mode uid, fs_live s !! root = Some (NDir mode uid) /\
     (is_win32 = false -> Z.land mode 18 = 0) /\ (forall u, current_uid = Some u -> uid = u)) /\
  exists mode uid, fs_live s !! parent root = Some (NDir mode uid).

Lemma run_fsyncDirectory d mode uid files s :
  fs_live files !! d = Some (NDir mode uid) ->
  run (fsyncDirectory d) files s = Some (Ok tt, sync_dir d files, s).
Proof.
  intros H. unfold fsyncDirectory, call_or, call_ignore, on_call.
  rewrite run_bind. cbn [run]. rewrite (exec_OpenDir _ _ _ H). cbn [run]. rewrite run_bind, run_attempt.
  cbn [run]. rewrite (exec_Sync_dir _ _ _ _ H). cbn [run fmap option_fmap option_map]. by rewrite run_bind.
Qed.

Lemma run_trustedRoot root files s :
  root_ready root files -> st_memo s = RootUnset ->
  run (trustedRoot root) files s =
  Some (Ok root, sync_dir (parent root) files, set_memo (RootSettled (Ok root)) s).
Proof.
  intros (Hreal & (m & u & Hroot & Hmode & Huid) & m' & u' & Hpar) Hm.
  assert (run (check_root root) files (set_memo RootPending s) =
    Some (Ok root, sync_dir (parent root) files, set_memo RootPending s)) as Hcheck.
  { unfold check_root, call_or, on_call. cbv zeta. rewrite run_bind. cbn [run]. rewrite (exec_Lstat _ _ _ Hroot).
    cbn [run]. rewrite run_bind. cbn [run]. rewrite (exec_Realpath _ _ _ Hroot). cbn [run]. rewrite run_bind.
    cbn [run lift stat_mode stat_uid is_directory is_symbolic_link].
    rewrite Hreal, bool_decide_true by done.
    assert (negb is_win32 && negb (Z.land m 18 =? 0) = false) as ->
      by (destruct is_win32; [done|]; simpl; by rewrite Hmode).
    assert (match current_uid with Some u0 => negb (u =? u0) | None => false end = false) as ->
      by (destruct current_uid; [|done]; by rewrite (Huid _ eq_refl), Z.eqb_refl).
    cbn [andb negb guard_or]. rewrite run_bind. by rewrite (run_fsyncDirectory _ m' u'). }
  unfold trustedRoot, on_store, perform. rewrite run_bind. cbn [run store_exec]. rewrite Hm.
  rewrite run_bind, run_attempt, Hcheck. cbn [fmap option_fmap option_map]. by rewrite run_bind.
Qed.

Lemma run_readBoundedJson q text v files s :
  fs_live files !! q = Some (complete_file text) ->
  (2 <= utf8_length text)%N -> (utf8_length text <= MAX_RECORD_BYTES)%N -> json_parse text = Some v ->
  run (readBoundedJson q) files s = Some (Ok v, files, s).
Proof.
  intros H H1 H2 Hv. unfold readBoundedJson, call_or, on_call. cbn [run]. rewrite (exec_Lstat _ _ _ H).
  cbn [run]. rewrite run_bind. cbn [run lift is_file is_symbolic_link complete_file stat_size f_size].
  apply N.leb_le in H1, H2. rewrite H1, H2. cbn [andb negb guard_or]. rewrite run_bind. cbn [run].
  rewrite (exec_ReadFile _ _ _ H). cbn [f_text run]. by rewrite Hv.
Qed.

Lemma run_readBoundedJson_absent q files s :
  fs_live files !! q = None -> run (readBoundedJson q) files s = Some (Ok VNull, files, s).
Proof. intros H. unfold readBoundedJson, on_call. cbn [run]. by rewrite (exec_Lstat_absent _ _ H). Qed.

(** Inspecting a persisted claim, with what is in its terminal file. *)
Lemma run_inspect root c files s :
  root_ready root files -> st_memo s = RootUnset -> claim_ok c -> claim_persisted files (dir_of root c) c ->
  let ask := inspect_captured root (cr_capability c) (cr_authorization c) in
  let done i := exists files' s', run ask files s = Some (Ok i, files', s') in
  match fs_live files !! terminal_file (dir_of root c) with
  | None => done (makeInspection RESERVED (Some c) None)
  | Some n => forall t text, n = complete_file text -> terminal_ok t -> te_claim t = c ->
      body_of (terminal_value t) text -> done (makeInspection (CONSUMED (te_state t)) (Some c) (Some t))
  end.
Proof.
  intros Hr Hm Hc (_ & (m & u & Hdir & _) & text & Hb & Hfile & _) ask done.
  destruct (claim_reads_back _ _ Hc Hb) as (v & Hv & Hnull & Hlen & Hval).
  assert (utf8_length text <= MAX_RECORD_BYTES)%N as Hmax by by destruct Hb as (? & _ & _ & ?).
  set (files' := sync_dir (parent root) files). set (s' := set_memo (RootSettled (Ok root)) s).
  assert (run ask files s = run (rawTerminal ← readBoundedJson (terminal_file (dir_of root c));
      if is_null rawTerminal then Done (Ok (makeInspection RESERVED (Some c) None))
      else terminalRecord ← lift (validateTerminalRecord rawTerminal c);
           Done (Ok (makeInspection (CONSUMED (te_state terminalRecord)) (Some c) (Some terminalRecord))))
    files' s') as Hask.
  { unfold ask, inspect_captured. rewrite run_bind, run_trustedRoot by done. fold files' s'.
    unfold on_call. cbn [run]. change (root ++ [cr_capability c]) with (dir_of root c).
    rewrite (exec_Lstat _ _ files' Hdir), run_bind.
    cbn [run lift is_directory is_symbolic_link andb negb guard_or].
    rewrite run_bind, (run_readBoundedJson _ text v) by done. rewrite Hnull, run_bind.
    cbn [run lift]. rewrite Hval, run_bind. cbn [run lift]. by rewrite !str_eqb_refl. }
  unfold done. rewrite Hask. clear Hask ask done.
  destruct (fs_live files !! terminal_file (dir_of root c)) as [n|] eqn:Et.
  - intros t textt -> Ht <- Hbt. destruct (terminal_reads_back _ _ Ht Hbt) as (vt & Hvt & Hnt & Hlt & Hvalt).
    rewrite run_bind, (run_readBoundedJson _ textt vt) by (done || by destruct Hbt as (? & _ & _ & ?)).
    rewrite Hnt, run_bind. cbn [run lift]. rewrite Hvalt. by eexists _, _.
  - rewrite run_bind, run_readBoundedJson_absent by done. by eexists _, _.
Qed.

Lemma claim_text_inj c c' text :
  claim_ok c -> claim_ok c' -> body_of (claim_value c) text -> body_of (claim_value c') text -> c = c'.
Proof.
  intros H1 H2 B1 B2. destruct (claim_reads_back _ _ H1 B1) as (v & Hv & _ & _ & E1).
  destruct (claim_reads_back _ _ H2 B2) as (v' & Hv' & _ & _ & E2). congruence.
Qed.

(** What is at the terminal file of a persisted claim is a terminal record bound to it. *)
Lemma terminal_at s root c n :
  finals_ok s -> claim_ok c -> claim_persisted s (dir_of root c) c ->
  fs_live s !! terminal_file (dir_of root c) = Some n ->
  exists t text, terminal_ok t /\ te_claim t = c /\ body_of (terminal_value t) text /\ n = complete_file text.
Proof.
  intros F Hc (_ & _ & textc & Hb & Hp & _) Hn.
  destruct (F _ n ltac:(eexists root, _; split; [apply Hc|by right]) (or_introl Hn))
    as [d c' text' _ E|d t text Ht E Hbt -> (_ & _ & text' & Hb' & Hp' & _)].
  { by apply terminal_claim_ne in E. }
  apply terminal_file_inj in E. rewrite <- E in Hp'.
  pose proof (eq_trans (eq_sym Hp') Hp) as Et. injection Et as ->.
  exists t, text. split; [done|]. split; [|done].
  symmetry. eapply claim_text_inj; [done|apply Ht|done|done].
Qed.

Lemma claimed_persisted s0 w root j h c :
  world_reachable s0 w -> ended w j root (Claimed h c) ->
  claim_ok c /\ claim_persisted (w_fs w) (dir_of root c) c.
Proof.
  intros [gs I]%world_reachable_inv Hj.
  destruct (ended_delivered _ _ _ _ _ _ I Hj) as (g & _ & G & Hc & (m & u & Hdir) & text & Hb & Hfile).
  destruct (go_pub _ _ G _ _ _ Hdir) as (Ht & _ & _ & Hdl & Hdd).
  destruct (go_pub _ _ G _ _ _ Hfile) as (_ & _ & _ & Hfl & Hfd).
  split; [done|]. split; [done|]. split; [by exists m, u|]. by exists text.
Qed.

(** C37: A claim survives.  After [claim] has succeeded, whatever else ran, failed
    or crashed, a new store that asks for the claim while nothing fails finds it,
    reserved, or consumed by a terminal record that is bound to it; the files
    are the only thing it asks. *)
Theorem claim_recovered s0 w root j h c s :
  finals_ok s0 -> world_reachable s0 w -> ended w j root (Claimed h c) ->
  root_ready root (w_fs w) -> st_memo s = RootUnset ->
  exists i files s', run (inspect_captured root (cr_capability c) (cr_authorization c)) (w_fs w) s
      = Some (Ok i, files, s') /\
    (i = makeInspection RESERVED (Some c) None \/
     exists t, terminal_ok t /\ te_claim t = c /\
       i = makeInspection (CONSUMED (te_state t)) (Some c) (Some t)).
Proof.
  intros F HR Hj Hroot Hm. destruct (claimed_persisted _ _ _ _ _ _ HR Hj) as [Hc Hp].
  assert (finals_ok (w_fs w)) as Fw by (destruct (world_reachable_inv _ _ HR) as [gs I]; by apply (wi_finals _ _ _ I)).
  pose proof (run_inspect _ _ _ _ Hroot Hm Hc Hp) as Hrun.
  destruct (fs_live (w_fs w) !! terminal_file (dir_of root c)) as [n|] eqn:En.
  - destruct (terminal_at _ _ _ _ Fw Hc Hp En) as (t & text & Ht & Ec & Hb & ->).
    destruct (Hrun t text) as (files & s' & Hr); [done..|]. eexists _, files, s'. split; [exact Hr|]. right.
    by exists t.
  - destruct Hrun as (files & s' & Hr). eexists _, files, s'. split; [exact Hr|]. by left.
Qed.

(** C38: An outcome survives.  After [complete] has succeeded, whatever else ran,
    failed or crashed, a new store that asks for the claim while nothing fails
    gets the inspection that [complete] answered with. *)
Theorem terminal_recovered s0 w root j i capability authorization s :
  world_reachable s0 w -> ended w j root (Completed i) ->
  in_capability i = Some capability -> in_authorization i = Some authorization ->
  root_ready root (w_fs w) -> st_memo s = RootUnset ->
  exists files s', run (inspect_captured root capability authorization) (w_fs w) s = Some (Ok i, files, s').
Proof.
  intros [gs I]%world_reachable_inv Hj Hcap Hauth Hroot Hm.
  destruct (ended_delivered _ _ _ _ _ _ I Hj) as (g & _ & G & t & text & Ht & Hk & -> & Hb & Hfile).
  destruct (go_pub _ _ G _ _ _ Hfile) as (_ & _ & _ & Hfl & _).
  injection Hcap as <-. injection Hauth as <-.
  pose proof (run_inspect _ _ _ _ Hroot Hm (proj1 Ht) (go_known _ _ G _ _ Hk)) as Hrun.
  rewrite Hfl in Hrun. by apply (Hrun t text).
Qed.

(** ** From runs to worlds *)

(** A thread that runs alone while nothing fails goes through steps of the world. *)
Lemma run_steps p r files' s' : forall w j t s,
  w_threads w !! j = Some t -> th_prog t = Some p -> w_stores w !! th_store t = Some (Some s) ->
  run p (w_fs w) s = Some (r, files', s') ->
  exists w', rtc world_step w w' /\ w_fs w' = files' /\ w_stores w' !! th_store t = Some (Some s') /\
    w_threads w' = alter (set_prog (Some (Done r))) j (w_threads w).
Proof.
  induction p as [r'|o k IH]; intros w j t s Hj Hp Hs Hrun.
  { cbn in Hrun. injection Hrun as -> <- <-. exists w. split; [apply rtc_refl|]. split_and!; try done.
    apply list_eq. intros i. rewrite list_lookup_alter. case_decide as E; [subst i|done].
    destruct t as [i root req q]. cbn in Hp. subst q. exact (eq_trans Hj (eq_sym (f_equal (fmap _) Hj))). }
  assert (forall a w1 s1, world_step w w1 -> w_fs w1 = w_fs w1 ->
    w_threads w1 = alter (set_prog (Some (k a))) j (w_threads w) ->
    w_stores w1 !! th_store t = Some (Some s1) -> run (k a) (w_fs w1) s1 = Some (r, files', s') ->
    exists w', rtc world_step w w' /\ w_fs w' = files' /\ w_stores w' !! th_store t = Some (Some s') /\
      w_threads w' = alter (set_prog (Some (Done r))) j (w_threads w)) as Hnext.
  { intros a w1 s1 H1 _ Ht Hs1 Hrun1.
    destruct (IH a w1 j (set_prog (Some (k a)) t) s1) as (w' & ? & ? & ? & Hw'); try done.
    { by rewrite Ht, list_lookup_alter, decide_True, Hj by done. }
    exists w'. split; [by eapply rtc_l|]. split_and!; try done. rewrite Hw', Ht.
    apply list_eq. intros i. rewrite !list_lookup_alter. case_decide as E; [subst i|done].
    rewrite decide_True by done. by destruct (w_threads w !! j). }
  assert (forall a s1, store_exec o s = Some (a, s1) -> run (k a) (w_fs w) s1 = Some (r, files', s') ->
    exists w', rtc world_step w w' /\ w_fs w' = files' /\ w_stores w' !! th_store t = Some (Some s') /\
      w_threads w' = alter (set_prog (Some (Done r))) j (w_threads w)) as Hvars.
  { intros a s1 He Hr. eapply (Hnext a); [by eapply (step_variables w j t o k)|done|done| |exact Hr].
    cbn. rewrite list_lookup_insert_eq; [done|by eapply lookup_lt_Some]. }
  cbn [run] in Hrun. destruct o.
  1:{ destruct (fs_exec c (w_fs w)) as [a files1] eqn:Ex.
      eapply (Hnext a); [eapply (step_fs w j t c k a files1); [done..|]|done|done|done|exact Hrun].
      assert (a = (fs_exec c (w_fs w)).1) as -> by (by rewrite Ex).
      assert (files1 = (fs_exec c (w_fs w)).2) as -> by (by rewrite Ex). apply fs_works. }
  all: destruct (store_exec _ s) as [[a s1]|] eqn:Ex; [by apply (Hvars a s1)|done].
Qed.

(** An operation that is asked of a store and runs alone. *)
Lemma run_operation s0 w i s req r files' s' :
  world_reachable s0 w -> w_stores w !! i = Some (Some s) ->
  run (operation (st_root s) req) (w_fs w) s = Some (Ok r, files', s') ->
  exists w', world_reachable s0 w' /\ w_fs w' = files' /\ w_stores w' !! i = Some (Some s') /\
    length (w_threads w') = S (length (w_threads w)) /\
    ended w' (length (w_threads w)) (st_root s) r /\
    forall j root a, ended w j root a -> ended w' j root a.
Proof.
  intros HR Hs Hrun.
  set (t := {| th_store := i; th_root := st_root s; th_request := req;
               th_prog := Some (operation (st_root s) req) |}).
  set (w1 := {| w_fs := w_fs w; w_stores := w_stores w; w_threads := w_threads w ++ [t] |}).
  assert (w_threads w1 !! length (w_threads w) = Some t) as Ht by by apply list_lookup_middle.
  destruct (run_steps _ _ _ _ w1 _ t s Ht eq_refl Hs Hrun) as (w' & Hsteps & Hfs & Hst & Hth).
  exists w'. split.
  { unfold world_reachable. trans w; [exact HR|]. eapply rtc_l; [by eapply step_request|exact Hsteps]. }
  do 2 (split; [done|]). split; [|split].
  - rewrite Hth, length_alter. unfold w1. cbn. rewrite length_app. simpl. lia.
  - eexists. split; [by rewrite Hth, list_lookup_alter, decide_True, Ht by done|done].
  - intros j root a (t' & Hj & Hr & Hp). exists t'. split; [|done].
    pose proof (lookup_lt_Some _ _ _ Hj). rewrite Hth, list_lookup_alter, decide_False by lia.
    by apply lookup_app_l_Some.
Qed.
End safety.

(** ** A claim and its completion *)

#[local] Existing Instances plain_string_host checksum_hash_host.

#[local] Instance sample_process_host : ProcessHost := {|
  current_uid := Some 0; is_win32 := false; process_pid := js "42";
  absolute_path := fun s => Some [s]; real_path := fun p => p;
|}.

Definition sample_root : path := [js "/claims"].
Definition sample_entries : gmap path node := {[ [] := NDir 493 0; sample_root := NDir 448 0 ]}.
Definition sample_fs : fs := {| fs_live := sample_entries; fs_disk := sample_entries |}.
Definition sample_options : jsv := VObj PObject [(js "rootDir", VStr (js "/claims"))].
Definition sample_store : store :=
  {| st_root := sample_root; st_memo := RootUnset; st_handles := [] |}.
Definition sample_capability : jsstr := js "cap-0123456789abcdef0123456789abcdef".
Definition sample_authorization : jsstr := concat (repeat (js "0123456789abcdef") 4).
Definition sample_input : jsv :=
  VObj PObject [(js "capabilityId", VStr sample_capability);
                (js "authorizationCommitment", VStr sample_authorization)].
Definition sample_claim_request : request :=
  RClaim (inert_heap sample_input) (inert_ref sample_input) (js "5e1f").
Definition sample_complete_request : request := RComplete (Some 0%nat) (HStr (js "success")) (js "77aa").

Definition ran (req : request) (s : fs * store) : res response * (fs * store) :=
  match run (operation sample_root req) s.1 s.2 with
  | Some (r, files, s') => (r, (files, s'))
  | None => (Throw (system_error []), s)
  end.
Definition sample_claimed : fs * store := (ran sample_claim_request (sample_fs, sample_store)).2.
Definition sample_completed : fs * store := (ran sample_complete_request sample_claimed).2.
Definition sample_claim : claim_record := Eval vm_compute in
  match makeClaimRecord sample_capability sample_authorization with
  | Ok c => c
  | Throw _ => {| cr_capability := []; cr_authorization := []; cr_commitment := [] |}
  end.
Definition sample_terminal : terminal_record := Eval vm_compute in
  match makeTerminalRecord sample_claim CONSUMED_SUCCESS with
  | Ok t => t
  | Throw _ => {| te_claim := sample_claim; te_state := CONSUMED_SUCCESS; te_commitment := [] |}
  end.
Definition sample_inspection : inspection :=
  makeInspection (CONSUMED CONSUMED_SUCCESS) (Some sample_claim) (Some sample_terminal).

Lemma ran_Ok req s a :
  (ran req s).1 = Ok a ->
  run (operation sample_root req) s.1 s.2 = Some (Ok a, (ran req s).2.1, (ran req s).2.2).
Proof. unfold ran. destruct (run _ _ _) as [[[[r|e] files] s']|]; simpl; [by intros [= ->]|done..]. Qed.

Lemma sample_claim_runs :
  run (operation sample_root sample_claim_request) sample_fs sample_store =
  Some (Ok (Claimed 0 sample_claim), sample_claimed.1, sample_claimed.2).
Proof.
  refine (ran_Ok sample_claim_request (sample_fs, sample_store) (Claimed 0 sample_claim) _).
  vm_compute. reflexivity.
Qed.
Lemma sample_complete_runs :
  run (operation sample_root sample_complete_request) sample_claimed.1 sample_claimed.2 =
  Some (Ok (Completed sample_inspection), sample_completed.1, sample_completed.2).
Proof.
  refine (ran_Ok sample_complete_request sample_claimed (Completed sample_inspection) _).
  vm_compute. reflexivity.
Qed.

Lemma sample_finals : finals_ok sample_fs.
Proof.
  intros q n (d & capability & _ & Hq) Hn. exfalso.
  assert (2 <= length q)%nat as Hl
    by (destruct Hq as [-> | ->]; unfold claim_file, terminal_file; rewrite !length_app; simpl; lia).
  assert (sample_entries !! q = Some n) as H by by destruct Hn.
  unfold sample_entries in H. apply lookup_insert_Some in H as [[<- _]|[_ H]]; [simpl in Hl; lia|].
  apply lookup_singleton_Some in H as [<- _]. simpl in Hl. lia.
Qed.

(** A store claims a capability and completes it. *)
Lemma sample_world :
  exists w, world_reachable sample_fs w /\ w_fs w = sample_completed.1 /\
    ended w 0 sample_root (Claimed 0 sample_claim) /\
    ended w 1 sample_root (Completed sample_inspection).
Proof.
  set (w0 := {| w_fs := sample_fs; w_stores := [Some sample_store]; w_threads := [] |}).
  assert (world_reachable sample_fs w0) as H0.
  { eapply rtc_l; [|apply rtc_refl].
    apply (step_store (initial_world sample_fs) (inert_heap sample_options) (inert_ref sample_options)).
    by vm_compute. }
  destruct (run_operation _ w0 0 sample_store _ _ _ _ H0 eq_refl sample_claim_runs)
    as (w1 & H1 & F1 & S1 & Hlen & E1 & _).
  pose proof sample_complete_runs as Hrun. rewrite <- F1 in Hrun.
  assert (st_root sample_claimed.2 = sample_root) as Hroot by (vm_compute; reflexivity). rewrite <- Hroot in Hrun.
  destruct (run_operation _ w1 0 _ _ _ _ _ H1 S1 Hrun) as (w2 & H2 & F2 & _ & _ & E2 & Hkeep).
  rewrite Hroot, Hlen in E2. exists w2. split; [exact H2|]. split; [exact F2|].
  split; [exact (Hkeep _ _ _ E1)|exact E2].
Qed.

Lemma sample_root_ready : root_ready sample_root sample_completed.1.
Proof.
  split; [done|]. split.
  - exists 448, 0. split; [vm_compute; reflexivity|]. split; [done|]. by intros u [= <-].
  - exists 493, 0. vm_compute. reflexivity.
Qed.

Lemma claim_exclusive_witness :
  exists w, ended w 0 sample_root (Claimed 0 sample_claim) /\
    forall j h c, cr_capability c = sample_capability -> ended w j sample_root (Claimed h c) -> 0%nat = j.
Proof.
  destruct sample_world as (w & HR & _ & H0 & _). exists w. split; [exact H0|]. intros j h c Hc Hj.
  apply (claim_exclusive sample_fs w sample_root 0 j 0 h sample_claim c HR H0 Hj). by rewrite Hc.
Defined.

Lemma complete_exclusive_witness :
  exists w, ended w 1 sample_root (Completed sample_inspection) /\
    forall j i, in_capability i = Some sample_capability ->
      ended w j sample_root (Completed i) -> 1%nat = j.
Proof.
  destruct sample_world as (w & HR & _ & _ & H1). exists w. split; [exact H1|]. intros j i Hi Hj.
  apply (complete_exclusive sample_fs w sample_root 1 j sample_inspection i HR H1 Hj). by rewrite Hi.
Defined.

Lemma published_files_complete_witness :
  exists w, ended w 1 sample_root (Completed sample_inspection) /\ finals_ok (w_fs w).
Proof.
  destruct sample_world as (w & HR & _ & _ & H1). exists w. split; [exact H1|].
  exact (published_files_complete sample_fs w sample_finals HR).
Defined.

Lemma claim_recovered_witness :
  exists w i, ended w 0 sample_root (Claimed 0 sample_claim) /\
    (i = makeInspection RESERVED (Some sample_claim) None \/
     exists t, terminal_ok t /\ te_claim t = sample_claim /\
       i = makeInspection (CONSUMED (te_state t)) (Some sample_claim) (Some t)).
Proof.
  destruct sample_world as (w & HR & HF & H0 & _).
  destruct (claim_recovered sample_fs w sample_root 0 0 sample_claim sample_store sample_finals HR H0)
    as (i & _ & _ & _ & Hi); [rewrite HF; exact sample_root_ready|reflexivity|].
  exists w, i. split; [exact H0|exact Hi].
Defined.

Lemma terminal_recovered_witness :
  exists w files s', ended w 1 sample_root (Completed sample_inspection) /\
    run (inspect_captured sample_root sample_capability sample_authorization) (w_fs w) sample_store =
      Some (Ok sample_inspection, files, s').
Proof.
  destruct sample_world as (w & HR & HF & _ & H1).
  destruct (terminal_recovered sample_fs w sample_root 1 sample_inspection sample_capability
    sample_authorization sample_store HR H1) as (files & s' & Hrun);
    [reflexivity|reflexivity|rewrite HF; exact sample_root_ready|reflexivity|].
  exists w, files, s'. split; [exact H1|exact Hrun].
Defined.
