(* ===== verification/EvmDecoders.v ===== *)
(** * The decoders of the Wallet Guard

    Models [applications/blockchain-digital-assets/wallet-guard/evm-decoders.mjs]:
    what a transaction or a typed-data signature asks for, read off its ABI words
    or its EIP-712 message.  Arguments are inert values.  A [BigInt] is an
    integer, and [BigInt(s)] is only taken of texts a pattern has accepted. *)
From S2P Require Import Prelude JsDate JsValue ProofSdk Json Canonical Normal.

#[local] Arguments js : simpl never.

(** ** Texts of integers *)

Definition is_hex_any (c : N) : bool := is_hex c || in_range 65 70 c.
Definition nonzero_digit (c : N) : bool := in_range 49 57 c.

(** An address, byte-aligned hex data, and hex and decimal integers without
    leading zeros; the source's patterns are anchored at both ends. *)
Definition ADDRESS_PATTERN : jsstr -> bool := re_prefixed (js "0x") (re_class is_hex_any 40 40).
Definition HEX_DATA_PATTERN : jsstr -> bool :=
  re_prefixed (js "0x") (fun s => Nat.even (length s) && forallb is_hex_any s).
Definition HEX_QUANTITY_PATTERN : jsstr -> bool :=
  re_prefixed (js "0x") (fun s => match s with
    | [] => false
    | c :: s' => str_eqb s (js "0")
        || ((nonzero_digit c || in_range 97 102 c || in_range 65 70 c) && forallb is_hex_any s')
    end).
Definition DECIMAL_INTEGER_PATTERN (s : jsstr) : bool :=
  match s with
  | [] => false
  | c :: s' => str_eqb s (js "0") || (nonzero_digit c && forallb is_digit s')
  end.
Definition ABI_WORD_PATTERN : jsstr -> bool := re_class is_hex 64 64.

Definition hex_digit_val (c : N) : Z :=
  if is_digit c then Z.of_N c - 48 else if in_range 97 102 c then Z.of_N c - 87 else Z.of_N c - 55.
Definition hex_val (s : jsstr) : Z := foldl (fun a c => 16 * a + hex_digit_val c) 0 s.

(** [BigInt(s)] of a text one of the patterns accepts *)
Definition bigint_of (s : jsstr) : Z :=
  if str_eqb (take 2 s) (js "0x") then hex_val (drop 2 s) else digits_val s.
(** [z.toString(10)] and [z.toString(16)] *)
Definition bigint_to_decimal (z : Z) : jsstr := string_of_Z z.
Fixpoint hex_length (fuel : nat) (z : Z) : nat :=
  match fuel with
  | O => 1
  | S fuel' => if z <? 16 then 1 else S (hex_length fuel' (z / 16))
  end.
Definition bigint_to_hex (z : Z) : jsstr :=
  hex_digits (hex_length (S (Z.to_nat (Z.log2 z))) z) (Z.to_N z).

(** ** Limits and constants *)

Definition MAX_JSON_DEPTH : Z := 8.
Definition MAX_JSON_NODES : Z := 1000.
Definition MAX_JSON_STRING : nat := 16 * 1024.
Definition MAX_JSON_KEY : nat := 64.
(** [/^[A-Za-z0-9_.-]{1,64}$/] *)
Definition JSON_KEY_PATTERN : jsstr -> bool :=
  re_class (fun c => is_alnum c || is_one_of "_.-" c) 1 64.
Definition FORBIDDEN_KEYS : list jsstr := js <$> ["__proto__"; "constructor"; "prototype"].

Definition field_types (l : list (string * string)) : list (jsstr * jsstr) :=
  (fun '(name, type) => (js name, js type)) <$> l.
Definition EIP2612_DOMAIN_FIELDS : list (jsstr * jsstr) := field_types
  [("name", "string"); ("version", "string"); ("chainId", "uint256"); ("verifyingContract", "address")].
Definition EIP2612_PERMIT_FIELDS : list (jsstr * jsstr) := field_types
  [("owner", "address"); ("spender", "address"); ("value", "uint256"); ("nonce", "uint256");
   ("deadline", "uint256")].
Definition PERMIT2_DOMAIN_FIELDS : list (jsstr * jsstr) := field_types
  [("name", "string"); ("chainId", "uint256"); ("verifyingContract", "address")].
Definition PERMIT2_DETAILS_FIELDS : list (jsstr * jsstr) := field_types
  [("token", "address"); ("amount", "uint160"); ("expiration", "uint48"); ("nonce", "uint48")].
Definition PERMIT2_SINGLE_FIELDS : list (jsstr * jsstr) := field_types
  [("details", "PermitDetails"); ("spender", "address"); ("sigDeadline", "uint256")].

Definition ERC20_APPROVE_SELECTOR : jsstr := js "0x095ea7b3".
Definition ERC20_TRANSFER_SELECTOR : jsstr := js "0xa9059cbb".
Definition SET_APPROVAL_FOR_ALL_SELECTOR : jsstr := js "0xa22cb465".
Definition MAX_UINT256_DECIMAL : jsstr := bigint_to_decimal (2 ^ 256 - 1).

Inductive request_class :=
  | NativeTransfer | Erc20Approve | Erc20Transfer | SetApprovalForAll | PermitEip2612
  | Permit2Single | Permit2BatchUnknown | UnknownCalldata | UnknownTypedData
  | GenericSignature | UnsupportedRpc.
#[export] Instance request_class_eq_dec : EqDecision request_class.
Proof. solve_decision. Defined.
Definition class_name (c : request_class) : jsstr :=
  js match c with
     | NativeTransfer => "native_transfer" | Erc20Approve => "erc20_approve"
     | Erc20Transfer => "erc20_transfer" | SetApprovalForAll => "set_approval_for_all"
     | PermitEip2612 => "permit_eip2612" | Permit2Single => "permit2_single"
     | Permit2BatchUnknown => "permit2_batch_unknown" | UnknownCalldata => "unknown_calldata"
     | UnknownTypedData => "unknown_typed_data" | GenericSignature => "generic_signature"
     | UnsupportedRpc => "unsupported_rpc"
     end.

Definition decoder_fail (code : string) (msg : jsstr) : jserr := Err DecoderErr (js code) msg.
Definition typed_data_fail (msg : jsstr) : jserr := decoder_fail "POMRX_WG_E_TYPED_DATA_INVALID" msg.
Definition calldata_fail (msg : jsstr) : jserr := decoder_fail "POMRX_WG_E_CALLDATA_MALFORMED" msg.

(** What a transaction's data asks for. *)
Record decoded_call := {
  dc_class : request_class;
  dc_selector : option jsstr;
  dc_spender : option jsstr;
  dc_recipient : option jsstr;
  dc_allowance : option jsstr;
  dc_amount : option jsstr;
  dc_approval : option bool;
  dc_sha256 : jsstr;
  dc_simulation : bool;
}.

(** What typed data asks for. *)
Record decoded_typed := {
  dt_class : request_class;
  dt_target : option jsstr;
  dt_spender : option jsstr;
  dt_allowance : option jsstr;
  dt_owner : option jsstr;
  dt_sha256 : jsstr;
  dt_chain_id : option jsstr;
  dt_contract : option jsstr;
  dt_simulation : bool;
}.

Section decoders.
Context `{SH : !StringHost, HH : !HashHost, DH : !DateHost}.

(** [v ?? d] *)
Definition nullish (v d : jsv) : jsv := match v with VUndef | VNull => d | _ => v end.

Definition normalizeEvmAddress (value : jsv) (field : string) : res jsstr :=
  match str_that ADDRESS_PATTERN value with
  | Some s => Ok (to_lower s)
  | None => Throw (decoder_fail "POMRX_WG_E_ADDRESS_INVALID"
                     (js field ++ js " must be a 20-byte EVM address"))
  end.

Definition normalizeHexData (value : jsv) (field : string) : res jsstr :=
  match str_that HEX_DATA_PATTERN value with
  | Some s => Ok (to_lower s)
  | None => Throw (decoder_fail "POMRX_WG_E_HEX_INVALID"
                     (js field ++ js " must be canonical byte-aligned hex data"))
  end.

Definition normalizeChainId (value : jsv) : res jsstr :=
  match str_that HEX_QUANTITY_PATTERN value with
  | Some s => Ok (js "0x" ++ bigint_to_hex (bigint_of s))
  | None => Throw (decoder_fail "POMRX_WG_E_CHAIN_INVALID"
                     (js "chain_id must be a canonical EIP-1193 hex quantity"))
  end.

Definition normalizeQuantity (value : jsv) (field : string) : res jsstr :=
  match value with
  | VUndef | VNull => Ok (js "0")
  | _ =>
      match str_that HEX_QUANTITY_PATTERN value with
      | Some s => Ok (bigint_to_decimal (bigint_of s))
      | None => Throw (decoder_fail "POMRX_WG_E_QUANTITY_INVALID"
                         (js field ++ js " must be a canonical EVM hex quantity"))
      end
  end.

Definition normalizeNumberish (value : jsv) (field : string) (bits : Z) : res jsstr :=
  parsed ← match value with
           | VNum _ =>
               match is_safe_integer value with
               | Some z => if z <? 0 then Throw (typed_data_fail
                                 (js field ++ js " must be a non-negative integer"))
                           else Ok z
               | None => Throw (typed_data_fail (js field ++ js " must be a non-negative integer"))
               end
           | _ =>
               match str_that (fun s => DECIMAL_INTEGER_PATTERN s || HEX_QUANTITY_PATTERN s) value with
               | Some s => Ok (bigint_of s)
               | None => Throw (typed_data_fail (js field ++ js " must be a canonical integer"))
               end
           end;
  _ ← guard_or (parsed <? 2 ^ bits)
        (typed_data_fail (js field ++ js " exceeds uint" ++ string_of_Z bits));
  Ok (bigint_to_decimal parsed).

(** ** ABI words *)

Definition parseAddressWord (word : jsstr) (field : string) : res jsstr :=
  _ ← guard_or (ABI_WORD_PATTERN word && str_eqb (take 24 word) (replicate 24 48%N))
        (calldata_fail (js field ++ js " is not a canonical ABI address word"));
  normalizeEvmAddress (VStr (js "0x" ++ drop 24 word)) field.

Definition parseUint256Word (word : jsstr) (field : string) : res jsstr :=
  _ ← guard_or (ABI_WORD_PATTERN word)
        (calldata_fail (js field ++ js " is not a canonical uint256 word"));
  Ok (bigint_to_decimal (bigint_of (js "0x" ++ word))).

Definition parseBoolWord (word : jsstr) (field : string) : res bool :=
  _ ← guard_or (ABI_WORD_PATTERN word)
        (calldata_fail (js field ++ js " is not a canonical bool word"));
  let value := bigint_of (js "0x" ++ word) in
  _ ← guard_or ((value =? 0) || (value =? 1))
        (calldata_fail (js field ++ js " must be ABI bool 0 or 1"));
  Ok (value =? 1).

(** [data.slice(from, to)] *)
Definition slice (from to : nat) (s : jsstr) : jsstr := take (to - from) (drop from s).

Definition decodeTransactionCalldata (rawData : jsv) : res decoded_call :=
  data ← normalizeHexData (nullish rawData (VStr (js "0x"))) "transaction data";
  let call cls selector spender recipient allowance amount approval simulation :=
    {| dc_class := cls; dc_selector := selector; dc_spender := spender; dc_recipient := recipient;
       dc_allowance := allowance; dc_amount := amount; dc_approval := approval;
       dc_sha256 := sha256Hex data; dc_simulation := simulation |} in
  if str_eqb data (js "0x")
  then Ok (call NativeTransfer None None None None None None false)
  else
    _ ← guard_or (10 <=? length data)%nat
          (calldata_fail (js "transaction data is too short for a selector"));
    let selector := slice 0 10 data in
    if mem_str selector [ERC20_APPROVE_SELECTOR; ERC20_TRANSFER_SELECTOR; SET_APPROVAL_FOR_ALL_SELECTOR]
    then
      _ ← guard_or (length data =? 138)%nat
            (calldata_fail (js "recognized two-argument calldata has an invalid length"));
      let firstWord := slice 10 74 data in
      let secondWord := slice 74 138 data in
      if str_eqb selector ERC20_APPROVE_SELECTOR
      then
        spender ← parseAddressWord firstWord "spender";
        allowance ← parseUint256Word secondWord "allowance";
        Ok (call Erc20Approve (Some selector) (Some spender) None (Some allowance) None None true)
      else if str_eqb selector ERC20_TRANSFER_SELECTOR
      then
        recipient ← parseAddressWord firstWord "recipient";
        amount ← parseUint256Word secondWord "token amount";
        Ok (call Erc20Transfer (Some selector) None (Some recipient) None (Some amount) None true)
      else
        operator ← parseAddressWord firstWord "operator";
        approved ← parseBoolWord secondWord "approved";
        Ok (call SetApprovalForAll (Some selector) (Some operator) None None None (Some approved) true)
    else Ok (call UnknownCalldata (Some selector) None None None None None true).

(** ** Typed data *)

(** [remaining] is [budget.remaining] before and after the call.  The arrays of
    an inert value are dense and its properties have no accessors. *)
Fixpoint clonePlainJson (value : jsv) (depth : Z) (remaining : Z) : res (jsv * Z) :=
  _ ← guard_or ((depth <=? MAX_JSON_DEPTH) && (0 <? remaining))
        (typed_data_fail (js "typed data exceeds reference bounds"));
  let remaining := remaining - 1 in
  match value with
  | VNull | VBool _ => Ok (value, remaining)
  | VStr s =>
      _ ← guard_or (length s <=? MAX_JSON_STRING)%nat
            (typed_data_fail (js "typed data string is too long"));
      Ok (value, remaining)
  | VNum _ =>
      _ ← guard_or (bool_decide (is_Some (is_safe_integer value)))
            (typed_data_fail (js "typed data numbers must be safe integers"));
      Ok (value, remaining)
  | VArr items =>
      '(items, remaining) ← fold_res (fun item '(output, remaining) =>
          '(item, remaining) ← clonePlainJson item (depth + 1) remaining;
          Ok (output ++ [item], remaining)) items ([], remaining);
      Ok (VArr items, remaining)
  | VObj p entries =>
      _ ← guard_or (match p with PObject | PNull => true | _ => false end)
            (typed_data_fail (js "typed data must contain plain objects only"));
      '(entries, remaining) ← fold_res (fun '(key, item) '(output, remaining) =>
          _ ← guard_or ((length key <=? MAX_JSON_KEY)%nat && JSON_KEY_PATTERN key
                        && negb (mem_str key FORBIDDEN_KEYS))
                (typed_data_fail (js "typed data contains an unsafe key"));
          '(item, remaining) ← clonePlainJson item (depth + 1) remaining;
          Ok (output ++ [(key, item)], remaining)) entries ([], remaining);
      Ok (VObj PNull entries, remaining)
  | VUndef | VFun _ | VSym _ | VBig _ =>
      Throw (typed_data_fail (js "typed data contains an unsupported value"))
  end.

Definition parseTypedData (rawTypedData : jsv) : res jsv :=
  parsed ← match rawTypedData with
           | VStr text =>
               _ ← guard_or (length text <=? 16 * 1024)%nat
                     (typed_data_fail (js "typed data JSON is too large"));
               match json_parse text with
               | Some v => Ok v
               | None => Throw (typed_data_fail (js "typed data JSON is invalid"))
               end
           | _ => Ok rawTypedData
           end;
  '(value, _) ← clonePlainJson parsed 0 MAX_JSON_NODES;
  Ok value.

Definition exactKeys (value : jsv) (expected : list jsstr) : bool :=
  is_record value && same_keys (keys_of value) expected.

Definition exactTypeDefinition (types : jsv) (typeName : jsstr) (expectedFields : list (jsstr * jsstr))
  : bool :=
  match get typeName types with
  | VArr definition =>
      (length definition =? length expectedFields)%nat
      && forallb (fun '(field, expected) =>
           exactKeys field [js "name"; js "type"]
           && is_str (get (js "name") field) expected.1
           && is_str (get (js "type") field) expected.2) (zip definition expectedFields)
  | _ => false
  end.

Definition exactTypeSet (types : jsv) (expectedDefinitions : list (jsstr * list (jsstr * jsstr))) : bool :=
  exactKeys types expectedDefinitions.*1
  && forallb (fun '(name, fields) => exactTypeDefinition types name fields) expectedDefinitions.

Definition typed_data_keys : list jsstr := js <$> ["types"; "primaryType"; "domain"; "message"].

Definition isExactEip2612Permit (typedData : jsv) : bool :=
  exactKeys typedData typed_data_keys
  && exactTypeSet (get (js "types") typedData)
       [(js "EIP712Domain", EIP2612_DOMAIN_FIELDS); (js "Permit", EIP2612_PERMIT_FIELDS)]
  && exactKeys (get (js "domain") typedData) (js <$> ["name"; "version"; "chainId"; "verifyingContract"])
  && exactKeys (get (js "message") typedData) (js <$> ["owner"; "spender"; "value"; "nonce"; "deadline"]).

Definition isExactPermit2Single (typedData : jsv) : bool :=
  let message := get (js "message") typedData in
  exactKeys typedData typed_data_keys
  && exactTypeSet (get (js "types") typedData)
       [(js "EIP712Domain", PERMIT2_DOMAIN_FIELDS); (js "PermitDetails", PERMIT2_DETAILS_FIELDS);
        (js "PermitSingle", PERMIT2_SINGLE_FIELDS)]
  && exactKeys (get (js "domain") typedData) (js <$> ["name"; "chainId"; "verifyingContract"])
  && exactKeys message (js <$> ["details"; "spender"; "sigDeadline"])
  && exactKeys (get (js "details") message) (js <$> ["token"; "amount"; "expiration"; "nonce"]).

Definition normalizeOptionalDomainChainId (domain : jsv) : res (option jsstr) :=
  if mem_str (js "chainId") (keys_of domain)
  then
    decimal ← normalizeNumberish (get (js "chainId") domain) "typed data domain chainId" 256;
    Ok (Some (js "0x" ++ bigint_to_hex (bigint_of decimal)))
  else Ok None.

Definition unknownTypedDataResult (primaryType typedDataSha256 : jsstr)
    (domainChainId domainVerifyingContract : option jsstr) : decoded_typed :=
  {| dt_class := if str_eqb primaryType (js "PermitBatch") then Permit2BatchUnknown else UnknownTypedData;
     dt_target := None; dt_spender := None; dt_allowance := None; dt_owner := None;
     dt_sha256 := typedDataSha256; dt_chain_id := domainChainId;
     dt_contract := domainVerifyingContract; dt_simulation := true |}.

(** The [Permit] branch of [decodeTypedData] *)
Definition decode_permit (message : jsv) (typedDataSha256 : jsstr) (chainId contract : option jsstr)
  : res decoded_typed :=
  _ ← guard_or (bool_decide (is_Some chainId) && bool_decide (is_Some contract))
        (typed_data_fail (js "EIP-2612 Permit requires chainId and verifyingContract"));
  _ ← normalizeNumberish (get (js "nonce") message) "Permit nonce" 256;
  _ ← normalizeNumberish (get (js "deadline") message) "Permit deadline" 256;
  spender ← normalizeEvmAddress (get (js "spender") message) "Permit spender";
  allowance ← normalizeNumberish (get (js "value") message) "Permit value" 256;
  owner ← normalizeEvmAddress (get (js "owner") message) "Permit owner";
  Ok {| dt_class := PermitEip2612; dt_target := contract; dt_spender := Some spender;
        dt_allowance := Some allowance; dt_owner := Some owner; dt_sha256 := typedDataSha256;
        dt_chain_id := chainId; dt_contract := contract; dt_simulation := true |}.

(** The [PermitSingle] branch *)
Definition decode_permit2 (message : jsv) (typedDataSha256 : jsstr) (chainId contract : option jsstr)
  : res decoded_typed :=
  let details := get (js "details") message in
  _ ← guard_or (bool_decide (is_Some chainId) && bool_decide (is_Some contract))
        (typed_data_fail (js "Permit2 requires chainId and verifyingContract"));
  _ ← normalizeNumberish (get (js "expiration") details) "Permit2 expiration" 48;
  _ ← normalizeNumberish (get (js "nonce") details) "Permit2 nonce" 48;
  _ ← normalizeNumberish (get (js "sigDeadline") message) "Permit2 sigDeadline" 256;
  target ← normalizeEvmAddress (get (js "token") details) "Permit2 token";
  spender ← normalizeEvmAddress (get (js "spender") message) "Permit2 spender";
  allowance ← normalizeNumberish (get (js "amount") details) "Permit2 amount" 160;
  Ok {| dt_class := Permit2Single; dt_target := Some target; dt_spender := Some spender;
        dt_allowance := Some allowance; dt_owner := None; dt_sha256 := typedDataSha256;
        dt_chain_id := chainId; dt_contract := contract; dt_simulation := true |}.

Definition decodeTypedData (rawTypedData : jsv) : res decoded_typed :=
  typedData ← parseTypedData rawTypedData;
  _ ← guard_or (is_record typedData) (typed_data_fail (js "typed data must be an object"));
  primaryType ← match str_that (fun s => (1 <=? length s)%nat) (get (js "primaryType") typedData) with
                | Some s => Ok s
                | None => Throw (typed_data_fail (js "typed data primaryType is required"))
                end;
  let domain := get (js "domain") typedData in
  let message := get (js "message") typedData in
  _ ← guard_or (is_record domain && is_record message)
        (typed_data_fail (js "typed data domain and message are required"));
  canonicalTypedData ← canonicalizePayload typedData;
  let typedDataSha256 := sha256Hex canonicalTypedData in
  domainChainId ← normalizeOptionalDomainChainId domain;
  domainVerifyingContract ←
    (if mem_str (js "verifyingContract") (keys_of domain)
     then Some <$> normalizeEvmAddress (get (js "verifyingContract") domain) "typed data verifyingContract"
     else Ok None);
  let unknown := unknownTypedDataResult primaryType typedDataSha256 domainChainId domainVerifyingContract in
  if str_eqb primaryType (js "Permit")
  then
    if isExactEip2612Permit typedData
    then decode_permit message typedDataSha256 domainChainId domainVerifyingContract
    else Ok unknown
  else if str_eqb primaryType (js "PermitSingle")
  then
    if isExactPermit2Single typedData
    then decode_permit2 message typedDataSha256 domainChainId domainVerifyingContract
    else Ok unknown
  else Ok unknown.
End decoders.

(** ** Hex texts *)

Lemma hex_val_app l c : hex_val (l ++ [c]) = 16 * hex_val l + hex_digit_val c.
Proof. unfold hex_val. by rewrite foldl_app. Qed.

Lemma hex_digits_length n x : length (hex_digits n x) = n.
Proof. revert x. induction n as [|n IH]; intros x; simpl; [done|]. rewrite length_app, IH. simpl. lia. Qed.

Lemma hex_digit_val_digit x : (x < 16)%N -> hex_digit_val (hex_digit x) = Z.of_N x.
Proof.
  intros H. unfold hex_digit_val, hex_digit, is_digit, in_range.
  destruct (N.ltb_spec x 10); repeat case_match; rewrite ?andb_true_iff, ?andb_false_iff, ?N.leb_le, ?N.leb_gt in *; lia.
Qed.

Lemma hex_digit_of_val c : is_hex c = true -> 0 <= hex_digit_val c < 16 /\ hex_digit (Z.to_N (hex_digit_val c)) = c.
Proof.
  unfold is_hex, hex_digit_val, hex_digit, is_digit, in_range. rewrite orb_true_iff, !andb_true_iff, !N.leb_le.
  intros H. repeat case_match; rewrite ?andb_true_iff, ?andb_false_iff, ?N.leb_le, ?N.leb_gt, ?N.ltb_lt, ?N.ltb_ge in *; lia.
Qed.

Lemma hex_val_digits n z : 0 <= z < 16 ^ Z.of_nat n -> hex_val (hex_digits n (Z.to_N z)) = z.
Proof.
  revert z. induction n as [|n IH]; intros z Hz; [simpl in *; unfold hex_val; simpl; lia|].
  rewrite Nat2Z.inj_succ, Z.pow_succ_r in Hz by lia. cbn [hex_digits].
  rewrite hex_val_app, hex_digit_val_digit by (apply N.mod_lt; done).
  replace (Z.to_N z / 16)%N with (Z.to_N (z / 16)) by (rewrite Z2N.inj_div by lia; done).
  rewrite IH by lia. rewrite N2Z.inj_mod, Z2N.id by lia. lia.
Qed.

Lemma hex_digits_val w :
  forallb is_hex w = true ->
  0 <= hex_val w < 16 ^ Z.of_nat (length w) /\ hex_digits (length w) (Z.to_N (hex_val w)) = w.
Proof.
  induction w as [|c w IH] using rev_ind; [done|]. rewrite forallb_app, andb_true_iff. cbn [forallb].
  rewrite andb_true_r. intros [Hw Hc]. destruct (IH Hw) as [Hb He]. destruct (hex_digit_of_val c Hc) as [Hd Hcd].
  rewrite hex_val_app, length_app. cbn [length]. rewrite Nat.add_comm, Nat2Z.inj_succ, Z.pow_succ_r by lia.
  split; [lia|]. cbn [Nat.add hex_digits].
  rewrite Z2N.inj_add, Z2N.inj_mul by lia. change (Z.to_N 16) with 16%N.
  assert (Z.to_N (hex_digit_val c) < 16)%N by lia.
  replace ((16 * Z.to_N (hex_val w) + Z.to_N (hex_digit_val c)) / 16)%N with (Z.to_N (hex_val w)) by lia.
  replace ((16 * Z.to_N (hex_val w) + Z.to_N (hex_digit_val c)) mod 16)%N with (Z.to_N (hex_digit_val c)) by lia.
  by rewrite He, Hcd.
Qed.

Lemma hex_any_lower s : forallb is_hex_any s = true ->
  forallb is_ascii s = true /\ forallb is_hex (ascii_lower <$> s) = true.
Proof.
  induction s as [|c s IH]; [done|]. cbn. rewrite !andb_true_iff. intros [Hc Hs].
  destruct (IH Hs) as [Ha Hh]. cbn in Hh. rewrite Ha, Hh. split_and!; try done; revert Hc; clear;
    unfold is_hex_any, is_hex, is_ascii, ascii_lower, is_upper, is_digit, in_range;
    rewrite ?orb_true_iff, ?andb_true_iff, ?N.leb_le, ?N.ltb_lt; intros Hc;
    repeat case_match; rewrite ?andb_true_iff, ?andb_false_iff, ?N.leb_le, ?N.leb_gt in *; lia.
Qed.

Lemma hex_any_of_hex s : forallb is_hex s = true -> forallb is_hex_any s = true.
Proof. apply forallb_impl. intros c H. unfold is_hex_any. by rewrite H. Qed.

Lemma hex_lower s : forallb is_hex s = true -> ascii_lower <$> s = s.
Proof.
  induction s as [|c s IH]; [done|]. cbn. rewrite andb_true_iff. intros [Hc Hs]. f_equal; [|by apply IH].
  revert Hc. clear. unfold is_hex, ascii_lower, is_upper, is_digit, in_range.
  rewrite orb_true_iff, !andb_true_iff, !N.leb_le. intros. case_match; [|done].
  rewrite andb_true_iff, !N.leb_le in *. lia.
Qed.

Lemma re_prefixed_iff prefix re s : re_prefixed prefix re s = true <-> exists t, s = prefix ++ t /\ re t = true.
Proof.
  unfold re_prefixed. rewrite andb_true_iff, str_eqb_eq. split.
  - intros [Ht Hr]. eexists. split; [|exact Hr]. by rewrite <- Ht at 1; rewrite take_drop.
  - intros (t & -> & Hr). by rewrite take_app_length, drop_app_length.
Qed.

Lemma hex_length_spec fuel z : 0 < z < 2 ^ Z.of_nat fuel ->
  exists n, hex_length fuel z = S n /\ 16 ^ Z.of_nat n <= z < 16 ^ Z.of_nat (S n).
Proof.
  revert z. induction fuel as [|fuel IH]; intros z Hz; [simpl in *; lia|].
  cbn [hex_length]. destruct (Z.ltb_spec z 16); [exists 0%nat; simpl; lia|].
  destruct (IH (z / 16)) as (n & -> & Hn).
  { rewrite Nat2Z.inj_succ, Z.pow_succ_r in Hz by lia. lia. }
  exists (S n). split; [done|]. rewrite !Nat2Z.inj_succ, !Z.pow_succ_r in * by lia. lia.
Qed.

(** Texts of chain ids are those [normalizeChainId] leaves alone. *)
Lemma chain_id_quantity z : 0 <= z ->
  HEX_QUANTITY_PATTERN (js "0x" ++ bigint_to_hex z) = true /\ bigint_of (js "0x" ++ bigint_to_hex z) = z.
Proof.
  intros Hz. change (bigint_of (js "0x" ++ bigint_to_hex z)) with (hex_val (bigint_to_hex z)).
  destruct (decide (z = 0)) as [->|Hz0]; [done|]. unfold bigint_to_hex.
  destruct (hex_length_spec (S (Z.to_nat (Z.log2 z))) z) as (n & -> & Hn).
  { pose proof (Z.log2_spec z ltac:(lia)). rewrite Nat2Z.inj_succ, Z2Nat.id by apply Z.log2_nonneg. lia. }
  split; [|apply hex_val_digits; lia]. apply re_prefixed_iff. eexists. split; [done|].
  pose proof (hex_val_digits (S n) z ltac:(lia)) as Hv.
  assert (forallb is_hex (hex_digits (S n) (Z.to_N z)) = true) as Hh.
  { clear. generalize (Z.to_N z). induction (S n) as [|m IH]; intros x; [done|].
    cbn [hex_digits]. rewrite forallb_app, IH. cbn. rewrite andb_true_r. apply hex_digit_is_hex. apply N.mod_lt. done. }
  pose proof (hex_digits_length (S n) (Z.to_N z)) as Hl.
  destruct (hex_digits (S n) (Z.to_N z)) as [|c s]; [done|]. cbn in Hl. injection Hl as Hl.
  cbn in Hh. apply andb_true_iff in Hh as [Hc Hs]. rewrite orb_true_iff. right.
  rewrite (hex_any_of_hex s Hs), andb_true_r.
  destruct (decide (c = 48%N)) as [->|Hc0].
  - exfalso. destruct (hex_digits_val s Hs) as [Hb _]. rewrite Hl in Hb.
    change (hex_val (48%N :: s)) with (hex_val s) in Hv. lia.
  - revert Hc Hc0. unfold is_hex, nonzero_digit, is_digit, in_range.
    rewrite !orb_true_iff, !andb_true_iff, !N.leb_le. lia.
Qed.
Section abi.
Context `{SH : !StringHost, HH : !HashHost, DH : !DateHost}.

Lemma lower_prefixed t : forallb is_hex_any t = true ->
  to_lower (js "0x" ++ t) = js "0x" ++ (ascii_lower <$> t) /\ forallb is_hex (ascii_lower <$> t) = true.
Proof.
  intros H. destruct (hex_any_lower t H) as [Ha Hh]. split; [|done].
  rewrite to_lower_ascii by (rewrite forallb_app; by rewrite Ha). by rewrite fmap_app.
Qed.

(** ** A reference for calls

    A call of one of the three functions the Wallet Guard knows, as the ABI
    writes it: the selector and two words of 32 bytes. *)
Definition canonical_address : jsstr -> bool := re_prefixed (js "0x") (re_class is_hex 40 40).

Inductive abi_call :=
  | CallApprove (spender : jsstr) (amount : Z)
  | CallTransfer (recipient : jsstr) (amount : Z)
  | CallOperator (operator : jsstr) (approved : bool).

Definition abi_address (a : jsstr) : jsstr := replicate 24 48%N ++ drop 2 a.
Definition abi_uint256 (z : Z) : jsstr := hex_digits 64 (Z.to_N z).
Definition is_uint256 (z : Z) : Prop := 0 <= z < 2 ^ 256.

Definition call_ok (c : abi_call) : Prop :=
  match c with
  | CallApprove a z | CallTransfer a z => canonical_address a = true /\ is_uint256 z
  | CallOperator a _ => canonical_address a = true
  end.
Definition encode_call (c : abi_call) : jsstr :=
  match c with
  | CallApprove a z => ERC20_APPROVE_SELECTOR ++ abi_address a ++ abi_uint256 z
  | CallTransfer a z => ERC20_TRANSFER_SELECTOR ++ abi_address a ++ abi_uint256 z
  | CallOperator a b =>
      SET_APPROVAL_FOR_ALL_SELECTOR ++ abi_address a ++ abi_uint256 (if b then 1 else 0)
  end.

(** What the decoder reports of it. *)
Definition decoded_of (c : abi_call) (data : jsstr) : decoded_call :=
  let call cls spender recipient allowance amount approval :=
    {| dc_class := cls; dc_selector := Some (take 10 data); dc_spender := spender;
       dc_recipient := recipient; dc_allowance := allowance; dc_amount := amount;
       dc_approval := approval; dc_sha256 := sha256Hex data; dc_simulation := true |} in
  match c with
  | CallApprove a z => call Erc20Approve (Some a) None (Some (bigint_to_decimal z)) None None
  | CallTransfer a z => call Erc20Transfer None (Some a) None (Some (bigint_to_decimal z)) None
  | CallOperator a b => call SetApprovalForAll (Some a) None None None (Some b)
  end.
Definition opaque_call (cls : request_class) (selector : option jsstr) (data : jsstr) : decoded_call :=
  {| dc_class := cls; dc_selector := selector; dc_spender := None; dc_recipient := None;
     dc_allowance := None; dc_amount := None; dc_approval := None; dc_sha256 := sha256Hex data;
     dc_simulation := match selector with Some _ => true | None => false end |}.

Definition known_selectors : list jsstr :=
  [ERC20_APPROVE_SELECTOR; ERC20_TRANSFER_SELECTOR; SET_APPROVAL_FOR_ALL_SELECTOR].
(** How data in lower case reads. *)
Inductive reads_as (data : jsstr) : decoded_call -> Prop :=
  | reads_empty : data = js "0x" -> reads_as data (opaque_call NativeTransfer None data)
  | reads_call c : call_ok c -> data = encode_call c -> reads_as data (decoded_of c data)
  | reads_unknown : (10 <= length data)%nat -> (take 10 data ∉ known_selectors) ->
      reads_as data (opaque_call UnknownCalldata (Some (take 10 data)) data).

(** ** Words *)

Lemma word_iff w : ABI_WORD_PATTERN w = true <-> length w = 64%nat /\ forallb is_hex w = true.
Proof.
  unfold ABI_WORD_PATTERN, re_class. rewrite !andb_true_iff, !Nat.leb_le. split; [intros [[? ?] ?]|intros [-> ?]]; split_and!; try done; lia.
Qed.

Lemma canonical_address_iff a :
  canonical_address a = true <-> exists t, a = js "0x" ++ t /\ length t = 40%nat /\ forallb is_hex t = true.
Proof.
  unfold canonical_address. rewrite re_prefixed_iff. split; intros (t & Ht & H); exists t; (split; [done|]);
    unfold re_class in *; rewrite !andb_true_iff, !Nat.leb_le in *; intuition lia.
Qed.

Lemma normalizeEvmAddress_Ok v f a :
  normalizeEvmAddress v f = Ok a <->
  exists t, v = VStr (js "0x" ++ t) /\ length t = 40%nat /\ forallb is_hex_any t = true /\
    a = js "0x" ++ (ascii_lower <$> t).
Proof.
  unfold normalizeEvmAddress, str_that. destruct v; try (split; [done|by intros (t & [=] & _)]).
  destruct (ADDRESS_PATTERN s) eqn:E.
  - apply re_prefixed_iff in E as (t & -> & Ht). unfold re_class in Ht.
    rewrite !andb_true_iff, !Nat.leb_le in Ht. destruct Ht as [[? ?] Ht].
    destruct (lower_prefixed t Ht) as [-> _]. split.
    + intros [= <-]. exists t. split_and!; try done. lia.
    + by intros (t' & [= <-] & _ & _ & ->).
  - split; [done|]. intros (t & [= ->] & Hl & Ht & _). unfold ADDRESS_PATTERN in E.
    rewrite (proj2 (re_prefixed_iff _ _ _)) in E; [done|]. exists t. split; [done|].
    unfold re_class. by rewrite Hl, Ht.
Qed.

Lemma normalizeEvmAddress_canonical v f a : normalizeEvmAddress v f = Ok a -> canonical_address a = true.
Proof.
  intros (t & _ & Hl & Ht & ->)%normalizeEvmAddress_Ok. apply canonical_address_iff.
  exists (ascii_lower <$> t). rewrite length_fmap. split_and!; try done. by apply lower_prefixed.
Qed.

Lemma normalizeEvmAddress_fixed a f : canonical_address a = true -> normalizeEvmAddress (VStr a) f = Ok a.
Proof.
  intros (t & -> & Hl & Ht)%canonical_address_iff. apply normalizeEvmAddress_Ok. exists t.
  rewrite hex_lower by done. split_and!; try done. by apply hex_any_of_hex.
Qed.

Lemma parseAddressWord_Ok w f a :
  parseAddressWord w f = Ok a <-> canonical_address a = true /\ w = abi_address a.
Proof.
  unfold parseAddressWord. rewrite guard_bind_Ok, andb_true_iff, str_eqb_eq, word_iff. split.
  - intros [[[Hl Hh] Ht] Ha].
    assert (w = replicate 24 48%N ++ drop 24 w) as Hw by (by rewrite <- Ht, take_drop).
    assert (forallb is_hex (drop 24 w) = true) as Hd.
    { rewrite Hw, forallb_app, andb_true_iff in Hh. by destruct Hh. }
    apply normalizeEvmAddress_Ok in Ha as (t & [= <-] & Hlt & _ & ->).
    rewrite hex_lower by done. split; [|done].
    apply canonical_address_iff. by exists (drop 24 w).
  - intros [Ha ->]. pose proof Ha as (t & -> & Hl & Ht)%canonical_address_iff.
    change (abi_address (js "0x" ++ t)) with (replicate 24 48%N ++ t).
    rewrite take_app_length', drop_app_length' by done. split; [|by apply normalizeEvmAddress_fixed].
    split; [|done]. rewrite length_app, length_replicate, Hl, forallb_app, Ht. done.
Qed.

Lemma abi_uint256_word z : ABI_WORD_PATTERN (abi_uint256 z) = true.
Proof. apply hex_digits_format. Qed.

Lemma word_value w :
  ABI_WORD_PATTERN w = true <-> is_uint256 (bigint_of (js "0x" ++ w)) /\ w = abi_uint256 (bigint_of (js "0x" ++ w)).
Proof.
  change (bigint_of (js "0x" ++ w)) with (hex_val w). unfold is_uint256, abi_uint256. rewrite word_iff. split.
  - intros [Hl Hh]. destruct (hex_digits_val w Hh) as [Hb Hd]. rewrite Hl in Hb, Hd.
    change (2 ^ 256) with (16 ^ Z.of_nat 64). split; [done|by symmetry].
  - intros [_ ->]. apply word_iff, hex_digits_format.
Qed.

Lemma abi_uint256_value z : is_uint256 z -> bigint_of (js "0x" ++ abi_uint256 z) = z.
Proof. intros H. by apply hex_val_digits. Qed.

Lemma parseUint256Word_Ok w f s :
  parseUint256Word w f = Ok s <-> exists z, is_uint256 z /\ w = abi_uint256 z /\ s = bigint_to_decimal z.
Proof.
  unfold parseUint256Word. rewrite guard_bind_Ok. split.
  - intros [[Hz Hw]%word_value [= <-]]. by eexists.
  - intros (z & Hz & -> & ->). rewrite abi_uint256_value by done. split; [apply abi_uint256_word|done].
Qed.

Lemma parseBoolWord_Ok w f b :
  parseBoolWord w f = Ok b <-> w = abi_uint256 (if b then 1 else 0).
Proof.
  unfold parseBoolWord. rewrite guard_bind_Ok. split.
  - intros [[Hz Hw]%word_value H]. apply guard_bind_Ok in H as [H Hb].
    assert (b = (bigint_of (js "0x" ++ w) =? 1)) as -> by congruence. rewrite Hw at 1. f_equal.
    by apply orb_true_iff in H as [->%Z.eqb_eq | ->%Z.eqb_eq].
  - intros ->. split; [apply abi_uint256_word|]. apply guard_bind_Ok. by destruct b.
Qed.

(** ** Calldata *)

Lemma normalizeHexData_Ok v f d :
  normalizeHexData v f = Ok d <->
  exists t, v = VStr (js "0x" ++ t) /\ Nat.even (length t) = true /\ forallb is_hex_any t = true /\
    d = js "0x" ++ (ascii_lower <$> t).
Proof.
  unfold normalizeHexData, str_that. destruct v; try (split; [done|by intros (t & [=] & _)]).
  destruct (HEX_DATA_PATTERN s) eqn:E.
  - apply re_prefixed_iff in E as (t & -> & [He Ht]%andb_true_iff).
    destruct (lower_prefixed t Ht) as [-> _]. split.
    + intros [= <-]. by exists t.
    + by intros (t' & [= <-] & _ & _ & ->).
  - split; [done|]. intros (t & [= ->] & He & Ht & _). unfold HEX_DATA_PATTERN in E.
    rewrite (proj2 (re_prefixed_iff _ _ _)) in E; [done|]. exists t. by rewrite He, Ht.
Qed.

Lemma encode_call_shape c : call_ok c ->
  exists sel w1 w2, encode_call c = sel ++ w1 ++ w2 /\ length sel = 10%nat /\ length w1 = 64%nat /\
    length w2 = 64%nat /\ (sel ∈ known_selectors).
Proof.
  assert (forall a, canonical_address a = true -> length (abi_address a) = 64%nat) as Ha.
  { intros a (t & -> & Hl & _)%canonical_address_iff.
    change (abi_address (js "0x" ++ t)) with (replicate 24 48%N ++ t).
    by rewrite length_app, length_replicate, Hl. }
  destruct c as [a z|a z|a b]; intros H; eexists _, _, _; split_and!;
    first [reflexivity | apply Ha; apply H | apply hex_digits_length | decide_now].
Qed.

(** The reading of data that has two words. *)
Lemma decode_words data sel w1 w2 d :
  length sel = 10%nat -> length w1 = 64%nat -> length w2 = 64%nat -> sel ∈ known_selectors ->
  data = sel ++ w1 ++ w2 ->
  (if str_eqb sel ERC20_APPROVE_SELECTOR
   then spender ← parseAddressWord w1 "spender"; allowance ← parseUint256Word w2 "allowance";
        Ok {| dc_class := Erc20Approve; dc_selector := Some sel; dc_spender := Some spender;
              dc_recipient := None; dc_allowance := Some allowance; dc_amount := None;
              dc_approval := None; dc_sha256 := sha256Hex data; dc_simulation := true |}
   else if str_eqb sel ERC20_TRANSFER_SELECTOR
   then recipient ← parseAddressWord w1 "recipient"; amount ← parseUint256Word w2 "token amount";
        Ok {| dc_class := Erc20Transfer; dc_selector := Some sel; dc_spender := None;
              dc_recipient := Some recipient; dc_allowance := None; dc_amount := Some amount;
              dc_approval := None; dc_sha256 := sha256Hex data; dc_simulation := true |}
   else operator ← parseAddressWord w1 "operator"; approved ← parseBoolWord w2 "approved";
        Ok {| dc_class := SetApprovalForAll; dc_selector := Some sel; dc_spender := Some operator;
              dc_recipient := None; dc_allowance := None; dc_amount := None;
              dc_approval := Some approved; dc_sha256 := sha256Hex data; dc_simulation := true |})
  = Ok d <-> exists c, call_ok c /\ data = encode_call c /\ d = decoded_of c data.
Proof.
  intros Hs H1 H2 Hin Hdata. unfold decoded_of.
  assert (take 10 data = sel) as -> by (by rewrite Hdata, take_app_length').
  assert (forall s v1 v2, data = s ++ v1 ++ v2 -> length s = 10%nat -> length v1 = 64%nat ->
    sel = s /\ w1 = v1 /\ w2 = v2) as Hinj.
  { intros s v1 v2 E Ls L1. rewrite Hdata in E. apply app_inj_1 in E as [-> E]; [|by rewrite Ls].
    apply app_inj_1 in E as [-> ->]; [done|by rewrite L1]. }
  assert (forall a, canonical_address a = true -> length (abi_address a) = 64%nat) as Hal.
  { intros a (t & -> & Hl & _)%canonical_address_iff.
    change (abi_address (js "0x" ++ t)) with (replicate 24 48%N ++ t).
    by rewrite length_app, length_replicate, Hl. }
  unfold known_selectors in Hin.
  assert (sel = ERC20_APPROVE_SELECTOR \/ sel = ERC20_TRANSFER_SELECTOR \/ sel = SET_APPROVAL_FOR_ALL_SELECTOR)
    as [-> | [-> | ->]] by (rewrite !elem_of_cons in Hin; destruct Hin as [?|[?|[?|[]%elem_of_nil]]]; auto).
  all: repeat match goal with |- context [str_eqb ?a ?b] =>
    let r := eval vm_compute in (str_eqb a b) in change (str_eqb a b) with r; cbn iota end.
  all: split.
  - intros (a & [Ha ->]%parseAddressWord_Ok & H)%bind_Ok.
    apply bind_Ok in H as (s & (z & Hz & -> & ->)%parseUint256Word_Ok & [= <-]).
    by exists (CallApprove a z).
  - intros ([a z|a z|a b] & Hc & E & ->); apply Hinj in E as (Es & E1 & E2);
      try done; try (by apply Hal, Hc); try (by apply Hal). destruct Hc as [Ha Hz].
    rewrite (proj2 (parseAddressWord_Ok w1 _ a)) by done. cbn [mbind res_bind].
    by rewrite (proj2 (parseUint256Word_Ok w2 _ (bigint_to_decimal z))) by eauto.
  - intros (a & [Ha ->]%parseAddressWord_Ok & H)%bind_Ok.
    apply bind_Ok in H as (s & (z & Hz & -> & ->)%parseUint256Word_Ok & [= <-]).
    by exists (CallTransfer a z).
  - intros ([a z|a z|a b] & Hc & E & ->); apply Hinj in E as (Es & E1 & E2);
      try done; try (by apply Hal, Hc); try (by apply Hal). destruct Hc as [Ha Hz].
    rewrite (proj2 (parseAddressWord_Ok w1 _ a)) by done. cbn [mbind res_bind].
    by rewrite (proj2 (parseUint256Word_Ok w2 _ (bigint_to_decimal z))) by eauto.
  - intros (a & [Ha ->]%parseAddressWord_Ok & H)%bind_Ok.
    apply bind_Ok in H as (b & ->%parseBoolWord_Ok & [= <-]).
    by exists (CallOperator a b).
  - intros ([a z|a z|a b] & Hc & E & ->); apply Hinj in E as (Es & E1 & E2);
      try done; try (by apply Hal, Hc); try (by apply Hal).
    rewrite (proj2 (parseAddressWord_Ok w1 _ a)) by done. cbn [mbind res_bind].
    by rewrite (proj2 (parseBoolWord_Ok w2 _ b)) by done.
Qed.

Lemma length_hex_lower t : length (ascii_lower <$> t) = length t.
Proof. apply length_fmap. Qed.

(** The calldata decoder reads exactly byte-aligned hex data: nothing is a
    native transfer; a known selector is only accepted with the two ABI words of
    its call, and then the decoder reports the address, amount or flag that the
    reference encoding of the call has; any other selector is opaque. *)
Lemma decodeTransactionCalldata_exact s d :
  decodeTransactionCalldata (VStr s) = Ok d <->
  HEX_DATA_PATTERN s = true /\ reads_as (ascii_lower <$> s) d.
Proof.
  unfold decodeTransactionCalldata. cbn [nullish]. rewrite bind_Ok.
  assert (forall data, (10 <= length data)%nat -> length data = 138%nat ->
    data = take 10 data ++ slice 10 74 data ++ slice 74 138 data) as Hcut.
  { intros data _ Hl. unfold slice. cbn [Nat.sub].
    rewrite (take_ge (drop 74 data)) by (rewrite length_drop; lia).
    rewrite <- (take_drop 10 data) at 1. f_equal. rewrite <- (take_drop 64 (drop 10 data)) at 1.
    by rewrite drop_drop. }
  split.
  - intros (data & (t & E & He & Ht & Hdata)%normalizeHexData_Ok & H).
    assert (s = js "0x" ++ t) as -> by congruence.
    split; [apply re_prefixed_iff; exists t; by rewrite He, Ht|].
    change (ascii_lower <$> js "0x" ++ t) with (js "0x" ++ (ascii_lower <$> t)).
    rewrite <- Hdata. clear Hdata E.
    destruct (str_eqb data (js "0x")) eqn:E0.
    { apply str_eqb_eq in E0. injection H as <-. by apply reads_empty. }
    apply guard_bind_Ok in H as [Hl%Nat.leb_le H].
    change (slice 0 10 data) with (take 10 data) in H. fold known_selectors in H.
    destruct (mem_str (take 10 data) known_selectors) eqn:Em.
    + apply mem_str_true in Em. apply guard_bind_Ok in H as [Hlen%Nat.eqb_eq H].
      apply decode_words in H as (c & Hc & Hd & ->); [by apply reads_call| | | |done|by apply Hcut].
      all: unfold slice; rewrite ?length_take, ?length_drop; lia.
    + injection H as <-. apply reads_unknown; [done|]. intros Hin%mem_str_true. congruence.
  - intros [(t & -> & [He Ht]%andb_true_iff)%re_prefixed_iff Hr].
    change (ascii_lower <$> js "0x" ++ t) with (js "0x" ++ (ascii_lower <$> t)) in Hr.
    exists (js "0x" ++ (ascii_lower <$> t)). split; [apply normalizeHexData_Ok; by exists t|].
    set (data := js "0x" ++ (ascii_lower <$> t)) in *. clearbody data.
    destruct Hr as [->|c Hc Hd|Hl Hsel]; [done| |].
    + destruct (encode_call_shape c Hc) as (sel & w1 & w2 & Ec & L0 & L1 & L2 & Hin).
      rewrite Ec in Hd.
      assert (length data = 138%nat) as Hlen by (rewrite Hd, !length_app; lia).
      assert (take 10 data = sel) as Hsel by (by rewrite Hd, take_app_length').
      destruct (str_eqb data (js "0x")) eqn:E0; [apply str_eqb_eq in E0; rewrite E0 in Hlen; by vm_compute in Hlen|].
      rewrite Hlen. cbn [Nat.leb guard_or mbind res_bind].
      change (slice 0 10 data) with (take 10 data). fold known_selectors. rewrite Hsel.
      rewrite (proj2 (mem_str_true _ _)) by done. cbn [Nat.eqb guard_or mbind res_bind].
      eapply decode_words; [done| | |done| |].
      4: by exists c; rewrite Ec.
      3: rewrite <- Hsel; by apply Hcut; lia.
      all: unfold slice; rewrite ?length_take, ?length_drop; lia.
    + destruct (str_eqb data (js "0x")) eqn:E0; [apply str_eqb_eq in E0; rewrite E0 in Hl; change (length (js "0x")) with 2%nat in Hl; lia|].
      rewrite (proj2 (Nat.leb_le 10 (length data))) by done. cbn [guard_or mbind res_bind].
      change (slice 0 10 data) with (take 10 data). fold known_selectors.
      destruct (mem_str (take 10 data) known_selectors) eqn:Em; [by apply mem_str_true in Em|done].
Qed.

(** ** Decimal texts *)

Lemma decimal_of_nonneg z : 0 <= z ->
  DECIMAL_INTEGER_PATTERN (bigint_to_decimal z) = true /\ bigint_of (bigint_to_decimal z) = z.
Proof.
  intros Hz. unfold bigint_to_decimal, string_of_Z. destruct (Z.ltb_spec z 0); [lia|].
  destruct (string_of_nonneg_spec z Hz) as (Hv & Hne & Hd & H0).
  destruct (string_of_nonneg z) as [|c s]; [done|]. inversion Hd as [|? ? Hc Hs]; subst.
  assert (forallb is_digit s = true) as Hs' by (apply forallb_forall; rewrite List.Forall_forall in Hs; auto).
  split.
  - unfold DECIMAL_INTEGER_PATTERN. apply orb_true_iff. destruct (decide (c = 48%N)) as [->|Hc0].
    + left. specialize (H0 eq_refl). by destruct s.
    + right. rewrite Hs', andb_true_r. revert Hc. unfold is_digit, nonzero_digit, in_range.
      rewrite !andb_true_iff, !N.leb_le. lia.
  - unfold bigint_of. destruct (str_eqb _ _) eqn:E; [|done]. exfalso. apply str_eqb_eq in E.
    destruct s as [|d s]; [done|]. injection E as -> ->. by inversion Hs.
Qed.

Lemma hex_val_nonneg s : forallb is_hex_any s = true -> 0 <= hex_val s.
Proof.
  induction s as [|c s IH] using rev_ind; [done|]. rewrite forallb_app, andb_true_iff. cbn [forallb].
  rewrite andb_true_r. intros [Hs Hc]. rewrite hex_val_app. specialize (IH Hs).
  assert (0 <= hex_digit_val c); [|lia]. revert Hc. clear.
  unfold is_hex_any, is_hex, hex_digit_val, is_digit, in_range. rewrite !orb_true_iff, !andb_true_iff, !N.leb_le.
  intros. repeat case_match; rewrite ?andb_true_iff, ?andb_false_iff, ?N.leb_le, ?N.leb_gt in *; lia.
Qed.

Lemma digits_val_nonneg s : forallb is_digit s = true -> 0 <= digits_val s.
Proof.
  induction s as [|c s IH] using rev_ind; [done|]. rewrite forallb_app, andb_true_iff. cbn [forallb].
  rewrite andb_true_r. intros [Hs Hc]. rewrite digits_val_app. specialize (IH Hs).
  revert Hc. unfold is_digit, in_range. rewrite andb_true_iff, !N.leb_le. lia.
Qed.

Lemma decimal_pattern_digits s : DECIMAL_INTEGER_PATTERN s = true -> forallb is_digit s = true.
Proof.
  destruct s as [|c s]; [done|]. unfold DECIMAL_INTEGER_PATTERN. rewrite orb_true_iff, andb_true_iff, str_eqb_eq.
  intros [E|[Hc Hs]]; [by rewrite E|]. cbn. rewrite Hs, andb_true_r. revert Hc.
  unfold nonzero_digit, is_digit, in_range. rewrite !andb_true_iff, !N.leb_le. lia.
Qed.

Lemma bigint_of_decimal s : DECIMAL_INTEGER_PATTERN s = true -> 0 <= bigint_of s.
Proof.
  intros H%decimal_pattern_digits. unfold bigint_of. destruct (str_eqb _ _) eqn:E; [|by apply digits_val_nonneg].
  apply str_eqb_eq in E. destruct s as [|c [|d s]]; try done. by injection E as -> ->.
Qed.

Lemma hex_quantity_digits s : HEX_QUANTITY_PATTERN s = true ->
  exists t, s = js "0x" ++ t /\ forallb is_hex_any t = true /\ bigint_of s = hex_val t.
Proof.
  intros (t & -> & H)%re_prefixed_iff. exists t. split; [done|]. split; [|done].
  destruct t as [|c t]; [done|]. apply orb_true_iff in H as [->%str_eqb_eq|[Hc Ht]%andb_true_iff]; [done|].
  cbn. rewrite Ht, andb_true_r. revert Hc. unfold nonzero_digit, is_hex_any, is_hex, is_digit, in_range.
  rewrite !orb_true_iff, !andb_true_iff, !N.leb_le. lia.
Qed.

Lemma bigint_of_quantity s : HEX_QUANTITY_PATTERN s = true -> 0 <= bigint_of s.
Proof. intros (t & _ & Ht & ->)%hex_quantity_digits. by apply hex_val_nonneg. Qed.

(** The integer a number or a text of typed data stands for. *)
Definition numberish (v : jsv) : option Z :=
  match v with
  | VNum _ => match is_safe_integer v with
              | Some z => if z <? 0 then None else Some z
              | None => None
              end
  | VStr s => if DECIMAL_INTEGER_PATTERN s || HEX_QUANTITY_PATTERN s then Some (bigint_of s) else None
  | _ => None
  end.
(** [s] writes the integer [v] stands for, which fits in [bits] bits. *)
Definition says_uint (bits : Z) (v : jsv) (s : jsstr) : Prop :=
  exists z, numberish v = Some z /\ 0 <= z < 2 ^ bits /\ s = bigint_to_decimal z.
Definition is_uint (bits : Z) (v : jsv) : Prop := exists z, numberish v = Some z /\ z < 2 ^ bits.
Definition says_address (v : jsv) (a : jsstr) : Prop :=
  exists s, v = VStr s /\ ADDRESS_PATTERN s = true /\ a = ascii_lower <$> s.

Lemma numberish_nonneg v z : numberish v = Some z -> 0 <= z.
Proof.
  destruct v; cbn [numberish]; try done.
  - destruct (is_safe_integer _) as [y|]; [|done]. destruct (Z.ltb_spec y 0); [done|congruence].
  - destruct (_ || _) eqn:E; [|done]. intros [= <-].
    apply orb_true_iff in E as [?|?]; [by apply bigint_of_decimal|by apply bigint_of_quantity].
Qed.

Lemma normalizeNumberish_Ok v f bits s : normalizeNumberish v f bits = Ok s <-> says_uint bits v s.
Proof.
  assert (forall z, match v with
     | VNum _ => match is_safe_integer v with
         | Some z => if z <? 0 then Throw (typed_data_fail (js f ++ js " must be a non-negative integer")) else Ok z
         | None => Throw (typed_data_fail (js f ++ js " must be a non-negative integer")) end
     | _ => match str_that (fun s => DECIMAL_INTEGER_PATTERN s || HEX_QUANTITY_PATTERN s) v with
         | Some s => Ok (bigint_of s)
         | None => Throw (typed_data_fail (js f ++ js " must be a canonical integer")) end
     end = Ok z <-> numberish v = Some z) as Hn.
  { intros z. destruct v; cbn [numberish str_that]; try done.
    - destruct (is_safe_integer _) as [y|]; [|done]. destruct (y <? 0); [done|]. split; congruence.
    - destruct (_ || _); [|done]. split; congruence. }
  unfold normalizeNumberish, says_uint. rewrite bind_Ok. split.
  - intros (z & Hz%Hn & H). apply guard_bind_Ok in H as [Hb%Z.ltb_lt [= <-]].
    exists z. split; [done|]. split; [|done]. split; [by eapply numberish_nonneg|done].
  - intros (z & Hz & [_ Hb] & ->). exists z. split; [by apply Hn|]. apply guard_bind_Ok. by rewrite Z.ltb_lt.
Qed.

Lemma normalizeEvmAddress_says v f a : normalizeEvmAddress v f = Ok a <-> says_address v a.
Proof.
  rewrite normalizeEvmAddress_Ok. unfold says_address. split.
  - intros (t & -> & Hl & Ht & ->). exists (js "0x" ++ t). split; [done|]. split; [|by rewrite fmap_app].
    apply re_prefixed_iff. exists t. split; [done|]. unfold re_class. by rewrite Hl, Ht.
  - intros (s & -> & (t & -> & Ht)%re_prefixed_iff & ->). exists t. unfold re_class in Ht.
    rewrite !andb_true_iff, !Nat.leb_le in Ht. rewrite fmap_app. split; [done|]. split; [lia|]. by destruct Ht as [_ ?].
Qed.

Lemma says_address_canonical v a : says_address v a -> canonical_address a = true.
Proof. intros H. apply (normalizeEvmAddress_says v "") in H. by eapply normalizeEvmAddress_canonical. Qed.

(** ** Typed data *)

(** A text of a chain id. *)
Definition is_chain_id (s : jsstr) : Prop := exists z, 0 <= z /\ s = js "0x" ++ bigint_to_hex z.
(** The chain and the contract that the domain of typed data names. *)
Definition names_chain (typed : jsv) (chain : option jsstr) : Prop :=
  let domain := get (js "domain") typed in
  match chain with
  | Some c => js "chainId" ∈ keys_of domain /\
      exists z, numberish (get (js "chainId") domain) = Some z /\ 0 <= z < 2 ^ 256 /\
        c = js "0x" ++ bigint_to_hex z
  | None => js "chainId" ∉ keys_of domain
  end.
Definition names_contract (typed : jsv) (contract : option jsstr) : Prop :=
  let domain := get (js "domain") typed in
  match contract with
  | Some a => js "verifyingContract" ∈ keys_of domain /\ says_address (get (js "verifyingContract") domain) a
  | None => js "verifyingContract" ∉ keys_of domain
  end.

(** What typed data says: an EIP-2612 permit, a Permit2 permit, or something
    of which only the hash and the domain are known. *)
Inductive typed_reads (typed : jsv) (hash : jsstr) : decoded_typed -> Prop :=
  | reads_permit spender owner amount chain contract :
      let message := get (js "message") typed in
      get (js "primaryType") typed = VStr (js "Permit") -> isExactEip2612Permit typed = true ->
      names_chain typed (Some chain) -> names_contract typed (Some contract) ->
      says_address (get (js "spender") message) spender -> says_address (get (js "owner") message) owner ->
      says_uint 256 (get (js "value") message) amount ->
      is_uint 256 (get (js "nonce") message) -> is_uint 256 (get (js "deadline") message) ->
      typed_reads typed hash
        {| dt_class := PermitEip2612; dt_target := Some contract; dt_spender := Some spender;
           dt_allowance := Some amount; dt_owner := Some owner; dt_sha256 := hash;
           dt_chain_id := Some chain; dt_contract := Some contract; dt_simulation := true |}
  | reads_permit2 token spender amount chain contract :
      let message := get (js "message") typed in
      get (js "primaryType") typed = VStr (js "PermitSingle") -> isExactPermit2Single typed = true ->
      names_chain typed (Some chain) -> names_contract typed (Some contract) ->
      says_address (get (js "token") (get (js "details") message)) token ->
      says_address (get (js "spender") message) spender ->
      says_uint 160 (get (js "amount") (get (js "details") message)) amount ->
      is_uint 48 (get (js "expiration") (get (js "details") message)) ->
      is_uint 48 (get (js "nonce") (get (js "details") message)) -> is_uint 256 (get (js "sigDeadline") message) ->
      typed_reads typed hash
        {| dt_class := Permit2Single; dt_target := Some token; dt_spender := Some spender;
           dt_allowance := Some amount; dt_owner := None; dt_sha256 := hash;
           dt_chain_id := Some chain; dt_contract := Some contract; dt_simulation := true |}
  | reads_opaque primary chain contract :
      get (js "primaryType") typed = VStr primary ->
      (primary = js "Permit" -> isExactEip2612Permit typed = false) ->
      (primary = js "PermitSingle" -> isExactPermit2Single typed = false) ->
      names_chain typed chain -> names_contract typed contract -> primary <> [] ->
      typed_reads typed hash
        {| dt_class := if str_eqb primary (js "PermitBatch") then Permit2BatchUnknown else UnknownTypedData;
           dt_target := None; dt_spender := None; dt_allowance := None; dt_owner := None;
           dt_sha256 := hash; dt_chain_id := chain; dt_contract := contract; dt_simulation := true |}.

Lemma normalizeOptionalDomainChainId_Ok typed c :
  normalizeOptionalDomainChainId (get (js "domain") typed) = Ok c <-> names_chain typed c.
Proof.
  unfold normalizeOptionalDomainChainId, names_chain.
  destruct (mem_str (js "chainId") (keys_of (get (js "domain") typed))) eqn:E.
  - apply mem_str_true in E. destruct c as [c|].
    + rewrite bind_Ok. setoid_rewrite normalizeNumberish_Ok. unfold says_uint. split.
      * intros (s & (z & Hz & Hb & ->) & [= <-]). split; [done|]. exists z. split; [done|]. split; [done|].
        by rewrite (proj2 (decimal_of_nonneg z (proj1 Hb))).
      * intros (_ & z & Hz & Hb & ->). exists (bigint_to_decimal z). split; [by exists z|].
        by rewrite (proj2 (decimal_of_nonneg z (proj1 Hb))).
    + split; [|done]. by intros (? & _ & [=])%bind_Ok.
  - assert (js "chainId" ∉ keys_of (get (js "domain") typed)) by (rewrite <- mem_str_true; congruence).
    destruct c; split; try done. by intros [? _].
Qed.

Lemma domain_contract_Ok typed c :
  (if mem_str (js "verifyingContract") (keys_of (get (js "domain") typed))
   then Some <$> normalizeEvmAddress (get (js "verifyingContract") (get (js "domain") typed))
                   "typed data verifyingContract"
   else Ok None) = Ok c <-> names_contract typed c.
Proof.
  unfold names_contract. destruct (mem_str (js "verifyingContract") _) eqn:E.
  - apply mem_str_true in E. destruct c as [c|].
    + rewrite fmap_Ok. setoid_rewrite normalizeEvmAddress_says. naive_solver.
    + split; [|done]. by intros (? & _ & [=])%fmap_Ok.
  - assert (js "verifyingContract" ∉ keys_of (get (js "domain") typed)) by (rewrite <- mem_str_true; congruence).
    destruct c; split; try done. by intros [? _].
Qed.

Lemma names_chain_inj typed c c' : names_chain typed c -> names_chain typed c' -> c = c'.
Proof. rewrite <- !normalizeOptionalDomainChainId_Ok. congruence. Qed.
Lemma names_contract_inj typed c c' : names_contract typed c -> names_contract typed c' -> c = c'.
Proof. rewrite <- !domain_contract_Ok. congruence. Qed.

Lemma normalizeNumberish_some v f bits : (exists s, normalizeNumberish v f bits = Ok s) <-> is_uint bits v.
Proof.
  setoid_rewrite normalizeNumberish_Ok. unfold says_uint, is_uint. split; [intros (? & z & ? & [_ ?] & _); eauto|].
  intros (z & Hz & Hb). eexists _, z. split; [done|]. split; [|done]. split; [by eapply numberish_nonneg|done].
Qed.

(** Typed data is a record with a domain and a message. *)
Definition typed_record (typed : jsv) : Prop :=
  is_record typed = true /\ is_record (get (js "domain") typed) = true /\ is_record (get (js "message") typed) = true.

(** What the decoder of typed data returns is what the data says. *)
Lemma decode_permit_Ok typed hash chain contract d :
  get (js "primaryType") typed = VStr (js "Permit") -> isExactEip2612Permit typed = true ->
  names_chain typed chain -> names_contract typed contract ->
  decode_permit (get (js "message") typed) hash chain contract = Ok d <-> typed_reads typed hash d.
Proof.
  intros Hp Hx Hchain Hcontract. unfold decode_permit. split.
  - intros [Hg H]%guard_bind_Ok. rewrite andb_true_iff, !bool_decide_eq_true in Hg. destruct Hg as [[ch ->] [co ->]].
    do 2 apply bind_Ok in H as (? & ?Hn & H).
    apply bind_Ok in H as (sp & Hsp%normalizeEvmAddress_says & H).
    apply bind_Ok in H as (am & Ham%normalizeNumberish_Ok & H).
    apply bind_Ok in H as (ow & How%normalizeEvmAddress_says & [= <-]).
    apply reads_permit; try done; eapply normalizeNumberish_some; eauto.
  - intros [sp ow am ch co m _ _ Hch Hco Hsp How Ham Hn1 Hn2|? ? ? ? ? m Hp'|primary ? ? Hp' Hno];
      [|by rewrite Hp in Hp'|rewrite Hp in Hp'; injection Hp' as <-; rewrite Hno in Hx by done; done].
    assert (chain = Some ch /\ contract = Some co) as [-> ->]
      by (split; [by eapply names_chain_inj|by eapply names_contract_inj]).
    apply guard_bind_Ok. split; [done|].
    apply (normalizeNumberish_some _ "Permit nonce") in Hn1 as [x Hn1].
    apply (normalizeNumberish_some _ "Permit deadline") in Hn2 as [y Hn2].
    apply bind_Ok. exists x. split; [done|]. apply bind_Ok. exists y. split; [done|].
    apply bind_Ok. exists sp. split; [by apply normalizeEvmAddress_says|].
    apply bind_Ok. exists am. split; [by apply normalizeNumberish_Ok|].
    apply bind_Ok. exists ow. split; [by apply normalizeEvmAddress_says|done].
Qed.

Lemma decode_permit2_Ok typed hash chain contract d :
  get (js "primaryType") typed = VStr (js "PermitSingle") -> isExactPermit2Single typed = true ->
  names_chain typed chain -> names_contract typed contract ->
  decode_permit2 (get (js "message") typed) hash chain contract = Ok d <-> typed_reads typed hash d.
Proof.
  intros Hp Hx Hchain Hcontract. unfold decode_permit2. cbv zeta. split.
  - intros [Hg H]%guard_bind_Ok. rewrite andb_true_iff, !bool_decide_eq_true in Hg. destruct Hg as [[ch ->] [co ->]].
    do 3 apply bind_Ok in H as (? & ?Hn & H).
    apply bind_Ok in H as (tk & Htk%normalizeEvmAddress_says & H).
    apply bind_Ok in H as (sp & Hsp%normalizeEvmAddress_says & H).
    apply bind_Ok in H as (am & Ham%normalizeNumberish_Ok & [= <-]).
    apply reads_permit2; try done; eapply normalizeNumberish_some; eauto.
  - intros [? ? ? ? ? m Hp'|tk sp am ch co m _ _ Hch Hco Htk Hsp Ham Hn1 Hn2 Hn3|primary ? ? Hp' _ Hno];
      [by rewrite Hp in Hp'| |rewrite Hp in Hp'; injection Hp' as <-; rewrite Hno in Hx by done; done].
    assert (chain = Some ch /\ contract = Some co) as [-> ->]
      by (split; [by eapply names_chain_inj|by eapply names_contract_inj]).
    apply guard_bind_Ok. split; [done|].
    apply (normalizeNumberish_some _ "Permit2 expiration") in Hn1 as [x Hn1].
    apply (normalizeNumberish_some _ "Permit2 nonce") in Hn2 as [y Hn2].
    apply (normalizeNumberish_some _ "Permit2 sigDeadline") in Hn3 as [z Hn3].
    apply bind_Ok. exists x. split; [done|]. apply bind_Ok. exists y. split; [done|].
    apply bind_Ok. exists z. split; [done|].
    apply bind_Ok. exists tk. split; [by apply normalizeEvmAddress_says|].
    apply bind_Ok. exists sp. split; [by apply normalizeEvmAddress_says|].
    apply bind_Ok. exists am. split; [by apply normalizeNumberish_Ok|done].
Qed.

(** Data of which only the hash and the domain are told. *)
Lemma opaque_Ok typed hash primary chain contract d :
  get (js "primaryType") typed = VStr primary -> primary <> [] ->
  (primary = js "Permit" -> isExactEip2612Permit typed = false) ->
  (primary = js "PermitSingle" -> isExactPermit2Single typed = false) ->
  names_chain typed chain -> names_contract typed contract ->
  unknownTypedDataResult primary hash chain contract = d <-> typed_reads typed hash d.
Proof.
  intros Hp Hne H1 H2 Hchain Hcontract. split; [intros <-; by apply reads_opaque|].
  intros [? ? ? ? ? m Hp' Hx|? ? ? ? ? m Hp' Hx|primary' ch co Hp' _ _ Hch Hco _];
    rewrite Hp in Hp'; injection Hp' as ->; [by rewrite H1 in Hx by done|by rewrite H2 in Hx by done|].
  by rewrite (names_chain_inj _ _ _ Hchain Hch), (names_contract_inj _ _ _ Hcontract Hco).
Qed.

Lemma decodeTypedData_iff v d :
  decodeTypedData v = Ok d <->
  exists typed text, parseTypedData v = Ok typed /\ typed_record typed /\ canonicalizePayload typed = Ok text /\
    typed_reads typed (sha256Hex text) d.
Proof.
  assert (forall typed hash primary chain contract,
    get (js "primaryType") typed = VStr primary -> primary <> [] ->
    names_chain typed chain -> names_contract typed contract ->
    (if str_eqb primary (js "Permit")
     then if isExactEip2612Permit typed then decode_permit (get (js "message") typed) hash chain contract
          else Ok (unknownTypedDataResult primary hash chain contract)
     else if str_eqb primary (js "PermitSingle")
     then if isExactPermit2Single typed then decode_permit2 (get (js "message") typed) hash chain contract
          else Ok (unknownTypedDataResult primary hash chain contract)
     else Ok (unknownTypedDataResult primary hash chain contract)) = Ok d <-> typed_reads typed hash d) as Hbranches.
  { intros typed hash primary chain contract Hp Hne Hchain Hcontract.
    assert (forall r, Ok r = Ok d <-> r = d) as Hr by (intros r; split; congruence).
    destruct (str_eqb primary (js "Permit")) eqn:E1; [|destruct (str_eqb primary (js "PermitSingle")) eqn:E2].
    - apply str_eqb_eq in E1 as ->. destruct (isExactEip2612Permit typed) eqn:E; [by apply decode_permit_Ok|].
      rewrite Hr. by apply opaque_Ok.
    - apply str_eqb_eq in E2 as ->. destruct (isExactPermit2Single typed) eqn:E; [by apply decode_permit2_Ok|].
      rewrite Hr. by apply opaque_Ok.
    - rewrite Hr. apply opaque_Ok; try done; intros ->; by rewrite str_eqb_refl in *. }
  unfold decodeTypedData. split.
  - intros (typed & Hp & H)%bind_Ok. apply guard_bind_Ok in H as [Hr H].
    apply bind_Ok in H as (primary & Hprimary & H). cbv zeta in H.
    apply guard_bind_Ok in H as [[Hd Hm]%andb_true_iff H].
    apply bind_Ok in H as (text & Htext & H).
    apply bind_Ok in H as (chain & Hchain%normalizeOptionalDomainChainId_Ok & H).
    apply bind_Ok in H as (contract & Hcontract%domain_contract_Ok & H).
    exists typed, text. do 3 (split; [done|]).
    assert (get (js "primaryType") typed = VStr primary /\ primary <> []) as [Fp Hne].
    { destruct (get (js "primaryType") typed); try done. cbn [str_that] in Hprimary.
      destruct (1 <=? length s)%nat eqn:El; [|done]. injection Hprimary as ->. by destruct primary. }
    by apply (Hbranches typed _ primary chain contract).
  - intros (typed & text & Hp & (Hr & Hd & Hm) & Htext & H).
    assert (exists primary chain contract, get (js "primaryType") typed = VStr primary /\ primary <> [] /\
      names_chain typed chain /\ names_contract typed contract) as (primary & chain & contract & Fp & Hne & Hch & Hco).
    { destruct H; by eexists _, _, _. }
    apply bind_Ok. exists typed. split; [done|]. apply guard_bind_Ok. split; [done|].
    apply bind_Ok. exists primary. split.
    { rewrite Fp. cbn [str_that]. by destruct primary. }
    cbv zeta. apply guard_bind_Ok. split; [by rewrite Hd, Hm|].
    apply bind_Ok. exists text. split; [done|].
    apply bind_Ok. exists chain. split; [by apply normalizeOptionalDomainChainId_Ok|].
    apply bind_Ok. exists contract. split; [by apply domain_contract_Ok|]. by apply Hbranches.
Qed.

Lemma normalizeChainId_Ok v c : normalizeChainId v = Ok c -> is_chain_id c.
Proof.
  unfold normalizeChainId. destruct v; try done. cbn [str_that].
  destruct (HEX_QUANTITY_PATTERN s) eqn:E; [|done]. intros [= <-]. eexists. split; [|done].
  by apply bigint_of_quantity.
Qed.

Lemma normalizeChainId_fixed c : is_chain_id c -> normalizeChainId (VStr c) = Ok c.
Proof.
  intros (z & Hz & ->). destruct (chain_id_quantity z Hz) as [Hp Hv].
  unfold normalizeChainId. cbn [str_that]. by rewrite Hp, Hv.
Qed.

End abi.


(** ** Concrete calls and permits *)

Section decoder_witnesses.
#[local] Existing Instances plain_string_host checksum_hash_host iso_date_host.

Definition sample_address (digit : N) : jsstr := js "0x" ++ replicate 40 digit.

Definition string_fields (l : list (string * jsv)) : jsv := VObj PObject ((fun '(k, v) => (js k, v)) <$> l).
Definition type_value (fields : list (jsstr * jsstr)) : jsv :=
  VArr ((fun '(name, type) =>
    VObj PObject [(js "name", VStr name); (js "type", VStr type)]) <$> fields).

(** An EIP-2612 permit for 1000 units on chain 1. *)
Definition sample_permit : jsv := string_fields
  [("types"%string, string_fields [("EIP712Domain"%string, type_value EIP2612_DOMAIN_FIELDS);
                            ("Permit"%string, type_value EIP2612_PERMIT_FIELDS)]);
   ("primaryType"%string, VStr (js "Permit"));
   ("domain"%string, string_fields [("name"%string, VStr (js "Token")); ("version"%string, VStr (js "1"));
      ("chainId"%string, VNum (NInt 1)); ("verifyingContract"%string, VStr (sample_address 65))]);
   ("message"%string, string_fields [("owner"%string, VStr (sample_address 50));
      ("spender"%string, VStr (sample_address 51)); ("value"%string, VStr (js "1000"));
      ("nonce"%string, VNum (NInt 0)); ("deadline"%string, VStr (js "0xffffffff"))])].
Definition sample_permit_decoded : decoded_typed :=
  Eval vm_compute in
    match decodeTypedData sample_permit with
    | Ok d => d
    | Throw _ => unknownTypedDataResult [] [] None None
    end.

End decoder_witnesses.
