(* ===== verification/WalletIntent.v ===== *)
(** * The intents of the Wallet Guard

    Models [applications/blockchain-digital-assets/wallet-guard/intent.mjs]: a
    request of a page is normalised, with the origin, chain and account the
    wallet vouches for, to an intent, which is validated and committed to.
    Arguments are inert values; an intent that passes is kept as the record of
    its fields. *)
From S2P Require Import Prelude JsDate JsValue ProofSdk Json Canonical Normal EvmDecoders.

#[local] Arguments js : simpl never.

(** What the source reads off [new URL(value)]; [None] when that throws. *)
Record url_parts := { url_protocol : jsstr; url_origin : jsstr; url_username : jsstr; url_password : jsstr }.
(** Origins are serialised in ASCII. *)
Class UrlHost := {
  url_parse : jsstr -> option url_parts;
  url_origin_ascii s u : url_parse s = Some u -> forallb is_ascii (url_origin u) = true;
}.

Definition WALLET_GUARD_INTENT_SCHEMA_VERSION : jsstr := js "wallet_guard_intent/0.1".
Definition WALLET_GUARD_INTENT_COMMIT_DOMAIN : jsstr := js "swisstokint:pom-rx-wallet-guard-intent:v1:".
(** [/^[A-Za-z0-9][A-Za-z0-9._-]{7,127}$/] and [/^[A-Za-z0-9_]{1,64}$/] *)
Definition REQUEST_ID_PATTERN : jsstr -> bool :=
  re_head_class is_alnum (fun c => is_alnum c || is_one_of "._-" c) 7 127.
Definition RPC_METHOD_PATTERN : jsstr -> bool := re_class (fun c => is_alnum c || is_one_of "_" c) 1 64.
Definition REQUEST_KEYS : list jsstr := js <$> ["method"; "params"].
Definition NORMALIZE_KEYS : list jsstr := js <$>
  ["requestId"; "trustedOrigin"; "trustedChainId"; "trustedAccount"; "request"].
Definition SEND_TX_KEYS : list jsstr := js <$> ["from"; "to"; "value"; "data"].
Definition WALLET_GUARD_INTENT_KEYS : list jsstr := js <$>
  ["schema_version"; "request_id"; "origin"; "chain_id"; "account"; "rpc_method"; "request_class";
   "target"; "spender"; "recipient"; "native_value"; "calldata_sha256"; "typed_data_sha256";
   "requested_allowance"; "token_amount"; "requested_operator_approval"; "typed_data_owner";
   "typed_data_domain_chain_id"; "typed_data_verifying_contract"; "simulation_required"].

Definition intent_fail (code : string) (msg : jsstr) : jserr := Err IntentErr (js code) msg.
Definition request_invalid (msg : jsstr) : jserr := intent_fail "POMRX_WG_E_REQUEST_INVALID" msg.

(** What a request asks for: the fields of an intent that come from its params. *)
Record action := {
  ac_class : jsstr;
  ac_target : option jsstr;
  ac_spender : option jsstr;
  ac_recipient : option jsstr;
  ac_native_value : jsstr;
  ac_calldata_sha256 : option jsstr;
  ac_typed_data_sha256 : option jsstr;
  ac_allowance : option jsstr;
  ac_amount : option jsstr;
  ac_approval : option bool;
  ac_owner : option jsstr;
  ac_domain_chain_id : option jsstr;
  ac_contract : option jsstr;
  ac_simulation : bool;
}.
Record intent := {
  wi_request_id : jsstr;
  wi_origin : jsstr;
  wi_chain_id : jsstr;
  wi_account : jsstr;
  wi_rpc_method : jsstr;
  wi_action : action;
}.

Definition or_null (o : option jsstr) : jsv := match o with Some s => VStr s | None => VNull end.
Definition or_null_bool (o : option bool) : jsv := match o with Some b => VBool b | None => VNull end.

(** The object [freezeIntent] makes. *)
Definition intent_value (i : intent) : jsv :=
  let a := wi_action i in
  VObj PObject
    [(js "schema_version", VStr WALLET_GUARD_INTENT_SCHEMA_VERSION);
     (js "request_id", VStr (wi_request_id i)); (js "origin", VStr (wi_origin i));
     (js "chain_id", VStr (wi_chain_id i)); (js "account", VStr (wi_account i));
     (js "rpc_method", VStr (wi_rpc_method i)); (js "request_class", VStr (ac_class a));
     (js "target", or_null (ac_target a)); (js "spender", or_null (ac_spender a));
     (js "recipient", or_null (ac_recipient a)); (js "native_value", VStr (ac_native_value a));
     (js "calldata_sha256", or_null (ac_calldata_sha256 a));
     (js "typed_data_sha256", or_null (ac_typed_data_sha256 a));
     (js "requested_allowance", or_null (ac_allowance a)); (js "token_amount", or_null (ac_amount a));
     (js "requested_operator_approval", or_null_bool (ac_approval a));
     (js "typed_data_owner", or_null (ac_owner a));
     (js "typed_data_domain_chain_id", or_null (ac_domain_chain_id a));
     (js "typed_data_verifying_contract", or_null (ac_contract a));
     (js "simulation_required", VBool (ac_simulation a))].

(** An intent as the other modules get it, and whether it is one of the objects
    [normalizeWalletGuardIntent] has returned. *)
Record intent_ref := { ir_value : jsv; ir_normalized : bool }.

Definition is_class (a : action) (c : request_class) : bool := str_eqb (ac_class a) (class_name c).

Section intents.
Context `{SH : !StringHost, HH : !HashHost, DH : !DateHost, UH : !UrlHost}.

Definition assertExactKeys (value : jsv) (expected : list jsstr) (label : string) : res unit :=
  _ ← guard_or (is_record value) (request_invalid (js label ++ js " must be an object"));
  guard_or (same_keys (keys_of value) expected)
    (request_invalid (js label ++ js " has missing or unknown fields")).

(** [value] is the origin of the URL it parses to, over HTTP(S), without user. *)
Definition canonical_origin (value : jsstr) (u : url_parts) : bool :=
  (str_eqb (url_protocol u) (js "https:") || str_eqb (url_protocol u) (js "http:"))
  && str_eqb (url_origin u) value && str_eqb (url_username u) [] && str_eqb (url_password u) [].

Definition normalizeTrustedOrigin (value : jsv) : res jsstr :=
  let invalid msg := intent_fail "POMRX_WG_E_ORIGIN_INVALID" (js msg) in
  s ← match str_that (fun s => (8 <=? length s)%nat && (length s <=? 512)%nat) value with
      | Some s => Ok s
      | None => Throw (invalid "trusted origin is invalid")
      end;
  u ← match url_parse s with
      | Some u => Ok u
      | None => Throw (invalid "trusted origin must be an absolute URL origin")
      end;
  _ ← guard_or (canonical_origin s u) (invalid "trusted origin must be a canonical HTTP(S) origin");
  Ok (url_origin u).

(** [normalizeRequest(request)]: its method and params *)
Definition normalizeRequest (request : jsv) : res (jsstr * list jsv) :=
  _ ← assertExactKeys request REQUEST_KEYS "EIP-1193 request";
  method ← match str_that RPC_METHOD_PATTERN (get (js "method") request) with
           | Some s => Ok s
           | None => Throw (request_invalid (js "RPC method is invalid"))
           end;
  match get (js "params") request with
  | VArr params => Ok (method, params)
  | _ => Throw (request_invalid (js "RPC params must be an array"))
  end.

Definition normalizeSendTransaction (params : list jsv) (trustedAccount : jsstr) : res action :=
  tx ← match params with
       | [tx] => Ok tx
       | _ => Throw (request_invalid (js "eth_sendTransaction requires exactly one transaction object"))
       end;
  _ ← guard_or (is_record tx) (request_invalid (js "transaction must be an object"));
  _ ← for_each (fun key => guard_or (mem_str key SEND_TX_KEYS)
        (request_invalid (js "unsupported transaction field: " ++ key))) (keys_of tx);
  _ ← guard_or (mem_str (js "from") (keys_of tx) && mem_str (js "to") (keys_of tx))
        (request_invalid (js "transaction from and to are required"));
  requestedFrom ← normalizeEvmAddress (get (js "from") tx) "transaction from";
  _ ← guard_or (str_eqb requestedFrom trustedAccount)
        (intent_fail "POMRX_WG_E_ACCOUNT_MISMATCH"
           (js "transaction from does not match trusted active account"));
  target ← normalizeEvmAddress (get (js "to") tx) "transaction to";
  nativeValue ← normalizeQuantity (nullish (get (js "value") tx) (VStr (js "0x0"))) "transaction value";
  data ← normalizeHexData (nullish (get (js "data") tx) (VStr (js "0x"))) "transaction data";
  decoded ← decodeTransactionCalldata (VStr data);
  Ok {| ac_class := class_name (dc_class decoded); ac_target := Some target;
        ac_spender := dc_spender decoded;
        ac_recipient := if bool_decide (dc_class decoded = NativeTransfer) then Some target
                        else dc_recipient decoded;
        ac_native_value := nativeValue; ac_calldata_sha256 := Some (dc_sha256 decoded);
        ac_typed_data_sha256 := None; ac_allowance := dc_allowance decoded;
        ac_amount := dc_amount decoded; ac_approval := dc_approval decoded; ac_owner := None;
        ac_domain_chain_id := None; ac_contract := None; ac_simulation := dc_simulation decoded |}.

Definition normalizeTypedDataRequest (params : list jsv) (trustedAccount : jsstr) : res action :=
  '(account, typedData) ← match params with
       | [account; typedData] => Ok (account, typedData)
       | _ => Throw (request_invalid (js "eth_signTypedData_v4 requires account and typed data"))
       end;
  requestedAccount ← normalizeEvmAddress account "typed data account";
  _ ← guard_or (str_eqb requestedAccount trustedAccount)
        (intent_fail "POMRX_WG_E_ACCOUNT_MISMATCH"
           (js "typed data account does not match trusted active account"));
  decoded ← decodeTypedData typedData;
  _ ← guard_or (negb (bool_decide (dt_class decoded = PermitEip2612)
                      && negb (bool_decide (dt_owner decoded = Some trustedAccount))))
        (intent_fail "POMRX_WG_E_ACCOUNT_MISMATCH"
           (js "Permit owner does not match trusted active account"));
  Ok {| ac_class := class_name (dt_class decoded); ac_target := dt_target decoded;
        ac_spender := dt_spender decoded; ac_recipient := None; ac_native_value := js "0";
        ac_calldata_sha256 := None; ac_typed_data_sha256 := Some (dt_sha256 decoded);
        ac_allowance := dt_allowance decoded; ac_amount := None; ac_approval := None;
        ac_owner := dt_owner decoded; ac_domain_chain_id := dt_chain_id decoded;
        ac_contract := dt_contract decoded; ac_simulation := dt_simulation decoded |}.

(** An intent for a request whose effect is not decoded. *)
Definition opaque_action (cls : request_class) (calldata typedData : option jsstr) : action :=
  {| ac_class := class_name cls; ac_target := None; ac_spender := None; ac_recipient := None;
     ac_native_value := js "0"; ac_calldata_sha256 := calldata; ac_typed_data_sha256 := typedData;
     ac_allowance := None; ac_amount := None; ac_approval := None; ac_owner := None;
     ac_domain_chain_id := None; ac_contract := None; ac_simulation := true |}.

Definition normalizeGenericSignature (method : jsstr) (params : list jsv) : res action :=
  _ ← guard_or ((1 <=? length params)%nat && (length params <=? 2)%nat)
        (request_invalid (method ++ js " has an unsupported parameter shape"));
  canonicalParams ← catch (canonicalizePayload (VObj PObject [(js "params", VArr params)]))
    (fun _ => Throw (request_invalid (js "generic signature payload is outside bounded canonical form")));
  Ok (opaque_action GenericSignature None (Some (sha256Hex canonicalParams))).

Definition normalizeUnsupportedRpc (method : jsstr) (params : list jsv) : res action :=
  canonicalRequest ← catch (canonicalizePayload
      (VObj PObject [(js "method", VStr method); (js "params", VArr params)]))
    (fun _ => Throw (request_invalid (js "unsupported RPC payload is outside bounded canonical form")));
  Ok (opaque_action UnsupportedRpc (Some (sha256Hex canonicalRequest)) None).

(** ** Validation *)

Definition assertNullableAddress (value : jsv) (field : string) : res (option jsstr) :=
  match value with
  | VNull => Ok None
  | _ =>
      s ← normalizeEvmAddress value field;
      _ ← guard_or (is_str value s) (request_invalid (js field ++ js " is not canonical"));
      Ok (Some s)
  end.
Definition nullable_that (test : jsstr -> bool) (value : jsv) (msg : jsstr) : res (option jsstr) :=
  match value with
  | VNull => Ok None
  | _ => match str_that test value with Some s => Ok (Some s) | None => Throw (request_invalid msg) end
  end.
Definition assertNullableHash (value : jsv) (field : string) : res (option jsstr) :=
  nullable_that hash_pattern value (js field ++ js " must be null or lowercase SHA-256").
Definition assertNullableDecimal (value : jsv) (field : string) : res (option jsstr) :=
  nullable_that DECIMAL_INTEGER_PATTERN value (js field ++ js " must be null or canonical decimal").

(** [validateWalletGuardIntent(intent)]: the fields of the intent *)
Definition validateWalletGuardIntent (v : jsv) : res intent :=
  let field k := get (js k) v in
  let canonical s k msg := guard_or (is_str (field k) s) (request_invalid (js msg)) in
  _ ← assertExactKeys v WALLET_GUARD_INTENT_KEYS "Wallet Guard intent";
  _ ← guard_or (is_str (field "schema_version") WALLET_GUARD_INTENT_SCHEMA_VERSION)
        (request_invalid (js "unsupported Wallet Guard intent version"));
  request_id ← match str_that REQUEST_ID_PATTERN (field "request_id") with
               | Some s => Ok s
               | None => Throw (request_invalid (js "intent request_id is invalid"))
               end;
  origin ← normalizeTrustedOrigin (field "origin");
  _ ← canonical origin "origin" "intent origin is not canonical";
  chain_id ← normalizeChainId (field "chain_id");
  _ ← canonical chain_id "chain_id" "intent chain_id is not canonical";
  account ← normalizeEvmAddress (field "account") "intent account";
  _ ← canonical account "account" "intent account is not canonical";
  let identity := request_invalid (js "intent RPC identity is invalid") in
  rpc_method ← match str_that RPC_METHOD_PATTERN (field "rpc_method") with
               | Some s => Ok s | None => Throw identity end;
  cls ← match str_that (fun s => (1 <=? length s)%nat) (field "request_class") with
        | Some s => Ok s | None => Throw identity end;
  target ← assertNullableAddress (field "target") "target";
  spender ← assertNullableAddress (field "spender") "spender";
  recipient ← assertNullableAddress (field "recipient") "recipient";
  owner ← assertNullableAddress (field "typed_data_owner") "typed_data_owner";
  contract ← assertNullableAddress (field "typed_data_verifying_contract") "typed_data_verifying_contract";
  calldata_sha256 ← assertNullableHash (field "calldata_sha256") "calldata_sha256";
  typed_data_sha256 ← assertNullableHash (field "typed_data_sha256") "typed_data_sha256";
  native_value ← assertNullableDecimal (field "native_value") "native_value";
  allowance ← assertNullableDecimal (field "requested_allowance") "requested_allowance";
  amount ← assertNullableDecimal (field "token_amount") "token_amount";
  native_value ← match native_value with
                 | Some s => Ok s
                 | None => Throw (request_invalid (js "native_value must always be canonical decimal"))
                 end;
  approval ← match field "requested_operator_approval" with
             | VNull => Ok None
             | VBool b => Ok (Some b)
             | _ => Throw (request_invalid (js "requested_operator_approval must be null or boolean"))
             end;
  domain_chain_id ← match field "typed_data_domain_chain_id" with
                    | VNull => Ok None
                    | _ =>
                        s ← normalizeChainId (field "typed_data_domain_chain_id");
                        _ ← guard_or (is_str (field "typed_data_domain_chain_id") s)
                              (request_invalid (js "typed_data_domain_chain_id is not canonical"));
                        Ok (Some s)
                    end;
  simulation ← match field "simulation_required" with
               | VBool b => Ok b
               | _ => Throw (request_invalid (js "simulation_required must be boolean"))
               end;
  _ ← guard_or (negb (str_eqb cls (js "permit_eip2612") && negb (bool_decide (owner = Some account))))
        (intent_fail "POMRX_WG_E_ACCOUNT_MISMATCH" (js "Permit owner must equal intent account"));
  Ok {| wi_request_id := request_id; wi_origin := origin; wi_chain_id := chain_id; wi_account := account;
        wi_rpc_method := rpc_method;
        wi_action := {| ac_class := cls; ac_target := target; ac_spender := spender;
          ac_recipient := recipient; ac_native_value := native_value;
          ac_calldata_sha256 := calldata_sha256; ac_typed_data_sha256 := typed_data_sha256;
          ac_allowance := allowance; ac_amount := amount; ac_approval := approval; ac_owner := owner;
          ac_domain_chain_id := domain_chain_id; ac_contract := contract; ac_simulation := simulation |} |}.

(** ** Normalisation *)

Definition normalize_action (method : jsstr) (params : list jsv) (account : jsstr) : res action :=
  catch
    (if str_eqb method (js "eth_sendTransaction") then normalizeSendTransaction params account
     else if str_eqb method (js "eth_signTypedData_v4") then normalizeTypedDataRequest params account
     else if str_eqb method (js "personal_sign") || str_eqb method (js "eth_sign")
     then normalizeGenericSignature method params
     else normalizeUnsupportedRpc method params)
    (fun error =>
       if bool_decide (err_cls error = DecoderErr)
       then Throw (Err IntentErr (err_code error) (err_msg error)) else Throw error).

(** [normalizeWalletGuardIntent(input)]; the caller brands the intent. *)
Definition normalizeWalletGuardIntent (input : jsv) : res intent :=
  _ ← assertExactKeys input NORMALIZE_KEYS "Wallet Guard normalization input";
  requestId ← match str_that REQUEST_ID_PATTERN (get (js "requestId") input) with
              | Some s => Ok s
              | None => Throw (request_invalid (js "requestId has an invalid format"))
              end;
  origin ← normalizeTrustedOrigin (get (js "trustedOrigin") input);
  chainId ← normalizeChainId (get (js "trustedChainId") input);
  account ← normalizeEvmAddress (get (js "trustedAccount") input) "trusted active account";
  '(method, params) ← normalizeRequest (get (js "request") input);
  a ← normalize_action method params account;
  let i := {| wi_request_id := requestId; wi_origin := origin; wi_chain_id := chainId;
              wi_account := account; wi_rpc_method := method; wi_action := a |} in
  _ ← validateWalletGuardIntent (intent_value i);
  Ok i.

(** ** The commitment *)

Definition canonicalNullableString (o : option jsstr) : jsstr :=
  match o with Some s => json_string s | None => js "null" end.
Definition canonicalBoolean (b : bool) : jsstr := if b then js "true" else js "false".
Definition canonicalNullableBoolean (o : option bool) : jsstr :=
  match o with Some b => canonicalBoolean b | None => js "null" end.

Definition canonicalizeValidatedIntent (i : intent) : jsstr :=
  let a := wi_action i in
  js "{" ++ json_string (js "account") ++ js ":" ++ json_string (wi_account i)
  ++ js "," ++ json_string (js "calldata_sha256") ++ js ":" ++ canonicalNullableString (ac_calldata_sha256 a)
  ++ js "," ++ json_string (js "chain_id") ++ js ":" ++ json_string (wi_chain_id i)
  ++ js "," ++ json_string (js "native_value") ++ js ":" ++ json_string (ac_native_value a)
  ++ js "," ++ json_string (js "origin") ++ js ":" ++ json_string (wi_origin i)
  ++ js "," ++ json_string (js "recipient") ++ js ":" ++ canonicalNullableString (ac_recipient a)
  ++ js "," ++ json_string (js "request_class") ++ js ":" ++ json_string (ac_class a)
  ++ js "," ++ json_string (js "request_id") ++ js ":" ++ json_string (wi_request_id i)
  ++ js "," ++ json_string (js "requested_allowance") ++ js ":" ++ canonicalNullableString (ac_allowance a)
  ++ js "," ++ json_string (js "requested_operator_approval") ++ js ":"
  ++ canonicalNullableBoolean (ac_approval a)
  ++ js "," ++ json_string (js "rpc_method") ++ js ":" ++ json_string (wi_rpc_method i)
  ++ js "," ++ json_string (js "schema_version") ++ js ":" ++ json_string WALLET_GUARD_INTENT_SCHEMA_VERSION
  ++ js "," ++ json_string (js "simulation_required") ++ js ":" ++ canonicalBoolean (ac_simulation a)
  ++ js "," ++ json_string (js "spender") ++ js ":" ++ canonicalNullableString (ac_spender a)
  ++ js "," ++ json_string (js "target") ++ js ":" ++ canonicalNullableString (ac_target a)
  ++ js "," ++ json_string (js "token_amount") ++ js ":" ++ canonicalNullableString (ac_amount a)
  ++ js "," ++ json_string (js "typed_data_domain_chain_id") ++ js ":"
  ++ canonicalNullableString (ac_domain_chain_id a)
  ++ js "," ++ json_string (js "typed_data_owner") ++ js ":" ++ canonicalNullableString (ac_owner a)
  ++ js "," ++ json_string (js "typed_data_sha256") ++ js ":"
  ++ canonicalNullableString (ac_typed_data_sha256 a)
  ++ js "," ++ json_string (js "typed_data_verifying_contract") ++ js ":"
  ++ canonicalNullableString (ac_contract a) ++ js "}".

Definition intent_input (canonical : jsstr) : jsstr := WALLET_GUARD_INTENT_COMMIT_DOMAIN ++ canonical.
(** [commitWalletGuardIntent(intent)]: [canonical_intent] and [intent_commitment] *)
Definition commitWalletGuardIntent (v : jsv) : res (jsstr * jsstr) :=
  i ← validateWalletGuardIntent v;
  let canonical := canonicalizeValidatedIntent i in
  Ok (canonical, sha256Hex (intent_input canonical)).
End intents.

(** ** Parts of canonical texts *)

Lemma json_string_inj s s' r r' : json_string s ++ r = json_string s' ++ r' -> s = s' /\ r = r'.
Proof.
  unfold json_string. cbn [app]. rewrite <- !app_assoc. cbn [app]. intros E.
  pose proof (jp_string_json_chars s r) as H. pose proof (jp_string_json_chars s' r') as H'.
  assert (json_chars s ++ 34%N :: r = json_chars s' ++ 34%N :: r') as E' by congruence.
  rewrite E' in H. split; congruence.
Qed.

Lemma canonicalNullableString_inj o o' r r' :
  canonicalNullableString o ++ r = canonicalNullableString o' ++ r' -> o = o' /\ r = r'.
Proof.
  destruct o as [s|], o' as [s'|]; cbn [canonicalNullableString].
  - intros [-> ->]%json_string_inj. done.
  - done.
  - done.
  - by intros ->%app_inv_head.
Qed.

Lemma canonicalBoolean_inj b b' r r' : canonicalBoolean b ++ r = canonicalBoolean b' ++ r' -> b = b' /\ r = r'.
Proof. destruct b, b'; cbn [canonicalBoolean]; try done; by intros ->%app_inv_head. Qed.

Lemma canonicalNullableBoolean_inj o o' r r' :
  canonicalNullableBoolean o ++ r = canonicalNullableBoolean o' ++ r' -> o = o' /\ r = r'.
Proof.
  destruct o as [[]|], o' as [[]|]; cbn [canonicalNullableBoolean canonicalBoolean]; try done;
    by intros ->%app_inv_head.
Qed.

(** Reads the next variable part of two equal canonical texts. *)
Ltac same_parts H :=
  repeat first
    [ apply app_inv_head in H
    | apply json_string_inj in H as [? H]
    | apply canonicalNullableString_inj in H as [? H]
    | apply canonicalNullableBoolean_inj in H as [? H]
    | apply canonicalBoolean_inj in H as [? H] ].

Lemma is_class_name a c c' : ac_class a = class_name c -> is_class a c' = bool_decide (c = c').
Proof. intros E. unfold is_class. rewrite E. by destruct c, c'. Qed.

(** Decides the equalities of classes. *)
Ltac class_cases :=
  repeat match goal with |- context [bool_decide (?c = ?c' :> request_class)] =>
    let r := eval vm_compute in (bool_decide (c = c')) in change (bool_decide (c = c')) with r end;
  cbn [orb andb app].

(** ** Reading an intent back *)

Section intent_properties.
Context `{SH : !StringHost, HH : !HashHost, DH : !DateHost, UH : !UrlHost}.

(** An origin the wallet vouches for: 8 to 512 units, and equal to the origin
    of the HTTP(S) URL it parses to. *)
Definition trusted_origin (s : jsstr) : Prop :=
  (8 <= length s <= 512)%nat /\ exists u, url_parse s = Some u /\ canonical_origin s u = true.

Lemma canonical_origin_eq s u : canonical_origin s u = true -> url_origin u = s.
Proof. unfold canonical_origin. rewrite !andb_true_iff. intros [[[_ H] _] _]. by apply str_eqb_eq. Qed.

Lemma normalizeTrustedOrigin_Ok v s :
  normalizeTrustedOrigin v = Ok s <-> v = VStr s /\ trusted_origin s.
Proof.
  unfold normalizeTrustedOrigin, trusted_origin. split.
  - intros (t & Ht & H)%bind_Ok. destruct v; try done. cbn [str_that] in Ht.
    destruct (_ && _) eqn:El; [|done]. injection Ht as <-.
    apply andb_true_iff in El as [?%Nat.leb_le ?%Nat.leb_le].
    apply bind_Ok in H as (u & Hu & H). destruct (url_parse s0) as [u'|] eqn:Eu; [|done].
    injection Hu as ->. apply guard_bind_Ok in H as [Hc [= <-]].
    rewrite (canonical_origin_eq _ _ Hc).
    split; [done|]. split; [lia|]. by exists u.
  - intros (-> & [H1 H2] & u & Hu & Hc). cbn [str_that].
    apply Nat.leb_le in H1, H2. rewrite H1, H2. cbn [andb mbind res_bind]. rewrite Hu. cbn [mbind res_bind].
    rewrite Hc. cbn [guard_or mbind res_bind]. by rewrite (canonical_origin_eq _ _ Hc).
Qed.

Definition nullable (P : jsstr -> Prop) (o : option jsstr) : Prop :=
  match o with Some s => P s | None => True end.

Lemma normalizeEvmAddress_self v f s :
  (normalizeEvmAddress v f = Ok s /\ is_str v s = true) <-> v = VStr s /\ canonical_address s = true.
Proof.
  rewrite is_str_eq. split.
  - intros [H ->]. split; [done|]. by eapply normalizeEvmAddress_canonical.
  - intros [-> H]. split; [|done]. by apply normalizeEvmAddress_fixed.
Qed.

Lemma normalizeChainId_self v s :
  (normalizeChainId v = Ok s /\ is_str v s = true) <-> v = VStr s /\ is_chain_id s.
Proof.
  rewrite is_str_eq. split.
  - intros [H ->]. split; [done|]. by eapply normalizeChainId_Ok.
  - intros [-> H]. split; [|done]. by apply normalizeChainId_fixed.
Qed.

(** A field that is null or its own normal form. *)
Lemma nullable_self (norm : jsv -> res jsstr) (P : jsstr -> Prop) e v o :
  (forall s, (norm v = Ok s /\ is_str v s = true) <-> v = VStr s /\ P s) ->
  match v with
  | VNull => Ok None
  | _ => s ← norm v; _ ← guard_or (is_str v s) e; Ok (Some s)
  end = Ok o <-> v = or_null o /\ nullable P o.
Proof.
  intros Hn. destruct o as [s|]; cbn [or_null nullable].
  - rewrite <- (Hn s).
    assert ((s ← norm v; _ ← guard_or (is_str v s) e; Ok (Some s)) = Ok (Some s)
      <-> norm v = Ok s /\ is_str v s = true) as Hb.
    { rewrite bind_Ok. split.
      - intros (t & Ht & H). apply guard_bind_Ok in H as [Hg [= ->]]. done.
      - intros [Ha Hs]. exists s. split; [done|]. by rewrite guard_bind_Ok. }
    destruct v; try by apply Hb. split; [done|]. by intros [? ?].
  - split; [|by intros [-> _]]. destruct v; try done; intros (t & _ & H)%bind_Ok;
      by apply guard_bind_Ok in H as [_ ?].
Qed.

Lemma assertNullableAddress_Ok v f o :
  assertNullableAddress v f = Ok o <-> v = or_null o /\ nullable (fun s => canonical_address s = true) o.
Proof.
  apply (nullable_self (fun v => normalizeEvmAddress v f)). intros s. apply normalizeEvmAddress_self.
Qed.

Lemma nullable_that_Ok test v msg o :
  nullable_that test v msg = Ok o <-> v = or_null o /\ nullable (fun s => test s = true) o.
Proof.
  unfold nullable_that, str_that. destruct o as [s|]; cbn [or_null nullable].
  - destruct v as [| | | |t| | | | |]; try (by split; [|intros [? ?]]).
    destruct (test t) eqn:Et; split; try done.
    + by intros [= <-].
    + by intros [[= ->] _].
    + intros [[= ->] ?]. congruence.
  - split; [|by intros [-> _]]. destruct v as [| | | |t| | | | |]; try done. by destruct (test t).
Qed.

Lemma str_that_Ok test v e s :
  match str_that test v with Some s => Ok s | None => Throw e end = Ok s <-> v = VStr s /\ test s = true.
Proof.
  unfold str_that. destruct v as [| | | |t| | | | |]; try (by split; [|intros [? ?]]).
  destruct (test t) eqn:Et; split; try done.
  - by intros [= <-].
  - by intros [[= ->] _].
  - intros [[= ->] ?]. congruence.
Qed.

Definition valid_address (s : jsstr) : Prop := canonical_address s = true.
Definition valid_decimal (s : jsstr) : Prop := DECIMAL_INTEGER_PATTERN s = true.
Definition valid_hash (s : jsstr) : Prop := hash_pattern s = true.

(** What the fields of an intent may be. *)
Record valid_action (account : jsstr) (a : action) : Prop := {
  va_class : (1 <= length (ac_class a))%nat;
  va_addresses : Forall (nullable valid_address)
    [ac_target a; ac_spender a; ac_recipient a; ac_owner a; ac_contract a];
  va_hashes : Forall (nullable valid_hash) [ac_calldata_sha256 a; ac_typed_data_sha256 a];
  va_native : valid_decimal (ac_native_value a);
  va_amounts : Forall (nullable valid_decimal) [ac_allowance a; ac_amount a];
  va_chain : nullable is_chain_id (ac_domain_chain_id a);
  va_owner : ac_class a = js "permit_eip2612" -> ac_owner a = Some account;
}.
Record valid_intent (i : intent) : Prop := {
  vi_request_id : REQUEST_ID_PATTERN (wi_request_id i) = true;
  vi_origin : trusted_origin (wi_origin i);
  vi_chain : is_chain_id (wi_chain_id i);
  vi_account : valid_address (wi_account i);
  vi_method : RPC_METHOD_PATTERN (wi_rpc_method i) = true;
  vi_action : valid_action (wi_account i) (wi_action i);
}.

(** [v] has exactly the fields of the intent [i]. *)
Definition shows_intent (v : jsv) (i : intent) : Prop :=
  is_record v = true /\ same_keys (keys_of v) WALLET_GUARD_INTENT_KEYS = true /\
  Forall (fun k => get k v = get k (intent_value i)) WALLET_GUARD_INTENT_KEYS.

Lemma shows_intent_value i : shows_intent (intent_value i) i.
Proof. split; [done|]. split; [by vm_compute|]. by apply Forall_forall. Qed.

Lemma validate_sound v i :
  validateWalletGuardIntent v = Ok i -> shows_intent v i /\ valid_intent i.
Proof.
  unfold validateWalletGuardIntent, assertExactKeys. intros H.
  apply bind_Ok in H as ([] & Hk & H). apply guard_bind_Ok in Hk as [Hr Hk%guard_or_Ok].
  apply guard_bind_Ok in H as [Hv%is_str_eq H].
  apply bind_Ok in H as (id & [Fid Hid]%str_that_Ok & H).
  apply bind_Ok in H as (origin & [Forigin Horigin]%normalizeTrustedOrigin_Ok & H).
  apply guard_bind_Ok in H as [_ H].
  apply bind_Ok in H as (chain & Hchain & H). apply guard_bind_Ok in H as [Gchain H].
  destruct (proj1 (normalizeChainId_self _ _) (conj Hchain Gchain)) as [Fchain Vchain].
  apply bind_Ok in H as (account & Haccount & H). apply guard_bind_Ok in H as [Gaccount H].
  destruct (proj1 (normalizeEvmAddress_self _ _ _) (conj Haccount Gaccount)) as [Faccount Vaccount].
  apply bind_Ok in H as (method & [Fmethod Hmethod]%str_that_Ok & H).
  apply bind_Ok in H as (cls & [Fclass Hclass%Nat.leb_le]%str_that_Ok & H).
  do 5 (apply bind_Ok in H as (? & [?F ?V]%assertNullableAddress_Ok & H)).
  do 2 (apply bind_Ok in H as (? & [?F ?V]%nullable_that_Ok & H)).
  do 3 (apply bind_Ok in H as (? & [?F ?V]%nullable_that_Ok & H)).
  apply bind_Ok in H as (native & Hnative & H).
  destruct x6 as [native'|]; [injection Hnative as ->|done].
  apply bind_Ok in H as (approval & Happroval & H).
  apply bind_Ok in H as (domain & Hdomain & H).
  apply (nullable_self normalizeChainId is_chain_id) in Hdomain as [Fdomain Vdomain];
    [|intros; apply normalizeChainId_self].
  apply bind_Ok in H as (simulation & Hsimulation & H).
  assert (get (js "simulation_required") v = VBool simulation) as Fsimulation.
  { destruct (get (js "simulation_required") v); try done. by injection Hsimulation as ->. }
  assert (get (js "requested_operator_approval") v = or_null_bool approval) as Fapproval.
  { destruct (get (js "requested_operator_approval") v); try done; by injection Happroval as <-. }
  apply guard_bind_Ok in H as [Hpermit [= <-]].
  split.
  - split; [done|]. split; [done|]. repeat constructor; first [eassumption | done].
  - split; try done. split; cbn; try done; try (repeat constructor; done).
    intros ->. destruct (bool_decide_reflect (x2 = Some account)); [done|]. exfalso. revert Hpermit.
    change (str_eqb (js "permit_eip2612") (js "permit_eip2612")) with true. done.
Qed.

Lemma validate_complete v i :
  shows_intent v i -> valid_intent i -> validateWalletGuardIntent v = Ok i.
Proof.
  intros (Hr & Hk & Hf) [Vid Vorigin Vchain Vaccount Vmethod [Vclass Vaddr Vhash Vnative Vamounts Vdomain Vowner]].
  destruct i as [id origin chain account method
    [cls target spender recipient native calldata typed allowance amount approval owner domain contract sim]].
  repeat (apply Forall_cons in Vaddr as [? Vaddr]). repeat (apply Forall_cons in Vhash as [? Vhash]).
  repeat (apply Forall_cons in Vamounts as [? Vamounts]).
  apply Forall_cons in Hf as [Fversion Hf]. apply Forall_cons in Hf as [Fid Hf].
  apply Forall_cons in Hf as [Forigin Hf]. apply Forall_cons in Hf as [Fchain Hf].
  apply Forall_cons in Hf as [Faccount Hf]. apply Forall_cons in Hf as [Fmethod Hf].
  apply Forall_cons in Hf as [Fclass Hf]. repeat (apply Forall_cons in Hf as [?F Hf]). clear Hf.
  unfold validateWalletGuardIntent, assertExactKeys. rewrite Hr, Hk. cbn [guard_or mbind res_bind].
  apply guard_bind_Ok. split; [apply is_str_eq, Fversion|].
  apply bind_Ok; exists id; split; [apply str_that_Ok; done|].
  apply bind_Ok; exists origin; split; [apply normalizeTrustedOrigin_Ok; done|].
  apply guard_bind_Ok. split; [apply is_str_eq, Forigin|].
  destruct (proj2 (normalizeChainId_self _ chain) (conj Fchain Vchain)) as [-> Gchain]. cbn [mbind res_bind].
  apply guard_bind_Ok. split; [exact Gchain|].
  destruct (proj2 (normalizeEvmAddress_self _ "intent account" account) (conj Faccount Vaccount)) as [-> Gaccount].
  cbn [mbind res_bind]. apply guard_bind_Ok. split; [exact Gaccount|].
  apply bind_Ok; exists method; split; [apply str_that_Ok; done|].
  apply bind_Ok; exists cls; split; [apply str_that_Ok; split; [done|by apply Nat.leb_le]|].
  apply bind_Ok; exists target; split; [by apply assertNullableAddress_Ok|].
  apply bind_Ok; exists spender; split; [by apply assertNullableAddress_Ok|].
  apply bind_Ok; exists recipient; split; [by apply assertNullableAddress_Ok|].
  apply bind_Ok; exists owner; split; [by apply assertNullableAddress_Ok|].
  apply bind_Ok; exists contract; split; [by apply assertNullableAddress_Ok|].
  apply bind_Ok; exists calldata; split; [by apply nullable_that_Ok|].
  apply bind_Ok; exists typed; split; [by apply nullable_that_Ok|].
  apply bind_Ok; exists (Some native); split; [by apply nullable_that_Ok|].
  apply bind_Ok; exists allowance; split; [by apply nullable_that_Ok|].
  apply bind_Ok; exists amount; split; [by apply nullable_that_Ok|].
  cbn [mbind res_bind].
  apply bind_Ok; exists approval; split.
  { replace (get (js "requested_operator_approval") v) with (or_null_bool approval) by (by symmetry).
    by destruct approval. }
  apply bind_Ok; exists domain; split.
  { apply (nullable_self normalizeChainId is_chain_id); [|done]. intros s. apply normalizeChainId_self. }
  apply bind_Ok; exists sim; split.
  { by replace (get (js "simulation_required") v) with (VBool sim) by (by symmetry). }
  apply guard_bind_Ok. split; [|done].
  destruct (str_eqb cls (js "permit_eip2612")) eqn:E; [|done]. apply str_eqb_eq in E.
  rewrite bool_decide_eq_true_2 by (by apply Vowner). done.
Qed.

(** The validator accepts exactly the objects that have the twenty fields of
    an intent with the values an intent may have, and then reads that intent:
    canonical origin, chain id and addresses, hashes and decimals in their format,
    and for an EIP-2612 permit the account as owner. *)
Theorem validateWalletGuardIntent_exact v i :
  validateWalletGuardIntent v = Ok i <-> shows_intent v i /\ valid_intent i.
Proof. split; [apply validate_sound|]. intros [? ?]. by apply validate_complete. Qed.


(** ** The commitment binds *)

Lemma canonicalizeValidatedIntent_inj i i' :
  canonicalizeValidatedIntent i = canonicalizeValidatedIntent i' -> i = i'.
Proof.
  unfold canonicalizeValidatedIntent. cbv zeta. intros H. same_parts H.
  destruct i as [? ? ? ? ? []], i' as [? ? ? ? ? []]. cbn in *. by subst.
Qed.

(** The commitment of an intent binds all its fields: two values that commit
    alike are the same intent, or their canonical texts are a SHA-256 collision. *)
Theorem intent_commitment_binds v v' c c' h :
  commitWalletGuardIntent v = Ok (c, h) -> commitWalletGuardIntent v' = Ok (c', h) ->
  (exists i, valid_intent i /\ shows_intent v i /\ shows_intent v' i /\ c = c') \/
  (c <> c' /\ sha256Hex (intent_input c) = sha256Hex (intent_input c')).
Proof.
  unfold commitWalletGuardIntent. intros (i & [Hi Vi]%validate_sound & H)%bind_Ok (i' & [Hi' _]%validate_sound & H')%bind_Ok.
  assert (c = canonicalizeValidatedIntent i) as -> by congruence.
  assert (c' = canonicalizeValidatedIntent i') as -> by congruence.
  destruct (decide (canonicalizeValidatedIntent i = canonicalizeValidatedIntent i')) as [E|E].
  - left. apply canonicalizeValidatedIntent_inj in E as ->. by exists i'.
  - right. split; [done|congruence].
Qed.

(** ** Transactions *)

Lemma normalizeHexData_lower v f d :
  normalizeHexData v f = Ok d <->
  exists s, v = VStr s /\ HEX_DATA_PATTERN s = true /\ d = ascii_lower <$> s.
Proof.
  rewrite normalizeHexData_Ok. split.
  - intros (t & -> & He & Ht & ->). exists (js "0x" ++ t). split; [done|]. split; [|by rewrite fmap_app].
    apply re_prefixed_iff. exists t. by rewrite He, Ht.
  - intros (s & -> & (t & -> & Ht)%re_prefixed_iff & ->). exists t.
    rewrite fmap_app. apply andb_true_iff in Ht as [? ?]. by split_and!.
Qed.

Lemma hex_data_lower s : HEX_DATA_PATTERN s = true ->
  HEX_DATA_PATTERN (ascii_lower <$> s) = true /\ ascii_lower <$> (ascii_lower <$> s) = ascii_lower <$> s.
Proof.
  intros (t & -> & [He Ht]%andb_true_iff)%re_prefixed_iff. rewrite !fmap_app.
  destruct (lower_prefixed t Ht) as [_ Hl]. change (ascii_lower <$> js "0x") with (js "0x").
  change (ascii_lower <$> js "0x") with (js "0x"). rewrite (hex_lower (ascii_lower <$> t)) by done. split; [|done].
  apply re_prefixed_iff. eexists. split; [done|]. rewrite length_fmap, He. by apply hex_any_of_hex.
Qed.

Lemma normalizeQuantity_Ok v f q : v <> VUndef -> v <> VNull ->
  normalizeQuantity v f = Ok q <->
  exists s, v = VStr s /\ HEX_QUANTITY_PATTERN s = true /\ q = bigint_to_decimal (bigint_of s).
Proof.
  intros Hu Hn. unfold normalizeQuantity, str_that. destruct v as [| | | |s| | | | |]; try done;
    try (split; [done|by intros (? & [=] & _)]).
  destruct (HEX_QUANTITY_PATTERN s) eqn:E; split; try done.
  - intros [= <-]. by exists s.
  - by intros (? & [= <-] & _ & ->).
  - intros (? & [= <-] & ? & _). congruence.
Qed.

(** [tx] sends [value] and [data] from [account] to [target]: its fields are
    among four, and its addresses and data are taken in lower case. *)
Inductive sends (account : jsstr) (tx : jsv) : jsstr -> Z -> jsstr -> Prop :=
  | sends_intro from to value data :
      is_record tx = true -> (forall k, k ∈ keys_of tx -> k ∈ SEND_TX_KEYS) ->
      js "from" ∈ keys_of tx -> js "to" ∈ keys_of tx ->
      get (js "from") tx = VStr from -> ADDRESS_PATTERN from = true -> ascii_lower <$> from = account ->
      get (js "to") tx = VStr to -> ADDRESS_PATTERN to = true ->
      nullish (get (js "value") tx) (VStr (js "0x0")) = VStr value -> HEX_QUANTITY_PATTERN value = true ->
      nullish (get (js "data") tx) (VStr (js "0x")) = VStr data -> HEX_DATA_PATTERN data = true ->
      sends account tx (ascii_lower <$> to) (bigint_of value) (ascii_lower <$> data).

(** The action of a decoded call. *)
Definition call_action (d : decoded_call) (target : jsstr) (value : Z) : action :=
  {| ac_class := class_name (dc_class d); ac_target := Some target; ac_spender := dc_spender d;
     ac_recipient := if bool_decide (dc_class d = NativeTransfer) then Some target else dc_recipient d;
     ac_native_value := bigint_to_decimal value; ac_calldata_sha256 := Some (dc_sha256 d);
     ac_typed_data_sha256 := None; ac_allowance := dc_allowance d; ac_amount := dc_amount d;
     ac_approval := dc_approval d; ac_owner := None; ac_domain_chain_id := None; ac_contract := None;
     ac_simulation := dc_simulation d |}.

Lemma normalizeSendTransaction_iff params account a :
  normalizeSendTransaction params account = Ok a <->
  exists tx target value data d,
    params = [tx] /\ sends account tx target value data /\ reads_as data d /\
    a = call_action d target value.
Proof.
  unfold normalizeSendTransaction. split.
  - intros (tx & Htx & H)%bind_Ok. assert (params = [tx]) as -> by (destruct params as [|? []]; congruence).
    apply guard_bind_Ok in H as [Hr H]. apply bind_Ok in H as ([] & Hk & H).
    apply guard_bind_Ok in H as [[Hfrom%mem_str_true Hto%mem_str_true]%andb_true_iff H].
    apply bind_Ok in H as (from & (f & Hf & Pf & ->)%normalizeEvmAddress_says & H).
    apply guard_bind_Ok in H as [Hacc%str_eqb_eq H].
    apply bind_Ok in H as (target & (t & Ht & Pt & ->)%normalizeEvmAddress_says & H).
    apply bind_Ok in H as (value & Hv & H).
    apply normalizeQuantity_Ok in Hv as (q & Hq & Pq & ->); [|by destruct (get (js "value") tx)..].
    apply bind_Ok in H as (data & (s & Hs & Ps & ->)%normalizeHexData_lower & H).
    apply bind_Ok in H as (d & [_ Hd]%decodeTransactionCalldata_exact & [= <-]).
    rewrite (proj2 (hex_data_lower s Ps)) in Hd.
    exists tx, (ascii_lower <$> t), (bigint_of q), (ascii_lower <$> s), d. split_and!; try done.
    econstructor; try done. intros k Hin. apply for_each_Ok in Hk. rewrite Forall_forall in Hk.
    by apply Hk, guard_or_Ok, mem_str_true in Hin.
  - intros (tx & target & value & data & d & -> & Hs & Hd & ->).
    destruct Hs as [f t q s Hr Hk Hfrom Hto Hf Pf Hacc Ht Pt Hv Pq Hdata Ps].
    cbn [mbind res_bind]. rewrite Hr. cbn [guard_or mbind res_bind].
    apply bind_Ok. exists tt. split.
    { apply for_each_Ok, Forall_forall. intros k Hin. by apply guard_or_Ok, mem_str_true, Hk. }
    apply guard_bind_Ok. rewrite andb_true_iff, !mem_str_true. split; [done|].
    apply bind_Ok. exists account. split; [apply normalizeEvmAddress_says; by exists f|].
    apply guard_bind_Ok. split; [by apply str_eqb_eq|].
    apply bind_Ok. eexists. split; [apply normalizeEvmAddress_says; by exists t|].
    apply bind_Ok. eexists. split.
    { apply normalizeQuantity_Ok; [by destruct (get (js "value") tx)..|]. by exists q. }
    apply bind_Ok. eexists. split; [apply normalizeHexData_lower; by exists s|].
    apply bind_Ok. exists d. split; [|done]. apply decodeTransactionCalldata_exact.
    destruct (hex_data_lower s Ps) as [-> ->]. done.
Qed.

(** ** Typed data *)

(** The action of decoded typed data. *)
Definition typed_action (d : decoded_typed) : action :=
  {| ac_class := class_name (dt_class d); ac_target := dt_target d; ac_spender := dt_spender d;
     ac_recipient := None; ac_native_value := js "0"; ac_calldata_sha256 := None;
     ac_typed_data_sha256 := Some (dt_sha256 d); ac_allowance := dt_allowance d; ac_amount := None;
     ac_approval := None; ac_owner := dt_owner d; ac_domain_chain_id := dt_chain_id d;
     ac_contract := dt_contract d; ac_simulation := dt_simulation d |}.

(** [data] is typed data that [account] may sign and [d] what it says. *)
Definition signs (account : jsstr) (data : jsv) (d : decoded_typed) : Prop :=
  exists typed text, parseTypedData data = Ok typed /\ typed_record typed /\ canonicalizePayload typed = Ok text /\
    typed_reads typed (sha256Hex text) d /\ (dt_class d = PermitEip2612 -> dt_owner d = Some account).

Lemma normalizeTypedDataRequest_iff params account a :
  normalizeTypedDataRequest params account = Ok a <->
  exists v data d, params = [v; data] /\ says_address v account /\ signs account data d /\ a = typed_action d.
Proof.
  unfold normalizeTypedDataRequest, signs. split.
  - intros ([v data] & Hp & H)%bind_Ok.
    assert (params = [v; data]) as -> by (destruct params as [|? [|? []]]; congruence).
    apply bind_Ok in H as (acc & Hacc%normalizeEvmAddress_says & H).
    apply guard_bind_Ok in H as [->%str_eqb_eq H].
    apply bind_Ok in H as (d & (typed & text & Hd)%decodeTypedData_iff & H).
    apply guard_bind_Ok in H as [Hg [= <-]].
    exists v, data, d. split; [done|]. split; [done|]. split; [|done].
    exists typed, text. destruct Hd as (? & ? & ? & ?). split_and!; try done. intros Hc. rewrite Hc in Hg.
    rewrite negb_true_iff, andb_false_iff, negb_false_iff, bool_decide_eq_true in Hg. by destruct Hg.
  - intros (v & data & d & -> & Hv & (typed & text & Hp & Hr & Ht & Hd & Howner) & ->).
    cbn [mbind res_bind]. apply bind_Ok. exists account. split; [by apply normalizeEvmAddress_says|].
    apply guard_bind_Ok. split; [by apply str_eqb_eq|].
    apply bind_Ok. exists d. split; [apply decodeTypedData_iff; by exists typed, text|].
    apply guard_bind_Ok. split; [|done].
    rewrite negb_true_iff, andb_false_iff, negb_false_iff, bool_decide_eq_true, bool_decide_eq_false.
    destruct (decide (dt_class d = PermitEip2612)); [right|left]; auto.
Qed.

(** ** Requests *)

(** What a request for [account] means. *)
Inductive request_means (account : jsstr) : jsstr -> list jsv -> action -> Prop :=
  | means_transaction tx target value data d :
      sends account tx target value data -> reads_as data d ->
      request_means account (js "eth_sendTransaction") [tx] (call_action d target value)
  | means_typed v data d :
      says_address v account -> signs account data d ->
      request_means account (js "eth_signTypedData_v4") [v; data] (typed_action d)
  | means_signature method params text :
      method ∈ [js "personal_sign"; js "eth_sign"] -> (1 <= length params <= 2)%nat ->
      canonicalizePayload (VObj PObject [(js "params", VArr params)]) = Ok text ->
      request_means account method params (opaque_action GenericSignature None (Some (sha256Hex text)))
  | means_unsupported method params text :
      method ∉ js <$> ["eth_sendTransaction"; "eth_signTypedData_v4"; "personal_sign"; "eth_sign"] ->
      canonicalizePayload (VObj PObject [(js "method", VStr method); (js "params", VArr params)]) = Ok text ->
      request_means account method params (opaque_action UnsupportedRpc (Some (sha256Hex text)) None).

Lemma canonical_or_Ok {A} (m : res A) e a : catch m (fun _ => Throw e) = Ok a <-> m = Ok a.
Proof. rewrite catch_Ok. split; [|by left]. by intros [?|(? & _ & [=])]. Qed.

Lemma normalizeGenericSignature_iff method params a :
  normalizeGenericSignature method params = Ok a <->
  (1 <= length params <= 2)%nat /\
  exists text, canonicalizePayload (VObj PObject [(js "params", VArr params)]) = Ok text /\
    a = opaque_action GenericSignature None (Some (sha256Hex text)).
Proof.
  unfold normalizeGenericSignature. rewrite guard_bind_Ok, andb_true_iff, !Nat.leb_le, bind_Ok.
  setoid_rewrite canonical_or_Ok. naive_solver.
Qed.

Lemma normalizeUnsupportedRpc_iff method params a :
  normalizeUnsupportedRpc method params = Ok a <->
  exists text, canonicalizePayload (VObj PObject [(js "method", VStr method); (js "params", VArr params)]) = Ok text /\
    a = opaque_action UnsupportedRpc (Some (sha256Hex text)) None.
Proof. unfold normalizeUnsupportedRpc. rewrite bind_Ok. setoid_rewrite canonical_or_Ok. naive_solver. Qed.

(** The action is normalised exactly for a request that means it. *)
Lemma normalize_action_iff method params account a :
  normalize_action method params account = Ok a <-> request_means account method params a.
Proof.
  unfold normalize_action. rewrite catch_Ok.
  assert (forall m (P : Prop), (m = Ok a <-> P) ->
    (m = Ok a \/ exists e, m = Throw e /\
       (if bool_decide (err_cls e = DecoderErr) then Throw (Err IntentErr (err_code e) (err_msg e)) else Throw e)
         = Ok a) <-> P) as Hcatch.
  { intros m P ->. split; [|by left]. intros [?|(e & _ & H)]; [done|]. by destruct (bool_decide _). }
  apply Hcatch. clear Hcatch.
  destruct (str_eqb method (js "eth_sendTransaction")) eqn:E1.
  { apply str_eqb_eq in E1 as ->. rewrite normalizeSendTransaction_iff. split.
    - intros (tx & target & value & data & d & -> & Hs & Hd & ->). by eapply means_transaction.
    - intros H. inversion H as [tx target value data d|?|? ? ? Hm|? ? ? Hm]; subst;
        [eauto 10|exfalso; set_solver..]. }
  destruct (str_eqb method (js "eth_signTypedData_v4")) eqn:E2.
  { apply str_eqb_eq in E2 as ->. rewrite normalizeTypedDataRequest_iff. split.
    - intros (v & data & d & -> & ? & ? & ->). by eapply means_typed.
    - intros H. inversion H as [?|v data d|? ? ? Hm|? ? ? Hm]; subst; [eauto 10|exfalso; set_solver..]. }
  assert (forall s, str_eqb method s = false -> method <> s) as Hne.
  { intros s Hs ->. by rewrite str_eqb_refl in Hs. }
  apply Hne in E1, E2.
  destruct (str_eqb method (js "personal_sign") || str_eqb method (js "eth_sign")) eqn:E3.
  - rewrite orb_true_iff, !str_eqb_eq in E3. rewrite normalizeGenericSignature_iff. split.
    + intros (Hl & text & Ht & ->). apply means_signature; [|done..]. set_solver.
    + intros H. inversion H as [| |? ? text Hm Hl Ht|? ? ? Hm]; subst; [done|done|eauto|]. exfalso. set_solver.
  - apply orb_false_iff in E3 as [E3%Hne E4%Hne]. rewrite normalizeUnsupportedRpc_iff. split.
    + intros (text & Ht & ->). apply means_unsupported; [|done].
      cbn. rewrite !elem_of_cons, elem_of_nil. intuition.
    + intros H. inversion H as [| |? ? ? Hm|? ? text Hm Ht]; subst; [done|done| |eauto]. exfalso. set_solver.
Qed.

(** Every action a request means has the fields an intent may have, so the
    check of the finished intent never fails. *)
Lemma request_means_valid account method params a :
  valid_address account -> request_means account method params a -> valid_action account a.
Proof.
  intros Hacc [tx target value data d Hs Hd|v data d Hv Hd|m ps text Hm Hl Ht|m ps text Hm Ht].
  - assert (valid_address target /\ 0 <= value) as [Htarget Hvalue].
    { destruct Hs. split; [by eapply says_address_canonical; exists to|by apply bigint_of_quantity]. }
    pose proof (sha256_hex_format data). pose proof (proj1 (decimal_of_nonneg value Hvalue)).
    destruct Hd as [E|[sp z|rc z|op b] Hc E|Hl Hsel]; subst; split; cbn; try done; try (cbn in *; lia);
      repeat constructor; cbn; try done; try apply Hc; try apply decimal_of_nonneg; apply Hc.
  - destruct Hd as (typed & text & _ & _ & _ & Hd & Howner).
    pose proof (sha256_hex_format text).
    assert (forall c, names_chain typed (Some c) -> is_chain_id c) as Hchain.
    { intros c (_ & z & _ & [? _] & ->). by exists z. }
    assert (forall c, names_contract typed (Some c) -> valid_address c) as Hcontract.
    { intros c (_ & ?%says_address_canonical). done. }
    assert (forall v s, says_address v s -> valid_address s) as Haddr by exact says_address_canonical.
    assert (forall bits v s, says_uint bits v s -> valid_decimal s) as Hdec.
    { intros bits w s (z & _ & [? _] & ->). by apply decimal_of_nonneg. }
    destruct Hd as [spender owner amount chain contract message|token spender amount chain contract message|
      primary chain contract].
    + split; cbn; try done; try lia; repeat constructor; cbn; eauto.
    + split; cbn; try done; try lia; repeat constructor; cbn; eauto.
    + split; cbn; try done; [destruct (str_eqb primary _); by apply Nat.leb_le| | | | |].
      * repeat constructor. destruct contract; cbn; eauto.
      * repeat constructor. done.
      * by repeat constructor.
      * destruct chain; cbn; eauto.
      * by destruct (str_eqb primary _).
  - split; cbn; try done; try (cbn in *; lia); repeat constructor; apply sha256_hex_format.
  - split; cbn; try done; try (cbn in *; lia); repeat constructor; apply sha256_hex_format.
Qed.

(** What the caller of [normalizeWalletGuardIntent] hands over, as an intent has it. *)
Record vouched (input : jsv) (i : intent) (params : list jsv) : Prop := {
  vo_keys : is_record input = true /\ same_keys (keys_of input) NORMALIZE_KEYS = true;
  vo_id : get (js "requestId") input = VStr (wi_request_id i) /\ REQUEST_ID_PATTERN (wi_request_id i) = true;
  vo_origin : get (js "trustedOrigin") input = VStr (wi_origin i) /\ trusted_origin (wi_origin i);
  vo_chain : exists s, get (js "trustedChainId") input = VStr s /\ HEX_QUANTITY_PATTERN s = true /\
    wi_chain_id i = js "0x" ++ bigint_to_hex (bigint_of s);
  vo_account : says_address (get (js "trustedAccount") input) (wi_account i);
  vo_request : let request := get (js "request") input in
    is_record request = true /\ same_keys (keys_of request) REQUEST_KEYS = true /\
    get (js "method") request = VStr (wi_rpc_method i) /\ RPC_METHOD_PATTERN (wi_rpc_method i) = true /\
    get (js "params") request = VArr params;
}.

Lemma intent_keys_Ok v ks label u :
  assertExactKeys v ks label = Ok u <-> is_record v = true /\ same_keys (keys_of v) ks = true.
Proof.
  unfold assertExactKeys. rewrite guard_bind_Ok. destruct u. by rewrite guard_or_Ok.
Qed.

Lemma vouched_valid input i params :
  vouched input i params -> valid_action (wi_account i) (wi_action i) -> valid_intent i.
Proof.
  intros [_ [_ Hid] [_ Horigin] (s & _ & Hq & Hchain) Haccount (_ & _ & _ & Hmethod & _)] Ha. split; try done.
  - rewrite Hchain. exists (bigint_of s). split; [by apply bigint_of_quantity|done].
  - by eapply says_address_canonical.
Qed.

Lemma normalizeChainId_quantity v c :
  normalizeChainId v = Ok c <->
  exists s, v = VStr s /\ HEX_QUANTITY_PATTERN s = true /\ c = js "0x" ++ bigint_to_hex (bigint_of s).
Proof.
  unfold normalizeChainId. destruct v as [| | | |s| | | | |]; try (split; [done|by intros (? & [=] & _)]).
  cbn [str_that]. destruct (HEX_QUANTITY_PATTERN s) eqn:E; split; try done.
  - intros H. exists s. split_and!; try done. congruence.
  - by intros (? & [= <-] & _ & ->).
  - intros (? & [= <-] & ? & _). congruence.
Qed.

Lemma normalizeWalletGuardIntent_iff input i :
  normalizeWalletGuardIntent input = Ok i <->
  exists params, vouched input i params /\
    normalize_action (wi_rpc_method i) params (wi_account i) = Ok (wi_action i).
Proof.
  unfold normalizeWalletGuardIntent, normalizeRequest. split.
  - intros ([] & Hk%intent_keys_Ok & H)%bind_Ok.
    apply bind_Ok in H as (id & Hid%str_that_Ok & H).
    apply bind_Ok in H as (origin & Horigin%normalizeTrustedOrigin_Ok & H).
    apply bind_Ok in H as (chain & Hchain%normalizeChainId_quantity & H).
    apply bind_Ok in H as (account & Haccount%normalizeEvmAddress_says & H).
    apply bind_Ok in H as ([method params] & Hr & H).
    apply bind_Ok in Hr as ([] & [Hrr Hrk]%intent_keys_Ok & Hr).
    apply bind_Ok in Hr as (m & [Fm Hm]%str_that_Ok & Hr).
    destruct (get (js "params") (get (js "request") input)) as [| | | | |ps| | | |] eqn:Fparams; try done.
    injection Hr as -> ->.
    apply bind_Ok in H as (a & Ha & H). apply bind_Ok in H as (_ & _ & [= <-]).
    exists params. split; [|done]. by split.
  - intros (params & Hv & Ha). pose proof (proj1 (normalize_action_iff _ _ _ _) Ha) as Hm.
    apply request_means_valid in Hm; [|eapply says_address_canonical, vo_account, Hv].
    pose proof (vouched_valid _ _ _ Hv Hm) as Hvalid.
    destruct Hv as [Hk Hid Horigin Hchain Haccount (Hrr & Hrk & Fm & Pm & Fparams)].
    apply bind_Ok. exists tt. split; [by apply intent_keys_Ok|].
    apply bind_Ok. eexists. split; [by apply str_that_Ok|].
    apply bind_Ok. eexists. split; [by apply normalizeTrustedOrigin_Ok|].
    apply bind_Ok. eexists. split; [by apply normalizeChainId_quantity|].
    apply bind_Ok. eexists. split; [by apply normalizeEvmAddress_says|].
    apply bind_Ok. exists (wi_rpc_method i, params). split.
    { apply bind_Ok. exists tt. split; [by apply intent_keys_Ok|].
      apply bind_Ok. eexists. split; [by apply str_that_Ok|]. by rewrite Fparams. }
    apply bind_Ok. exists (wi_action i). split; [done|]. cbv zeta.
    assert ({| wi_request_id := wi_request_id i; wi_origin := wi_origin i; wi_chain_id := wi_chain_id i;
      wi_account := wi_account i; wi_rpc_method := wi_rpc_method i; wi_action := wi_action i |} = i) as ->
      by (by destruct i).
    apply bind_Ok. exists i. split; [|done]. apply validate_complete; [|done]. apply shows_intent_value.
Qed.

Lemma normalized_iff input i :
  normalizeWalletGuardIntent input = Ok i <->
  exists params, vouched input i params /\
    request_means (wi_account i) (wi_rpc_method i) params (wi_action i).
Proof. rewrite normalizeWalletGuardIntent_iff. by setoid_rewrite normalize_action_iff. Qed.
Lemma normalized_means input i :
  normalizeWalletGuardIntent input = Ok i ->
  exists params, vouched input i params /\
    request_means (wi_account i) (wi_rpc_method i) params (wi_action i).
Proof. apply normalized_iff. Qed.

Lemma normalized_valid input i : normalizeWalletGuardIntent input = Ok i -> valid_intent i.
Proof.
  intros (params & Hv & Ha)%normalized_means. eapply vouched_valid; [exact Hv|].
  eapply request_means_valid; [|exact Ha]. eapply says_address_canonical, vo_account, Hv.
Qed.

(** C7: The normaliser takes the identity of an intent from the wallet and its
    action from the request.  It accepts an input, with an intent, exactly when
    the input has the five fields, the wallet vouches in it for the origin, chain
    and account of the intent, and its request, with the method of the intent, means
    the action of the intent for that account: a transaction from the account that
    decodes as the action says, typed data the account may sign, or a signature or
    unknown call of which only the hash is told.  The intent is then valid, so the
    final check never rejects it. *)
Theorem normalizeWalletGuardIntent_exact input i :
  (normalizeWalletGuardIntent input = Ok i <->
   exists params, vouched input i params /\
     request_means (wi_account i) (wi_rpc_method i) params (wi_action i)) /\
  (normalizeWalletGuardIntent input = Ok i -> valid_intent i).
Proof. split; [apply normalized_iff|apply normalized_valid]. Qed.
End intent_properties.

(** ** A concrete intent *)

(** Parses [https://] and a host name. *)
Definition plain_url_parse (s : jsstr) : option url_parts :=
  if re_prefixed (js "https://") (re_class (fun c => is_alnum c || is_one_of ".-" c) 1 200) s
  then Some {| url_protocol := js "https:"; url_origin := s; url_username := []; url_password := [] |}
  else None.
Lemma plain_url_ascii s u : plain_url_parse s = Some u -> forallb is_ascii (url_origin u) = true.
Proof.
  unfold plain_url_parse. destruct (re_prefixed _ _ _) eqn:E; [|done]. intros [= <-].
  revert E. apply re_prefixed_ascii; [done|]. intros t. apply re_class_ascii. ascii_class.
Qed.
Definition plain_url_host : UrlHost :=
  {| url_parse := plain_url_parse; url_origin_ascii := plain_url_ascii |}.

Section intent_witnesses.
#[local] Existing Instances plain_string_host checksum_hash_host iso_date_host plain_url_host.

(** Approve 1000 units for a spender, of the token at [0x44…]. *)
Definition sample_calldata : jsstr := encode_call (CallApprove (sample_address 51) 1000).
Definition sample_transaction : jsv := string_fields
  [("from"%string, VStr (sample_address 50)); ("to"%string, VStr (sample_address 52));
   ("data"%string, VStr sample_calldata)].
Definition sample_request_input : jsv := string_fields
  [("requestId"%string, VStr (js "request-0001")); ("trustedOrigin"%string, VStr (js "https://app.example"));
   ("trustedChainId"%string, VStr (js "0x1")); ("trustedAccount"%string, VStr (sample_address 50));
   ("request"%string, string_fields [("method"%string, VStr (js "eth_sendTransaction"));
                              ("params"%string, VArr [sample_transaction])])].
Definition sample_intent : intent :=
  {| wi_request_id := js "request-0001"; wi_origin := js "https://app.example"; wi_chain_id := js "0x1";
     wi_account := sample_address 50; wi_rpc_method := js "eth_sendTransaction";
     wi_action := call_action (decoded_of (CallApprove (sample_address 51) 1000) sample_calldata)
                    (sample_address 52) 0 |}.

Lemma sample_intent_normalized : normalizeWalletGuardIntent sample_request_input = Ok sample_intent.
Proof. vm_compute. reflexivity. Qed.

Lemma normalizeWalletGuardIntent_exact_witness :
  valid_intent sample_intent /\
  exists params, vouched sample_request_input sample_intent params /\
    request_means (sample_address 50) (js "eth_sendTransaction") params (wi_action sample_intent).
Proof.
  destruct (normalizeWalletGuardIntent_exact sample_request_input sample_intent) as [Hiff Hvalid].
  pose proof sample_intent_normalized as H. split; [exact (Hvalid H)|exact (proj1 Hiff H)].
Defined.

Definition sample_commitment : jsstr * jsstr :=
  Eval vm_compute in
    match commitWalletGuardIntent (intent_value sample_intent) with Ok c => c | Throw _ => ([], []) end.
Lemma sample_commitment_Ok : commitWalletGuardIntent (intent_value sample_intent) = Ok sample_commitment.
Proof. vm_compute. reflexivity. Qed.

Lemma intent_commitment_binds_witness :
  let '(c, h) := sample_commitment in
  (exists i, valid_intent i /\ shows_intent (intent_value sample_intent) i /\
     shows_intent (intent_value sample_intent) i /\ c = c) \/
  (c <> c /\ sha256Hex (intent_input c) = sha256Hex (intent_input c)).
Proof.
  apply (intent_commitment_binds (intent_value sample_intent) (intent_value sample_intent)
    sample_commitment.1 sample_commitment.1 sample_commitment.2); apply sample_commitment_Ok.
Defined.
End intent_witnesses.
