(* ===== verification/WalletPolicy.v ===== *)
(** * The policy of the Wallet Guard

    Models [applications/blockchain-digital-assets/wallet-guard/policy.mjs]: a
    policy is read from the heap, normalised and hashed, and decides on an intent
    and the status of its simulation.  The intent is an inert value, since the
    ones [normalizeWalletGuardIntent] has branded are frozen. *)
From S2P Require Import Prelude JsDate JsValue ProofSdk Json Canonical Normal JsHeap PlainData Authorization EvmDecoders WalletIntent.

#[local] Arguments js : simpl never.

Definition WALLET_GUARD_POLICY_SCHEMA_VERSION : jsstr := js "wallet-guard-policy/0.1".
Definition WALLET_GUARD_POLICY_COMMIT_DOMAIN : jsstr := js "swisstokint:pom-rx-wallet-guard-policy:v1:".
(** [/^[A-Za-z0-9][A-Za-z0-9._/-]{7,127}$/] *)
Definition POLICY_ID_PATTERN : jsstr -> bool :=
  re_head_class is_alnum (fun c => is_alnum c || is_one_of "._/-" c) 7 127.
Definition POLICY_CANONICAL_MAX_NODES : Z := 1000.
Definition POLICY_CANONICAL_MAX_BYTES : nat := 16 * 1024.
Definition POLICY_KEYS : list jsstr := js <$>
  ["schema_version"; "policy_id"; "enabled"; "kill_switch"; "expected_chain_id"; "allowed_origins";
   "allowed_targets"; "allowed_recipients"; "allowed_spenders"; "allowed_typed_data_verifying_contracts";
   "max_native_value"; "max_token_amount"; "deny_unlimited_allowance"; "deny_operator_approval";
   "require_simulation_for"].
Definition KNOWN_REQUEST_CLASSES : list jsstr := class_name <$>
  [NativeTransfer; Erc20Approve; Erc20Transfer; SetApprovalForAll; PermitEip2612; Permit2Single;
   Permit2BatchUnknown; UnknownCalldata; UnknownTypedData; GenericSignature; UnsupportedRpc].
Definition CRITICAL_UNKNOWN_CLASSES : list jsstr := class_name <$>
  [Permit2BatchUnknown; UnknownCalldata; UnknownTypedData; GenericSignature; UnsupportedRpc].
Definition SIMULATION_STATUSES : list jsstr := js <$>
  ["not_run"; "pass"; "fail"; "unavailable"; "mismatch"].

Definition policy_invalid (msg : jsstr) : jserr :=
  Err WalletPolicyErr (js "POMRX_WG_POLICY_E_INVALID") msg.

Record policy := {
  po_id : jsstr;
  po_enabled : bool;
  po_kill_switch : bool;
  po_chain_id : jsstr;
  po_origins : list jsstr;
  po_targets : list jsstr;
  po_recipients : list jsstr;
  po_spenders : list jsstr;
  po_contracts : list jsstr;
  po_max_native : jsstr;
  po_max_token : jsstr;
  po_deny_unlimited : bool;
  po_deny_operator : bool;
  po_simulation_for : list jsstr;
}.

Inductive decision := DENY | INDETERMINATE | ALLOW.
#[export] Instance decision_eq_dec : EqDecision decision.
Proof. solve_decision. Defined.
Record policy_result := {
  pr_decision : decision;
  pr_reasons : list jsstr;
  pr_policy_id : jsstr;
  pr_policy_hash : jsstr;
}.

Definition snapshotExactDataRecord (h : heap) (value : hval) (expected : list jsstr) (label : string)
  : res snapshot :=
  let not_exact := policy_invalid (js label ++ js " must be an exact plain data object") in
  o ← match object_of h value with
      | Some o => if bool_decide (o_array o = None) then Ok o else Throw not_exact
      | None => Throw not_exact
      end;
  _ ← guard_or (bool_decide (o_proto o ∈ [ObjectPrototype; NullPrototype]))
        (policy_invalid (js label ++ js " must use Object.prototype or a null prototype"));
  _ ← guard_or (o_symbols o =? 0)%nat (policy_invalid (js label ++ js " cannot contain symbol keys"));
  _ ← guard_or (same_keys (own_names o) expected)
        (policy_invalid (js label ++ js " has missing, hidden or unknown fields"));
  snapshot_keys o expected (fun _ =>
    policy_invalid (js label ++ js " fields must be enumerable data properties")).

Definition snapshotDenseArray (h : heap) (values : hval) (field : string) : res (list hval) :=
  let not_array := policy_invalid (js field ++ js " must be a bounded plain array") in
  '(o, length) ← match object_of h values with
      | Some o => match o_array o with Some length => Ok (o, length) | None => Throw not_array end
      | None => Throw not_array
      end;
  _ ← guard_or (o_symbols o =? 0)%nat (policy_invalid (js field ++ js " cannot contain symbol keys"));
  _ ← guard_or ((0 <=? length) && (length <=? 256))
        (policy_invalid (js field ++ js " must be a bounded array"));
  let keys := (o_props o).*1 in
  _ ← guard_or (bool_decide (keys = (fun i => string_of_Z (Z.of_nat i)) <$> seq 0 (Z.to_nat length)))
        (policy_invalid (js field ++ js " must be dense and cannot contain extra or hidden properties"));
  map_res (fun key =>
    match enumerable_data (own_descriptor o key) with
    | Some v => Ok v
    | None => Throw (policy_invalid (js field ++ js " entries must be enumerable data properties"))
    end) keys.

Definition hstr (v : hval) : option jsstr := match v with HStr s => Some s | _ => None end.

Section policies.
Context `{SH : !StringHost, HH : !HashHost, DH : !DateHost, UH : !UrlHost}.

Definition normalizeOrigin (value : hval) : res jsstr :=
  s ← match value with
      | HStr s => Ok s
      | _ => Throw (policy_invalid (js "origin must be a string"))
      end;
  u ← match url_parse s with
      | Some u => Ok u
      | None => Throw (policy_invalid (js "origin must be an absolute URL origin"))
      end;
  _ ← guard_or (canonical_origin s u) (policy_invalid (js "origin must be canonical HTTP(S) origin"));
  Ok (url_origin u).

Definition normalizeCanonicalDecimal (value : hval) (field : string) : res jsstr :=
  match hstr_that DECIMAL_INTEGER_PATTERN value with
  | Some s => Ok (bigint_to_decimal (bigint_of s))
  | None => Throw (policy_invalid (js field ++ js " must be a canonical decimal integer string"))
  end.

Definition error_detail (error : jserr) (cls : err_class) (other : string) : jsstr :=
  if bool_decide (err_cls error = cls) then err_code error else js other.

Definition normalizePolicyChainId (value : hval) : res jsstr :=
  catch (normalizeChainId (payload_of value)) (fun error =>
    Throw (policy_invalid (js "expected_chain_id is invalid: "
             ++ error_detail error DecoderErr "invalid-chain"))).

Definition normalizePolicyAddress (field : string) (value : hval) : res jsstr :=
  catch (normalizeEvmAddress (payload_of value) field) (fun error =>
    Throw (policy_invalid (js field ++ js " is invalid: "
             ++ error_detail error DecoderErr "invalid-address"))).

Definition normalizeUniqueList (h : heap) (values : hval) (field : string)
    (normalizeItem : hval -> res jsstr) : res (list jsstr) :=
  snapshotted ← snapshotDenseArray h values field;
  normalized ← fold_res (fun value normalized =>
      item ← normalizeItem value;
      _ ← guard_or (negb (mem_str item normalized))
            (policy_invalid (js field ++ js " cannot contain duplicates"));
      Ok (normalized ++ [item])) snapshotted [];
  Ok (sort_str normalized).

Definition request_class_item (value : hval) : res jsstr :=
  match hstr_that (fun s => mem_str s KNOWN_REQUEST_CLASSES) value with
  | Some s => Ok s
  | None => Throw (policy_invalid (js "require_simulation_for contains an unknown request class"))
  end.

(** ** The canonical text of a policy *)

Definition canonicalStringArray (values : list jsstr) : jsstr :=
  js "[" ++ join_comma (json_string <$> values) ++ js "]".

Definition canonicalizeNormalizedPolicy (p : policy) : jsstr :=
  js "{" ++ json_string (js "allowed_origins") ++ js ":" ++ canonicalStringArray (po_origins p)
  ++ js "," ++ json_string (js "allowed_recipients") ++ js ":" ++ canonicalStringArray (po_recipients p)
  ++ js "," ++ json_string (js "allowed_spenders") ++ js ":" ++ canonicalStringArray (po_spenders p)
  ++ js "," ++ json_string (js "allowed_targets") ++ js ":" ++ canonicalStringArray (po_targets p)
  ++ js "," ++ json_string (js "allowed_typed_data_verifying_contracts") ++ js ":"
  ++ canonicalStringArray (po_contracts p)
  ++ js "," ++ json_string (js "deny_operator_approval") ++ js ":" ++ canonicalBoolean (po_deny_operator p)
  ++ js "," ++ json_string (js "deny_unlimited_allowance") ++ js ":" ++ canonicalBoolean (po_deny_unlimited p)
  ++ js "," ++ json_string (js "enabled") ++ js ":" ++ canonicalBoolean (po_enabled p)
  ++ js "," ++ json_string (js "expected_chain_id") ++ js ":" ++ json_string (po_chain_id p)
  ++ js "," ++ json_string (js "kill_switch") ++ js ":" ++ canonicalBoolean (po_kill_switch p)
  ++ js "," ++ json_string (js "max_native_value") ++ js ":" ++ json_string (po_max_native p)
  ++ js "," ++ json_string (js "max_token_amount") ++ js ":" ++ json_string (po_max_token p)
  ++ js "," ++ json_string (js "policy_id") ++ js ":" ++ json_string (po_id p)
  ++ js "," ++ json_string (js "require_simulation_for") ++ js ":"
  ++ canonicalStringArray (po_simulation_for p)
  ++ js "," ++ json_string (js "schema_version") ++ js ":"
  ++ json_string WALLET_GUARD_POLICY_SCHEMA_VERSION ++ js "}".

Definition normalizedPolicyNodeCount (p : policy) : Z :=
  16 + Z.of_nat (length (po_origins p) + length (po_targets p) + length (po_recipients p)
    + length (po_spenders p) + length (po_contracts p) + length (po_simulation_for p)).

Definition assertNormalizedPolicyBounds (p : policy) : res unit :=
  _ ← guard_or (normalizedPolicyNodeCount p <=? POLICY_CANONICAL_MAX_NODES)
        (policy_invalid (js "Wallet Guard policy exceeds the canonical node bound"));
  guard_or (length (canonicalizeNormalizedPolicy p) <=? POLICY_CANONICAL_MAX_BYTES)%nat
    (policy_invalid (js "Wallet Guard policy exceeds the 16 KiB canonical bound")).

Definition policy_flag (s : snapshot) (field : string) : res bool :=
  match snap_get (js field) s with
  | HBool b => Ok b
  | _ => Throw (policy_invalid (js field ++ js " must be boolean"))
  end.

Definition normalizePolicy (h : heap) (raw : hval) : res policy :=
  s ← snapshotExactDataRecord h raw POLICY_KEYS "Wallet Guard policy";
  let field k := snap_get (js k) s in
  let addresses k label := normalizeUniqueList h (field k) k (normalizePolicyAddress label) in
  _ ← guard_or (bool_decide (field "schema_version" = HStr WALLET_GUARD_POLICY_SCHEMA_VERSION))
        (policy_invalid (js "unsupported Wallet Guard policy version"));
  id ← match hstr_that POLICY_ID_PATTERN (field "policy_id") with
       | Some id => Ok id
       | None => Throw (policy_invalid (js "policy_id has an invalid format"))
       end;
  enabled ← policy_flag s "enabled";
  kill_switch ← policy_flag s "kill_switch";
  deny_unlimited ← policy_flag s "deny_unlimited_allowance";
  deny_operator ← policy_flag s "deny_operator_approval";
  simulation_for ← normalizeUniqueList h (field "require_simulation_for") "require_simulation_for"
    request_class_item;
  chain_id ← normalizePolicyChainId (field "expected_chain_id");
  origins ← normalizeUniqueList h (field "allowed_origins") "allowed_origins" normalizeOrigin;
  targets ← addresses "allowed_targets"%string "allowed target"%string;
  recipients ← addresses "allowed_recipients"%string "allowed recipient"%string;
  spenders ← addresses "allowed_spenders"%string "allowed spender"%string;
  contracts ← addresses "allowed_typed_data_verifying_contracts"%string
    "allowed typed-data verifying contract"%string;
  max_native ← normalizeCanonicalDecimal (field "max_native_value") "max_native_value";
  max_token ← normalizeCanonicalDecimal (field "max_token_amount") "max_token_amount";
  let p := {| po_id := id; po_enabled := enabled; po_kill_switch := kill_switch;
    po_chain_id := chain_id; po_origins := origins; po_targets := targets; po_recipients := recipients;
    po_spenders := spenders; po_contracts := contracts; po_max_native := max_native;
    po_max_token := max_token; po_deny_unlimited := deny_unlimited; po_deny_operator := deny_operator;
    po_simulation_for := simulation_for |} in
  _ ← assertNormalizedPolicyBounds p;
  Ok p.

Definition validateIntent (intent : intent_ref) : res WalletIntent.intent :=
  i ← catch (validateWalletGuardIntent (ir_value intent)) (fun error =>
        Throw (policy_invalid (js "Wallet Guard intent failed canonical validation: "
                 ++ error_detail error IntentErr "invalid-intent")));
  _ ← guard_or (ir_normalized intent)
        (policy_invalid (js "Wallet Guard policy requires a locally normalized intent"));
  _ ← guard_or (mem_str (ac_class (wi_action i)) KNOWN_REQUEST_CLASSES)
        (policy_invalid (js "Wallet Guard intent request class is unknown"));
  Ok i.

(** [simulation] with its default *)
Definition normalizeSimulation (h : heap) (simulation : hval) : res jsstr :=
  match simulation with
  | HUndef | HNull => Ok (js "not_run")
  | _ =>
      s ← snapshotExactDataRecord h simulation [js "status"] "simulation evidence";
      match hstr_that (fun t => mem_str t SIMULATION_STATUSES) (snap_get (js "status") s) with
      | Some status => Ok status
      | None => Throw (policy_invalid (js "simulation status is invalid"))
      end
  end.

(** ** The decision *)

Definition includes (l : list jsstr) (value : option jsstr) : bool :=
  match value with Some s => mem_str s l | None => false end.
Definition greaterThan (value : option jsstr) (limit : jsstr) : bool :=
  match value with
  | Some s => negb (DECIMAL_INTEGER_PATTERN s) || (bigint_of limit <? bigint_of s)
  | None => true
  end.

Definition reason_if (b : bool) (reason : string) : list jsstr := if b then [js reason] else [].

Definition deny_native (p : policy) (a : action) : list jsstr :=
  reason_if (negb (includes (po_recipients p) (ac_recipient a))) "WG_POLICY_DENY_RECIPIENT".
Definition deny_transfer (p : policy) (a : action) : list jsstr :=
  reason_if (negb (includes (po_targets p) (ac_target a))) "WG_POLICY_DENY_TARGET" ++
  reason_if (negb (includes (po_recipients p) (ac_recipient a))) "WG_POLICY_DENY_RECIPIENT" ++
  reason_if (greaterThan (ac_amount a) (po_max_token p)) "WG_POLICY_DENY_TOKEN_AMOUNT".
Definition deny_allowance (p : policy) (a : action) : list jsstr :=
  reason_if (po_deny_unlimited p && bool_decide (ac_allowance a = Some MAX_UINT256_DECIMAL))
    "WG_POLICY_DENY_UNLIMITED_ALLOWANCE" ++
  reason_if (greaterThan (ac_allowance a) (po_max_token p)) "WG_POLICY_DENY_ALLOWANCE_LIMIT".
Definition deny_approve (p : policy) (a : action) : list jsstr :=
  reason_if (negb (includes (po_targets p) (ac_target a))) "WG_POLICY_DENY_TARGET" ++
  reason_if (negb (includes (po_spenders p) (ac_spender a))) "WG_POLICY_DENY_SPENDER" ++
  deny_allowance p a.
Definition deny_operator (p : policy) (a : action) : list jsstr :=
  reason_if (negb (includes (po_targets p) (ac_target a))) "WG_POLICY_DENY_TARGET" ++
  reason_if (negb (includes (po_spenders p) (ac_spender a))) "WG_POLICY_DENY_OPERATOR" ++
  reason_if (po_deny_operator p && bool_decide (ac_approval a = Some true))
    "WG_POLICY_DENY_OPERATOR_APPROVAL".
Definition deny_permit (p : policy) (i : intent) : list jsstr :=
  let a := wi_action i in
  reason_if (negb (includes (po_targets p) (ac_target a))) "WG_POLICY_DENY_TARGET" ++
  reason_if (negb (includes (po_spenders p) (ac_spender a))) "WG_POLICY_DENY_SPENDER" ++
  reason_if (negb (bool_decide (ac_domain_chain_id a = Some (wi_chain_id i))))
    "WG_POLICY_DENY_TYPED_DATA_CHAIN" ++
  reason_if (negb (includes (po_contracts p) (ac_contract a))) "WG_POLICY_DENY_TYPED_DATA_DOMAIN" ++
  reason_if (is_class a PermitEip2612 && negb (bool_decide (ac_owner a = Some (wi_account i))))
    "WG_POLICY_DENY_TYPED_DATA_OWNER" ++
  deny_allowance p a.

Definition simulation_required (p : policy) (a : action) : bool :=
  ac_simulation a || mem_str (ac_class a) (po_simulation_for p).
Definition simulation_failed (status : jsstr) : bool :=
  str_eqb status (js "fail") || str_eqb status (js "mismatch").

Definition denyReasons (p : policy) (i : intent) (status : jsstr) : list jsstr :=
  let a := wi_action i in
  reason_if (negb (po_enabled p)) "WG_POLICY_DENY_DISABLED" ++
  reason_if (po_kill_switch p) "WG_POLICY_DENY_KILL_SWITCH" ++
  reason_if (negb (mem_str (wi_origin i) (po_origins p))) "WG_POLICY_DENY_ORIGIN" ++
  reason_if (negb (str_eqb (wi_chain_id i) (po_chain_id p))) "WG_POLICY_DENY_CHAIN" ++
  reason_if (greaterThan (Some (ac_native_value a)) (po_max_native p)) "WG_POLICY_DENY_NATIVE_VALUE" ++
  (if is_class a NativeTransfer then deny_native p a else []) ++
  (if is_class a Erc20Transfer then deny_transfer p a else []) ++
  (if is_class a Erc20Approve then deny_approve p a else []) ++
  (if is_class a SetApprovalForAll then deny_operator p a else []) ++
  (if is_class a PermitEip2612 || is_class a Permit2Single then deny_permit p i else []) ++
  reason_if (simulation_required p a && simulation_failed status) "WG_POLICY_DENY_SIMULATION".

Definition indeterminateReasons (p : policy) (i : intent) (status : jsstr) : list jsstr :=
  let a := wi_action i in
  reason_if (mem_str (ac_class a) CRITICAL_UNKNOWN_CLASSES) "WG_POLICY_INDETERMINATE_UNSUPPORTED_EFFECT" ++
  reason_if (simulation_required p a && negb (simulation_failed status)
             && negb (str_eqb status (js "pass"))) "WG_POLICY_INDETERMINATE_SIMULATION".

Definition policy_input (canonical : jsstr) : jsstr := WALLET_GUARD_POLICY_COMMIT_DOMAIN ++ canonical.
Definition makeResult (d : decision) (reasons : list jsstr) (p : policy) : policy_result :=
  {| pr_decision := d;
     pr_reasons := foldl (fun unique reason =>
       if mem_str reason unique then unique else unique ++ [reason]) [] reasons;
     pr_policy_id := po_id p;
     pr_policy_hash := sha256Hex (policy_input (canonicalizeNormalizedPolicy p)) |}.

(** The end of [evaluateWalletGuardPolicy], from its reasons to its result *)
Definition policy_verdict (p : policy) (i : intent) (status : jsstr) : policy_result :=
  let deny := denyReasons p i status in
  let indeterminate := indeterminateReasons p i status in
  if (0 <? length deny)%nat then makeResult DENY deny p
  else if (0 <? length indeterminate)%nat then makeResult INDETERMINATE indeterminate p
  else makeResult ALLOW [js "WG_POLICY_ALLOW_EXACT"] p.

(** [evaluateWalletGuardPolicy], from what the normalisation of its policy and
    its simulation gives *)
Definition evaluate_with (intent : intent_ref) (policy : res WalletPolicy.policy) (simulation : res jsstr)
  : res policy_result :=
  i ← validateIntent intent;
  p ← policy;
  status ← simulation;
  Ok (policy_verdict p i status).
Definition evaluateWalletGuardPolicy (h : heap) (intent : intent_ref) (policy simulation : hval)
  : res policy_result :=
  evaluate_with intent (normalizePolicy h policy) (normalizeSimulation h simulation).

Definition normalizeWalletGuardPolicy (h : heap) (raw : hval) : res policy :=
  normalizePolicy h raw.
End policies.

(** ** The decision, specified *)

Section policy_properties.
Context `{SH : !StringHost, HH : !HashHost, DH : !DateHost, UH : !UrlHost}.

Definition listed (l : list jsstr) (o : option jsstr) : Prop := exists s, o = Some s /\ s ∈ l.
(** A decimal not above [limit]. *)
Definition at_most (o : option jsstr) (limit : jsstr) : Prop :=
  exists s, o = Some s /\ DECIMAL_INTEGER_PATTERN s = true /\ bigint_of s <= bigint_of limit.

Definition allowance_allowed (p : policy) (a : action) : Prop :=
  (po_deny_unlimited p = true -> ac_allowance a <> Some MAX_UINT256_DECIMAL) /\
  at_most (ac_allowance a) (po_max_token p).
Definition permit_allowed (p : policy) (i : intent) : Prop :=
  let a := wi_action i in
  listed (po_targets p) (ac_target a) /\ listed (po_spenders p) (ac_spender a) /\
  ac_domain_chain_id a = Some (wi_chain_id i) /\ listed (po_contracts p) (ac_contract a) /\
  allowance_allowed p a.

(** What the policy asks of an effect of each class. *)
Definition effect_allowed (p : policy) (i : intent) (c : request_class) : Prop :=
  let a := wi_action i in
  match c with
  | NativeTransfer => listed (po_recipients p) (ac_recipient a)
  | Erc20Transfer => listed (po_targets p) (ac_target a) /\ listed (po_recipients p) (ac_recipient a) /\
      at_most (ac_amount a) (po_max_token p)
  | Erc20Approve => listed (po_targets p) (ac_target a) /\ listed (po_spenders p) (ac_spender a) /\
      allowance_allowed p a
  | SetApprovalForAll => listed (po_targets p) (ac_target a) /\ listed (po_spenders p) (ac_spender a) /\
      (po_deny_operator p = true -> ac_approval a <> Some true)
  | PermitEip2612 => permit_allowed p i /\ ac_owner a = Some (wi_account i)
  | Permit2Single => permit_allowed p i
  | Permit2BatchUnknown | UnknownCalldata | UnknownTypedData | GenericSignature | UnsupportedRpc => True
  end.
Definition critical (c : request_class) : Prop :=
  c ∈ [Permit2BatchUnknown; UnknownCalldata; UnknownTypedData; GenericSignature; UnsupportedRpc].

(** The policy demands a simulation of [a]. *)
Definition demands_simulation (p : policy) (a : action) : Prop :=
  ac_simulation a = true \/ ac_class a ∈ po_simulation_for p.

(** Nothing in the policy forbids the intent. *)
Record tolerates (p : policy) (i : intent) (c : request_class) (status : jsstr) : Prop := {
  to_enabled : po_enabled p = true;
  to_alive : po_kill_switch p = false;
  to_origin : wi_origin i ∈ po_origins p;
  to_chain : wi_chain_id i = po_chain_id p;
  to_native : at_most (Some (ac_native_value (wi_action i))) (po_max_native p);
  to_effect : effect_allowed p i c;
  to_simulation : demands_simulation p (wi_action i) -> status <> js "fail" /\ status <> js "mismatch";
}.
(** Something about it is not known. *)
Definition undecided (p : policy) (i : intent) (c : request_class) (status : jsstr) : Prop :=
  critical c \/ (demands_simulation p (wi_action i) /\ status <> js "pass").

Lemma reason_if_nil b r : reason_if b r = [] <-> b = false.
Proof. by destruct b. Qed.
Lemma app_nil_iff {A} (l k : list A) : l ++ k = [] <-> l = [] /\ k = [].
Proof. split; [apply app_eq_nil|by intros [-> ->]]. Qed.
Lemma not_includes l o : negb (includes l o) = false <-> listed l o.
Proof.
  rewrite negb_false_iff. unfold includes, listed. destruct o as [s|]; [|by split; [|intros (? & [=] & _)]].
  rewrite mem_str_true. naive_solver.
Qed.
Lemma greaterThan_false o limit : greaterThan o limit = false <-> at_most o limit.
Proof.
  unfold greaterThan, at_most. destruct o as [s|]; [|by split; [|intros (? & [=] & _)]].
  rewrite orb_false_iff, negb_false_iff, Z.ltb_ge. naive_solver.
Qed.

Lemma deny_allowance_nil p a : deny_allowance p a = [] <-> allowance_allowed p a.
Proof.
  unfold deny_allowance, allowance_allowed. rewrite app_nil_iff, !reason_if_nil, greaterThan_false.
  destruct (po_deny_unlimited p); cbn [andb]; [rewrite bool_decide_eq_false|]; naive_solver.
Qed.

Lemma critical_iff c : mem_str (class_name c) CRITICAL_UNKNOWN_CLASSES = true <-> critical c.
Proof. unfold critical. destruct c; split; intros H; first [decide_now | by vm_compute in H | idtac]; set_solver. Qed.

Lemma simulation_required_iff p a : simulation_required p a = true <-> demands_simulation p a.
Proof. unfold simulation_required, demands_simulation. by rewrite orb_true_iff, mem_str_true. Qed.

Lemma simulation_failed_iff status : simulation_failed status = false <-> status <> js "fail" /\ status <> js "mismatch".
Proof.
  unfold simulation_failed. rewrite orb_false_iff. rewrite <- !not_true_iff_false, !str_eqb_eq. done.
Qed.

(** The reasons of the five classes the policy knows. *)
Definition effect_reasons (p : policy) (i : intent) : list jsstr :=
  let a := wi_action i in
  (if is_class a NativeTransfer then deny_native p a else []) ++
  (if is_class a Erc20Transfer then deny_transfer p a else []) ++
  (if is_class a Erc20Approve then deny_approve p a else []) ++
  (if is_class a SetApprovalForAll then deny_operator p a else []) ++
  (if is_class a PermitEip2612 || is_class a Permit2Single then deny_permit p i else []).

Lemma effect_reasons_nil p i c :
  ac_class (wi_action i) = class_name c -> effect_reasons p i = [] <-> effect_allowed p i c.
Proof.
  intros Hc. unfold effect_reasons, effect_allowed. rewrite !(is_class_name _ c _ Hc).
  destruct c; class_cases; rewrite ?app_nil_r; try done.
  - unfold deny_native. by rewrite reason_if_nil, not_includes.
  - unfold deny_approve. by rewrite !app_nil_iff, !reason_if_nil, !not_includes, deny_allowance_nil.
  - unfold deny_transfer. by rewrite !app_nil_iff, !reason_if_nil, !not_includes, greaterThan_false.
  - unfold deny_operator. rewrite !app_nil_iff, !reason_if_nil, !not_includes.
    destruct (po_deny_operator p); cbn [andb]; [rewrite bool_decide_eq_false|]; naive_solver.
  - unfold deny_permit, permit_allowed. rewrite !app_nil_iff, !reason_if_nil, !not_includes, deny_allowance_nil.
    rewrite negb_false_iff, (is_class_name _ _ _ Hc). class_cases.
    rewrite negb_false_iff, !bool_decide_eq_true. naive_solver.
  - unfold deny_permit, permit_allowed. rewrite !app_nil_iff, !reason_if_nil, !not_includes, deny_allowance_nil.
    rewrite negb_false_iff, (is_class_name _ _ _ Hc). class_cases.
    rewrite !bool_decide_eq_true. naive_solver.
Qed.

Lemma denyReasons_nil p i c status :
  ac_class (wi_action i) = class_name c -> denyReasons p i status = [] <-> tolerates p i c status.
Proof.
  intros Hc.
  assert (denyReasons p i status =
    reason_if (negb (po_enabled p)) "WG_POLICY_DENY_DISABLED" ++
    reason_if (po_kill_switch p) "WG_POLICY_DENY_KILL_SWITCH" ++
    reason_if (negb (mem_str (wi_origin i) (po_origins p))) "WG_POLICY_DENY_ORIGIN" ++
    reason_if (negb (str_eqb (wi_chain_id i) (po_chain_id p))) "WG_POLICY_DENY_CHAIN" ++
    reason_if (greaterThan (Some (ac_native_value (wi_action i))) (po_max_native p))
      "WG_POLICY_DENY_NATIVE_VALUE" ++
    effect_reasons p i ++
    reason_if (simulation_required p (wi_action i) && simulation_failed status) "WG_POLICY_DENY_SIMULATION")
    as -> by (unfold denyReasons, effect_reasons; by rewrite <- !app_assoc).
  rewrite !app_nil_iff, !reason_if_nil, !negb_false_iff, greaterThan_false, mem_str_true, str_eqb_eq,
    (effect_reasons_nil p i c Hc).
  assert (simulation_required p (wi_action i) && simulation_failed status = false <->
    (demands_simulation p (wi_action i) -> status <> js "fail" /\ status <> js "mismatch")) as ->.
  { rewrite <- simulation_required_iff, <- simulation_failed_iff.
    destruct (simulation_required _ _), (simulation_failed _); naive_solver. }
  split; [intros (? & ? & ? & ? & ? & ? & ?); by split|by intros []].
Qed.

Lemma indeterminateReasons_nil p i c status :
  ac_class (wi_action i) = class_name c -> tolerates p i c status ->
  indeterminateReasons p i status <> [] <-> undecided p i c status.
Proof.
  intros Hc Ht. unfold indeterminateReasons, undecided. rewrite app_nil_iff, !reason_if_nil, Hc.
  rewrite <- critical_iff, <- simulation_required_iff.
  pose proof (to_simulation _ _ _ _ Ht) as Hs. rewrite <- simulation_required_iff, <- simulation_failed_iff in Hs.
  rewrite <- (str_eqb_eq status).
  destruct (mem_str _ _), (simulation_required _ _), (simulation_failed _), (str_eqb _ _); naive_solver.
Qed.

(** The reasons of a result: each once. *)
Lemma unique_reasons reasons acc :
  NoDup acc ->
  let unique := foldl (fun unique reason =>
    if mem_str reason unique then unique else unique ++ [reason]) acc reasons in
  NoDup unique /\ (forall r, r ∈ unique <-> r ∈ acc \/ r ∈ reasons).
Proof.
  revert acc. induction reasons as [|r rs IH]; intros acc Hn; cbn [foldl]; [split; [done|set_solver]|].
  destruct (mem_str r acc) eqn:E.
  - apply mem_str_true in E. destruct (IH acc Hn) as [H1 H2]. split; [done|]. intros s. rewrite H2. set_solver.
  - assert (r ∉ acc) as Hr by (rewrite <- mem_str_true; congruence).
    destruct (IH (acc ++ [r])) as [H1 H2].
    { apply NoDup_app. split; [done|]. split; [set_solver|]. by apply NoDup_singleton. }
    split; [done|]. intros s. rewrite H2. set_solver.
Qed.

Lemma known_class s : mem_str s KNOWN_REQUEST_CLASSES = true -> exists c, s = class_name c.
Proof.
  intros (c & -> & _)%mem_str_true%list_elem_of_fmap. by exists c.
Qed.

Lemma evaluate_Ok h ref pol sim r :
  evaluateWalletGuardPolicy h ref pol sim = Ok r <->
  exists i p c status,
    validateWalletGuardIntent (ir_value ref) = Ok i /\ ir_normalized ref = true /\
    ac_class (wi_action i) = class_name c /\
    normalizePolicy h pol = Ok p /\ normalizeSimulation h sim = Ok status /\
    r = policy_verdict p i status.
Proof.
  unfold evaluateWalletGuardPolicy, evaluate_with, validateIntent. split.
  - intros (i & Hi & H)%bind_Ok.
    apply bind_Ok in Hi as (i' & [Hi|(? & _ & ?)]%catch_Ok & Hg); [|done].
    apply guard_bind_Ok in Hg as [Hn Hg]. apply guard_bind_Ok in Hg as [[c Hc]%known_class [= <-]].
    apply bind_Ok in H as (p & Hp & H). apply bind_Ok in H as (status & Hs & [= <-]).
    by exists i', p, c, status.
  - intros (i & p & c & status & Hi & Hn & Hc & Hp & Hs & ->). rewrite Hi, Hn, Hp, Hs. cbn [catch mbind res_bind guard_or].
    rewrite Hc. by destruct c.
Qed.

Lemma makeResult_reasons d rs p :
  rs <> [] ->
  let r := makeResult d rs p in
  pr_reasons r <> [] /\ NoDup (pr_reasons r) /\ pr_policy_id r = po_id p /\
  pr_policy_hash r = sha256Hex (policy_input (canonicalizeNormalizedPolicy p)).
Proof.
  intros Hrs. destruct (unique_reasons rs [] NoDup_nil_2) as [H1 H2]. split; [|done].
  destruct rs as [|x rs]; [done|]. intros E. cbn [makeResult pr_reasons] in E.
  assert (x ∈ @nil jsstr) as Hx%elem_of_nil; [|done]. rewrite <- E. apply H2. set_solver.
Qed.

(** The decision of a verdict, by the specification. *)
Lemma policy_verdict_decides p i c status :
  ac_class (wi_action i) = class_name c ->
  let r := policy_verdict p i status in
  (pr_decision r = DENY <-> ~ tolerates p i c status) /\
  (pr_decision r = INDETERMINATE <-> tolerates p i c status /\ undecided p i c status) /\
  (pr_decision r = ALLOW <-> tolerates p i c status /\ ~ undecided p i c status).
Proof.
  intros Hc r. subst r. unfold policy_verdict. cbv zeta.
  pose proof (denyReasons_nil p i c status Hc) as Hd.
  pose proof (indeterminateReasons_nil p i c status Hc) as Hu.
  destruct (denyReasons p i status) as [|x xs].
  - assert (tolerates p i c status) as Ht by (by apply Hd). specialize (Hu Ht).
    destruct (indeterminateReasons p i status) as [|x xs]; cbn [length Nat.ltb Nat.leb makeResult pr_decision];
      naive_solver.
  - assert (~ tolerates p i c status) by (by rewrite <- Hd).
    cbn [length Nat.ltb Nat.leb makeResult pr_decision]. naive_solver.
Qed.

(** C3: The policy decides on an intent exactly when it is valid, normalised here
    and of a known class, and the policy and the simulation are well-formed.  It
    denies what it does not tolerate, allows what it tolerates and nothing about
    is undecided, and is indeterminate otherwise; the result names the policy by
    its id and hash, and gives at least one reason and none twice. *)
Theorem evaluateWalletGuardPolicy_exact h ref pol sim r :
  evaluateWalletGuardPolicy h ref pol sim = Ok r <->
  exists i p c status,
    validateWalletGuardIntent (ir_value ref) = Ok i /\ ir_normalized ref = true /\
    ac_class (wi_action i) = class_name c /\
    normalizePolicy h pol = Ok p /\ normalizeSimulation h sim = Ok status /\
    r = policy_verdict p i status /\
    (pr_decision r = DENY <-> ~ tolerates p i c status) /\
    (pr_decision r = INDETERMINATE <-> tolerates p i c status /\ undecided p i c status) /\
    (pr_decision r = ALLOW <-> tolerates p i c status /\ ~ undecided p i c status) /\
    pr_reasons r <> [] /\ NoDup (pr_reasons r) /\ pr_policy_id r = po_id p /\
    pr_policy_hash r = sha256Hex (policy_input (canonicalizeNormalizedPolicy p)).
Proof.
  rewrite evaluate_Ok. split; intros (i & p & c & status & Hi & Hn & Hc & Hp & Hs & H);
    exists i, p, c, status; do 5 (split; [done|]); [|by destruct H].
  subst r. pose proof (policy_verdict_decides p i c status Hc) as (? & ? & ?). do 4 (split; [done|]).
  unfold policy_verdict. cbv zeta.
  destruct (denyReasons p i status); [destruct (indeterminateReasons p i status)|];
    cbn [length Nat.ltb Nat.leb]; by apply makeResult_reasons.
Qed.

(** ** The hash of a policy *)

Lemma canonicalStringArray_inj l l' r r' :
  canonicalStringArray l ++ r = canonicalStringArray l' ++ r' -> l = l' /\ r = r'.
Proof.
  unfold canonicalStringArray. rewrite <- !app_assoc. intros H%app_inv_head. revert l' H.
  assert (forall s m t, json_string s ++ t = js "]" ++ m -> False) as Hclose by done.
  assert (forall s (ss : list jsstr) t, join_comma (json_string <$> s :: ss) ++ t =
    json_string s ++ match ss with [] => t | _ => js "," ++ join_comma (json_string <$> ss) ++ t end) as Hjoin.
  { intros s ss t. destruct ss as [|s' ss]; [done|]. rewrite fmap_cons, join_comma_cons by done.
    by rewrite <- !app_assoc. }
  induction l as [|s l IH]; intros [|s' l'] H.
  - do 2 apply app_inv_head in H. by rewrite H.
  - rewrite Hjoin in H. by symmetry in H.
  - by rewrite Hjoin in H.
  - rewrite !Hjoin in H. apply json_string_inj in H as [-> H].
    destruct l as [|x l], l' as [|x' l']; try done.
    + apply app_inv_head in H. by rewrite H.
    + apply app_inv_head, (IH (x' :: l')) in H as [-> ->]. done.
Qed.

Lemma canonicalizeNormalizedPolicy_inj p p' :
  canonicalizeNormalizedPolicy p = canonicalizeNormalizedPolicy p' -> p = p'.
Proof.
  unfold canonicalizeNormalizedPolicy. intros H.
  repeat first [apply canonicalStringArray_inj in H as [? H] | progress same_parts H].
  destruct p, p'. cbn in *. by subst.
Qed.

(** The hash in a result binds the whole policy: two results with the same
    policy hash come from the same normalised policy, with all its lists and
    limits, or the texts hashed are a SHA-256 collision. *)
Theorem policy_hash_binds h ref pol sim r h' ref' pol' sim' r' :
  evaluateWalletGuardPolicy h ref pol sim = Ok r ->
  evaluateWalletGuardPolicy h' ref' pol' sim' = Ok r' ->
  pr_policy_hash r = pr_policy_hash r' ->
  exists p p', normalizePolicy h pol = Ok p /\ normalizePolicy h' pol' = Ok p' /\
    (p = p' \/
     (let t := policy_input (canonicalizeNormalizedPolicy p) in
      let t' := policy_input (canonicalizeNormalizedPolicy p') in t <> t' /\ sha256Hex t = sha256Hex t')).
Proof.
  intros (i & p & _ & s & _ & _ & _ & Hp & _ & ->)%evaluate_Ok
    (i' & p' & _ & s' & _ & _ & _ & Hp' & _ & ->)%evaluate_Ok E.
  exists p, p'. split; [done|]. split; [done|].
  assert (forall p i s, pr_policy_hash (policy_verdict p i s) =
    sha256Hex (policy_input (canonicalizeNormalizedPolicy p))) as Hhash.
  { intros q j t. unfold policy_verdict. by repeat case_match. }
  rewrite !Hhash in E.
  destruct (decide (canonicalizeNormalizedPolicy p = canonicalizeNormalizedPolicy p')) as [Ec|Ec];
    [left; by apply canonicalizeNormalizedPolicy_inj|right].
  split; [|done]. unfold policy_input. by intros ?%app_inv_head.
Qed.

(** ** What an allowed request can do *)

(** The limits of the policy on a number that is granted. *)
Definition amount_permitted (p : policy) (z : Z) : Prop :=
  z <= bigint_of (po_max_token p) /\ (po_deny_unlimited p = true -> z <> 2 ^ 256 - 1).
Definition call_permitted (p : policy) (c : abi_call) : Prop :=
  match c with
  | CallApprove spender z => spender ∈ po_spenders p /\ amount_permitted p z
  | CallTransfer recipient z => recipient ∈ po_recipients p /\ z <= bigint_of (po_max_token p)
  | CallOperator operator approved =>
      operator ∈ po_spenders p /\ (po_deny_operator p = true -> approved = false)
  end.
(** The typed data is a permit within the policy. *)
Inductive signature_permitted (p : policy) (account chain : jsstr) (typed : jsv) : Prop :=
  | permit_permitted spender contract amount :
      let message := get (js "message") typed in
      isExactEip2612Permit typed = true -> names_chain typed (Some chain) ->
      names_contract typed (Some contract) -> contract ∈ po_contracts p -> contract ∈ po_targets p ->
      says_address (get (js "owner") message) account ->
      says_address (get (js "spender") message) spender -> spender ∈ po_spenders p ->
      numberish (get (js "value") message) = Some amount -> amount_permitted p amount ->
      signature_permitted p account chain typed
  | permit2_permitted token spender contract amount :
      let message := get (js "message") typed in
      let details := get (js "details") message in
      isExactPermit2Single typed = true -> names_chain typed (Some chain) ->
      names_contract typed (Some contract) -> contract ∈ po_contracts p ->
      says_address (get (js "token") details) token -> token ∈ po_targets p ->
      says_address (get (js "spender") message) spender -> spender ∈ po_spenders p ->
      numberish (get (js "amount") details) = Some amount -> 0 <= amount < 2 ^ 160 ->
      amount_permitted p amount ->
      signature_permitted p account chain typed.
Inductive request_permitted (p : policy) (account chain status : jsstr) : jsstr -> list jsv -> Prop :=
  | transfer_permitted tx target value :
      sends account tx target value (js "0x") ->
      target ∈ po_recipients p -> value <= bigint_of (po_max_native p) ->
      request_permitted p account chain status (js "eth_sendTransaction") [tx]
  | transaction_permitted tx target value c :
      sends account tx target value (encode_call c) -> call_ok c ->
      target ∈ po_targets p -> value <= bigint_of (po_max_native p) ->
      call_permitted p c -> status = js "pass" ->
      request_permitted p account chain status (js "eth_sendTransaction") [tx]
  | typed_data_permitted v data typed :
      says_address v account -> parseTypedData data = Ok typed ->
      signature_permitted p account chain typed -> status = js "pass" ->
      request_permitted p account chain status (js "eth_signTypedData_v4") [v; data].

Lemma at_most_decimal z limit : 0 <= z -> at_most (Some (bigint_to_decimal z)) limit -> z <= bigint_of limit.
Proof. intros Hz (s & [= <-] & _ & H). by rewrite (proj2 (decimal_of_nonneg z Hz)) in H. Qed.

Lemma listed_some l s : listed l (Some s) -> s ∈ l.
Proof. by intros (? & [= <-] & ?). Qed.

Lemma allowance_decimal p a z :
  0 <= z -> ac_allowance a = Some (bigint_to_decimal z) -> allowance_allowed p a -> amount_permitted p z.
Proof.
  intros Hz Ha [Hu Hm]. rewrite Ha in Hu, Hm. split; [by apply at_most_decimal|].
  intros Hd ->. by apply Hu.
Qed.

Lemma sends_value_nonneg account tx target value data : sends account tx target value data -> 0 <= value.
Proof. intros []. by apply bigint_of_quantity. Qed.

Lemma decided_status p a c i status :
  ~ undecided p i c status -> wi_action i = a -> ac_simulation a = true -> ~ critical c /\ status = js "pass".
Proof.
  intros Hu <- Hs. split; [intros ?; apply Hu; by left|].
  destruct (decide (status = js "pass")); [done|]. exfalso. apply Hu. right. split; [by left|done].
Qed.

Lemma class_name_inj c c' : class_name c = class_name c' -> c = c'.
Proof. by destruct c, c'. Qed.

Lemma transaction_permitted_of p i c status tx target value data d :
  wi_action i = call_action d target value -> ac_class (wi_action i) = class_name c ->
  sends (wi_account i) tx target value data -> reads_as data d ->
  tolerates p i c status -> ~ undecided p i c status ->
  request_permitted p (wi_account i) (po_chain_id p) status (js "eth_sendTransaction") [tx].
Proof.
  intros Ha Hc Hs Hd Ht Hu. pose proof (sends_value_nonneg _ _ _ _ _ Hs) as Hvalue.
  pose proof (to_native _ _ _ _ Ht) as Hnative. pose proof (to_effect _ _ _ _ Ht) as He.
  unfold effect_allowed in He. cbv zeta in He.
  rewrite Ha in Hc, Hnative, He. apply at_most_decimal in Hnative; [|done].
  destruct Hd as [E|call Hok E|Hl Hsel]; subst; cbn in Hc.
  - apply class_name_inj in Hc as <-. eapply transfer_permitted; [done| |done]. by apply listed_some.
  - assert (~ critical c /\ status = js "pass") as [_ Hstatus] by (eapply decided_status; [done..|by destruct call]).
    destruct call as [a z|a z|a b]; cbn in Hc; apply class_name_inj in Hc as <-;
      cbn [call_action decoded_of ac_target ac_spender ac_recipient ac_amount ac_approval dc_spender
           dc_recipient dc_amount dc_approval dc_class] in He;
      destruct He as (?%listed_some & ?%listed_some & He); 
      (eapply transaction_permitted; [done..| |done]); cbn [call_permitted].
    + split; [done|]. eapply allowance_decimal; [| |exact He]; [apply Hok|done].
    + split; [done|]. apply at_most_decimal; [apply Hok|exact He].
    + split; [done|]. intros Hdeny. destruct b; [|done]. by apply He in Hdeny.
  - apply class_name_inj in Hc as <-.
    destruct (decided_status p _ _ i status Hu Ha eq_refl) as [Hcrit _]. destruct Hcrit. unfold critical. set_solver.
Qed.

Lemma signature_permitted_of p i c status v data d :
  wi_action i = typed_action d -> ac_class (wi_action i) = class_name c ->
  says_address v (wi_account i) -> signs (wi_account i) data d ->
  tolerates p i c status -> ~ undecided p i c status ->
  request_permitted p (wi_account i) (po_chain_id p) status (js "eth_signTypedData_v4") [v; data].
Proof.
  intros Ha Hc Hv (typed & text & Hparse & _ & _ & Hd & Howner) Ht Hu.
  pose proof (to_effect _ _ _ _ Ht) as He. pose proof (to_chain _ _ _ _ Ht) as Hchain.
  unfold effect_allowed, permit_allowed in He. cbv zeta in He. rewrite Ha in Hc, He.
  assert (ac_simulation (typed_action d) = true) as Hsim by (by destruct Hd).
  destruct (decided_status p _ c i status Hu Ha Hsim) as [Hcrit Hstatus].
  eapply typed_data_permitted; [done|done| |done].
  destruct Hd as [spender owner amount chain contract message Hp Hx Hch Hco Hsp How Ham|
    token spender amount chain contract message Hp Hx Hch Hco Htk Hsp Ham|primary chain contract];
    cbn in Hc.
  - apply class_name_inj in Hc as <-. cbn in He.
    destruct He as ((Htarget%listed_some & Hspender%listed_some & [= ->] & Hcontract%listed_some & Hall) & [= ->]).
    destruct Ham as (z & Hz & Hb & ->).
    eapply (permit_permitted _ _ _ _ spender contract z); try done; [by rewrite <- Hchain|].
    eapply allowance_decimal; [| |exact Hall]; [apply Hb|done].
  - apply class_name_inj in Hc as <-. cbn in He.
    destruct He as (Htarget%listed_some & Hspender%listed_some & [= ->] & Hcontract%listed_some & Hall).
    destruct Ham as (z & Hz & Hb & ->).
    eapply (permit2_permitted _ _ _ _ token spender contract z); try done; [by rewrite <- Hchain|].
    eapply allowance_decimal; [| |exact Hall]; [apply Hb|done].
  - destruct Hcrit. unfold critical. destruct (str_eqb primary (js "PermitBatch"));
      apply class_name_inj in Hc as <-; set_solver.
Qed.

(** A normalised request whose verdict is to allow. *)
Lemma verdict_within_policy input i p c status :
  normalizeWalletGuardIntent input = Ok i -> ac_class (wi_action i) = class_name c ->
  pr_decision (policy_verdict p i status) = ALLOW ->
  exists params, vouched input i params /\ po_enabled p = true /\ po_kill_switch p = false /\
    wi_origin i ∈ po_origins p /\ wi_chain_id i = po_chain_id p /\
    request_permitted p (wi_account i) (po_chain_id p) status (wi_rpc_method i) params.
Proof.
  intros Hnorm Hc Hallow. apply (policy_verdict_decides p i c status Hc) in Hallow as [Ht Hu].
  apply normalized_means in Hnorm as (params & Hv & Hm).
  exists params. split; [done|]. do 4 (split; [by apply Ht|]).
  remember (wi_rpc_method i) as method eqn:Emethod. remember (wi_action i) as a eqn:Ea. symmetry in Ea.
  destruct Hm as [tx target value data d Hsend Hd|v data d Hv' Hd|m ps text Hin Hl Htext|m ps text Hin Htext].
  - eapply transaction_permitted_of; [done| |done..]. by rewrite Ea.
  - eapply signature_permitted_of; [done| |done..]. by rewrite Ea.
  - apply (class_name_inj GenericSignature) in Hc as <-. destruct Hu. left. unfold critical. set_solver.
  - apply (class_name_inj UnsupportedRpc) in Hc as <-. destruct Hu. left. unfold critical. set_solver.
Qed.

(** C2: From the page to the decision: when a request is normalised to an intent
    and a policy allows that intent, the wallet vouches for its origin, chain and
    account, the policy is live and lists that origin and chain, and the request
    is one of three: a transfer of native value to a listed recipient; a
    transaction whose data is the ABI encoding of an approval, transfer or operator
    change for a listed contract and party within the policy's limits; or typed
    data that is an exact permit of the account for a listed contract and spender
    within them.  The last two have passed their simulation; plain signatures and
    unknown calls are never allowed. *)
Theorem allowed_request_within_policy input i h pol sim r :
  normalizeWalletGuardIntent input = Ok i ->
  evaluateWalletGuardPolicy h {| ir_value := intent_value i; ir_normalized := true |} pol sim = Ok r ->
  pr_decision r = ALLOW ->
  exists p status params,
    normalizePolicy h pol = Ok p /\ normalizeSimulation h sim = Ok status /\ vouched input i params /\
    po_enabled p = true /\ po_kill_switch p = false /\
    wi_origin i ∈ po_origins p /\ wi_chain_id i = po_chain_id p /\
    request_permitted p (wi_account i) (po_chain_id p) status (wi_rpc_method i) params.
Proof.
  intros Hnorm (i' & p & c & status & Hi & _ & Hc & Hp & Hs & ->)%evaluate_Ok Hallow.
  assert (i' = i) as ->.
  { pose proof (validate_complete _ _ (shows_intent_value i) (normalized_valid _ _ Hnorm)) as E.
    change (validateWalletGuardIntent (intent_value i) = Ok i') in Hi. congruence. }
  destruct (verdict_within_policy _ _ _ _ _ Hnorm Hc Hallow) as (params & H).
  by exists p, status, params.
Qed.
End policy_properties.

(** ** A concrete decision *)

Section policy_witnesses.
#[local] Existing Instances plain_string_host checksum_hash_host iso_date_host plain_url_host.

Definition field_of (k : string) (v : hval) : jsstr * prop :=
  (js k, {| p_enumerable := true; p_content := Data v |}).
Definition record_of (props : list (jsstr * prop)) : hobj :=
  {| o_proxy := false; o_proto := ObjectPrototype; o_array := None; o_symbols := 0; o_props := props |}.
Definition list_of (l : list jsstr) : hobj :=
  {| o_proxy := false; o_proto := ArrayPrototype; o_array := Some (Z.of_nat (length l)); o_symbols := 0;
     o_props := imap (fun n s => (string_of_Z (Z.of_nat n), {| p_enumerable := true; p_content := Data (HStr s) |})) l |}.

(** Object 0 is a policy, objects 1 to 6 its lists, object 7 a passed simulation. *)
Definition sample_policy_fields : list (jsstr * prop) :=
  [field_of "schema_version" (HStr WALLET_GUARD_POLICY_SCHEMA_VERSION);
   field_of "policy_id" (HStr (js "policy/0001")); field_of "enabled" (HBool true);
   field_of "kill_switch" (HBool false); field_of "expected_chain_id" (HStr (js "0x1"));
   field_of "allowed_origins" (HRef 1%nat); field_of "allowed_targets" (HRef 2%nat);
   field_of "allowed_recipients" (HRef 3%nat); field_of "allowed_spenders" (HRef 4%nat);
   field_of "allowed_typed_data_verifying_contracts" (HRef 5%nat);
   field_of "max_native_value" (HStr (js "0")); field_of "max_token_amount" (HStr (js "1000"));
   field_of "deny_unlimited_allowance" (HBool true); field_of "deny_operator_approval" (HBool true);
   field_of "require_simulation_for" (HRef 6%nat)].
Definition sample_policy_heap : heap := fun l =>
  match l with
  | 0%nat => record_of sample_policy_fields
  | 1%nat => list_of [js "https://app.example"]
  | 2%nat => list_of [sample_address 52]
  | 4%nat => list_of [sample_address 49; sample_address 51]
  | 6%nat => list_of [class_name Erc20Approve]
  | 7%nat => record_of [field_of "status" (HStr (js "pass"))]
  | _ => list_of []
  end.
Definition sample_policy : policy :=
  {| po_id := js "policy/0001"; po_enabled := true; po_kill_switch := false; po_chain_id := js "0x1";
     po_origins := [js "https://app.example"]; po_targets := [sample_address 52]; po_recipients := [];
     po_spenders := [sample_address 49; sample_address 51]; po_contracts := []; po_max_native := js "0";
     po_max_token := js "1000"; po_deny_unlimited := true; po_deny_operator := true;
     po_simulation_for := [class_name Erc20Approve] |}.

Definition sample_ref : intent_ref := {| ir_value := intent_value sample_intent; ir_normalized := true |}.
Definition sample_result : policy_result :=
  makeResult ALLOW [js "WG_POLICY_ALLOW_EXACT"] sample_policy.
Lemma sample_evaluated :
  evaluateWalletGuardPolicy sample_policy_heap sample_ref (HRef 0%nat) (HRef 7%nat) = Ok sample_result.
Proof. vm_compute. reflexivity. Qed.

(** Without the simulation the same intent is indeterminate. *)
Example unsimulated_indeterminate :
  pr_decision <$> evaluateWalletGuardPolicy sample_policy_heap sample_ref (HRef 0%nat) HUndef
  = Ok INDETERMINATE.
Proof. vm_compute. reflexivity. Qed.

Lemma allowed_request_within_policy_witness :
  exists p status params,
    normalizePolicy sample_policy_heap (HRef 0%nat) = Ok p /\
    normalizeSimulation sample_policy_heap (HRef 7%nat) = Ok status /\
    vouched sample_request_input sample_intent params /\
    po_enabled p = true /\ po_kill_switch p = false /\
    wi_origin sample_intent ∈ po_origins p /\ wi_chain_id sample_intent = po_chain_id p /\
    request_permitted p (wi_account sample_intent) (po_chain_id p) status
      (wi_rpc_method sample_intent) params.
Proof.
  apply (allowed_request_within_policy sample_request_input sample_intent sample_policy_heap
    (HRef 0%nat) (HRef 7%nat) sample_result);
    [apply sample_intent_normalized|apply sample_evaluated|reflexivity].
Defined.

Lemma policy_hash_binds_witness :
  exists p p', normalizePolicy sample_policy_heap (HRef 0%nat) = Ok p /\
    normalizePolicy sample_policy_heap (HRef 0%nat) = Ok p' /\
    (p = p' \/
     (let t := policy_input (canonicalizeNormalizedPolicy p) in
      let t' := policy_input (canonicalizeNormalizedPolicy p') in t <> t' /\ sha256Hex t = sha256Hex t')).
Proof.
  apply (policy_hash_binds sample_policy_heap sample_ref (HRef 0%nat) (HRef 7%nat) sample_result
    sample_policy_heap sample_ref (HRef 0%nat) (HRef 7%nat) sample_result);
    [apply sample_evaluated|apply sample_evaluated|reflexivity].
Defined.
End policy_witnesses.
