(* ===== verification/DecodedEffect.v ===== *)
(** * The decoded effects of the Wallet Guard

    Models [applications/blockchain-digital-assets/wallet-guard/decoded-effect-evidence.mjs]:
    the evidence of what a normalised intent asks for.  The theorem is that the
    consistency check of the module never rejects an intent the normaliser made. *)
From S2P Require Import Prelude JsDate JsValue ProofSdk Json Canonical Normal EvmDecoders WalletIntent.

#[local] Arguments js : simpl never.

Definition WALLET_GUARD_DECODED_EFFECT_SCHEMA_VERSION : jsstr := js "wallet_guard_decoded_effect/0.1".
Definition WALLET_GUARD_DECODED_EFFECT_COMMIT_DOMAIN : jsstr :=
  js "swisstokint:pom-rx-wallet-guard-decoded-effect:v1:".
Definition KNOWN_CLASSES : list (jsstr * jsstr) :=
  (fun '(c, s) => (class_name c, js s)) <$>
  [(NativeTransfer, "native_transfer_request"); (Erc20Transfer, "erc20_transfer_request");
   (Erc20Approve, "erc20_allowance_request"); (SetApprovalForAll, "operator_approval_request");
   (PermitEip2612, "permit_authorization_request"); (Permit2Single, "permit_authorization_request")]%string.
Definition unknown_semantics : jsstr := js "unknown_request_semantics".

Definition effect_fail (code : string) (msg : string) : jserr := Err EffectErr (js code) (js msg).
Definition inconsistent (what : string) : jserr :=
  Err EffectErr (js "POMRX_WG_EFFECT_E_INTENT_INCONSISTENT") (js what ++ js " is internally inconsistent").

(** [intent[field] === null] *)
Definition is_null {A} (o : option A) : bool := match o with None => true | Some _ => false end.
Definition no_typed_data (a : action) : bool :=
  is_null (ac_owner a) && is_null (ac_domain_chain_id a) && is_null (ac_contract a).
Definition from_calldata (a : action) : bool :=
  negb (is_null (ac_calldata_sha256 a)) && is_null (ac_typed_data_sha256 a).
Definition from_typed_data (a : action) : bool :=
  negb (is_null (ac_typed_data_sha256 a)) && is_null (ac_calldata_sha256 a).

Definition assertSemanticConsistency (i : intent) (semanticClass : jsstr) : res unit :=
  let a := wi_action i in
  if is_class a NativeTransfer then
    guard_or (negb (is_null (ac_target a)) && bool_decide (ac_recipient a = ac_target a)
              && from_calldata a && is_null (ac_spender a) && is_null (ac_allowance a)
              && is_null (ac_amount a) && is_null (ac_approval a) && no_typed_data a)
      (inconsistent "native transfer intent")
  else if is_class a Erc20Transfer then
    guard_or (negb (is_null (ac_target a)) && negb (is_null (ac_recipient a)) && negb (is_null (ac_amount a))
              && from_calldata a && is_null (ac_spender a) && is_null (ac_allowance a)
              && is_null (ac_approval a) && no_typed_data a)
      (inconsistent "ERC-20 transfer intent")
  else if is_class a Erc20Approve then
    guard_or (negb (is_null (ac_target a)) && negb (is_null (ac_spender a)) && negb (is_null (ac_allowance a))
              && from_calldata a && is_null (ac_recipient a) && is_null (ac_amount a)
              && is_null (ac_approval a) && no_typed_data a)
      (inconsistent "ERC-20 approval intent")
  else if is_class a SetApprovalForAll then
    guard_or (negb (is_null (ac_target a)) && negb (is_null (ac_spender a)) && negb (is_null (ac_approval a))
              && from_calldata a && is_null (ac_recipient a) && is_null (ac_allowance a)
              && is_null (ac_amount a) && no_typed_data a)
      (inconsistent "operator approval intent")
  else if is_class a PermitEip2612 then
    guard_or (negb (is_null (ac_target a)) && negb (is_null (ac_spender a)) && negb (is_null (ac_allowance a))
              && bool_decide (ac_owner a = Some (wi_account i)) && from_typed_data a
              && negb (is_null (ac_domain_chain_id a)) && bool_decide (ac_contract a = ac_target a)
              && is_null (ac_recipient a) && is_null (ac_amount a) && is_null (ac_approval a))
      (inconsistent "EIP-2612 Permit intent")
  else if is_class a Permit2Single then
    guard_or (negb (is_null (ac_target a)) && negb (is_null (ac_spender a)) && negb (is_null (ac_allowance a))
              && from_typed_data a && negb (is_null (ac_domain_chain_id a)) && negb (is_null (ac_contract a))
              && is_null (ac_owner a) && is_null (ac_recipient a) && is_null (ac_amount a)
              && is_null (ac_approval a))
      (inconsistent "Permit2 intent")
  else guard_or (str_eqb semanticClass unknown_semantics)
         (effect_fail "POMRX_WG_EFFECT_E_INTENT_INCONSISTENT" "unknown intent class received known semantics").

(** The evidence: the payload with its canonical text and commitment. *)
Record decoded_effect := { de_payload : jsv; de_canonical : jsstr; de_commitment : jsstr }.

Section effects.
Context `{SH : !StringHost, HH : !HashHost, DH : !DateHost, UH : !UrlHost}.

Definition semantic_class (a : action) : jsstr :=
  default unknown_semantics (alist_get (ac_class a) KNOWN_CLASSES).

(** The payload of the evidence *)
Definition effect_payload (i : intent) (intentCommitment : jsstr) : jsv :=
  let a := wi_action i in
  let known := negb (str_eqb (semantic_class a) unknown_semantics) in
  VObj PObject
    [(js "schema_version", VStr WALLET_GUARD_DECODED_EFFECT_SCHEMA_VERSION);
     (js "request_id", VStr (wi_request_id i)); (js "intent_commitment", VStr intentCommitment);
     (js "origin", VStr (wi_origin i)); (js "chain_id", VStr (wi_chain_id i));
     (js "account", VStr (wi_account i)); (js "rpc_method", VStr (wi_rpc_method i));
     (js "request_class", VStr (ac_class a));
     (js "semantic_status", VStr (if known then js "known" else js "unknown"));
     (js "semantic_class", VStr (semantic_class a)); (js "target", or_null (ac_target a));
     (js "spender", or_null (ac_spender a)); (js "recipient", or_null (ac_recipient a));
     (js "native_value", VStr (ac_native_value a)); (js "requested_allowance", or_null (ac_allowance a));
     (js "token_amount", or_null (ac_amount a));
     (js "requested_operator_approval", or_null_bool (ac_approval a));
     (js "typed_data_owner", or_null (ac_owner a));
     (js "typed_data_domain_chain_id", or_null (ac_domain_chain_id a));
     (js "typed_data_verifying_contract", or_null (ac_contract a));
     (js "calldata_sha256", or_null (ac_calldata_sha256 a));
     (js "typed_data_sha256", or_null (ac_typed_data_sha256 a));
     (js "simulation_required", VBool (ac_simulation a));
     (js "recognized_effect_fields_proved", VBool known);
     (js "complete_semantic_projection_proved", VBool false);
     (js "target_code_semantics_proved", VBool false); (js "normalized_intent_bound", VBool true);
     (js "external_state_proved", VBool false); (js "external_effect_proved", VBool false);
     (js "reference_only", VBool true)].

Definition deriveWalletGuardDecodedEffectEvidence (ref : intent_ref) : res decoded_effect :=
  _ ← guard_or (ir_normalized ref)
        (effect_fail "POMRX_WG_EFFECT_E_LOCAL_INTENT_REQUIRED"
           "decoded effect evidence requires the exact locally normalized Wallet Guard intent object");
  '(_, intentCommitment) ← commitWalletGuardIntent (ir_value ref);
  i ← validateWalletGuardIntent (ir_value ref);
  _ ← assertSemanticConsistency i (semantic_class (wi_action i));
  let payload := effect_payload i intentCommitment in
  canonical ← canonicalizePayload payload;
  Ok {| de_payload := payload; de_canonical := canonical;
        de_commitment := sha256Hex (WALLET_GUARD_DECODED_EFFECT_COMMIT_DOMAIN ++ canonical) |}.
End effects.

(** ** Normalised intents are consistent *)

Section effect_properties.
Context `{SH : !StringHost, HH : !HashHost, DH : !DateHost, UH : !UrlHost}.

Lemma semantic_class_name a c :
  ac_class a = class_name c ->
  semantic_class a = default unknown_semantics (alist_get (class_name c) KNOWN_CLASSES).
Proof. unfold semantic_class. by intros ->. Qed.

Lemma assertSemanticConsistency_means i method params :
  request_means (wi_account i) method params (wi_action i) ->
  assertSemanticConsistency i (semantic_class (wi_action i)) = Ok tt.
Proof.
  intros Hm. destruct i as [id origin chain account m a]. cbn [wi_account wi_action] in *.
  destruct Hm as [tx target value data d _ Hd|v data d _ (typed & text & _ & _ & _ & Hd & Howner)|m' ps text _ _ _|m' ps text _ _].
  - destruct Hd as [E|[sp z|rc z|op b] Hc E|Hl Hsel]; try by vm_compute.
    unfold assertSemanticConsistency. cbv zeta. rewrite (is_class_name _ NativeTransfer) by done.
    cbn. by rewrite !bool_decide_eq_true_2.
  - destruct Hd as [spender owner amount chain' contract message|token spender amount chain' contract message|
      primary chain' contract].
    + specialize (Howner eq_refl). injection Howner as ->.
      unfold assertSemanticConsistency. cbv zeta. rewrite !(is_class_name _ PermitEip2612) by done.
      class_cases. cbn. by rewrite !bool_decide_eq_true_2.
    + by vm_compute.
    + by destruct (str_eqb primary (js "PermitBatch")) eqn:E; cbn -[str_eqb]; rewrite ?E; vm_compute.
  - by vm_compute.
  - by vm_compute.
Qed.

(** C39: For an intent the normaliser made, the evidence of its effect is its
    canonical payload and never fails the consistency check; it is reported as
    known exactly for the six classes of decoded effects. *)
Theorem decoded_effect_exact input i :
  normalizeWalletGuardIntent input = Ok i ->
  let commitment := sha256Hex (intent_input (canonicalizeValidatedIntent i)) in
  deriveWalletGuardDecodedEffectEvidence {| ir_value := intent_value i; ir_normalized := true |} =
    (canonical ← canonicalizePayload (effect_payload i commitment);
     Ok {| de_payload := effect_payload i commitment; de_canonical := canonical;
           de_commitment := sha256Hex (WALLET_GUARD_DECODED_EFFECT_COMMIT_DOMAIN ++ canonical) |}) /\
  (get (js "semantic_status") (effect_payload i commitment) = VStr (js "known") <->
   exists c, ac_class (wi_action i) = class_name c /\
     c ∈ [NativeTransfer; Erc20Transfer; Erc20Approve; SetApprovalForAll; PermitEip2612; Permit2Single]).
Proof.
  intros Hn commitment. pose proof (normalized_valid _ _ Hn) as Hv.
  apply normalized_means in Hn as (params & _ & Hm). split.
  - unfold deriveWalletGuardDecodedEffectEvidence, commitWalletGuardIntent. cbn [ir_normalized ir_value guard_or mbind res_bind].
    rewrite (validate_complete _ i (shows_intent_value i) Hv). cbn [mbind res_bind].
    by rewrite (assertSemanticConsistency_means _ _ _ Hm).
  - assert (exists c, ac_class (wi_action i) = class_name c) as [c Hc].
    { destruct Hm as [? ? ? ? ? _ _|? ? ? _ _|? ? ? _ _ _|? ? ? _ _]; by eexists. }
    assert (get (js "semantic_status") (effect_payload i commitment) =
      VStr (if negb (str_eqb (semantic_class (wi_action i)) unknown_semantics) then js "known" else js "unknown"))
      as -> by done.
    rewrite (semantic_class_name _ c Hc). split.
    + intros H. exists c. split; [done|]. revert H. destruct c; try (by vm_compute); intros _; set_solver.
    + intros (c' & Hc' & Hin). assert (c' = c) as ->.
      { rewrite Hc in Hc'. destruct c, c'; try done. }
      revert Hin. rewrite !elem_of_cons, elem_of_nil. by intros [->|[->|[->|[->|[->|[->|[]]]]]]].
Qed.
End effect_properties.

Section effect_witnesses.
#[local] Existing Instances plain_string_host checksum_hash_host iso_date_host plain_url_host.

Lemma decoded_effect_exact_witness :
  is_ok (deriveWalletGuardDecodedEffectEvidence
           {| ir_value := intent_value sample_intent; ir_normalized := true |}) = true /\
  (get (js "semantic_status")
     (effect_payload sample_intent (sha256Hex (intent_input (canonicalizeValidatedIntent sample_intent))))
   = VStr (js "known") <->
   exists c, ac_class (wi_action sample_intent) = class_name c /\
     c ∈ [NativeTransfer; Erc20Transfer; Erc20Approve; SetApprovalForAll; PermitEip2612; Permit2Single]).
Proof.
  split; [vm_compute; reflexivity|].
  apply (decoded_effect_exact sample_request_input sample_intent). apply sample_intent_normalized.
Defined.
End effect_witnesses.
