(* ===== verification/WalletBoundary.v ===== *)
(** * The boundaries of the Wallet Guard

    The modules of the Wallet Guard copy the records they are handed with the
    same checks; only the class, the code and one message of the errors differ. *)
From S2P Require Import Prelude JsDate JsValue ProofSdk JsHeap PlainData Authorization.

#[local] Arguments js : simpl never.

Section boundary.
(** [fail(code, message)] with the code of the call, and the message for a
    prototype that is not allowed. *)
Context (fail : jsstr -> jserr) (proto_message : string).

Definition captureExactRecord (h : heap) (value : hval) (expectedKeys : list jsstr) (label : string)
  : res snapshot :=
  o ← match object_of h value with
      | Some o => if bool_decide (o_array o = None) then Ok o
                  else Throw (fail (js label ++ js " must be a non-Proxy plain object"))
      | None => Throw (fail (js label ++ js " must be a non-Proxy plain object"))
      end;
  _ ← guard_or (bool_decide (o_proto o ∈ [ObjectPrototype; NullPrototype]))
        (fail (js label ++ js proto_message));
  _ ← guard_or (o_symbols o =? 0)%nat (fail (js label ++ js " cannot contain symbol keys"));
  _ ← guard_or (same_keys (own_names o) expectedKeys)
        (fail (js label ++ js " has missing, hidden or unknown fields"));
  snapshot_keys o expectedKeys (fun key =>
    fail (js label ++ js "." ++ key ++ js " must be an enumerable data property")).

(** What the boundary lets through: a plain object with exactly the fields,
    all of them enumerable data. *)
Definition captures (h : heap) (v : hval) (keys : list jsstr) (s : snapshot) : Prop :=
  exists l, v = HRef l /\ plain_object (h l) = true /\ own_names (h l) ≡ₚ keys /\
    Forall2 (fun key kv => kv.1 = key /\
      own_descriptor (h l) key = Some {| p_enumerable := true; p_content := Data kv.2 |}) keys s.

Lemma captureExactRecord_Ok h v keys label s :
  captureExactRecord h v keys label = Ok s <-> captures h v keys s.
Proof.
  unfold captureExactRecord, captures, plain_object. split.
  - intros (o & Ho & H)%bind_Ok. apply guard_bind_Ok in H as [H1 H].
    apply guard_bind_Ok in H as [H2 H]. apply guard_bind_Ok in H as [Hk%same_keys_iff H].
    apply snapshot_keys_Ok in H. destruct v as [| | | | | | | |l]; try done. simpl in Ho.
    destruct (o_proxy (h l)) eqn:Ep; [done|].
    destruct (bool_decide (o_array (h l) = None)) eqn:Ea; [|done]. injection Ho as <-.
    exists l. by rewrite Ep, H1, H2, Ea.
  - intros (l & -> & Hp & Hk & Hf). rewrite !andb_true_iff, negb_true_iff in Hp.
    destruct Hp as [[[Hp Ha] Hpr] Hs]. cbn [object_of]. rewrite Hp, Ha. cbn [mbind res_bind].
    rewrite Hpr, Hs. cbn [guard_or mbind res_bind].
    rewrite (proj2 (same_keys_iff _ _)) by done. cbn [guard_or mbind res_bind].
    by apply snapshot_keys_Ok.
Qed.

Lemma captureExactRecord_field h l keys label s k :
  captureExactRecord h (HRef l) keys label = Ok s -> k ∈ keys ->
  own_descriptor (h l) k = Some {| p_enumerable := true; p_content := Data (snap_get k s) |}.
Proof.
  intros (l' & [= <-] & _ & _ & Hf)%captureExactRecord_Ok Hin. by eapply snap_get_Forall2.
Qed.

Lemma captures_inj h v keys s s' : captures h v keys s -> captures h v keys s' -> s = s'.
Proof.
  intros (l & -> & _ & _ & H) (? & [= <-] & _ & _ & H'). clear fail proto_message. revert s' H'.
  induction H as [|k [k1 x] keys s [Hk Hx] _ IH]; intros s' H'; inversion H' as [|? [k2 y] ? ? [Hk' Hy] ?]; subst; [done|].
  cbn in *. subst. rewrite Hx in Hy. injection Hy as ->. f_equal; eauto.
Qed.
End boundary.
