(* ===== verification/PolicyController.v ===== *)
(** * The policy controller of the Wallet Guard

    Models [applications/blockchain-digital-assets/wallet-guard/policy-controller.mjs]:
    one policy at a time, replaced by compare-and-set on its revision, with a kill
    switch.  An operation can run code of the caller before it ends - a getter of
    the intent, a property that a Proxy traps, a replaced built-in - and that code
    can call the controller again.  So the controller is a machine: an operation
    takes the lock, runs one segment after the other, and answers; calls may come
    between any two segments, and any segment may be cut short by an error.  The
    controller keeps the frozen policy [normalizePolicy] made; since nothing else
    is reachable from it, it is read on a heap of its own. *)
From S2P Require Import Prelude JsDate JsValue ProofSdk Json Canonical Normal JsHeap PlainData Authorization EvmDecoders WalletIntent WalletPolicy WalletBoundary.

#[local] Arguments js : simpl never.

Definition WALLET_GUARD_POLICY_STATE_SCHEMA_VERSION : jsstr := js "wallet_guard_policy_state/0.1".
Definition WALLET_GUARD_POLICY_STATE_COMMIT_DOMAIN : jsstr :=
  js "swisstokint:pom-rx-wallet-guard-policy-state:v1:".
Definition CONTROLLER_BOOTSTRAP_KEYS : list jsstr := [js "policy"].
Definition REPLACE_KEYS : list jsstr := js <$> ["expected_revision"; "policy"].
Definition KILL_SWITCH_KEYS : list jsstr := [js "expected_revision"].

Definition state_fail (code : string) (msg : jsstr) : jserr :=
  Err PolicyStateErr (js "POMRX_WG_POLICY_STATE_E_" ++ js code) msg.

(** [captureExactDataRecord] of this module *)
Definition state_record : heap -> hval -> list jsstr -> string -> res snapshot :=
  captureExactRecord (state_fail "INVALID") " must use Object.prototype or a null prototype".

(** The snapshot; its other fields are constants or read off the policy. *)
Record policy_snapshot := {
  ps_policy : policy;
  ps_revision : Z;
  ps_policy_hash : jsstr;
  ps_commitment : jsstr;
}.

#[export] Instance policy_eq_dec : EqDecision policy.
Proof. solve_decision. Defined.
#[export] Instance policy_snapshot_eq_dec : EqDecision policy_snapshot.
Proof. solve_decision. Defined.

(** The variables of a controller. *)
Record controller := {
  pc_policy_id : jsstr;
  pc_current : policy_snapshot;
  pc_busy : bool;
}.
Definition set_busy (c : controller) (busy : bool) : controller :=
  {| pc_policy_id := pc_policy_id c; pc_current := pc_current c; pc_busy := busy |}.
Definition set_current (c : controller) (next : policy_snapshot) : controller :=
  {| pc_policy_id := pc_policy_id c; pc_current := next; pc_busy := pc_busy c |}.

(** ** The frozen policy object *)

Definition frozen_field (k : string) (v : hval) : jsstr * prop :=
  (js k, {| p_enumerable := true; p_content := Data v |}).
Definition frozen_array (l : list jsstr) : hobj :=
  {| o_proxy := false; o_proto := ArrayPrototype; o_array := Some (Z.of_nat (length l)); o_symbols := 0;
     o_props := imap (fun n s => (string_of_Z (Z.of_nat n),
                   {| p_enumerable := true; p_content := Data (HStr s) |})) l |}.
Definition frozen_policy (p : policy) : heap := fun l =>
  match l with
  | 0%nat => {| o_proxy := false; o_proto := ObjectPrototype; o_array := None; o_symbols := 0; o_props :=
      [frozen_field "schema_version" (HStr WALLET_GUARD_POLICY_SCHEMA_VERSION);
       frozen_field "policy_id" (HStr (po_id p)); frozen_field "enabled" (HBool (po_enabled p));
       frozen_field "kill_switch" (HBool (po_kill_switch p));
       frozen_field "expected_chain_id" (HStr (po_chain_id p));
       frozen_field "allowed_origins" (HRef 1%nat); frozen_field "allowed_targets" (HRef 2%nat);
       frozen_field "allowed_recipients" (HRef 3%nat); frozen_field "allowed_spenders" (HRef 4%nat);
       frozen_field "allowed_typed_data_verifying_contracts" (HRef 5%nat);
       frozen_field "max_native_value" (HStr (po_max_native p));
       frozen_field "max_token_amount" (HStr (po_max_token p));
       frozen_field "deny_unlimited_allowance" (HBool (po_deny_unlimited p));
       frozen_field "deny_operator_approval" (HBool (po_deny_operator p));
       frozen_field "require_simulation_for" (HRef 6%nat)] |}
  | 1%nat => frozen_array (po_origins p)
  | 2%nat => frozen_array (po_targets p)
  | 3%nat => frozen_array (po_recipients p)
  | 4%nat => frozen_array (po_spenders p)
  | 5%nat => frozen_array (po_contracts p)
  | _ => frozen_array (po_simulation_for p)
  end.

(** The same object as the value [canonicalizePayload] gets. *)
Definition string_array (l : list jsstr) : jsv := VArr (VStr <$> l).
Definition policy_value (p : policy) : jsv :=
  VObj PObject
    [(js "schema_version", VStr WALLET_GUARD_POLICY_SCHEMA_VERSION); (js "policy_id", VStr (po_id p));
     (js "enabled", VBool (po_enabled p)); (js "kill_switch", VBool (po_kill_switch p));
     (js "expected_chain_id", VStr (po_chain_id p));
     (js "allowed_origins", string_array (po_origins p));
     (js "allowed_targets", string_array (po_targets p));
     (js "allowed_recipients", string_array (po_recipients p));
     (js "allowed_spenders", string_array (po_spenders p));
     (js "allowed_typed_data_verifying_contracts", string_array (po_contracts p));
     (js "max_native_value", VStr (po_max_native p)); (js "max_token_amount", VStr (po_max_token p));
     (js "deny_unlimited_allowance", VBool (po_deny_unlimited p));
     (js "deny_operator_approval", VBool (po_deny_operator p));
     (js "require_simulation_for", string_array (po_simulation_for p))].

Definition policyWithKillSwitch (p : policy) : policy :=
  {| po_id := po_id p; po_enabled := po_enabled p; po_kill_switch := true; po_chain_id := po_chain_id p;
     po_origins := po_origins p; po_targets := po_targets p; po_recipients := po_recipients p;
     po_spenders := po_spenders p; po_contracts := po_contracts p; po_max_native := po_max_native p;
     po_max_token := po_max_token p; po_deny_unlimited := po_deny_unlimited p;
     po_deny_operator := po_deny_operator p; po_simulation_for := po_simulation_for p |}.

Section controller_ops.
Context `{SH : !StringHost, HH : !HashHost, DH : !DateHost, UH : !UrlHost}.

Definition normalizePolicyCandidate (h : heap) (rawPolicy : hval) : res policy :=
  catch (normalizeWalletGuardPolicy h rawPolicy) (fun error =>
    if bool_decide (err_cls error = WalletPolicyErr)
    then Throw (state_fail "POLICY" (js "Wallet Guard policy candidate is invalid"))
    else Throw error).

Definition assertRevision (value : hval) (field : string) : res Z :=
  let invalid := state_fail "INVALID" (js field ++ js " must be a non-negative safe integer") in
  match value with
  | HNum n =>
      match is_safe_integer (VNum n) with
      | Some z => if z <? 0 then Throw invalid else Ok z
      | None => Throw invalid
      end
  | _ => Throw invalid
  end.

Definition nextRevision (currentRevision : Z) : res Z :=
  _ ← guard_or (currentRevision <? max_safe_integer)
        (state_fail "REVISION_EXHAUSTED" (js "policy-state revision space is exhausted"));
  Ok (currentRevision + 1).

Definition commitPolicy (p : policy) : res jsstr :=
  canonicalPolicy ← canonicalizePayload (policy_value p);
  Ok (sha256Hex (policy_input canonicalPolicy)).

(** The payload of [commitState] *)
Definition state_payload (p : policy) (revision : Z) (policyHash : jsstr) : jsv :=
  VObj PObject
    [(js "schema_version", VStr WALLET_GUARD_POLICY_STATE_SCHEMA_VERSION);
     (js "policy_id", VStr (po_id p)); (js "revision", VNum (NInt revision));
     (js "policy_hash", VStr policyHash); (js "kill_switch", VBool (po_kill_switch p))].
Definition state_input (canonical : jsstr) : jsstr := WALLET_GUARD_POLICY_STATE_COMMIT_DOMAIN ++ canonical.
Definition commitState (p : policy) (revision : Z) (policyHash : jsstr) : res jsstr :=
  canonical ← canonicalizePayload (state_payload p revision policyHash);
  Ok (sha256Hex (state_input canonical)).

Definition makeSnapshot (p : policy) (revision : Z) : res policy_snapshot :=
  _ ← assertRevision (HNum (NInt revision)) "revision";
  policyHash ← commitPolicy p;
  stateCommitment ← commitState p revision policyHash;
  Ok {| ps_policy := p; ps_revision := revision; ps_policy_hash := policyHash;
        ps_commitment := stateCommitment |}.

Definition createWalletGuardReferencePolicyController (h : heap) (rawOptions : hval) : res controller :=
  options ← state_record h rawOptions CONTROLLER_BOOTSTRAP_KEYS "policy controller bootstrap";
  initialPolicy ← normalizePolicyCandidate h (snap_get (js "policy") options);
  current ← makeSnapshot initialPolicy 0;
  Ok {| pc_policy_id := po_id initialPolicy; pc_current := current; pc_busy := false |}.

Definition enterOperation (c : controller) : res controller :=
  _ ← guard_or (negb (pc_busy c)) (state_fail "REENTRANT"
        (js "policy-state operation is already in progress in this controller"));
  Ok (set_busy c true).
Definition leaveOperation (c : controller) : controller := set_busy c false.

(** The check of [expected_revision] of an update *)
Definition check_revision (c : controller) (value : hval) (stale : string) : res unit :=
  expected ← assertRevision value "expected_revision";
  guard_or (expected =? ps_revision (pc_current c)) (state_fail "STALE" (js stale)).

(** [makeSnapshot(candidate, nextRevision(current.revision))] *)
Definition make_next (c : controller) (candidate : policy) : res policy_snapshot :=
  revision ← nextRevision (ps_revision (pc_current c));
  makeSnapshot candidate revision.

(** [replacePolicy] up to the candidate it accepts *)
Definition replace_candidate (h : heap) (rawUpdate : hval) (c : controller) : res policy :=
  update ← state_record h rawUpdate REPLACE_KEYS "policy replacement";
  _ ← check_revision c (snap_get (js "expected_revision") update) "policy replacement revision is stale";
  candidate ← normalizePolicyCandidate h (snap_get (js "policy") update);
  _ ← guard_or (str_eqb (po_id candidate) (pc_policy_id c))
        (state_fail "IDENTITY" (js "policy_id cannot change inside one controller"));
  Ok candidate.

(** [engageKillSwitch] up to its candidate, or to the snapshot it returns when
    the switch is engaged already *)
Definition kill_candidate (h : heap) (rawUpdate : hval) (c : controller) : res (policy_snapshot + policy) :=
  update ← state_record h rawUpdate KILL_SWITCH_KEYS "kill-switch update";
  _ ← check_revision c (snap_get (js "expected_revision") update) "kill-switch revision is stale";
  let policy := ps_policy (pc_current c) in
  if po_kill_switch policy then Ok (inl (pc_current c))
  else
    candidate ← normalizePolicyCandidate (frozen_policy (policyWithKillSwitch policy)) (HRef 0%nat);
    Ok (inr candidate).

Record state_result := { sr_result : policy_result; sr_revision : Z; sr_commitment : jsstr }.

(** The evaluation under the snapshot that [evaluate] took *)
Definition evaluate_snapshot (h : heap) (ref : intent_ref) (simulation : hval) (snapshot : policy_snapshot)
  : res policy_result :=
  catch (evaluate_with ref (normalizePolicy (frozen_policy (ps_policy snapshot)) (HRef 0%nat))
           (normalizeSimulation h simulation))
    (fun error =>
       if bool_decide (err_cls error = WalletPolicyErr)
       then Throw (state_fail "EVALUATION" (js "Wallet Guard policy evaluation failed"))
       else Throw error).

(** What [evaluate] checks of its result, and returns.  The snapshots are
    compared by identity; all those of a controller differ in their revision. *)
Definition evaluate_answer (c : controller) (snapshot : policy_snapshot) (result : policy_result)
  : res state_result :=
  _ ← guard_or (bool_decide (pc_current c = snapshot))
        (state_fail "INTERNAL" (js "policy state changed during a controller evaluation"));
  _ ← guard_or (str_eqb (pr_policy_id result) (po_id (ps_policy snapshot))
                && str_eqb (pr_policy_hash result) (ps_policy_hash snapshot))
        (state_fail "INTERNAL" (js "policy evaluation diverged from the captured controller snapshot"));
  Ok {| sr_result := result; sr_revision := ps_revision snapshot; sr_commitment := ps_commitment snapshot |}.

(** ** The machine *)

(** A call; the heap is the one the operation reads its arguments in. *)
Inductive controller_call :=
  | CallRead
  | CallReplace (h : heap) (rawUpdate : hval)
  | CallKill (h : heap) (rawUpdate : hval)
  | CallEvaluate (h : heap) (ref : intent_ref) (simulation : hval).
Inductive controller_answer :=
  | AnswerSnapshot (r : res policy_snapshot)
  | AnswerResult (r : res state_result).

(** An operation in progress: the next segment to run, with the variables of
    the operation. *)
Inductive frame :=
  | ReplaceEntered (h : heap) (rawUpdate : hval)
  | ReplaceCandidate (h : heap) (rawUpdate : hval) (candidate : policy)
  | ReplaceNext (h : heap) (rawUpdate : hval) (next : policy_snapshot)
  | KillEntered (h : heap) (rawUpdate : hval)
  | KillCandidate (h : heap) (rawUpdate : hval) (candidate : policy)
  | KillNext (h : heap) (rawUpdate : hval) (next : policy_snapshot)
  | EvaluateEntered (h : heap) (ref : intent_ref) (simulation : hval)
  | EvaluateSnapshot (h : heap) (ref : intent_ref) (simulation : hval) (snapshot : policy_snapshot)
  | EvaluateResult (h : heap) (ref : intent_ref) (simulation : hval) (snapshot : policy_snapshot)
      (result : policy_result).
Definition frame_call (f : frame) : controller_call :=
  match f with
  | ReplaceEntered h v | ReplaceCandidate h v _ | ReplaceNext h v _ => CallReplace h v
  | KillEntered h v | KillCandidate h v _ | KillNext h v _ => CallKill h v
  | EvaluateEntered h ref sim | EvaluateSnapshot h ref sim _ | EvaluateResult h ref sim _ _ =>
      CallEvaluate h ref sim
  end.

(** An error as the answer of a call. *)
Definition throws (l : controller_call) (e : jserr) : controller_answer :=
  match l with CallEvaluate _ _ _ => AnswerResult (Throw e) | _ => AnswerSnapshot (Throw e) end.

(** What a segment of an operation comes to. *)
Inductive segment :=
  | Continue (f : frame)
  | Return (a : controller_answer) (c : controller).
Definition go_on {A} (c : controller) (l : controller_call) (m : res A) (k : A -> segment) : segment :=
  match m with Ok a => k a | Throw e => Return (throws l e) c end.

Definition replacePolicy (c : controller) (h : heap) (rawUpdate : hval) : segment :=
  go_on c (CallReplace h rawUpdate) (replace_candidate h rawUpdate c) (fun candidate =>
    Continue (ReplaceCandidate h rawUpdate candidate)).
Definition engageKillSwitch (c : controller) (h : heap) (rawUpdate : hval) : segment :=
  go_on c (CallKill h rawUpdate) (kill_candidate h rawUpdate c) (fun found =>
    match found with
    | inl current => Return (AnswerSnapshot (Ok current)) c
    | inr candidate => Continue (KillCandidate h rawUpdate candidate)
    end).
Definition evaluate (c : controller) (h : heap) (ref : intent_ref) (simulation : hval) : segment :=
  Continue (EvaluateSnapshot h ref simulation (pc_current c)).

(** The next segment of an operation; the first ones are above. *)
Definition advance (c : controller) (f : frame) : segment :=
  match f with
  | ReplaceEntered h v => replacePolicy c h v
  | ReplaceCandidate h v p => go_on c (frame_call f) (make_next c p) (fun next => Continue (ReplaceNext h v next))
  | KillEntered h v => engageKillSwitch c h v
  | KillCandidate h v p => go_on c (frame_call f) (make_next c p) (fun next => Continue (KillNext h v next))
  | ReplaceNext _ _ next | KillNext _ _ next => Return (AnswerSnapshot (Ok next)) (set_current c next)
  | EvaluateEntered h ref sim => evaluate c h ref sim
  | EvaluateSnapshot h ref sim snapshot =>
      go_on c (frame_call f) (evaluate_snapshot h ref sim snapshot) (fun result =>
        Continue (EvaluateResult h ref sim snapshot result))
  | EvaluateResult _ _ _ snapshot result =>
      go_on c (frame_call f) (evaluate_answer c snapshot result) (fun answer => Return (AnswerResult (Ok answer)) c)
  end.

(** The controller and its operations in progress, the innermost first. *)
Record machine := { m_controller : controller; m_open : list frame }.
Definition start (c : controller) : machine := {| m_controller := c; m_open := [] |}.

(** A call of the controller; the next segment of the innermost operation; an
    error [e], as the caller gets it, that ends this operation early. *)
Inductive controller_event :=
  | EvCall (l : controller_call)
  | EvAdvance
  | EvThrow (e : jserr).
Definition controller_log : Type := list (controller_call * controller_answer).

Definition enter (m : machine) (l : controller_call) (f : frame) : controller_log * machine :=
  match enterOperation (m_controller m) with
  | Throw e => ([(l, throws l e)], m)
  | Ok c => ([], {| m_controller := c; m_open := f :: m_open m |})
  end.
Definition call (m : machine) (l : controller_call) : controller_log * machine :=
  match l with
  | CallRead => ([(CallRead, AnswerSnapshot (Ok (pc_current (m_controller m))))], m)
  | CallReplace h v => enter m l (ReplaceEntered h v)
  | CallKill h v => enter m l (KillEntered h v)
  | CallEvaluate h ref sim => enter m l (EvaluateEntered h ref sim)
  end.
(** An operation ends: [finally] releases the lock. *)
Definition finish (f : frame) (a : controller_answer) (c : controller) (rest : list frame)
  : controller_log * machine :=
  ([(frame_call f, a)], {| m_controller := leaveOperation c; m_open := rest |}).
Definition machine_step (m : machine) (ev : controller_event) : controller_log * machine :=
  match ev, m_open m with
  | EvCall l, _ => call m l
  | _, [] => ([], m)
  | EvAdvance, f :: rest =>
      match advance (m_controller m) f with
      | Continue f => ([], {| m_controller := m_controller m; m_open := f :: rest |})
      | Return a c => finish f a c rest
      end
  | EvThrow e, f :: rest => finish f (throws (frame_call f) e) (m_controller m) rest
  end.

(** The calls answered in a history, in the order of their answers. *)
Fixpoint run (m : machine) (evs : list controller_event) : controller_log * machine :=
  match evs with
  | [] => ([], m)
  | ev :: evs => let '(log, m) := machine_step m ev in let '(log', m) := run m evs in (log ++ log', m)
  end.
End controller_ops.

(** ** A normalised policy normalises to itself *)

Section normalized_policies.
Context `{SH : !StringHost, HH : !HashHost, DH : !DateHost, UH : !UrlHost}.

(** The properties of an array from an index on. *)
Definition string_prop (s : jsstr) : prop := {| p_enumerable := true; p_content := Data (HStr s) |}.
Definition props_from (k : nat) (l : list jsstr) : list (jsstr * prop) :=
  imap (fun n s => (string_of_Z (Z.of_nat (k + n)), string_prop s)) l.

Lemma props_from_cons k s l :
  props_from k (s :: l) = (string_of_Z (Z.of_nat k), string_prop s) :: props_from (S k) l.
Proof.
  unfold props_from. cbn [imap]. rewrite Nat.add_0_r. f_equal. apply imap_ext. intros n t _.
  unfold compose. by rewrite Nat.add_succ_r.
Qed.

Lemma props_from_names k l :
  (props_from k l).*1 = (fun i => string_of_Z (Z.of_nat i)) <$> seq k (length l).
Proof.
  revert k. induction l as [|s l IH]; intros k; [done|]. rewrite props_from_cons. cbn. by rewrite IH.
Qed.

Lemma props_from_values k l :
  Forall2 (fun key s => alist_get key (props_from k l) = Some (string_prop s)) (props_from k l).*1 l.
Proof.
  revert k. induction l as [|s l IH]; intros k; [constructor|]. rewrite props_from_cons. cbn [fst list_fmap].
  constructor.
  - cbn [alist_get]. by rewrite str_eqb_refl.
  - pose proof (IH (S k)) as H. apply Forall2_same_length_lookup in H as [Hl H].
    apply Forall2_same_length_lookup. split; [done|]. intros i key t Hkey Ht. specialize (H i key t Hkey Ht).
    rewrite props_from_names in Hkey. apply list_lookup_fmap_Some in Hkey as (n & -> & Hn).
    apply lookup_seq in Hn as [-> _]. cbn [alist_get].
    destruct (str_eqb _ _) eqn:E; [|done]. apply str_eqb_eq, string_of_nonneg_inj in E; lia.
Qed.

Lemma snapshotDenseArray_frozen h n l field :
  h n = frozen_array l -> (length l <= 256)%nat ->
  snapshotDenseArray h (HRef n) field = Ok (HStr <$> l).
Proof.
  intros Hn Hl. unfold snapshotDenseArray. cbn [object_of]. rewrite Hn.
  change (o_props (frozen_array l)) with (props_from 0 l).
  cbn [frozen_array o_proxy o_array o_symbols mbind res_bind guard_or Nat.eqb].
  rewrite (proj2 (Z.leb_le 0 _)), (proj2 (Z.leb_le (Z.of_nat (length l)) 256)) by lia.
  cbn [andb guard_or mbind res_bind]. rewrite Nat2Z.id, <- props_from_names, bool_decide_eq_true_2 by done.
  cbn [guard_or mbind res_bind]. apply map_res_Ok.
  apply Forall2_fmap_r. eapply Forall2_impl; [apply (props_from_values 0)|].
  intros key s H. change (own_descriptor (frozen_array l) key) with (alist_get key (props_from 0 l)).
  by rewrite H.
Qed.

Lemma unique_fold (norm : hval -> res jsstr) e items acc out :
  NoDup acc ->
  fold_res (fun value normalized =>
    item ← norm value; _ ← guard_or (negb (mem_str item normalized)) e; Ok (normalized ++ [item])) items acc
    = Ok out <->
  exists ys, Forall2 (fun v y => norm v = Ok y) items ys /\ NoDup (acc ++ ys) /\ out = acc ++ ys.
Proof.
  revert acc. induction items as [|v items IH]; intros acc Hacc.
  - cbn [fold_res]. split.
    + intros [= <-]. exists []. by rewrite app_nil_r.
    + intros (ys & Hys & _ & ->). apply Forall2_nil_inv_l in Hys as ->. by rewrite app_nil_r.
  - cbn [fold_res]. rewrite bind_Ok. split.
    + intros (acc' & Hstep & H). apply bind_Ok in Hstep as (y & Hy & Hstep).
      apply guard_bind_Ok in Hstep as [Hn%negb_true_iff [= <-]].
      assert (y ∉ acc) as Hin by (rewrite <- mem_str_true; congruence).
      apply IH in H as (ys & Hys & Hnd & ->).
      2: { apply NoDup_app. split; [done|]. split; [set_solver|]. apply NoDup_singleton. }
      exists (y :: ys). rewrite <- app_assoc in Hnd. split; [by constructor|]. by rewrite <- app_assoc.
    + intros (ys & Hys & Hnd & ->). apply Forall2_cons_inv_l in Hys as (y & ys' & Hy & Hys & ->).
      pose proof Hnd as (_ & Hdis & _)%NoDup_app.
      exists (acc ++ [y]). split.
      * rewrite Hy. cbn [mbind res_bind]. apply guard_bind_Ok. split; [|done].
        apply negb_true_iff, not_true_iff_false. rewrite mem_str_true. intros Hin.
        apply (Hdis y Hin). by left.
      * assert (NoDup ((acc ++ [y]) ++ ys')) as Hnd' by (by rewrite <- app_assoc).
        apply IH; [by apply NoDup_app in Hnd' as [? _]|]. exists ys'. by rewrite <- app_assoc in *.
Qed.

(** What a normalised list is: sorted, without repetition, bounded, and of
    items in normal form. *)
Definition normal_list (P : jsstr -> Prop) (l : list jsstr) : Prop :=
  sort_str l = l /\ NoDup l /\ (length l <= 256)%nat /\ Forall P l.

Lemma snapshotDenseArray_bounded h v field items :
  snapshotDenseArray h v field = Ok items -> (length items <= 256)%nat.
Proof.
  unfold snapshotDenseArray. intros ([o n] & _ & H)%bind_Ok. apply guard_bind_Ok in H as [_ H].
  apply guard_bind_Ok in H as [[H1%Z.leb_le H2%Z.leb_le]%andb_true_iff H].
  apply guard_bind_Ok in H as [Hk%bool_decide_eq_true H]. apply map_res_Ok, Forall2_length in H.
  rewrite <- H, Hk, length_fmap, length_seq. lia.
Qed.

Lemma normalizeUniqueList_normal h v field norm (P : jsstr -> Prop) l :
  (forall x s, norm x = Ok s -> P s) ->
  normalizeUniqueList h v field norm = Ok l -> normal_list P l.
Proof.
  intros HP. unfold normalizeUniqueList. intros (items & Hi%snapshotDenseArray_bounded & H)%bind_Ok.
  apply bind_Ok in H as (ys & H & [= <-]). apply unique_fold in H as (zs & Hz & Hnd & ->); [|constructor].
  cbn [app] in *. unfold normal_list, sort_str. split_and!.
  - apply sort_by_sorted_id, sort_by_sorted; eauto using str_leb_total, str_leb_trans.
  - by rewrite sort_by_perm.
  - rewrite sort_by_perm. apply Forall2_length in Hz. lia.
  - rewrite sort_by_perm. apply Forall_forall. intros s (i & Hs)%list_elem_of_lookup.
    eapply Forall2_lookup_r in Hz as (x & _ & Hx); [|exact Hs]. by eapply HP.
Qed.

Lemma normalizeUniqueList_frozen h n field norm l :
  h n = frozen_array l -> normal_list (fun s => norm (HStr s) = Ok s) l ->
  normalizeUniqueList h (HRef n) field norm = Ok l.
Proof.
  intros Hn (Hs & Hnd & Hl & HP). unfold normalizeUniqueList.
  rewrite (snapshotDenseArray_frozen h n l) by done. cbn [mbind res_bind].
  apply bind_Ok. exists l. split; [|by rewrite Hs]. apply unique_fold; [constructor|].
  exists l. split; [|done]. apply Forall2_fmap_l, Forall_Forall2_diag, HP.
Qed.

(** ** The type of normalised policies *)

Definition normal_origin (s : jsstr) : Prop :=
  exists u, url_parse s = Some u /\ canonical_origin s u = true.
Definition normal_decimal (s : jsstr) : Prop := exists z, 0 <= z /\ s = bigint_to_decimal z.
Definition normal_class (s : jsstr) : Prop := s ∈ KNOWN_REQUEST_CLASSES.

Record normal_policy (p : policy) : Prop := {
  np_id : POLICY_ID_PATTERN (po_id p) = true;
  np_chain : is_chain_id (po_chain_id p);
  np_origins : normal_list normal_origin (po_origins p);
  np_targets : normal_list valid_address (po_targets p);
  np_recipients : normal_list valid_address (po_recipients p);
  np_spenders : normal_list valid_address (po_spenders p);
  np_contracts : normal_list valid_address (po_contracts p);
  np_native : normal_decimal (po_max_native p);
  np_token : normal_decimal (po_max_token p);
  np_classes : normal_list normal_class (po_simulation_for p);
  np_bounds : assertNormalizedPolicyBounds p = Ok tt;
}.

Lemma catch_throw_Ok {A} (m : res A) f a :
  catch m (fun e => Throw (f e)) = Ok a <-> m = Ok a.
Proof. rewrite catch_Ok. split; [|by left]. by intros [?|(? & _ & [=])]. Qed.

Lemma normalizeOrigin_Ok v s : normalizeOrigin v = Ok s <-> v = HStr s /\ normal_origin s.
Proof.
  unfold normalizeOrigin, normal_origin. split.
  - intros (t & Ht & H)%bind_Ok. destruct v; try done. injection Ht as ->.
    apply bind_Ok in H as (u & Hu & H). destruct (url_parse t) as [u'|] eqn:E; [|done]. injection Hu as ->.
    apply guard_bind_Ok in H as [Hc [= <-]]. rewrite (canonical_origin_eq _ _ Hc). eauto.
  - intros (-> & u & Hu & Hc). cbn [mbind res_bind]. rewrite Hu. cbn [mbind res_bind]. rewrite Hc.
    cbn [guard_or mbind res_bind]. by rewrite (canonical_origin_eq _ _ Hc).
Qed.

Lemma normalizePolicyAddress_valid f v s : normalizePolicyAddress f v = Ok s -> valid_address s.
Proof. intros H%catch_throw_Ok. by eapply normalizeEvmAddress_canonical. Qed.
Lemma normalizePolicyAddress_fixed f s : valid_address s -> normalizePolicyAddress f (HStr s) = Ok s.
Proof. intros H. apply catch_throw_Ok. by apply normalizeEvmAddress_fixed. Qed.

Lemma request_class_item_Ok v s : request_class_item v = Ok s <-> v = HStr s /\ normal_class s.
Proof.
  unfold request_class_item, normal_class. rewrite <- mem_str_true.
  destruct (hstr_that _ v) as [t|] eqn:E.
  - apply hstr_that_Some in E as [-> E]. split; [by intros [= <-]|]. by intros [[= ->] _].
  - split; [done|]. intros [-> H]. cbn [hstr_that] in E. by rewrite H in E.
Qed.

Lemma normalizeCanonicalDecimal_normal v f s : normalizeCanonicalDecimal v f = Ok s -> normal_decimal s.
Proof.
  unfold normalizeCanonicalDecimal. destruct (hstr_that _ v) as [t|] eqn:E; [|done]. intros [= <-].
  apply hstr_that_Some in E as [_ E]. exists (bigint_of t). split; [by apply bigint_of_decimal|done].
Qed.
Lemma normalizeCanonicalDecimal_fixed f s : normal_decimal s -> normalizeCanonicalDecimal (HStr s) f = Ok s.
Proof.
  intros (z & Hz & ->). destruct (decimal_of_nonneg z Hz) as [Hp Hv].
  unfold normalizeCanonicalDecimal. cbn [hstr_that]. by rewrite Hp, Hv.
Qed.

Lemma normalizePolicy_normal h raw p : normalizePolicy h raw = Ok p -> normal_policy p.
Proof.
  unfold normalizePolicy. intros (s & _ & H)%bind_Ok. cbv zeta in H. apply guard_bind_Ok in H as [_ H].
  apply bind_Ok in H as (id & Hid & H). destruct (hstr_that _ _) as [id'|] eqn:Eid; [|done].
  injection Hid as ->. apply hstr_that_Some in Eid as [_ Eid].
  do 4 apply bind_Ok in H as (? & _ & H).
  apply bind_Ok in H as (classes & Hclasses & H).
  apply (normalizeUniqueList_normal _ _ _ _ normal_class) in Hclasses;
    [|intros ? ? [_ ?]%request_class_item_Ok; done].
  apply bind_Ok in H as (chain & Hchain%catch_throw_Ok%normalizeChainId_Ok & H).
  apply bind_Ok in H as (origins & Horigins & H).
  apply (normalizeUniqueList_normal _ _ _ _ normal_origin) in Horigins; [|intros ? ? [_ ?]%normalizeOrigin_Ok; done].
  do 4 apply bind_Ok in H
    as (? & ?Ha%(normalizeUniqueList_normal _ _ _ _ valid_address _ (normalizePolicyAddress_valid _)) & H).
  do 2 apply bind_Ok in H as (? & ?Hd%normalizeCanonicalDecimal_normal & H).
  apply bind_Ok in H as ([] & Hb & [= <-]). by split.
Qed.

(** The snapshot of a frozen policy. *)
Definition frozen_snapshot (p : policy) : snapshot :=
  zip POLICY_KEYS
    [HStr WALLET_GUARD_POLICY_SCHEMA_VERSION; HStr (po_id p); HBool (po_enabled p);
     HBool (po_kill_switch p); HStr (po_chain_id p); HRef 1%nat; HRef 2%nat; HRef 3%nat; HRef 4%nat;
     HRef 5%nat; HStr (po_max_native p); HStr (po_max_token p); HBool (po_deny_unlimited p);
     HBool (po_deny_operator p); HRef 6%nat].

Lemma frozen_policy_snapshot p :
  snapshotExactDataRecord (frozen_policy p) (HRef 0%nat) POLICY_KEYS "Wallet Guard policy"
  = Ok (frozen_snapshot p).
Proof.
  unfold snapshotExactDataRecord. cbn [object_of frozen_policy o_proxy o_array mbind res_bind].
  rewrite bool_decide_eq_true_2 by done. cbn [mbind res_bind o_proto o_symbols guard_or Nat.eqb].
  rewrite bool_decide_eq_true_2 by set_solver. cbn [guard_or mbind res_bind].
  apply bind_Ok. exists tt. split; [apply guard_or_Ok; by vm_compute|].
  by apply map_res_Ok; repeat constructor.
Qed.

Lemma normalizePolicy_frozen p :
  normal_policy p -> normalizePolicy (frozen_policy p) (HRef 0%nat) = Ok p.
Proof.
  intros [Hid Hchain Horigins Htargets Hrecipients Hspenders Hcontracts Hnative Htoken Hclasses Hbounds].
  assert (forall l, normal_list valid_address l -> forall f,
    normal_list (fun s => normalizePolicyAddress f (HStr s) = Ok s) l) as Haddr.
  { intros l (? & ? & ? & H) f. split_and!; try done. eapply Forall_impl; [exact H|].
    intros s. apply normalizePolicyAddress_fixed. }
  unfold normalizePolicy. rewrite frozen_policy_snapshot. cbn [mbind res_bind]. cbv zeta.
  apply guard_bind_Ok. split; [by apply bool_decide_eq_true_2|].
  apply bind_Ok. exists (po_id p). split.
  { change (snap_get (js "policy_id") (frozen_snapshot p)) with (HStr (po_id p)). cbn [hstr_that]. by rewrite Hid. }
  apply bind_Ok. exists (po_enabled p). split; [done|]. apply bind_Ok. exists (po_kill_switch p). split; [done|].
  apply bind_Ok. exists (po_deny_unlimited p). split; [done|].
  apply bind_Ok. exists (po_deny_operator p). split; [done|].
  apply bind_Ok. exists (po_simulation_for p). split.
  { apply (normalizeUniqueList_frozen _ 6%nat); [done|]. destruct Hclasses as (? & ? & ? & H). split_and!; try done.
    eapply Forall_impl; [exact H|]. intros s Hs. by apply request_class_item_Ok. }
  apply bind_Ok. exists (po_chain_id p). split; [by apply catch_throw_Ok, normalizeChainId_fixed|].
  apply bind_Ok. exists (po_origins p). split.
  { apply (normalizeUniqueList_frozen _ 1%nat); [done|]. destruct Horigins as (? & ? & ? & H). split_and!; try done.
    eapply Forall_impl; [exact H|]. intros s Hs. by apply normalizeOrigin_Ok. }
  apply bind_Ok. exists (po_targets p). split; [apply (normalizeUniqueList_frozen _ 2%nat); [done|by apply Haddr]|].
  apply bind_Ok. exists (po_recipients p). split; [apply (normalizeUniqueList_frozen _ 3%nat); [done|by apply Haddr]|].
  apply bind_Ok. exists (po_spenders p). split; [apply (normalizeUniqueList_frozen _ 4%nat); [done|by apply Haddr]|].
  apply bind_Ok. exists (po_contracts p). split; [apply (normalizeUniqueList_frozen _ 5%nat); [done|by apply Haddr]|].
  apply bind_Ok. exists (po_max_native p). split; [by apply normalizeCanonicalDecimal_fixed|].
  apply bind_Ok. exists (po_max_token p). split; [by apply normalizeCanonicalDecimal_fixed|].
  destruct p. apply bind_Ok. exists tt. split; [exact Hbounds|done].
Qed.

(** ** Its hash *)

Lemma decimal_ascii s : normal_decimal s -> forallb is_ascii s = true.
Proof.
  intros (z & Hz & ->). destruct (decimal_of_nonneg z Hz) as [H%decimal_pattern_digits _].
  eapply forallb_impl; [|exact H]. ascii_class.
Qed.
Lemma address_ascii s : valid_address s -> forallb is_ascii s = true.
Proof.
  intros (t & -> & _ & Ht)%canonical_address_iff. rewrite forallb_app. cbn.
  eapply forallb_impl; [|exact Ht]. ascii_class.
Qed.
Lemma chain_ascii s : is_chain_id s -> forallb is_ascii s = true.
Proof.
  intros (z & Hz & ->). destruct (chain_id_quantity z Hz) as [(t & E & Ht & _)%hex_quantity_digits _].
  rewrite E, forallb_app. cbn. by destruct (hex_any_lower t Ht).
Qed.
Lemma origin_ascii s : normal_origin s -> forallb is_ascii s = true.
Proof. intros (u & Hu & <-%canonical_origin_eq). by eapply url_origin_ascii. Qed.
Lemma class_ascii s : normal_class s -> forallb is_ascii s = true.
Proof. unfold normal_class. intros (c & -> & _)%list_elem_of_fmap. by destruct c. Qed.
Lemma policy_id_ascii s : POLICY_ID_PATTERN s = true -> forallb is_ascii s = true.
Proof. apply re_head_class_ascii; ascii_class. Qed.

Lemma nfc_list (P : jsstr -> Prop) l :
  (forall s, P s -> forallb is_ascii s = true) -> normal_list P l ->
  canonicalizeValue (string_array l) = Ok (canonicalStringArray l).
Proof.
  intros HP (_ & _ & _ & Hl). unfold string_array, canonicalStringArray. cbn [canonicalizeValue].
  assert (map_res canonicalizeValue (VStr <$> l) = Ok (json_string <$> l)) as ->; [|done].
  apply map_res_Ok, Forall2_fmap, Forall_Forall2_diag. eapply Forall_impl; [exact Hl|].
  intros s Hs. cbn [canonicalizeValue]. by rewrite nfc_ascii by auto.
Qed.

Lemma nfc_string s : forallb is_ascii s = true -> canonicalizeValue (VStr s) = Ok (json_string s).
Proof. intros H. cbn [canonicalizeValue]. by rewrite nfc_ascii. Qed.

(** The canonical text of the policy as a payload is the one the policy module
    writes by hand. *)
Lemma policy_value_canonical p :
  normal_policy p -> canonicalizeValue (policy_value p) = Ok (canonicalizeNormalizedPolicy p).
Proof.
  intros [Hid Hchain Horigins Htargets Hrecipients Hspenders Hcontracts Hnative Htoken Hclasses _].
  set (parts :=
    [(js "schema_version", json_string WALLET_GUARD_POLICY_SCHEMA_VERSION); (js "policy_id", json_string (po_id p));
     (js "enabled", canonicalBoolean (po_enabled p)); (js "kill_switch", canonicalBoolean (po_kill_switch p));
     (js "expected_chain_id", json_string (po_chain_id p));
     (js "allowed_origins", canonicalStringArray (po_origins p));
     (js "allowed_targets", canonicalStringArray (po_targets p));
     (js "allowed_recipients", canonicalStringArray (po_recipients p));
     (js "allowed_spenders", canonicalStringArray (po_spenders p));
     (js "allowed_typed_data_verifying_contracts", canonicalStringArray (po_contracts p));
     (js "max_native_value", json_string (po_max_native p)); (js "max_token_amount", json_string (po_max_token p));
     (js "deny_unlimited_allowance", canonicalBoolean (po_deny_unlimited p));
     (js "deny_operator_approval", canonicalBoolean (po_deny_operator p));
     (js "require_simulation_for", canonicalStringArray (po_simulation_for p))]).
  unfold policy_value. cbn [canonicalizeValue].
  apply bind_Ok. exists parts. split.
  - apply map_res_Ok. repeat constructor; apply bind_Ok; eexists; (split; [|reflexivity]);
      first [ done | apply nfc_string | eapply nfc_list; [|eassumption] ];
      eauto using decimal_ascii, address_ascii, chain_ascii, origin_ascii, class_ascii, policy_id_ascii.
  - f_equal. unfold canonicalizeNormalizedPolicy.
    change (sort_by entry_leb parts) with
     [(js "allowed_origins", canonicalStringArray (po_origins p));
      (js "allowed_recipients", canonicalStringArray (po_recipients p));
      (js "allowed_spenders", canonicalStringArray (po_spenders p));
      (js "allowed_targets", canonicalStringArray (po_targets p));
      (js "allowed_typed_data_verifying_contracts", canonicalStringArray (po_contracts p));
      (js "deny_operator_approval", canonicalBoolean (po_deny_operator p));
      (js "deny_unlimited_allowance", canonicalBoolean (po_deny_unlimited p));
      (js "enabled", canonicalBoolean (po_enabled p)); (js "expected_chain_id", json_string (po_chain_id p));
      (js "kill_switch", canonicalBoolean (po_kill_switch p));
      (js "max_native_value", json_string (po_max_native p)); (js "max_token_amount", json_string (po_max_token p));
      (js "policy_id", json_string (po_id p));
      (js "require_simulation_for", canonicalStringArray (po_simulation_for p));
      (js "schema_version", json_string WALLET_GUARD_POLICY_SCHEMA_VERSION)].
    cbn [fmap list_fmap join_comma]. by rewrite <- !app_assoc.
Qed.

(** ** The snapshots of normalised policies *)

Definition ascii (s : jsstr) : Prop := forallb is_ascii s = true.

Lemma ascii_app s t : ascii s -> ascii t -> ascii (s ++ t).
Proof. unfold ascii. rewrite forallb_app. by intros -> ->. Qed.

Lemma json_chars_ascii s : ascii s -> ascii (json_chars s).
Proof.
  unfold ascii. induction s as [|c s IH]; [done|]. cbn [forallb]. rewrite andb_true_iff. intros [Hc Hs].
  assert (c < 128)%N as Hlt by (by apply N.ltb_lt).
  cbn [json_chars].
  assert (is_high_surrogate c = false) as ->
    by (unfold is_high_surrogate, in_range; apply andb_false_iff; left; apply N.leb_gt; lia).
  assert (is_low_surrogate c = false) as ->
    by (unfold is_low_surrogate, in_range; apply andb_false_iff; left; apply N.leb_gt; lia).
  apply ascii_app; [|by apply IH].
  assert (forallb (fun n => forallb is_ascii (json_escape (N.of_nat n))) (seq 0 128) = true) as Hall
    by (vm_compute; reflexivity).
  rewrite List.forallb_forall in Hall. specialize (Hall (N.to_nat c)). rewrite N2Nat.id in Hall.
  apply Hall, List.in_seq. lia.
Qed.

Lemma json_string_ascii s : ascii s -> ascii (json_string s).
Proof.
  intros H. unfold json_string. change (ascii ([34%N] ++ json_chars s ++ [34%N])).
  apply ascii_app; [done|]. apply ascii_app; [by apply json_chars_ascii|done].
Qed.

Lemma canonicalStringArray_ascii (P : jsstr -> Prop) l :
  (forall s, P s -> ascii s) -> normal_list P l -> ascii (canonicalStringArray l).
Proof.
  intros HP (_ & _ & _ & Hl). unfold canonicalStringArray. apply ascii_app; [done|]. apply ascii_app; [|done].
  apply join_comma_ascii, Forall_fmap. eapply Forall_impl; [exact Hl|]. intros s Hs.
  by apply json_string_ascii, HP.
Qed.

Lemma normalized_policy_ascii p : normal_policy p -> ascii (canonicalizeNormalizedPolicy p).
Proof.
  intros [Hid Hchain Horigins Htargets Hrecipients Hspenders Hcontracts Hnative Htoken Hclasses _].
  assert (forall b, ascii (canonicalBoolean b)) as Hb by (by intros []).
  unfold canonicalizeNormalizedPolicy.
  repeat first
    [ match goal with |- ascii (_ ++ _) => apply ascii_app end | done
    | apply json_string_ascii; first [done | by apply chain_ascii | by apply decimal_ascii | by apply policy_id_ascii]
    | by apply (canonicalStringArray_ascii normal_origin _ origin_ascii)
    | by apply (canonicalStringArray_ascii valid_address _ address_ascii)
    | by apply (canonicalStringArray_ascii normal_class _ class_ascii) ].
Qed.

(** The strings of a policy, and those the payloads of the proof SDK can hold. *)
Definition policy_strings (p : policy) : list jsstr :=
  [po_id p; po_chain_id p; po_max_native p; po_max_token p] ++ po_origins p ++ po_targets p
  ++ po_recipients p ++ po_spenders p ++ po_contracts p ++ po_simulation_for p.
Definition short_policy (p : policy) : Prop :=
  Forall (fun s => (length s <= MAX_STRING_LENGTH)%nat) (policy_strings p).

Lemma safe_string depth s :
  depth <= MAX_DEPTH -> safe_value depth (VStr s) <-> (length s <= MAX_STRING_LENGTH)%nat.
Proof. cbn [safe_value]. tauto. Qed.

Lemma safe_strings depth l :
  depth + 1 <= MAX_DEPTH ->
  safe_value depth (string_array l) <-> Forall (fun s => (length s <= MAX_STRING_LENGTH)%nat) l.
Proof.
  intros Hd. unfold string_array. cbn [safe_value]. rewrite fold_right_Forall, Forall_fmap.
  split.
  - intros [_ H]. eapply Forall_impl; [exact H|]. intros s. by apply safe_string.
  - intros H. split; [lia|]. eapply Forall_impl; [exact H|]. intros s. by apply safe_string.
Qed.

Lemma string_array_nodes l : node_count (string_array l) = 1 + Z.of_nat (length l).
Proof.
  unfold string_array. cbn [node_count]. f_equal. induction l as [|s l IH]; [done|].
  cbn [fmap list_fmap foldr length] in *. rewrite IH. cbn [node_count]. lia.
Qed.

Lemma policy_value_nodes p : node_count (policy_value p) = normalizedPolicyNodeCount p.
Proof.
  unfold policy_value, normalizedPolicyNodeCount. cbn [node_count foldr snd]. rewrite !string_array_nodes. lia.
Qed.

Lemma policy_keys_safe :
  Forall (fun k => PAYLOAD_KEY_PATTERN k = true /\ normalizedSensitiveKey k ∉ sensitivePayloadKeys) POLICY_KEYS.
Proof.
  assert (forallb safe_key POLICY_KEYS = true) as H by (vm_compute; reflexivity).
  apply List.Forall_forall. intros k Hk. rewrite List.forallb_forall in H.
  by destruct (safe_key_ok k (H k Hk)) as (? & ? & _).
Qed.

(** An object whose keys are safe is safe when its values are. *)
Lemma safe_object depth p entries :
  depth <= MAX_DEPTH ->
  Forall (fun k => PAYLOAD_KEY_PATTERN k = true /\ normalizedSensitiveKey k ∉ sensitivePayloadKeys) entries.*1 ->
  safe_value depth (VObj p entries) <-> Forall (safe_value (depth + 1)) entries.*2.
Proof.
  intros Hd Hk. cbn [safe_value]. rewrite fold_right_Forall, Forall_fmap. rewrite Forall_fmap in Hk.
  split.
  - intros [_ H]. eapply Forall_impl; [exact H|]. by intros ? (? & ? & ?).
  - intros H. split; [done|].
    eapply Forall_impl; [apply Forall_and; split; [exact Hk|exact H]|]. by intros ? [[? ?] ?].
Qed.

Lemma policy_value_safe p : safe_value 0 (policy_value p) <-> short_policy p.
Proof.
  unfold policy_value. rewrite safe_object; [|done|apply policy_keys_safe].
  unfold short_policy, policy_strings. cbn [fmap list_fmap snd]. rewrite !Forall_app, !Forall_cons, !Forall_nil.
  rewrite !safe_strings, !safe_string by done.
  assert (length WALLET_GUARD_POLICY_SCHEMA_VERSION <= MAX_STRING_LENGTH)%nat by (by apply Nat.leb_le).
  assert (forall b, safe_value (0 + 1) (VBool b) <-> True) as Hb by done. rewrite !Hb. tauto.
Qed.

Lemma commitPolicy_Ok p hash :
  normal_policy p ->
  commitPolicy p = Ok hash <->
  short_policy p /\ hash = sha256Hex (policy_input (canonicalizeNormalizedPolicy p)).
Proof.
  intros Hp. unfold commitPolicy. rewrite bind_Ok. setoid_rewrite canonicalizePayload_Ok.
  setoid_rewrite policy_value_safe. rewrite policy_value_nodes, (policy_value_canonical p Hp). split.
  - intros (c & (_ & Hs & _ & [= <-] & _) & [= <-]). done.
  - intros [Hs ->]. eexists. split; [|done].
    pose proof (np_bounds p Hp) as [Hn%Z.leb_le Hl%guard_or_Ok%Nat.leb_le]%guard_bind_Ok.
    split; [done|]. split; [done|]. split; [exact Hn|]. split; [done|].
    rewrite utf8_length_ascii by (by apply normalized_policy_ascii).
    unfold POLICY_CANONICAL_MAX_BYTES in Hl. unfold MAX_CANONICAL_BYTES. lia.
Qed.

Lemma POLICY_ID_plain s : POLICY_ID_PATTERN s = true -> plain s = true /\ (length s <= 128)%nat.
Proof. apply re_head_class_plain; plain_class. Qed.

Lemma commitState_total p revision hash :
  POLICY_ID_PATTERN (po_id p) = true -> hash_pattern hash = true -> 0 <= revision <= max_safe_integer ->
  exists commitment, commitState p revision hash = Ok commitment.
Proof.
  intros [Hid Hidl]%POLICY_ID_plain [Hh Hhl]%hash_pattern_plain Hr.
  assert (exists c, canonicalizePayload (state_payload p revision hash) = Ok c) as [c Hc];
    [|unfold commitState; rewrite Hc; by eexists].
  apply canonicalizePayload_total.
  - cbn [wf_value foldr snd]. split; [decide_now|done].
  - assert (forall k, safe_key k = true -> PAYLOAD_KEY_PATTERN k = true /\
      normalizedSensitiveKey k ∉ sensitivePayloadKeys) as Hk by (intros k (? & ? & _)%safe_key_ok; done).
    apply safe_object; [done|repeat (constructor; [by apply Hk|]); constructor|].
    cbn [fmap list_fmap snd]. 
    repeat (apply Forall_cons; split); [..|by apply Forall_nil]; first [apply safe_string; [done|unfold MAX_STRING_LENGTH]|idtac];
      [by apply Nat.leb_le|lia| |lia|done]. split; [done|].
    cbn [is_safe_integer]. rewrite (proj2 (Z.leb_le _ revision)), (proj2 (Z.leb_le revision _)) by lia. by eexists.
  - done.
  - cbn [plain_value foldr fst snd state_payload]. by vm_compute.
  - cbn [text_size sum_list_with fst snd]. 
    change (length WALLET_GUARD_POLICY_STATE_SCHEMA_VERSION) with 29%nat.
    change (length (js "schema_version")) with 14%nat. change (length (js "policy_id")) with 9%nat.
    change (length (js "revision")) with 8%nat. change (length (js "policy_hash")) with 11%nat.
    change (length (js "kill_switch")) with 11%nat. unfold MAX_CANONICAL_BYTES. lia.
Qed.

Lemma assertRevision_Ok v f z : assertRevision v f = Ok z <-> exists n, v = HNum n /\ is_safe_integer (VNum n) = Some z /\ 0 <= z.
Proof.
  unfold assertRevision. split.
  - destruct v as [| | |n| | | | |]; try done. destruct (is_safe_integer (VNum n)) as [y|] eqn:E; [|done].
    destruct (Z.ltb_spec y 0); [done|]. intros [= <-]. eauto.
  - intros (n & -> & -> & Hz). by rewrite (proj2 (Z.ltb_ge z 0)).
Qed.

Lemma safe_integer_range v z : is_safe_integer v = Some z -> - max_safe_integer <= z <= max_safe_integer.
Proof.
  unfold is_safe_integer. repeat case_match; try done. intros [= <-].
  match goal with H : (_ && _)%bool = true |- _ => apply andb_true_iff in H as [?%Z.leb_le ?%Z.leb_le] end. done.
Qed.

(** A snapshot names the policy, the revision and the hash it was made of. *)
Lemma makeSnapshot_fields p revision s :
  normal_policy p -> makeSnapshot p revision = Ok s ->
  ps_policy s = p /\ ps_revision s = revision /\ 0 <= revision <= max_safe_integer /\ short_policy p /\
  ps_policy_hash s = sha256Hex (policy_input (canonicalizeNormalizedPolicy p)).
Proof.
  intros Hp. unfold makeSnapshot. intros (z & (n & [= <-] & Hz & Hpos)%assertRevision_Ok & H)%bind_Ok.
  apply bind_Ok in H as (hash & [Hs ->]%commitPolicy_Ok & H); [|done].
  apply bind_Ok in H as (c & Hc & [= <-]). cbn [ps_policy ps_revision ps_policy_hash].
  pose proof (safe_integer_range _ _ Hz). cbn [is_safe_integer] in Hz.
  destruct (_ && _)%bool; [|done]. injection Hz as <-. split_and!; done || lia.
Qed.

Lemma makeSnapshot_total p revision :
  normal_policy p -> short_policy p -> 0 <= revision <= max_safe_integer ->
  exists s, makeSnapshot p revision = Ok s.
Proof.
  intros Hp Hs Hr. unfold makeSnapshot.
  assert (assertRevision (HNum (NInt revision)) "revision" = Ok revision) as ->.
  { apply assertRevision_Ok. exists (NInt revision). cbn [is_safe_integer].
    rewrite (proj2 (Z.leb_le _ revision)), (proj2 (Z.leb_le revision _)) by lia. split; [done|]. split; [done|lia]. }
  cbn [mbind res_bind]. rewrite (proj2 (commitPolicy_Ok p _ Hp) (conj Hs eq_refl)). cbn [mbind res_bind].
  destruct (commitState_total p revision (sha256Hex (policy_input (canonicalizeNormalizedPolicy p)))) as [c ->];
    [apply Hp|apply sha256_hex_format|done|]. by eexists.
Qed.

(** ** The kill switch keeps a policy in its bounds *)

Lemma kill_switch_short p : short_policy p -> short_policy (policyWithKillSwitch p).
Proof. done. Qed.

Lemma kill_switch_canonical_length p :
  (length (canonicalizeNormalizedPolicy (policyWithKillSwitch p)) <= length (canonicalizeNormalizedPolicy p))%nat.
Proof.
  unfold canonicalizeNormalizedPolicy, policyWithKillSwitch.
  cbn [po_id po_enabled po_kill_switch po_chain_id po_origins po_targets po_recipients po_spenders po_contracts
       po_max_native po_max_token po_deny_unlimited po_deny_operator po_simulation_for].
  rewrite !length_app.
  assert (length (canonicalBoolean true) <= length (canonicalBoolean (po_kill_switch p)))%nat; [|lia].
  by destruct (po_kill_switch p); apply Nat.leb_le.
Qed.

Lemma kill_switch_normal p : normal_policy p -> normal_policy (policyWithKillSwitch p).
Proof.
  intros [? ? ? ? ? ? ? ? ? ? [Hn Hl%guard_or_Ok%Nat.leb_le]%guard_bind_Ok]. split; try done.
  apply guard_bind_Ok. split; [exact Hn|]. apply guard_or_Ok, Nat.leb_le.
  pose proof (kill_switch_canonical_length p). lia.
Qed.

Lemma kill_switch_idle p : po_kill_switch p = true -> policyWithKillSwitch p = p.
Proof. destruct p. cbn. by intros ->. Qed.

(** ** The controller, step by step *)

(** The revision that an update asks for. *)
Definition names_revision (v : hval) (z : Z) : Prop :=
  exists n, v = HNum n /\ is_safe_integer (VNum n) = Some z /\ 0 <= z.
Definition asks (h : heap) (v : hval) (keys : list jsstr) (z : Z) : Prop :=
  exists s, captures h v keys s /\ names_revision (snap_get (js "expected_revision") s) z.
(** The policy that a replacement proposes, once normalised. *)
Definition proposes (h : heap) (v : hval) (p : policy) : Prop :=
  exists s, captures h v REPLACE_KEYS s /\ normalizePolicy h (snap_get (js "policy") s) = Ok p.

(** The contract of the controller: a policy with its revision. *)
Inductive policy_step : policy * Z -> controller_call -> controller_answer -> policy * Z -> Prop :=
  | step_read p r s :
      makeSnapshot p r = Ok s -> policy_step (p, r) CallRead (AnswerSnapshot (Ok s)) (p, r)
  | step_replace p r h v p' s :
      asks h v REPLACE_KEYS r -> proposes h v p' -> po_id p' = po_id p -> r < max_safe_integer ->
      makeSnapshot p' (r + 1) = Ok s ->
      policy_step (p, r) (CallReplace h v) (AnswerSnapshot (Ok s)) (p', r + 1)
  | step_replace_refused p r h v e :
      ~ (asks h v REPLACE_KEYS r /\ r < max_safe_integer /\
         exists p', proposes h v p' /\ po_id p' = po_id p /\ short_policy p') ->
      policy_step (p, r) (CallReplace h v) (AnswerSnapshot (Throw e)) (p, r)
  | step_kill p r h v s :
      asks h v KILL_SWITCH_KEYS r -> po_kill_switch p = false -> r < max_safe_integer ->
      makeSnapshot (policyWithKillSwitch p) (r + 1) = Ok s ->
      policy_step (p, r) (CallKill h v) (AnswerSnapshot (Ok s)) (policyWithKillSwitch p, r + 1)
  | step_killed p r h v s :
      asks h v KILL_SWITCH_KEYS r -> po_kill_switch p = true -> makeSnapshot p r = Ok s ->
      policy_step (p, r) (CallKill h v) (AnswerSnapshot (Ok s)) (p, r)
  | step_kill_refused p r h v e :
      ~ (asks h v KILL_SWITCH_KEYS r /\ (po_kill_switch p = true \/ r < max_safe_integer)) ->
      policy_step (p, r) (CallKill h v) (AnswerSnapshot (Throw e)) (p, r)
  | step_evaluate p r h ref sim s result :
      makeSnapshot p r = Ok s ->
      evaluate_with ref (Ok p) (normalizeSimulation h sim) = Ok result ->
      policy_step (p, r) (CallEvaluate h ref sim)
        (AnswerResult (Ok {| sr_result := result; sr_revision := r; sr_commitment := ps_commitment s |})) (p, r)
  | step_evaluate_failed p r h ref sim e :
      evaluate_with ref (Ok p) (normalizeSimulation h sim) = Throw e ->
      policy_step (p, r) (CallEvaluate h ref sim)
        (AnswerResult (Throw (state_fail "EVALUATION" (js "Wallet Guard policy evaluation failed")))) (p, r).

(** What holds of the variables of a controller at all times. *)
Record controller_ok (c : controller) : Prop := {
  co_id : pc_policy_id c = po_id (ps_policy (pc_current c));
  co_normal : normal_policy (ps_policy (pc_current c));
  co_made : makeSnapshot (ps_policy (pc_current c)) (ps_revision (pc_current c)) = Ok (pc_current c);
}.
Definition controller_state (c : controller) : policy * Z :=
  (ps_policy (pc_current c), ps_revision (pc_current c)).

Lemma check_revision_Ok c v msg :
  check_revision c v msg = Ok tt <-> names_revision v (ps_revision (pc_current c)).
Proof.
  unfold check_revision. rewrite bind_Ok. setoid_rewrite assertRevision_Ok. setoid_rewrite guard_or_Ok.
  setoid_rewrite Z.eqb_eq. unfold names_revision. split; [intros (? & ? & ->); done|eauto].
Qed.

Lemma nextRevision_Ok r r' : nextRevision r = Ok r' <-> r < max_safe_integer /\ r' = r + 1.
Proof. unfold nextRevision. rewrite guard_bind_Ok, Z.ltb_lt. naive_solver. Qed.

Lemma normalizePolicyCandidate_Ok h v p : normalizePolicyCandidate h v = Ok p <-> normalizePolicy h v = Ok p.
Proof.
  unfold normalizePolicyCandidate, normalizeWalletGuardPolicy. rewrite catch_Ok. split; [|by left].
  intros [?|(e & _ & H)]; [done|]. by case_bool_decide.
Qed.

(** An update whose segments run without anything in between. *)
Definition replacement (h : heap) (v : hval) (c : controller) : res policy_snapshot :=
  candidate ← replace_candidate h v c; make_next c candidate.
Definition kill (h : heap) (v : hval) (c : controller) : res policy_snapshot :=
  found ← kill_candidate h v c;
  match found with inl current => Ok current | inr candidate => make_next c candidate end.

Lemma replacement_Ok h v c s :
  replacement h v c = Ok s <->
  asks h v REPLACE_KEYS (ps_revision (pc_current c)) /\ ps_revision (pc_current c) < max_safe_integer /\
  exists p, proposes h v p /\ po_id p = pc_policy_id c /\
    makeSnapshot p (ps_revision (pc_current c) + 1) = Ok s.
Proof.
  unfold replacement, replace_candidate, make_next, asks, proposes, state_record. split.
  - intros (p & Hc & H)%bind_Ok.
    apply bind_Ok in Hc as (u & Hu%captureExactRecord_Ok & Hc). apply bind_Ok in Hc as ([] & Hr%check_revision_Ok & Hc).
    apply bind_Ok in Hc as (p' & Hp%normalizePolicyCandidate_Ok & Hc).
    apply guard_bind_Ok in Hc as [Hid%str_eqb_eq [= ->]]. apply bind_Ok in H as (r & [Hlt ->]%nextRevision_Ok & Hs).
    eauto 10.
  - intros ((u & Hu & Hr) & Hlt & p & (u' & Hu' & Hp) & Hid & Hs).
    rewrite (captures_inj _ _ _ _ _ Hu' Hu) in Hp. apply bind_Ok. exists p. split.
    + apply bind_Ok. exists u. split; [by apply captureExactRecord_Ok|].
      apply bind_Ok. exists tt. split; [by apply check_revision_Ok|].
      apply bind_Ok. exists p. split; [by apply normalizePolicyCandidate_Ok|].
      apply guard_bind_Ok. split; [by apply str_eqb_eq|done].
    + apply bind_Ok. exists (ps_revision (pc_current c) + 1). rewrite nextRevision_Ok. tauto.
Qed.

Lemma kill_Ok h v c s :
  controller_ok c ->
  kill h v c = Ok s <->
  asks h v KILL_SWITCH_KEYS (ps_revision (pc_current c)) /\
  (if po_kill_switch (ps_policy (pc_current c)) then s = pc_current c
   else ps_revision (pc_current c) < max_safe_integer /\
     makeSnapshot (policyWithKillSwitch (ps_policy (pc_current c))) (ps_revision (pc_current c) + 1) = Ok s).
Proof.
  intros Hc. pose proof (kill_switch_normal _ (co_normal c Hc)) as Hn.
  assert (normalizePolicyCandidate (frozen_policy (policyWithKillSwitch (ps_policy (pc_current c)))) (HRef 0%nat)
    = Ok (policyWithKillSwitch (ps_policy (pc_current c)))) as Hcandidate
    by by apply normalizePolicyCandidate_Ok, normalizePolicy_frozen.
  unfold kill, kill_candidate, make_next, asks, state_record. split.
  - intros (found & Hf & H)%bind_Ok.
    apply bind_Ok in Hf as (u & Hu%captureExactRecord_Ok & Hf). apply bind_Ok in Hf as ([] & Hr%check_revision_Ok & Hf).
    split; [eauto|]. cbv zeta in Hf. rewrite Hcandidate in Hf.
    destruct (po_kill_switch _); injection Hf as <-; [congruence|].
    by apply bind_Ok in H as (r & [Hlt ->]%nextRevision_Ok & Hs).
  - intros ((u & Hu & Hr) & H). apply bind_Ok.
    exists (if po_kill_switch (ps_policy (pc_current c)) then inl (pc_current c)
            else inr (policyWithKillSwitch (ps_policy (pc_current c)))). split.
    + apply bind_Ok. exists u. split; [by apply captureExactRecord_Ok|].
      apply bind_Ok. exists tt. split; [by apply check_revision_Ok|]. cbv zeta. rewrite Hcandidate.
      by destruct (po_kill_switch _).
    + destruct (po_kill_switch _); [congruence|]. apply bind_Ok.
      exists (ps_revision (pc_current c) + 1). rewrite nextRevision_Ok. tauto.
Qed.

Lemma makeSnapshot_refused p r :
  normal_policy p -> 0 <= r <= max_safe_integer ->
  (exists s, makeSnapshot p r = Ok s) <-> short_policy p.
Proof.
  intros Hp Hr. split; [by intros [s (_ & _ & _ & ? & _)%makeSnapshot_fields]|].
  intros Hs. by apply makeSnapshot_total.
Qed.

(** A controller publishes only what it made. *)
Lemma published_ok c p r s :
  controller_ok c -> normal_policy p -> po_id p = po_id (ps_policy (pc_current c)) ->
  makeSnapshot p r = Ok s ->
  controller_ok (set_current c s) /\ controller_state (set_current c s) = (p, r).
Proof.
  intros [Hid _ _] Hp Hpid Hs. destruct (makeSnapshot_fields p r s Hp Hs) as (Ep & Er & _).
  unfold controller_state. cbn [set_current pc_current]. rewrite Ep, Er. split; [|done].
  split; cbn [set_current pc_current pc_policy_id]; rewrite ?Ep, ?Er; congruence || done.
Qed.

Lemma controller_range c : controller_ok c ->
  0 <= ps_revision (pc_current c) <= max_safe_integer /\ short_policy (ps_policy (pc_current c)).
Proof. intros [_ Hn Hm]. by destruct (makeSnapshot_fields _ _ _ Hn Hm) as (_ & _ & ? & ? & _). Qed.

(** The lock aside, nothing of the controller changes at its end. *)
Lemma busy_ok c b : controller_ok c -> controller_ok (set_busy c b).
Proof. by intros [? ? ?]. Qed.
Lemma leave_state c : controller_state (leaveOperation c) = controller_state c.
Proof. done. Qed.

(** The steps of an update, when its segments have run. *)
Lemma replace_accepted c h v s :
  controller_ok c -> replacement h v c = Ok s ->
  controller_ok (set_current c s) /\
  policy_step (controller_state c) (CallReplace h v) (AnswerSnapshot (Ok s)) (controller_state (set_current c s)).
Proof.
  intros Hc (Ha & Hlt & p & Hp & Hid & Hs)%replacement_Ok. rewrite (co_id c Hc) in Hid.
  assert (normal_policy p) as Hn by (destruct Hp as (u & _ & Hp); by eapply normalizePolicy_normal).
  destruct (published_ok c p _ s Hc Hn Hid Hs) as [? ->]. split; [done|]. by apply step_replace.
Qed.

Lemma replace_refused c h v e :
  controller_ok c -> replacement h v c = Throw e ->
  policy_step (controller_state c) (CallReplace h v) (AnswerSnapshot (Throw e)) (controller_state c).
Proof.
  intros Hc E. pose proof (controller_range c Hc) as [Hr _].
  apply step_replace_refused. intros (Ha & Hlt & p & Hp & Hid & Hshort).
  assert (normal_policy p) as Hn by (destruct Hp as (u & _ & Hp); by eapply normalizePolicy_normal).
  destruct (makeSnapshot_total p (ps_revision (pc_current c) + 1) Hn Hshort) as [s Hs]; [lia|].
  rewrite <- (co_id c Hc) in Hid.
  assert (replacement h v c = Ok s) by (apply replacement_Ok; eauto 10). congruence.
Qed.

(** Engaging an engaged switch publishes what is current. *)
Lemma republish c : set_current c (pc_current c) = c.
Proof. by destruct c. Qed.

Lemma kill_accepted c h v s :
  controller_ok c -> kill h v c = Ok s ->
  controller_ok (set_current c s) /\
  policy_step (controller_state c) (CallKill h v) (AnswerSnapshot (Ok s)) (controller_state (set_current c s)).
Proof.
  intros Hc E. apply (kill_Ok h v c s Hc) in E as [Ha E]. destruct (po_kill_switch _) eqn:Ek.
  - subst s. rewrite republish. split; [done|]. apply step_killed; [done..|apply Hc].
  - destruct E as [Hlt Hs]. pose proof (kill_switch_normal _ (co_normal c Hc)) as Hn.
    destruct (published_ok c _ _ s Hc Hn eq_refl Hs) as [? ->]. split; [done|]. by apply step_kill.
Qed.

Lemma kill_refused c h v e :
  controller_ok c -> kill h v c = Throw e ->
  policy_step (controller_state c) (CallKill h v) (AnswerSnapshot (Throw e)) (controller_state c).
Proof.
  intros Hc E. pose proof (controller_range c Hc) as [Hr Hshort].
  pose proof (kill_switch_normal _ (co_normal c Hc)) as Hn.
  apply step_kill_refused. intros [Ha Hor].
  assert (exists s, kill h v c = Ok s) as [s Hs]; [|congruence]. setoid_rewrite (kill_Ok h v c _ Hc).
  destruct (po_kill_switch _); [eauto|]. destruct Hor as [|Hlt]; [done|].
  destruct (makeSnapshot_total _ (ps_revision (pc_current c) + 1) Hn (kill_switch_short _ Hshort)); [lia|eauto].
Qed.

Lemma evaluate_with_throws h ref p sim :
  throws_only (fun e => err_cls e = WalletPolicyErr) (evaluate_with ref (Ok p) (normalizeSimulation h sim)).
Proof.
  unfold evaluate_with. apply throws_only_bind.
  - unfold validateIntent. apply throws_only_bind; [by destruct (validateWalletGuardIntent _)|]. intros i _.
    do 2 (apply throws_only_bind; [by apply throws_only_guard|]; intros _ _). done.
  - intros i _. cbn [mbind res_bind]. apply throws_only_bind; [|done].
    unfold normalizeSimulation, snapshotExactDataRecord, snapshot_keys. destruct sim; try done;
    (apply throws_only_bind; [|intros s _; by destruct (hstr_that _ _)]);
    (apply throws_only_bind; [by repeat case_match|]; intros o _);
    do 3 (apply throws_only_bind; [by apply throws_only_guard|]; intros _ _);
    apply throws_only_map_res; intros k _; by case_match.
Qed.

(** The evaluation reads the frozen policy back as it is, and fails only with
    its own error. *)
Lemma evaluate_snapshot_exact h ref sim s :
  normal_policy (ps_policy s) ->
  evaluate_snapshot h ref sim s =
  match evaluate_with ref (Ok (ps_policy s)) (normalizeSimulation h sim) with
  | Ok result => Ok result
  | Throw _ => Throw (state_fail "EVALUATION" (js "Wallet Guard policy evaluation failed"))
  end.
Proof.
  intros Hs. unfold evaluate_snapshot. rewrite normalizePolicy_frozen by done.
  pose proof (evaluate_with_throws h ref (ps_policy s) sim) as Ht.
  destruct (evaluate_with _ _ _) as [result|e] eqn:E; [done|]. cbn [catch].
  by rewrite (throws_only_Throw _ _ _ Ht eq_refl), bool_decide_eq_true_2 by done.
Qed.

(** The internal checks of an evaluation never fire while the snapshot is
    current. *)
Lemma evaluate_answer_exact c ref sim result :
  controller_ok c -> evaluate_with ref (Ok (ps_policy (pc_current c))) sim = Ok result ->
  evaluate_answer c (pc_current c) result =
  Ok {| sr_result := result; sr_revision := ps_revision (pc_current c);
        sr_commitment := ps_commitment (pc_current c) |}.
Proof.
  intros Hc E. unfold evaluate_answer. rewrite bool_decide_eq_true_2 by done. cbn [guard_or mbind res_bind].
  destruct (makeSnapshot_fields _ _ _ (co_normal c Hc) (co_made c Hc)) as (_ & _ & _ & _ & Hh).
  assert (pr_policy_id result = po_id (ps_policy (pc_current c)) /\
    pr_policy_hash result = ps_policy_hash (pc_current c)) as [-> ->].
  { rewrite Hh. unfold evaluate_with in E. apply bind_Ok in E as (i & _ & E). cbn [mbind res_bind] in E.
    apply bind_Ok in E as (status & _ & [= <-]). unfold policy_verdict. by repeat case_match. }
  by rewrite !str_eqb_refl.
Qed.

(** What the variables of an operation in progress are: what its segments so
    far computed, of the controller as it still is. *)
Definition frame_ok (c : controller) (f : frame) : Prop :=
  match f with
  | ReplaceCandidate h v p => replace_candidate h v c = Ok p
  | ReplaceNext h v s => replacement h v c = Ok s
  | KillCandidate h v p => kill_candidate h v c = Ok (inr p)
  | KillNext h v s => kill h v c = Ok s
  | EvaluateSnapshot _ _ _ s => s = pc_current c
  | EvaluateResult h ref sim s result =>
      s = pc_current c /\ evaluate_with ref (Ok (ps_policy s)) (normalizeSimulation h sim) = Ok result
  | _ => True
  end.

(** A segment of the one operation in progress: it goes on, or it answers with
    a step of the contract. *)
Lemma advance_ok c f :
  controller_ok c -> frame_ok c f ->
  match advance c f with
  | Continue f' => frame_call f' = frame_call f /\ frame_ok c f'
  | Return a c' => controller_ok c' /\ policy_step (controller_state c) (frame_call f) a (controller_state c')
  end.
Proof.
  intros Hc Hf. destruct f as [h v|h v p|h v s|h v|h v p|h v s|h ref sim|h ref sim s|h ref sim s result];
    cbn [advance frame_call frame_ok] in *; unfold go_on.
  - unfold replacePolicy, go_on. destruct (replace_candidate h v c) as [p|e] eqn:E; [done|]. split; [done|].
    apply replace_refused; [done|]. unfold replacement. by rewrite E.
  - destruct (make_next c p) as [s|e] eqn:E; cbn [frame_ok frame_call throws].
    + split; [done|]. unfold replacement. by rewrite Hf.
    + split; [done|]. apply replace_refused; [done|]. unfold replacement. by rewrite Hf.
  - by apply replace_accepted.
  - unfold engageKillSwitch, go_on. destruct (kill_candidate h v c) as [[s|p]|e] eqn:E; [|done|].
    + assert (kill h v c = Ok s) as Hk by (unfold kill; by rewrite E).
      destruct (kill_accepted c h v s Hc Hk) as [? Hs].
      assert (s = pc_current c) as ->; [|by rewrite republish in Hs].
      unfold kill_candidate in E. apply bind_Ok in E as (? & _ & E). apply bind_Ok in E as (? & _ & E).
      cbv zeta in E. destruct (po_kill_switch _); [congruence|]. by apply bind_Ok in E as (? & _ & [=]).
    + split; [done|]. apply kill_refused; [done|]. unfold kill. by rewrite E.
  - destruct (make_next c p) as [s|e] eqn:E; cbn [frame_ok frame_call throws].
    + split; [done|]. unfold kill. by rewrite Hf.
    + split; [done|]. apply kill_refused; [done|]. unfold kill. by rewrite Hf.
  - by apply kill_accepted.
  - done.
  - subst s. rewrite evaluate_snapshot_exact by apply Hc. destruct (evaluate_with _ _ _) eqn:E; [done|].
    split; [done|]. by eapply step_evaluate_failed.
  - destruct Hf as [-> Hr]. rewrite (evaluate_answer_exact c ref _ result Hc Hr). split; [done|].
    apply step_evaluate; [apply Hc|done].
Qed.

(** How many segments an operation still has, at most. *)
Definition segments_left (f : frame) : nat :=
  match f with
  | ReplaceEntered _ _ | KillEntered _ _ | EvaluateEntered _ _ _ => 3
  | ReplaceCandidate _ _ _ | KillCandidate _ _ _ | EvaluateSnapshot _ _ _ _ => 2
  | ReplaceNext _ _ _ | KillNext _ _ _ | EvaluateResult _ _ _ _ _ => 1
  end.
Lemma advance_left c f f' : advance c f = Continue f' -> S (segments_left f') = segments_left f.
Proof.
  destruct f; cbn [advance segments_left]; unfold replacePolicy, engageKillSwitch, evaluate, go_on;
    repeat case_match; try done; by intros [= <-].
Qed.
Lemma run_finishes c f rest :
  exists n a c', (n <= segments_left f)%nat /\ pc_busy c' = false /\
    run {| m_controller := c; m_open := f :: rest |} (replicate n EvAdvance) =
      ([(frame_call f, a)], {| m_controller := c'; m_open := rest |}).
Proof.
  remember (segments_left f) as k eqn:Hk. revert f Hk. induction k as [|k IH]; intros f Hk; [by destruct f|].
  destruct (advance c f) as [f'|a c'] eqn:E.
  - pose proof (advance_left _ _ _ E) as Hf'. destruct (IH f') as (n & a & c' & Hn & Hb & Hrun); [lia|].
    assert (frame_call f' = frame_call f) as Hcall.
    { revert E. destruct f; cbn [advance]; unfold replacePolicy, engageKillSwitch, evaluate, go_on;
        repeat case_match; try done; by intros [= <-]. }
    exists (S n), a, c'. split; [lia|]. split; [done|]. cbn [replicate run machine_step m_open m_controller]. rewrite E, Hrun.
    by rewrite Hcall.
  - exists 1%nat, a, (leaveOperation c'). split; [lia|]. split; [done|].
    cbn [replicate run machine_step m_open m_controller]. by rewrite E.
Qed.

(** ** The contract, with operations in progress *)

(** A policy with its revision, and the operation in progress. *)
Definition contract : Type := (policy * Z) * option controller_call.
Definition refused (l : controller_call) : controller_answer :=
  throws l (state_fail "REENTRANT" (js "policy-state operation is already in progress in this controller")).

Inductive contract_step : contract -> controller_event -> controller_log -> contract -> Prop :=
  | contract_read a o answer :
      policy_step a CallRead answer a ->
      contract_step (a, o) (EvCall CallRead) [(CallRead, answer)] (a, o)
  | contract_enter a l :
      l <> CallRead -> contract_step (a, None) (EvCall l) [] (a, Some l)
  | contract_refused a l l' :
      l <> CallRead -> contract_step (a, Some l') (EvCall l) [(l, refused l)] (a, Some l')
  | contract_silent a l :
      contract_step (a, Some l) EvAdvance [] (a, Some l)
  | contract_answer a l answer b :
      policy_step a l answer b -> contract_step (a, Some l) EvAdvance [(l, answer)] (b, None)
  | contract_thrown a l e :
      contract_step (a, Some l) (EvThrow e) [(l, throws l e)] (a, None)
  | contract_idle a ev :
      (forall l, ev <> EvCall l) -> contract_step (a, None) ev [] (a, None).

Inductive contract_run : contract -> list controller_event -> controller_log -> contract -> Prop :=
  | contract_nil a : contract_run a [] [] a
  | contract_cons a ev log b evs log' d :
      contract_step a ev log b -> contract_run b evs log' d -> contract_run a (ev :: evs) (log ++ log') d.

(** The state of a machine: one operation is in progress at most, and the lock
    says so. *)
Record machine_ok (m : machine) : Prop := {
  mo_controller : controller_ok (m_controller m);
  mo_open : match m_open m with
            | [] => pc_busy (m_controller m) = false
            | [f] => pc_busy (m_controller m) = true /\ frame_ok (m_controller m) f
            | _ => False
            end;
}.
Definition machine_state (m : machine) : contract :=
  (controller_state (m_controller m), frame_call <$> head (m_open m)).

Lemma call_ok m l log m' :
  machine_ok m -> call m l = (log, m') ->
  machine_ok m' /\ contract_step (machine_state m) (EvCall l) log (machine_state m').
Proof.
  intros [Hc Ho] H. destruct m as [c open]. cbn [m_controller m_open] in *.
  assert (l = CallRead \/ l <> CallRead) as [->|Hl] by (destruct l; [by left|by right..]).
  { injection H as <- <-. split; [done|]. apply contract_read, step_read, Hc. }
  assert (exists f, call {| m_controller := c; m_open := open |} l = enter {| m_controller := c; m_open := open |} l f
    /\ frame_call f = l /\ forall c, frame_ok c f) as (f & E & Hf & Hok).
  { destruct l; [done|..]; by eexists. }
  rewrite E in H. unfold enter, enterOperation in H. cbn [m_controller m_open] in H.
  destruct open as [|g [|? ?]]; [| |done].
  - rewrite Ho in H. injection H as <- <-. split; [split; [by apply busy_ok|by split]|].
    unfold machine_state. cbn [m_controller m_open head fmap option_fmap option_map]. rewrite Hf.
    by apply contract_enter.
  - destruct Ho as [Hb Hg]. rewrite Hb in H. injection H as <- <-. split; [by split|]. by apply contract_refused.
Qed.

Lemma machine_step_ok m ev log m' :
  machine_ok m -> machine_step m ev = (log, m') ->
  machine_ok m' /\ contract_step (machine_state m) ev log (machine_state m').
Proof.
  intros Hm. destruct ev as [l| |e]; [by apply call_ok|..]; destruct Hm as [Hc Ho]; destruct m as [c open];
    cbn [m_controller m_open] in *; destruct open as [|f [|? ?]]; try done; cbn [machine_step m_open m_controller].
  - intros [= <- <-]. split; [by split|]. by apply contract_idle.
  - destruct Ho as [Hb Hf]. pose proof (advance_ok c f Hc Hf) as Ha. destruct (advance c f) as [f'|a c'].
    + destruct Ha as [E Hf']. intros [= <- <-]. split; [by split|]. unfold machine_state.
      cbn [m_controller m_open head fmap option_fmap option_map]. rewrite E. apply contract_silent.
    + destruct Ha as [Hc' Ha]. intros [= <- <-]. split; [split; [by apply busy_ok|done]|]. by apply contract_answer.
  - intros [= <- <-]. split; [by split|]. by apply contract_idle.
  - intros [= <- <-]. split; [split; [by apply busy_ok|done]|]. apply contract_thrown.
Qed.

Lemma answers_soon m l :
  machine_ok m -> (machine_state m).2 = Some l ->
  exists n answer m', (n <= 3)%nat /\ run m (replicate n EvAdvance) = ([(l, answer)], m') /\
    (machine_state m').2 = None /\ pc_busy (m_controller m') = false.
Proof.
  intros [_ Ho]. destruct m as [c [|f [|? ?]]]; cbn [m_controller m_open] in *; [done| |done]. intros [= <-].
  destruct (run_finishes c f []) as (n & a & c' & Hn & Hb & Hrun). eexists n, a, _. split; [by destruct f; cbn in *; lia|].
  by split.
Qed.

Lemma run_ok m evs log m' :
  machine_ok m -> run m evs = (log, m') ->
  machine_ok m' /\ contract_run (machine_state m) evs log (machine_state m').
Proof.
  revert m log. induction evs as [|ev evs IH]; intros m log Hm.
  - intros [= <- <-]. split; [done|constructor].
  - cbn [run]. destruct (machine_step m ev) as [log1 m1] eqn:E1. destruct (run m1 evs) as [log2 m2] eqn:E2.
    intros [= <- <-]. destruct (machine_step_ok _ _ _ _ Hm E1) as [H1 Hs].
    destruct (IH _ _ H1 E2) as [H2 Hr]. split; [done|]. by econstructor.
Qed.

Lemma create_ok h options c :
  createWalletGuardReferencePolicyController h options = Ok c ->
  machine_ok (start c) /\ ps_revision (pc_current c) = 0.
Proof.
  unfold createWalletGuardReferencePolicyController. intros (s & _ & H)%bind_Ok.
  apply bind_Ok in H as (p & Hp%normalizePolicyCandidate_Ok%normalizePolicy_normal & H).
  apply bind_Ok in H as (current & Hs & [= <-]).
  destruct (makeSnapshot_fields p 0 current Hp Hs) as (E1 & E2 & _). split; [|done].
  split; [|done]. split; cbn [start m_controller pc_policy_id pc_current]; by rewrite ?E1, ?E2.
Qed.

(** ** Histories of a controller *)

(** What one answer does to the policy: a step of the contract, or an error -
    of the lock, or of the code it was cut short by - that leaves it. *)
Definition log_step (a : policy * Z) (e : controller_call * controller_answer) (b : policy * Z) : Prop :=
  policy_step a e.1 e.2 b \/ (b = a /\ exists er, e.2 = throws e.1 er).

Inductive policy_steps : policy * Z -> controller_log -> policy * Z -> Prop :=
  | steps_nil a : policy_steps a [] a
  | steps_cons a e b log d : log_step a e b -> policy_steps b log d -> policy_steps a (e :: log) d.

Lemma policy_steps_app a l1 l2 b :
  policy_steps a (l1 ++ l2) b <-> exists m, policy_steps a l1 m /\ policy_steps m l2 b.
Proof.
  split.
  - revert a. induction l1 as [|e l1 IH]; intros a H; [exists a; split; [constructor|done]|].
    inversion H as [|? ? b' ? ? Hs Hrest]; subst. destruct (IH _ Hrest) as (m & ? & ?).
    exists m. split; [by econstructor|done].
  - intros (m & H & H2). induction H; [done|]. econstructor; eauto.
Qed.

Lemma policy_steps_cons a e log d :
  policy_steps a (e :: log) d <-> exists b, log_step a e b /\ policy_steps b log d.
Proof.
  split; [|intros (b & ? & ?); by econstructor]. intros H. inversion H; subst. eauto.
Qed.

Lemma contract_run_steps a evs log b : contract_run a evs log b -> policy_steps a.1 log b.1.
Proof.
  induction 1 as [a|a ev log b evs log' d H _ IH]; [constructor|]. apply policy_steps_app. exists b.1.
  split; [|done]. destruct H; cbn [fst]; try constructor; apply policy_steps_cons; eexists;
    (split; [|constructor]); [by left|right; split; [done|by eexists]|by left|right; split; [done|by eexists]].
Qed.

Lemma log_step_revision a e b : log_step a e b -> a.2 <= b.2.
Proof. intros [H|[-> _]]; [destruct H; cbn; lia|lia]. Qed.
Lemma policy_steps_revision a log b : policy_steps a log b -> a.2 <= b.2.
Proof. induction 1 as [|a e b log d H%log_step_revision _ IH]; lia. Qed.

(** An accepted replacement. *)
Definition replaces (e : controller_call * controller_answer) : Prop :=
  exists h v s, e = (CallReplace h v, AnswerSnapshot (Ok s)).

Lemma killed_step a e b :
  log_step a e b -> ~ replaces e -> po_kill_switch a.1 = true -> po_kill_switch b.1 = true.
Proof.
  destruct e as [l answer]. intros [H|[-> _]] Hr; [|done]. cbn [fst snd] in H. destruct H; cbn; try done.
  destruct Hr. by eexists _, _, _.
Qed.
Lemma killed_steps a log b :
  policy_steps a log b -> Forall (fun e => ~ replaces e) log -> po_kill_switch a.1 = true ->
  po_kill_switch b.1 = true.
Proof.
  induction 1 as [|a e b log d H _ IH]; [done|]. intros [Hl Hlog]%Forall_cons Ha.
  apply IH; [done|]. by eapply killed_step.
Qed.

Lemma killed_verdict p i status :
  po_kill_switch p = true ->
  pr_decision (policy_verdict p i status) = DENY /\
  js "WG_POLICY_DENY_KILL_SWITCH" ∈ pr_reasons (policy_verdict p i status).
Proof.
  intros Hk.
  assert (js "WG_POLICY_DENY_KILL_SWITCH" ∈ denyReasons p i status) as Hin.
  { unfold denyReasons. rewrite Hk. cbv zeta. cbn [reason_if]. rewrite !elem_of_app. right. left. by left. }
  unfold policy_verdict. destruct (denyReasons p i status) as [|x xs]; [by apply elem_of_nil in Hin|].
  cbn [length Nat.ltb Nat.leb]. split; [done|]. by apply (unique_reasons (x :: xs) [] NoDup_nil_2); right.
Qed.

(** What [createWalletGuardReferencePolicyController] is given. *)
Definition bootstraps (h : heap) (options : hval) (p : policy) : Prop :=
  exists s, captures h options CONTROLLER_BOOTSTRAP_KEYS s /\
    normalizePolicy h (snap_get (js "policy") s) = Ok p.

Lemma bootstraps_inj h options p p' : bootstraps h options p -> bootstraps h options p' -> p = p'.
Proof.
  intros (s & Hs & H) (s' & Hs' & H'). rewrite (captures_inj _ _ _ _ _ Hs Hs') in H. congruence.
Qed.

Lemma create_Ok h options c :
  createWalletGuardReferencePolicyController h options = Ok c <->
  exists p s, bootstraps h options p /\ makeSnapshot p 0 = Ok s /\
    c = {| pc_policy_id := po_id p; pc_current := s; pc_busy := false |}.
Proof.
  unfold createWalletGuardReferencePolicyController, bootstraps, state_record. split.
  - intros (u & Hu%captureExactRecord_Ok & H)%bind_Ok.
    apply bind_Ok in H as (p & Hp%normalizePolicyCandidate_Ok & H). apply bind_Ok in H as (s & Hs & [= <-]).
    eauto 10.
  - intros (p & s & (u & Hu & Hp) & Hs & ->). apply bind_Ok. exists u. split; [by apply captureExactRecord_Ok|].
    apply bind_Ok. exists p. split; [by apply normalizePolicyCandidate_Ok|]. apply bind_Ok. eauto.
Qed.

Lemma bootstraps_normal h options p : bootstraps h options p -> normal_policy p.
Proof. intros (s & _ & H). by eapply normalizePolicy_normal. Qed.

Lemma history_refines h options c0 evs log m :
  createWalletGuardReferencePolicyController h options = Ok c0 -> run (start c0) evs = (log, m) ->
  machine_ok m /\
  exists p, bootstraps h options p /\ contract_run ((p, 0), None) evs log (machine_state m).
Proof.
  intros Hcreate Hrun. destruct (create_ok _ _ _ Hcreate) as [Hok Hrev].
  destruct (run_ok _ _ _ _ Hok Hrun) as [Hm Hs]. split; [done|].
  apply create_Ok in Hcreate as (p & s & Hp & Hs0 & ->). exists p. split; [done|].
  destruct (makeSnapshot_fields p 0 s (bootstraps_normal _ _ _ Hp) Hs0) as (E1 & E2 & _).
  unfold machine_state, controller_state in Hs. cbn [start m_controller m_open pc_current head] in Hs.
  by rewrite E1, E2 in Hs.
Qed.
Lemma history_steps h options c0 evs log m :
  createWalletGuardReferencePolicyController h options = Ok c0 -> run (start c0) evs = (log, m) ->
  exists a b, policy_steps a log b.
Proof. intros Hc Hr. destruct (history_refines _ _ _ _ _ _ Hc Hr) as (_ & p & _ & H%contract_run_steps). eauto. Qed.

(** C4: The controller implements a policy with a revision, one operation at a
    time.  It exists exactly for a policy that normalises and whose strings a
    payload can hold.  Then every history - of calls, also in the middle of an
    operation, of segments of the operations, and of errors that cut them short -
    is one of the contract.  While an operation is in progress, every other one
    is refused as reentrant and changes nothing; with none in progress, every
    call is let in.  An operation that is not cut short takes effect when it
    answers: an accepted replacement or kill switch names the current revision
    and moves it by one, one that meets these conditions is accepted - in
    particular the kill switch can always be engaged - and a refused one changes
    nothing.  An evaluation gives the verdict of the current policy, under its
    revision and commitment, or the error of the evaluation: the internal checks
    of the code never fire.  And an operation in progress answers within three
    more of its segments, and leaves the lock free. *)
Theorem controller_refines h options :
  ((exists c, createWalletGuardReferencePolicyController h options = Ok c) <->
   exists p, bootstraps h options p /\ short_policy p) /\
  (forall c0 evs log m,
    createWalletGuardReferencePolicyController h options = Ok c0 -> run (start c0) evs = (log, m) ->
    (exists p, bootstraps h options p /\ contract_run ((p, 0), None) evs log (machine_state m)) /\
    forall l, (machine_state m).2 = Some l ->
      exists n answer m', (n <= 3)%nat /\ run m (replicate n EvAdvance) = ([(l, answer)], m') /\
        (machine_state m').2 = None /\ pc_busy (m_controller m') = false).
Proof.
  split.
  - setoid_rewrite create_Ok. split.
    + intros (c & p & s & Hp & Hs & _). exists p. split; [done|].
      apply (makeSnapshot_fields p 0 s); [by eapply bootstraps_normal|done].
    + intros (p & Hp & Hshort).
      destruct (makeSnapshot_total p 0 (bootstraps_normal _ _ _ Hp) Hshort) as [s Hs]; [done|]. eauto 10.
  - intros c0 evs log m Hcreate Hrun. destruct (history_refines _ _ _ _ _ _ Hcreate Hrun) as [Hm Hc].
    split; [done|]. intros l. by apply answers_soon.
Qed.

(** C5: Once the kill switch was engaged, every evaluation that answers after
    it denies, and gives the switch as a reason, until a replacement of the policy
    is accepted; however the calls are nested. *)
Theorem kill_switch_stops h options c0 evs l1 hk vk s l2 he ref sim r l3 m :
  createWalletGuardReferencePolicyController h options = Ok c0 ->
  run (start c0) evs = (l1 ++ (CallKill hk vk, AnswerSnapshot (Ok s)) :: l2
                        ++ (CallEvaluate he ref sim, AnswerResult (Ok r)) :: l3, m) ->
  Forall (fun e => ~ replaces e) l2 ->
  pr_decision (sr_result r) = DENY /\ js "WG_POLICY_DENY_KILL_SWITCH" ∈ pr_reasons (sr_result r).
Proof.
  intros Hcreate Hrun Hl2. destruct (history_steps _ _ _ _ _ _ Hcreate Hrun) as (a0 & b0 & Hs).
  apply policy_steps_app in Hs as (a & _ & Hs). apply policy_steps_cons in Hs as (b & Hkill & Hs).
  apply policy_steps_app in Hs as (d & Hmid & Hs). apply policy_steps_cons in Hs as (e & Heval & _).
  destruct Hkill as [Hkill|[_ [? [=]]]]. destruct Heval as [Heval|[_ [? [=]]]]. cbn [fst snd] in *.
  assert (po_kill_switch b.1 = true) as Hb by (inversion Hkill; subst; done).
  pose proof (killed_steps _ _ _ Hmid Hl2 Hb) as Hd.
  inversion Heval as [| | | | | |q z ? ? ? s' result _ Hr|]; subst. cbn [fst sr_result] in *.
  unfold evaluate_with in Hr. apply bind_Ok in Hr as (i & _ & Hr). cbn [mbind res_bind] in Hr.
  apply bind_Ok in Hr as (status & _ & [= <-]). by apply killed_verdict.
Qed.

(** The revision that a call asks for. *)
Definition call_asks (l : controller_call) (z : Z) : Prop :=
  match l with
  | CallReplace h v => asks h v REPLACE_KEYS z
  | CallKill h v => asks h v KILL_SWITCH_KEYS z
  | _ => False
  end.
Lemma asks_inj h v keys z z' : asks h v keys z -> asks h v keys z' -> z = z'.
Proof.
  intros (s & Hs & n & Hn & Hz & _) (s' & Hs' & n' & Hn' & Hz' & _).
  rewrite (captures_inj _ _ _ _ _ Hs Hs') in Hn. congruence.
Qed.

Lemma makeSnapshot_revision p r s : makeSnapshot p r = Ok s -> ps_policy s = p /\ ps_revision s = r.
Proof.
  unfold makeSnapshot. intros (? & _ & H)%bind_Ok. apply bind_Ok in H as (? & _ & H).
  by apply bind_Ok in H as (? & _ & [= <-]).
Qed.

(** An accepted update asks for the revision it finds, and its snapshot has the
    one it leaves: the next one, unless it engages the kill switch again. *)
Lemma accepted_update a l s b z :
  policy_step a l (AnswerSnapshot (Ok s)) b -> call_asks l z ->
  z = a.2 /\ ps_revision s = b.2 /\
  (b.2 = z + 1 \/ (b.2 = z /\ (exists h v, l = CallKill h v) /\ po_kill_switch (ps_policy s) = true)).
Proof.
  intros H Hz. inversion H as [|p r h v p' s' Ha _ _ _ Hs| |p r h v s' Ha _ _ Hs|p r h v s' Ha Hk Hs| | |];
    subst; try done; cbn [call_asks fst snd] in *;
    apply makeSnapshot_revision in Hs as [-> ->]; pose proof (asks_inj _ _ _ _ _ Ha Hz); split_and!; eauto; try lia.
  right. split; [done|]. split; [eauto|done].
Qed.

(** C6: Updates are compare-and-set: of two accepted updates of a history, the
    later one asks for no revision before the one that the earlier left.  So two
    of them that ask for the same revision never both change the policy: the
    earlier one only engaged a kill switch that was engaged already. *)
Theorem updates_compare_and_set h options c0 evs l1 u s l2 u' s' l3 m z z' :
  createWalletGuardReferencePolicyController h options = Ok c0 ->
  run (start c0) evs = (l1 ++ (u, AnswerSnapshot (Ok s)) :: l2 ++ (u', AnswerSnapshot (Ok s')) :: l3, m) ->
  call_asks u z -> call_asks u' z' ->
  z <= ps_revision s <= z' /\
  (z = z' -> (exists hk vk, u = CallKill hk vk) /\ po_kill_switch (ps_policy s) = true).
Proof.
  intros Hcreate Hrun Hz Hz'. destruct (history_steps _ _ _ _ _ _ Hcreate Hrun) as (a0 & b0 & Hs).
  apply policy_steps_app in Hs as (a & _ & Hs). apply policy_steps_cons in Hs as (b & Hu & Hs).
  apply policy_steps_app in Hs as (d & Hmid%policy_steps_revision & Hs). apply policy_steps_cons in Hs as (e & Hu' & _).
  destruct Hu as [Hu|[_ [? He]]]; [|by destruct u]. destruct Hu' as [Hu'|[_ [? He]]]; [|by destruct u'].
  cbn [fst snd] in *. destruct (accepted_update _ _ _ _ _ Hu Hz) as (-> & E & Hb).
  destruct (accepted_update _ _ _ _ _ Hu' Hz') as (-> & _ & _).
  destruct Hb as [Hb|(Hb & Hkill & Hk)]; (split; [lia|]); intros Heq; [lia|done].
Qed.
End normalized_policies.

(** ** A concrete history *)

Section controller_witnesses.
#[local] Existing Instances plain_string_host checksum_hash_host iso_date_host plain_url_host.

(** Object 8 is the bootstrap, objects 9 and 10 ask for revision 0 and 1, and
    objects 11 and 12 replace the policy at revision 1 and 0 by the first one. *)
Definition revision_field (z : Z) : jsstr * prop := field_of "expected_revision" (HNum (NInt z)).
Definition controller_heap : heap := fun l =>
  match l with
  | 8%nat => record_of [field_of "policy" (HRef 0%nat)]
  | 9%nat => record_of [revision_field 0]
  | 10%nat => record_of [revision_field 1]
  | 11%nat => record_of [revision_field 1; field_of "policy" (HRef 0%nat)]
  | 12%nat => record_of [revision_field 0; field_of "policy" (HRef 0%nat)]
  | _ => sample_policy_heap l
  end.
Definition sample_controller : res controller :=
  createWalletGuardReferencePolicyController controller_heap (HRef 8%nat).
Definition ask_policy : controller_call := CallEvaluate controller_heap sample_ref (HRef 7%nat).

(** A call whose segments follow at once. *)
Definition alone (l : controller_call) : list controller_event := [EvCall l; EvAdvance; EvAdvance; EvAdvance].

(** Allowed, killed, denied, a stale update, replaced, allowed again. *)
Definition shape (a : controller_answer) : option decision + Z + jsstr :=
  match a with
  | AnswerSnapshot (Ok s) => inl (inr (ps_revision s))
  | AnswerResult (Ok r) => inl (inl (Some (pr_decision (sr_result r))))
  | AnswerSnapshot (Throw e) | AnswerResult (Throw e) => inr (err_code e)
  end.
Definition shapes (evs : list controller_event) : res (list (option decision + Z + jsstr)) :=
  c ← sample_controller; Ok (shape <$> (run (start c) evs).1.*2).
Example sample_history :
  shapes (alone ask_policy ++ alone (CallKill controller_heap (HRef 9%nat)) ++ alone ask_policy
          ++ [EvCall (CallReplace controller_heap (HRef 12%nat)); EvAdvance]
          ++ alone (CallReplace controller_heap (HRef 11%nat)) ++ alone ask_policy) =
  Ok [inl (inl (Some ALLOW)); inl (inr 1); inl (inl (Some DENY)); inr (js "POMRX_WG_POLICY_STATE_E_STALE");
      inl (inr 2); inl (inl (Some ALLOW))].
Proof. vm_compute. reflexivity. Qed.

(** In the middle of a replacement, the kill switch is refused and the snapshot
    is still the old one; in the middle of an evaluation, the same; and an
    operation cut short by an error releases the lock. *)
Definition nested_history : list controller_event :=
  [EvCall (CallReplace controller_heap (HRef 12%nat)); EvAdvance;
   EvCall (CallKill controller_heap (HRef 9%nat)); EvCall CallRead; EvAdvance; EvAdvance; EvCall CallRead;
   EvCall ask_policy; EvAdvance; EvCall (CallKill controller_heap (HRef 10%nat)); EvAdvance; EvAdvance;
   EvCall (CallReplace controller_heap (HRef 11%nat)); EvAdvance; EvThrow (Err TypeErr [] [])]
  ++ alone (CallKill controller_heap (HRef 10%nat)).
Example sample_nested :
  shapes nested_history =
  Ok [inr (js "POMRX_WG_POLICY_STATE_E_REENTRANT"); inl (inr 0); inl (inr 1); inl (inr 1);
      inr (js "POMRX_WG_POLICY_STATE_E_REENTRANT"); inl (inl (Some ALLOW)); inr []; inl (inr 2)].
Proof. vm_compute. reflexivity. Qed.

Definition sample_snapshot (p : policy) (r : Z) : policy_snapshot :=
  match makeSnapshot p r with
  | Ok s => s
  | Throw _ => {| ps_policy := p; ps_revision := r; ps_policy_hash := []; ps_commitment := [] |}
  end.
Definition sample_start : controller :=
  {| pc_policy_id := po_id sample_policy; pc_current := sample_snapshot sample_policy 0; pc_busy := false |}.
Definition killed_snapshot : policy_snapshot := sample_snapshot (policyWithKillSwitch sample_policy) 1.
Definition denied_result : state_result :=
  {| sr_result := makeResult DENY [js "WG_POLICY_DENY_KILL_SWITCH"] (policyWithKillSwitch sample_policy);
     sr_revision := 1; sr_commitment := ps_commitment killed_snapshot |}.
Definition restored_controller : controller := set_current sample_start (sample_snapshot sample_policy 2).

Lemma sample_created :
  createWalletGuardReferencePolicyController controller_heap (HRef 8%nat) = Ok sample_start.
Proof. vm_compute. reflexivity. Qed.
Lemma sample_killed :
  run (start sample_start) (alone (CallKill controller_heap (HRef 9%nat)) ++ alone ask_policy) =
  ([(CallKill controller_heap (HRef 9%nat), AnswerSnapshot (Ok killed_snapshot));
    (ask_policy, AnswerResult (Ok denied_result))], start (set_current sample_start killed_snapshot)).
Proof. vm_compute. reflexivity. Qed.
Lemma sample_restored :
  run (start sample_start)
    (alone (CallKill controller_heap (HRef 9%nat)) ++ alone (CallReplace controller_heap (HRef 11%nat))) =
  ([(CallKill controller_heap (HRef 9%nat), AnswerSnapshot (Ok killed_snapshot));
    (CallReplace controller_heap (HRef 11%nat), AnswerSnapshot (Ok (sample_snapshot sample_policy 2)))],
   start restored_controller).
Proof. vm_compute. reflexivity. Qed.

(** In the middle of a replacement, after a nested kill switch that was refused. *)
Lemma controller_refines_witness :
  let nested := [EvCall (CallReplace controller_heap (HRef 12%nat)); EvAdvance;
                 EvCall (CallKill controller_heap (HRef 9%nat))] in
  let '(log, m) := run (start sample_start) nested in
  log = [(CallKill controller_heap (HRef 9%nat), refused (CallKill controller_heap (HRef 9%nat)))] /\
  (exists p, bootstraps controller_heap (HRef 8%nat) p /\
     contract_run ((p, 0), None) nested log (machine_state m)) /\
  exists n answer m', (n <= 3)%nat /\
    run m (replicate n EvAdvance) = ([(CallReplace controller_heap (HRef 12%nat), answer)], m') /\
    (machine_state m').2 = None /\ pc_busy (m_controller m') = false.
Proof.
  intros nested. destruct (run (start sample_start) nested) as [log m] eqn:E.
  destruct (proj2 (controller_refines controller_heap (HRef 8%nat)) sample_start nested log m sample_created E)
    as [Hrun Hsoon].
  assert (log = (run (start sample_start) nested).1 /\ m = (run (start sample_start) nested).2) as [Hl Hm]
    by (rewrite E; by split).
  split; [rewrite Hl; vm_compute; reflexivity|]. split; [exact Hrun|].
  apply (Hsoon (CallReplace controller_heap (HRef 12%nat))). rewrite Hm. vm_compute. reflexivity.
Defined.

Lemma kill_switch_stops_witness :
  pr_decision (sr_result denied_result) = DENY /\
  js "WG_POLICY_DENY_KILL_SWITCH" ∈ pr_reasons (sr_result denied_result).
Proof.
  apply (kill_switch_stops controller_heap (HRef 8%nat) sample_start
    (alone (CallKill controller_heap (HRef 9%nat)) ++ alone ask_policy) [] controller_heap (HRef 9%nat)
    killed_snapshot [] controller_heap sample_ref (HRef 7%nat) denied_result []
    (start (set_current sample_start killed_snapshot)));
    [apply sample_created|apply sample_killed|constructor].
Defined.

Lemma updates_compare_and_set_witness :
  0 <= ps_revision killed_snapshot <= 1 /\
  (0 = 1 -> (exists hk vk, CallKill controller_heap (HRef 9%nat) = CallKill hk vk) /\
    po_kill_switch (ps_policy killed_snapshot) = true).
Proof.
  apply (updates_compare_and_set controller_heap (HRef 8%nat) sample_start
    (alone (CallKill controller_heap (HRef 9%nat)) ++ alone (CallReplace controller_heap (HRef 11%nat))) []
    (CallKill controller_heap (HRef 9%nat)) killed_snapshot []
    (CallReplace controller_heap (HRef 11%nat)) (sample_snapshot sample_policy 2) []
    (start restored_controller));
    [apply sample_created|apply sample_restored| |].
  - exists [(js "expected_revision", HNum (NInt 0))]. split; [|by exists (NInt 0)].
    by apply (captureExactRecord_Ok (state_fail "") "" _ _ _ "").
  - exists [(js "expected_revision", HNum (NInt 1)); (js "policy", HRef 0%nat)]. split; [|by exists (NInt 1)].
    by apply (captureExactRecord_Ok (state_fail "") "" _ _ _ "").
Defined.
End controller_witnesses.
