(* ===== verification/PayloadSize.v ===== *)
(** * The size of payloads in UTF-8

    A canonical text takes at most six bytes for a unit of a string, so a record
    whose strings are bounded fits the limits of a payload, whatever its strings
    say.  [fits] gives the bounds of a record from those of its fields. *)
From S2P Require Import Prelude JsDate JsValue ProofSdk Canonical Normal.

#[local] Arguments js : simpl never.

(** ** Bytes of a string *)

Lemma strong_length_ind {A} (P : list A -> Prop) :
  (forall s, (forall t, (length t < length s)%nat -> P t) -> P s) -> forall s, P s.
Proof.
  intros H s. remember (length s) as n eqn:E. revert s E.
  induction n as [n IH] using lt_wf_ind. intros s ->. apply H. intros t Ht. by eapply IH.
Qed.

Lemma utf8_length_app s t : (utf8_length (s ++ t) <= utf8_length s + utf8_length t)%N.
Proof.
  revert s. apply (strong_length_ind (fun s => utf8_length (s ++ t) <= utf8_length s + utf8_length t)%N).
  intros [|c s] IH; [done|]. pose proof (IH s ltac:(cbn; lia)) as Hs. cbn [app utf8_length].
  destruct (c <? 128)%N; [lia|]. destruct (c <? 2048)%N; [lia|]. destruct (is_high_surrogate c); [|lia].
  destruct s as [|d s].
  - cbn [app utf8_length] in *. destruct t as [|d t]; [done|]. cbn [utf8_length].
    destruct (is_low_surrogate d) eqn:Ed; [|lia].
    unfold is_low_surrogate, in_range in Ed. apply andb_true_iff in Ed as [Ed%N.leb_le _].
    rewrite (proj2 (N.ltb_ge d 128)), (proj2 (N.ltb_ge d 2048)) by lia.
    assert (is_high_surrogate d = false) as ->
      by (unfold is_high_surrogate, in_range; apply andb_false_iff; right; apply N.leb_gt; lia). lia.
  - pose proof (IH s ltac:(cbn; lia)). cbn [app] in *. destruct (is_low_surrogate d); lia.
Qed.

Lemma json_chars_utf8 s : (utf8_length (json_chars s) <= 6 * N.of_nat (length s))%N.
Proof.
  revert s. apply (strong_length_ind (fun s => utf8_length (json_chars s) <= 6 * N.of_nat (length s))%N).
  intros [|c s] IH; [done|]. pose proof (IH s ltac:(cbn; lia)) as Hs. cbn [json_chars length].
  assert (forall l, (utf8_length (json_escape l) <= 6)%N) as Hesc.
  { intros l. destruct (N.ltb_spec l 128) as [Hl|Hl].
    - assert (forallb (fun n => utf8_length (json_escape (N.of_nat n)) <=? 6)%N (seq 0 128) = true) as Hall
        by (vm_compute; reflexivity).
      rewrite List.forallb_forall in Hall. specialize (Hall (N.to_nat l)). rewrite N2Nat.id in Hall.
      apply N.leb_le, Hall, List.in_seq. lia.
    - assert (json_escape l = [l]) as ->.
      { unfold json_escape. rewrite (proj2 (N.ltb_ge l 32)) by lia. repeat case_match; subst; done || lia. }
      cbn [utf8_length]. repeat case_match; lia. }
  assert (in_range 55296 57343 c = true -> utf8_length (unicode_escape c) <= 6)%N as Huni.
  { intros [? ?%N.leb_le]%andb_true_iff. rewrite utf8_length_ascii; [done|]. unfold unicode_escape.
    assert (forall n, (n < 16)%N -> is_ascii (hex_digit n) = true) as Hhex.
    { intros n Hn. unfold hex_digit, is_ascii. case_match; apply N.ltb_lt; lia. }
    cbn [forallb]. rewrite !Hhex; [done|..]; try apply N.mod_lt; try done.
    apply N.Div0.div_lt_upper_bound. lia. }
  assert (is_high_surrogate c = true \/ is_low_surrogate c = true -> in_range 55296 57343 c = true) as Hsur.
  { unfold is_high_surrogate, is_low_surrogate, in_range. rewrite !andb_true_iff, !N.leb_le. lia. }
  destruct (is_high_surrogate c).
  - destruct s as [|d s]; [cbn [length]; specialize (Huni (Hsur ltac:(auto))); lia|].
    pose proof (IH s ltac:(cbn; lia)) as Hs'. destruct (is_low_surrogate d).
    + pose proof (utf8_length_app [c; d] (json_chars s)).
      assert (utf8_length [c; d] <= 12)%N by (cbn [utf8_length]; repeat case_match; lia).
      change (c :: d :: json_chars s) with ([c; d] ++ json_chars s). cbn [length]. lia.
    + pose proof (utf8_length_app (unicode_escape c) (json_chars (d :: s))). specialize (Huni (Hsur ltac:(auto))).
      cbn [length] in *. lia.
  - destruct (is_low_surrogate c).
    + pose proof (utf8_length_app (unicode_escape c) (json_chars s)). specialize (Huni (Hsur ltac:(auto))). lia.
    + pose proof (utf8_length_app (json_escape c) (json_chars s)). specialize (Hesc c). lia.
Qed.

Definition bytes (s : jsstr) : nat := N.to_nat (utf8_length s).
Lemma bytes_app s t : (bytes (s ++ t) <= bytes s + bytes t)%nat.
Proof. unfold bytes. pose proof (utf8_length_app s t). lia. Qed.
Lemma bytes_ascii s : forallb is_ascii s = true -> bytes s = length s.
Proof. intros H. unfold bytes. rewrite utf8_length_ascii by done. lia. Qed.
Lemma bytes_join l : (bytes (join_comma l) <= sum_list_with (fun s => S (bytes s)) l)%nat.
Proof.
  induction l as [|s l IH]; [done|]. destruct l as [|t l]; [cbn; lia|].
  change (join_comma (s :: t :: l)) with (s ++ js "," ++ join_comma (t :: l)).
  pose proof (bytes_app s (js "," ++ join_comma (t :: l))).
  pose proof (bytes_app (js ",") (join_comma (t :: l))). change (bytes (js ",")) with 1%nat in *.
  cbn [sum_list_with] in *. lia.
Qed.

(** The strings of a value that are not plain may take six bytes a unit. *)
Definition string_size (s : jsstr) : nat := if plain s then length s + 2 else 6 * length s + 2.
Fixpoint utf8_size (v : jsv) : nat :=
  match v with
  | VNull => 4
  | VBool _ => 5
  | VNum _ => 17
  | VStr s => string_size s
  | VArr l => 2 + sum_list_with (fun x => S (utf8_size x)) l
  | VObj _ l => 2 + sum_list_with (fun kv => length kv.1 + utf8_size kv.2 + 4)%nat l
  | _ => 0
  end.
Section utf8_sizes.
Context `{SH : !StringHost, HH : !HashHost}.

(** Its strings are in NFC and its keys plain. *)
Fixpoint fixed_value (v : jsv) : Prop :=
  match v with
  | VStr s => nfc_fixed s
  | VArr l => fold_right (fun x P => fixed_value x /\ P) True l
  | VObj _ l => fold_right (fun kv P => (plain kv.1 = true /\ fixed_value kv.2) /\ P) True l
  | _ => True
  end.

Lemma json_string_bytes s : (bytes (json_string s) <= string_size s)%nat.
Proof.
  unfold string_size. destruct (plain s) eqn:E.
  - destruct (json_string_size s E) as [Ha Hl]. rewrite bytes_ascii by done. lia.
  - unfold json_string. change (34%N :: json_chars s ++ [34%N]) with ([34%N] ++ json_chars s ++ [34%N]).
    pose proof (bytes_app [34%N] (json_chars s ++ [34%N])). pose proof (bytes_app (json_chars s) [34%N]).
    change (bytes [34%N]) with 1%nat in *. pose proof (json_chars_utf8 s). unfold bytes in *. lia.
Qed.

Lemma canonical_utf8_size v c :
  fixed_value v -> canonical_data v -> canonicalizeValue v = Ok c -> (bytes c <= utf8_size v)%nat.
Proof.
  revert c. induction v as [| |b|n|s|f|i|z|l IH|p l IH] using jsv_nested_ind;
    intros c Hp Hd Hc; try done; cbn [canonicalizeValue] in Hc.
  - injection Hc as <-. by vm_compute.
  - injection Hc as <-. by destruct b; apply Nat.leb_le.
  - destruct Hd as [z Hz]. pose proof (is_safe_integer_VNum _ _ Hz) as ->.
    injection Hc as <-. rewrite number_to_string_int by done.
    destruct (string_of_Z_size z Hz). by rewrite bytes_ascii.
  - injection Hc as <-. rewrite Hp. apply json_string_bytes.
  - change (js "[") with [91%N] in Hc. change (js "]") with [93%N] in Hc.
    inv_ok. rename r into parts, Hr into Hparts. apply map_res_Ok in Hparts.
    cbn [fixed_value canonical_data utf8_size] in *. rewrite fold_right_Forall in *.
    assert (sum_list_with (fun q => S (bytes q)) parts <= sum_list_with (fun x => S (utf8_size x)) l)%nat as Hsum.
    { apply sum_list_Forall2, Forall2_flip. clear -IH Hd Hp Hparts. induction Hparts; [constructor|].
      inversion IH; inversion Hd; inversion Hp; subst. constructor; [|auto]. cbn. apply le_n_S. auto. }
    pose proof (bytes_app [91%N] (join_comma parts ++ [93%N])). pose proof (bytes_app (join_comma parts) [93%N]).
    pose proof (bytes_join parts). change (bytes [91%N]) with 1%nat in *. change (bytes [93%N]) with 1%nat in *. cbn [app] in *. lia.
  - change (js "{") with [123%N] in Hc. change (js "}") with [125%N] in Hc.
    inv_ok. rename r into parts, Hr into Hparts. apply canonical_entries in Hparts.
    cbn [fixed_value canonical_data utf8_size] in *. destruct Hd as [_ Hd]. rewrite fold_right_Forall in *.
    match goal with |- context [join_comma (?g <$> _)] => set (f := g) end.
    assert (forall k q, f (k, q) = json_string k ++ js ":" ++ q) as Hf by done. clearbody f.
    assert (sum_list_with (fun kq => S (bytes (f kq))) parts
      <= sum_list_with (fun kv => length kv.1 + utf8_size kv.2 + 4)%nat l)%nat as Hsum.
    { apply sum_list_Forall2, Forall2_flip. clear -IH Hd Hp Hparts Hf.
      induction Hparts as [|[k x] [k' q] ? ? []]; [constructor|].
      inversion IH as [|? ? IHx]; inversion Hd; inversion Hp as [|? ? [Hk Hx]]; subst. constructor; [|auto].
      cbn [fst snd] in *. subst. specialize (IHx q ltac:(done) ltac:(done) ltac:(done)).
      pose proof (json_string_bytes k) as Hkb. unfold string_size in Hkb. rewrite Hk in Hkb.
      rewrite Hf. pose proof (bytes_app (json_string k) (js ":" ++ q)). pose proof (bytes_app (js ":") q).
      change (bytes (js ":")) with 1%nat in *. lia. }
    pose proof (bytes_app [123%N] (join_comma (f <$> sort_by entry_leb parts) ++ [125%N])).
    pose proof (bytes_app (join_comma (f <$> sort_by entry_leb parts)) [125%N]).
    pose proof (bytes_join (f <$> sort_by entry_leb parts)) as Hj. rewrite sum_list_with_fmap in Hj.
    assert (sum_list_with (fun kq => S (bytes (f kq))) (sort_by entry_leb parts)
      = sum_list_with (fun kq => S (bytes (f kq))) parts) as Hperm by (by rewrite sort_by_perm).
    cbn beta in *. rewrite Hperm in Hj.
    change (bytes [123%N]) with 1%nat in *. change (bytes [125%N]) with 1%nat in *. cbn [app] in *. lia.
Qed.

(** A safe object within the size limit has a canonical text. *)
Lemma canonicalizePayload_utf8 p entries :
  let v := VObj p entries in
  wf_value v -> safe_value 0 v -> node_count v <= 1000 -> fixed_value v ->
  (N.of_nat (utf8_size v) <= MAX_CANONICAL_BYTES)%N ->
  exists c, canonicalizePayload v = Ok c.
Proof.
  intros v Hw Hs Hn Hp Hsize.
  assert (canonical_data v) as Hd by by eapply safe_canonical_data.
  destruct (canonicalize_total v Hd) as [c Hc]. exists c.
  apply canonicalizePayload_Ok. repeat (split; [done|]).
  pose proof (canonical_utf8_size v c Hp Hd Hc). unfold bytes in *. lia.
Qed.

(** A value at [depth] of a payload, with bounds on its size and its nodes. *)
Record fits (depth : Z) (size nodes : nat) (v : jsv) : Prop := {
  fi_wf : wf_value v;
  fi_safe : safe_value depth v;
  fi_fixed : fixed_value v;
  fi_size : (utf8_size v <= size)%nat;
  fi_nodes : node_count v <= Z.of_nat nodes;
}.

Lemma fits_plain depth s n :
  depth <= MAX_DEPTH -> plain s = true -> (length s <= n)%nat -> (n <= MAX_STRING_LENGTH)%nat ->
  fits depth (n + 2) 1 (VStr s).
Proof.
  intros Hd Hs Hl Hn. split; [done| |by apply ascii_nfc_fixed, plain_ascii| |done].
  - split; [done|lia].
  - cbn [utf8_size]. unfold string_size. rewrite Hs. lia.
Qed.

Lemma fits_text depth s n :
  depth <= MAX_DEPTH -> nfc_fixed s -> (length s <= n)%nat -> (n <= MAX_STRING_LENGTH)%nat ->
  fits depth (6 * n + 2) 1 (VStr s).
Proof.
  intros Hd Hs Hl Hn. split; [done| |done| |done].
  - split; [done|lia].
  - cbn [utf8_size]. unfold string_size. destruct (plain s); lia.
Qed.

Lemma fits_null depth : depth <= MAX_DEPTH -> fits depth 4 1 VNull.
Proof. by split. Qed.

Lemma fits_array depth size nodes count l :
  depth <= MAX_DEPTH -> Forall (fits (depth + 1) size nodes) l -> (length l <= count)%nat ->
  fits depth (2 + count * S size) (1 + count * nodes) (VArr l).
Proof.
  intros Hd Hl Hc. split; cbn [wf_value safe_value fixed_value utf8_size node_count].
  - apply fold_right_Forall. eapply Forall_impl; [exact Hl|]. by intros ? [].
  - split; [done|]. apply fold_right_Forall. eapply Forall_impl; [exact Hl|]. by intros ? [].
  - apply fold_right_Forall. eapply Forall_impl; [exact Hl|]. by intros ? [].
  - assert (sum_list_with (fun x => S (utf8_size x)) l <= length l * S size)%nat; [|nia].
    clear Hc. induction Hl as [|x l [] _ IH]; [done|]. cbn [sum_list_with length]. lia.
  - assert (foldr (fun x n => node_count x + n) 0 l <= Z.of_nat (length l * nodes)); [|nia].
    clear Hc. induction Hl as [|x l [] _ IH]; [done|]. cbn [foldr length]. lia.
Qed.

Lemma fits_object depth entries sizes :
  depth <= MAX_DEPTH -> flat_keys entries.*1 = true ->
  Forall2 (fun kv bound => fits (depth + 1) bound.1 bound.2 kv.2) entries sizes ->
  fits depth (2 + sum_list_with (fun bound => 44 + bound.1)%nat sizes)
    (1 + sum_list_with snd sizes) (VObj PObject entries).
Proof.
  intros Hd [Hn%bool_decide_eq_true Hk]%andb_true_iff Hf.
  assert (Forall (fun kv : jsstr * jsv => safe_key kv.1 = true /\ (length kv.1 <= 40)%nat) entries) as Hkeys.
  { apply List.Forall_forall. intros kv Hin. rewrite List.forallb_forall in Hk.
    specialize (Hk kv.1 (List.in_map fst _ _ Hin)). by apply andb_true_iff in Hk as [? ?%Nat.leb_le]. }
  assert (Forall (fun kv : jsstr * jsv => exists bound, fits (depth + 1) bound.1 bound.2 kv.2) entries) as Hall.
  { eapply Forall2_Forall_l; [exact Hf|]. apply Forall_true. eauto. }
  split; cbn [wf_value safe_value fixed_value utf8_size node_count].
  - split; [done|]. apply fold_right_Forall. eapply Forall_impl; [exact Hall|]. by intros ? [? []].
  - split; [done|]. apply fold_right_Forall. apply (Forall_impl _ _ _ (proj2 (Forall_and _ _) (conj Hkeys Hall))).
    intros kv [[Hs _] [? []]]. by destruct (safe_key_ok kv.1 Hs) as (? & ? & _).
  - apply fold_right_Forall. apply (Forall_impl _ _ _ (proj2 (Forall_and _ _) (conj Hkeys Hall))).
    intros kv [[Hs _] [? []]]. by destruct (safe_key_ok kv.1 Hs) as (_ & _ & ?).
  - apply le_n_S, le_n_S. apply sum_list_Forall2.
    clear -Hf Hkeys. induction Hf as [|kv bound entries sizes [] _ IH]; [constructor|].
    apply Forall_cons in Hkeys as [[_ Hl] Hkeys]. constructor; [|by apply IH]. lia.
  - clear -Hf. assert (foldr (fun kv n => node_count kv.2 + n) 0 entries <= Z.of_nat (sum_list_with snd sizes)); [|lia].
    induction Hf as [|kv bound entries sizes [] _ IH]; [done|]. cbn [foldr sum_list_with]. lia.
Qed.

Lemma fits_payload size nodes entries :
  fits 0 size nodes (VObj PObject entries) -> (N.of_nat size <=? MAX_CANONICAL_BYTES)%N = true ->
  (nodes <=? 1000)%nat = true ->
  exists c, canonicalizePayload (VObj PObject entries) = Ok c.
Proof.
  intros [Hw Hs Hf Hsize Hn] H1%N.leb_le H2%Nat.leb_le. apply canonicalizePayload_utf8; try done; lia.
Qed.
End utf8_sizes.
