(* ===== verification/PreflightEvidence.v ===== *)
(** * The preflight evidence of the Wallet Guard

    Models [applications/blockchain-digital-assets/wallet-guard/preflight-evidence.mjs]
    and [method-commitment.mjs]: a builder turns a normalised intent and a policy
    into a POM-RX preflight receipt, once per evidence id and run id.  The only
    call out is the trusted clock, which may call the builder again, so a build
    is two steps.  The evidence keeps the fields that are not constants or fields
    of the input. *)
From S2P Require Import Prelude JsDate JsValue ProofSdk Json Canonical Receipt Normal PomRx JsHeap PlainData Authorization Gate EvmDecoders WalletIntent WalletPolicy WalletBoundary PolicyController PayloadSize.

#[local] Arguments js : simpl never.

Definition WALLET_GUARD_METHOD_COMMIT_DOMAIN : jsstr := js "swisstokint:pom-rx-wallet-guard-method:v1:".
Definition WALLET_GUARD_PREFLIGHT_EVIDENCE_SCHEMA_VERSION : jsstr := js "wallet_guard_preflight_evidence/0.1".
Definition INPUT_COMMIT_DOMAIN : jsstr := js "swisstokint:pom-rx-wallet-guard-preflight-input:v1:".
Definition DECISION_COMMIT_DOMAIN : jsstr := js "swisstokint:pom-rx-wallet-guard-preflight-decision:v1:".
Definition RULE_COMMIT_DOMAIN : jsstr := js "swisstokint:pom-rx-wallet-guard-preflight-rule:v1:".
Definition RULE_EVIDENCE_DOMAIN : jsstr := js "swisstokint:pom-rx-wallet-guard-preflight-rule-evidence:v1:".
Definition MAX_LOCAL_EVIDENCE_IDENTITIES : nat := 1000.
Definition BUILD_KEYS : list jsstr := js <$>
  ["intent"; "policy"; "evidenceId"; "runId"; "agentRef"; "subjectRef"; "sourceKeyId"].

Definition preflight_fail (code : string) (msg : jsstr) : jserr :=
  Err PreflightErr (js "POMRX_WG_PREFLIGHT_E_" ++ js code) msg.

(** [captureExactDataRecord] of this module, with its default code *)
Definition preflight_record : heap -> hval -> list jsstr -> string -> res snapshot :=
  captureExactRecord (preflight_fail "INVALID") " must use Object.prototype or a null prototype".

(** What [build] has of its input when it calls the clock. *)
Record preflight_input := {
  pi_evidence_id : jsstr;
  pi_run_id : jsstr;
  pi_agent_ref : jsstr;
  pi_subject_ref : jsstr;
  pi_source_key_id : jsstr;
  pi_intent : intent;
  pi_canonical_intent : jsstr;
  pi_intent_commitment : jsstr;
  pi_policy_result : policy_result;
}.

Record preflight_evidence := {
  pe_input : preflight_input;
  pe_occurred_at : jsstr;
  pe_reasons : list jsstr;
  pe_decision_commitment : jsstr;
  pe_input_commitment : jsstr;
  pe_method_hash : jsstr;
  pe_receipt : option committed;
}.

(** The variables of a builder; [buildInProgress] is whether [build] waits for
    the clock. *)
Record builder := {
  usedEvidenceIds : list jsstr;
  usedRunIds : list jsstr;
  lastClockSampleMs : option Z;
  buildPending : option preflight_input;
}.

Definition decision_name (d : decision) : jsstr :=
  match d with DENY => js "DENY" | INDETERMINATE => js "INDETERMINATE" | ALLOW => js "ALLOW" end.

Section preflight.
Context `{SH : !StringHost, HH : !HashHost, DH : !DateHost, UH : !UrlHost}.

Definition commitWalletGuardMethod (method : jsstr) : res jsstr :=
  _ ← assert (RPC_METHOD_PATTERN method) (js "Wallet Guard RPC method has an invalid format");
  Ok (sha256Hex (WALLET_GUARD_METHOD_COMMIT_DOMAIN ++ method)).

(** [sampleTrustedClock], given what the clock does *)
Definition preflight_clock (lastSampleMs : option Z) (reading : clock_reading) : res Z :=
  let invalid := preflight_fail "TIME_INVALID" (js "trusted clock must return a canonical UTC instant") in
  now ← match reading with
        | ClockThrew => Throw (preflight_fail "TIME_INVALID" (js "trusted clock failed"))
        | ClockReturned (HRef _) (ThenThrew e) => Throw e
        | ClockReturned (HRef _) ThenFunction =>
            Throw (preflight_fail "TIME_INVALID" (js "trusted clock must be synchronous"))
        | ClockReturned (HStr s) _ =>
            match canonical_instant s with Some t => Ok t | None => Throw invalid end
        | ClockReturned _ _ => Throw invalid
        end;
  _ ← guard_or (match lastSampleMs with Some t => t <=? now | None => true end)
        (preflight_fail "TIME_ROLLBACK" (js "trusted clock moved backwards"));
  Ok now.

Definition metadata_format (field : string) : jserr :=
  preflight_fail "INVALID" (js field ++ js " has an invalid format").

Definition normalizeReference (field : string) (value : hval) : res jsstr :=
  s ← match value with HStr s => Ok s | _ => Throw (metadata_format field) end;
  let normalized := nfc s in
  _ ← guard_or (ref_ok normalized) (metadata_format field);
  Ok normalized.

(** A string of the input that [validateMetadata] tests *)
Definition metadata_string (pattern : jsstr -> bool) (field : string) (input : snapshot) : res jsstr :=
  match hstr_that pattern (snap_get (js field) input) with
  | Some s => Ok s
  | None => Throw (metadata_format field)
  end.

(** The two references of [validateMetadata], after the strings it tested *)
Definition validateMetadata (input : snapshot) : res (jsstr * jsstr * jsstr * jsstr * jsstr) :=
  evidenceId ← metadata_string id_pattern "evidenceId" input;
  runId ← metadata_string id_pattern "runId" input;
  agentRef ← normalizeReference "agentRef" (snap_get (js "agentRef") input);
  subjectRef ← normalizeReference "subjectRef" (snap_get (js "subjectRef") input);
  sourceKeyId ← metadata_string source_key_id_pattern "sourceKeyId" input;
  Ok (evidenceId, runId, sourceKeyId, agentRef, subjectRef).

Definition ruleHash (ruleId : jsstr) : jsstr := sha256Hex (RULE_COMMIT_DOMAIN ++ ruleId).

Definition assertion_payload (ruleId : jsstr) (r : assertion_result) (decisionCommitment : jsstr) : jsv :=
  VObj PObject
    [(js "rule_id", VStr ruleId); (js "result", VStr (result_name r));
     (js "decision_commitment", VStr decisionCommitment)].
Definition makeAssertion (ruleId : jsstr) (r : assertion_result) (decisionCommitment : jsstr) : res assertion :=
  canonical ← canonicalizePayload (assertion_payload ruleId r decisionCommitment);
  Ok {| rule_id := ruleId; rule_hash := ruleHash ruleId; result := r; proof_mode := Commitment;
        evidence_hash := sha256Hex (RULE_EVIDENCE_DOMAIN ++ canonical) |}.

Definition sorted_reasons (r : policy_result) : list jsstr := sort_str (pr_reasons r).
(** The payload of [commitDecision] *)
Definition decision_payload (p : preflight_input) (occurredAt : jsstr) : jsv :=
  let r := pi_policy_result p in
  VObj PObject
    [(js "schema_version", VStr WALLET_GUARD_PREFLIGHT_EVIDENCE_SCHEMA_VERSION);
     (js "evidence_id", VStr (pi_evidence_id p)); (js "run_id", VStr (pi_run_id p));
     (js "request_id", VStr (wi_request_id (pi_intent p))); (js "agent_ref", VStr (pi_agent_ref p));
     (js "subject_ref", VStr (pi_subject_ref p)); (js "source_key_id", VStr (pi_source_key_id p));
     (js "occurred_at", VStr occurredAt); (js "decision", VStr (decision_name (pr_decision r)));
     (js "reasons", VArr (VStr <$> sorted_reasons r)); (js "policy_id", VStr (pr_policy_id r));
     (js "policy_hash", VStr (pr_policy_hash r));
     (js "intent_commitment", VStr (pi_intent_commitment p))].
Definition commitDecision (p : preflight_input) (occurredAt : jsstr) : res jsstr :=
  canonical ← canonicalizePayload (decision_payload p occurredAt);
  Ok (sha256Hex (DECISION_COMMIT_DOMAIN ++ canonical)).

(** [build] up to the clock.  [intents] says which intent a value is, and
    whether the normaliser made it. *)
Definition prepare_build (b : builder) (h : heap) (intents : hval -> intent_ref) (rawInput : hval)
  : res preflight_input :=
  input ← preflight_record h rawInput BUILD_KEYS "preflight evidence input";
  '(evidenceId, runId, sourceKeyId, agentRef, subjectRef) ← validateMetadata input;
  _ ← guard_or (negb (mem_str evidenceId (usedEvidenceIds b)))
        (preflight_fail "REPLAY" (js "evidenceId was already used by this builder"));
  _ ← guard_or (negb (mem_str runId (usedRunIds b)))
        (preflight_fail "REPLAY" (js "runId was already used by this builder"));
  _ ← guard_or ((length (usedEvidenceIds b) <? MAX_LOCAL_EVIDENCE_IDENTITIES)%nat
                && (length (usedRunIds b) <? MAX_LOCAL_EVIDENCE_IDENTITIES)%nat)
        (preflight_fail "CAPACITY"
           (js "preflight evidence builder reached its fail-closed local identity ceiling"));
  let ref := intents (snap_get (js "intent") input) in
  _ ← guard_or (ir_normalized ref)
        (preflight_fail "INTENT" (js "preflight evidence requires the exact locally normalized intent object"));
  i ← validateWalletGuardIntent (ir_value ref);
  '(canonicalIntent, intentCommitment) ← commitWalletGuardIntent (ir_value ref);
  policyResult ← catch (evaluate_with ref (normalizePolicy h (snap_get (js "policy") input)) (Ok (js "not_run")))
    (fun error =>
       if bool_decide (err_cls error = WalletPolicyErr)
       then Throw (preflight_fail "POLICY" (js "Wallet Guard policy evaluation failed"))
       else Throw error);
  Ok {| pi_evidence_id := evidenceId; pi_run_id := runId; pi_agent_ref := agentRef;
        pi_subject_ref := subjectRef; pi_source_key_id := sourceKeyId; pi_intent := i;
        pi_canonical_intent := canonicalIntent; pi_intent_commitment := intentCommitment;
        pi_policy_result := policyResult |}.

Definition forwardable (d : decision) : bool := bool_decide (d = ALLOW).
(** The receipt of a determinate decision *)
Definition preflight_receipt (p : preflight_input) (occurredAt methodHash inputCommitment : jsstr)
    (determinate forwarded : assertion) : pom_receipt :=
  let r := pi_policy_result p in
  {| p_receipt_id := pi_evidence_id p; run_id := pi_run_id p; p_phase := Preflight;
     p_outcome := if forwardable (pr_decision r) then Allow else Deny;
     agent_ref := pi_agent_ref p; subject_ref := pi_subject_ref p; method_hash := methodHash;
     policy_hash := pr_policy_hash r; input_commitment := inputCommitment;
     action_commitment := pi_intent_commitment p; assertions := [determinate; forwarded];
     previous_receipt_hash := None; p_occurred_at := occurredAt; source_key_id := pi_source_key_id p |}.

(** [build] from the clock sample to the result *)
Definition build_evidence (p : preflight_input) (now : Z) : res preflight_evidence :=
  let occurredAt := to_iso_string now in
  let inputCommitment := sha256Hex (INPUT_COMMIT_DOMAIN ++ pi_canonical_intent p) in
  let r := pi_policy_result p in
  methodHash ← commitWalletGuardMethod (wi_rpc_method (pi_intent p));
  decisionCommitment ← commitDecision p occurredAt;
  receipt ←
    (if bool_decide (pr_decision r = INDETERMINATE) then Ok None
     else
       determinate ← makeAssertion (js "wallet-guard-determinate") Pass decisionCommitment;
       forwarded ← makeAssertion (js "wallet-guard-forwardable")
         (if forwardable (pr_decision r) then Pass else Failed) decisionCommitment;
       Some <$> commitPomRxReceipt
         (pom_value (preflight_receipt p occurredAt methodHash inputCommitment determinate forwarded)));
  Ok {| pe_input := p; pe_occurred_at := occurredAt; pe_reasons := sorted_reasons r;
        pe_decision_commitment := decisionCommitment; pe_input_commitment := inputCommitment;
        pe_method_hash := methodHash; pe_receipt := receipt |}.

(** [build] after the clock *)
Definition finish_build (b : builder) (p : preflight_input) (reading : clock_reading)
  : res preflight_evidence * builder :=
  match preflight_clock (lastClockSampleMs b) reading with
  | Throw e => (Throw e, {| usedEvidenceIds := usedEvidenceIds b; usedRunIds := usedRunIds b;
                            lastClockSampleMs := lastClockSampleMs b; buildPending := None |})
  | Ok now =>
      match build_evidence p now with
      | Throw e => (Throw e, {| usedEvidenceIds := usedEvidenceIds b; usedRunIds := usedRunIds b;
                                lastClockSampleMs := Some now; buildPending := None |})
      | Ok result => (Ok result,
          {| usedEvidenceIds := pi_evidence_id p :: usedEvidenceIds b;
             usedRunIds := pi_run_id p :: usedRunIds b;
             lastClockSampleMs := Some now; buildPending := None |})
      end
  end.

Definition createWalletGuardPreflightEvidenceBuilder (h : heap) (rawOptions : hval) : res builder :=
  options ← preflight_record h rawOptions [js "trustedClock"] "preflight evidence bootstrap";
  _ ← guard_or (match snap_get (js "trustedClock") options with HFun _ => true | _ => false end)
        (preflight_fail "INVALID" (js "trustedClock must be a function"));
  Ok {| usedEvidenceIds := []; usedRunIds := []; lastClockSampleMs := None; buildPending := None |}.

(** ** Histories *)

Inductive preflight_event :=
  | BuildCalled (h : heap) (intents : hval -> intent_ref) (rawInput : hval)
  | ClockAnswered (reading : clock_reading).

(** [build] up to the clock or its error, and the return of the clock. *)
Definition preflight_step (b : builder) (e : preflight_event) : option (res preflight_evidence) * builder :=
  match e, buildPending b with
  | BuildCalled _ _ _, Some _ =>
      (Some (Throw (preflight_fail "REENTRANT"
         (js "preflight evidence build is already in progress in this builder"))), b)
  | BuildCalled h intents rawInput, None =>
      match prepare_build b h intents rawInput with
      | Throw e => (Some (Throw e), b)
      | Ok p => (None, {| usedEvidenceIds := usedEvidenceIds b; usedRunIds := usedRunIds b;
                          lastClockSampleMs := lastClockSampleMs b; buildPending := Some p |})
      end
  | ClockAnswered reading, Some p => let '(r, b) := finish_build b p reading in (Some r, b)
  | ClockAnswered _, None => (None, b)
  end.
Fixpoint preflight_steps (b : builder) (es : list preflight_event) : list (res preflight_evidence) * builder :=
  match es with
  | [] => ([], b)
  | e :: es =>
      let '(r, b) := preflight_step b e in
      let '(rs, b) := preflight_steps b es in
      (match r with Some r => r :: rs | None => rs end, b)
  end.
End preflight.

(** ** What a build needs *)

Section preflight_proofs.
Context `{SH : !StringHost, HH : !HashHost, DH : !DateHost, UH : !UrlHost}.

(** A reference of the input, and the form the evidence has it in. *)
Definition shows_reference (v : hval) (s : jsstr) : Prop :=
  exists t, v = HStr t /\ s = nfc t /\ ref_ok s = true.

(** The input [rawInput] is well-formed and says [p], with the verdict of
    [policy] on the intent. *)
Record build_input (h : heap) (intents : hval -> intent_ref) (rawInput : hval) (s : snapshot) (pol : policy)
    (p : preflight_input) : Prop := {
  bi_captures : captures h rawInput BUILD_KEYS s;
  bi_evidence_id : snap_get (js "evidenceId") s = HStr (pi_evidence_id p) /\ id_pattern (pi_evidence_id p) = true;
  bi_run_id : snap_get (js "runId") s = HStr (pi_run_id p) /\ id_pattern (pi_run_id p) = true;
  bi_agent : shows_reference (snap_get (js "agentRef") s) (pi_agent_ref p);
  bi_subject : shows_reference (snap_get (js "subjectRef") s) (pi_subject_ref p);
  bi_source : snap_get (js "sourceKeyId") s = HStr (pi_source_key_id p) /\
    source_key_id_pattern (pi_source_key_id p) = true;
  bi_normalized : ir_normalized (intents (snap_get (js "intent") s)) = true;
  bi_intent : validateWalletGuardIntent (ir_value (intents (snap_get (js "intent") s))) = Ok (pi_intent p);
  bi_class : exists c, ac_class (wi_action (pi_intent p)) = class_name c;
  bi_canonical : pi_canonical_intent p = canonicalizeValidatedIntent (pi_intent p);
  bi_commitment : pi_intent_commitment p = sha256Hex (intent_input (pi_canonical_intent p));
  bi_policy : normalizePolicy h (snap_get (js "policy") s) = Ok pol;
  bi_result : pi_policy_result p = policy_verdict pol (pi_intent p) (js "not_run");
}.

Lemma normalizeReference_Ok f v s : normalizeReference f v = Ok s <-> shows_reference v s.
Proof.
  unfold normalizeReference, shows_reference. split.
  - destruct v as [| | | |t| | | |]; try done. cbn [mbind res_bind]. cbv zeta.
    intros [Hr [= <-]]%guard_bind_Ok. eauto.
  - intros (t & -> & -> & Hr). cbn [mbind res_bind]. cbv zeta. by rewrite Hr.
Qed.

Lemma metadata_string_Ok pat f s t :
  metadata_string pat f s = Ok t <-> snap_get (js f) s = HStr t /\ pat t = true.
Proof.
  unfold metadata_string. destruct (hstr_that pat _) as [u|] eqn:E.
  - apply hstr_that_Some in E as [-> E]. split; [by intros [= <-]|]. by intros [[= ->] _].
  - split; [done|]. intros [Hv H]. rewrite Hv in E. cbn [hstr_that] in E. by rewrite H in E.
Qed.

Lemma evaluate_with_Ok ref p status r :
  evaluate_with ref (Ok p) (Ok status) = Ok r <->
  exists i c, validateWalletGuardIntent (ir_value ref) = Ok i /\ ir_normalized ref = true /\
    ac_class (wi_action i) = class_name c /\ r = policy_verdict p i status.
Proof.
  unfold evaluate_with, validateIntent. split.
  - intros (i & Hi & H)%bind_Ok.
    apply bind_Ok in Hi as (i' & [Hi|(? & _ & ?)]%catch_Ok & Hg); [|done].
    apply guard_bind_Ok in Hg as [Hn Hg]. apply guard_bind_Ok in Hg as [[c Hc]%known_class [= <-]].
    injection H as <-. by exists i', c.
  - intros (i & c & Hi & Hn & Hc & ->). rewrite Hi, Hn. cbn [catch mbind res_bind guard_or].
    rewrite Hc. by destruct c.
Qed.

Lemma evaluate_with_policy ref m status r :
  evaluate_with ref m status = Ok r -> exists p, m = Ok p.
Proof.
  unfold evaluate_with. intros (i & _ & H)%bind_Ok. apply bind_Ok in H as (p & -> & _). eauto.
Qed.

Lemma prepare_build_Ok b h intents raw p :
  prepare_build b h intents raw = Ok p <->
  (exists s pol, build_input h intents raw s pol p) /\
  (pi_evidence_id p ∉ usedEvidenceIds b) /\ (pi_run_id p ∉ usedRunIds b) /\
  (length (usedEvidenceIds b) < MAX_LOCAL_EVIDENCE_IDENTITIES)%nat /\
  (length (usedRunIds b) < MAX_LOCAL_EVIDENCE_IDENTITIES)%nat.
Proof.
  unfold prepare_build, validateMetadata, preflight_record. split.
  - intros (s & Hs%captureExactRecord_Ok & H)%bind_Ok. apply bind_Ok in H as ([[[[e r] k] a] u] & Hm & H).
    apply bind_Ok in Hm as (e' & He%metadata_string_Ok & Hm). apply bind_Ok in Hm as (r' & Hr%metadata_string_Ok & Hm).
    apply bind_Ok in Hm as (a' & Ha%normalizeReference_Ok & Hm).
    apply bind_Ok in Hm as (u' & Hu%normalizeReference_Ok & Hm).
    apply bind_Ok in Hm as (k' & Hk%metadata_string_Ok & [= -> -> -> -> ->]).
    do 3 apply guard_bind_Ok in H as [?G H]. cbv zeta in H. apply guard_bind_Ok in H as [Hn H].
    apply bind_Ok in H as (i & Hi & H). apply bind_Ok in H as ([ci co] & Hc & H).
    unfold commitWalletGuardIntent in Hc. rewrite Hi in Hc. injection Hc as <- <-.
    apply bind_Ok in H as (res & [He'|(? & _ & He')]%catch_Ok & [= <-]); [|by case_bool_decide].
    destruct (evaluate_with_policy _ _ _ _ He') as [pol Hpol]. rewrite Hpol in He'.
    apply evaluate_with_Ok in He' as (i' & c & Hi' & _ & Hcl & ->).
    assert (i' = i) as -> by congruence.
    apply negb_true_iff in G, G0. apply andb_true_iff in G1 as [G1%Nat.ltb_lt G2%Nat.ltb_lt].
    cbn [pi_evidence_id pi_run_id]. rewrite <- !mem_str_true, !not_true_iff_false.
    split; [|done]. exists s, pol. split; eauto.
  - intros ((s & pol & [Hs He Hr Ha Hu Hk Hn Hi [c Hc] Hci Hco Hpol Hres]) & Fe & Fr & Le & Lr).
    apply bind_Ok. exists s. split; [by apply captureExactRecord_Ok|]. apply bind_Ok.
    exists (pi_evidence_id p, pi_run_id p, pi_source_key_id p, pi_agent_ref p, pi_subject_ref p). split.
    { rewrite (proj2 (metadata_string_Ok _ _ _ _) He), (proj2 (metadata_string_Ok _ _ _ _) Hr),
        (proj2 (normalizeReference_Ok _ _ _) Ha), (proj2 (normalizeReference_Ok _ _ _) Hu),
        (proj2 (metadata_string_Ok _ _ _ _) Hk). done. }
    rewrite <- mem_str_true, not_true_iff_false in Fe, Fr. rewrite Fe, Fr.
    rewrite (proj2 (Nat.ltb_lt _ _) Le), (proj2 (Nat.ltb_lt _ _) Lr). cbn [negb andb guard_or mbind res_bind].
    cbv zeta. rewrite Hn. cbn [guard_or mbind res_bind]. unfold commitWalletGuardIntent. rewrite Hi.
    cbn [mbind res_bind]. rewrite Hpol.
    rewrite (proj2 (evaluate_with_Ok _ pol (js "not_run") (pi_policy_result p))) by eauto 10.
    cbn [catch mbind res_bind]. rewrite <- Hci, <- Hco. by destruct p.
Qed.

(** ** The reasons of a verdict *)

(** A list of at most [n] plain reasons. *)
Definition short_reasons (n : nat) (l : list jsstr) : Prop :=
  (length l <= n)%nat /\ Forall (fun s => plain s = true /\ (length s <= 60)%nat) l.

Lemma short_app n m l k : short_reasons n l -> short_reasons m k -> short_reasons (n + m) (l ++ k).
Proof. intros [? ?] [? ?]. split; [rewrite length_app; lia|by apply Forall_app]. Qed.
Lemma short_reason_if b r :
  plain (js r) && (length (js r) <=? 60)%nat = true -> short_reasons 1 (reason_if b r).
Proof.
  intros [? ?%Nat.leb_le]%andb_true_iff. destruct b; (split; [cbn; lia|]); [|by apply Forall_nil]. by apply Forall_singleton.
Qed.
Lemma short_if n (b : bool) l : short_reasons n l -> short_reasons n (if b then l else []).
Proof. destruct b; [done|]. intros _. split; [cbn; lia|done]. Qed.
Lemma short_weaken n m l : (n <= m)%nat -> short_reasons n l -> short_reasons m l.
Proof. intros ? [? ?]. split; [lia|done]. Qed.

Ltac short_reasons :=
  repeat first [ apply short_reason_if; vm_compute; reflexivity | apply short_app | apply short_if ].

Lemma deny_short p i status : exists n, (n <= 40)%nat /\ short_reasons n (denyReasons p i status).
Proof.
  eexists. split; [|unfold denyReasons, deny_native, deny_transfer, deny_approve, deny_operator, deny_permit,
    deny_allowance; cbv zeta; short_reasons]. by apply Nat.leb_le.
Qed.
Lemma indeterminate_short p i status : short_reasons 2 (indeterminateReasons p i status).
Proof. unfold indeterminateReasons. cbv zeta. apply (short_app 1 1); short_reasons. Qed.

Lemma unique_length reasons acc :
  (length (foldl (fun unique reason => if mem_str reason unique then unique else unique ++ [reason]) acc reasons)
    <= length acc + length reasons)%nat.
Proof.
  revert acc. induction reasons as [|r rs IH]; intros acc; cbn [foldl length]; [lia|].
  etrans; [apply IH|]. destruct (mem_str r acc); rewrite ?length_app; cbn [length]; lia.
Qed.

Lemma makeResult_short n d rs p : short_reasons n rs -> short_reasons n (pr_reasons (makeResult d rs p)).
Proof.
  intros [Hl Hf]. destruct (unique_reasons rs [] NoDup_nil_2) as [_ Hin]. split.
  - cbn [makeResult pr_reasons]. etrans; [apply unique_length|]. cbn. lia.
  - apply Forall_forall. intros r Hr. apply Hin in Hr as [Hr%elem_of_nil|Hr]; [done|].
    by eapply Forall_forall in Hf.
Qed.

Lemma verdict_short p i status : short_reasons 40 (pr_reasons (policy_verdict p i status)).
Proof.
  destruct (deny_short p i status) as (n & Hn & Hd). unfold policy_verdict. cbv zeta.
  destruct (0 <? _)%nat; [|destruct (0 <? _)%nat].
  - apply makeResult_short. by eapply short_weaken.
  - apply makeResult_short. apply (short_weaken 2); [lia|]. apply indeterminate_short.
  - apply makeResult_short. split; [cbn; lia|]. apply Forall_singleton. by split; [vm_compute|apply Nat.leb_le].
Qed.

Lemma verdict_names p i status :
  pr_policy_id (policy_verdict p i status) = po_id p /\
  pr_policy_hash (policy_verdict p i status) = sha256Hex (policy_input (canonicalizeNormalizedPolicy p)).
Proof. unfold policy_verdict. by repeat case_match. Qed.

Lemma REQUEST_ID_plain s : REQUEST_ID_PATTERN s = true -> plain s = true /\ (length s <= 128)%nat.
Proof. apply re_head_class_plain; plain_class. Qed.

(** ** A build that reaches the clock gives evidence *)

Lemma fits_reference depth s :
  depth <= MAX_DEPTH -> nfc_fixed s -> ref_ok s = true -> fits depth 1538 1 (VStr s).
Proof.
  intros Hd Hs [[_ Hl%Nat.leb_le]%andb_true_iff _]%andb_true_iff.
  apply (fits_text depth s 256); try done. by apply Nat.leb_le.
Qed.

Lemma sha256_plain s : plain (sha256Hex s) = true /\ (length (sha256Hex s) <= 128)%nat.
Proof. destruct (hash_pattern_plain _ (sha256_hex_format s)). split; [done|]. unfold sha256Hex. lia. Qed.

Lemma commitDecision_total h intents raw s pol p now :
  build_input h intents raw s pol p -> time_valid now = true ->
  exists c, commitDecision p (to_iso_string now) = Ok c.
Proof.
  intros [_ [_ He] [_ Hr] (ta & _ & Hna & Ha) (tu & _ & Hnu & Hu) [_ Hk] _ Hi _ _ Hco Hpol Hres] Hnow.
  apply validate_sound in Hi as [_ Hv]. destruct (verdict_names pol (pi_intent p) (js "not_run")) as [Hid Hhash].
  rewrite <- Hres in Hid, Hhash.
  destruct (verdict_short pol (pi_intent p) (js "not_run")) as [Hrl Hrf]. rewrite <- Hres in Hrl, Hrf.
  assert (exists c, canonicalizePayload (decision_payload p (to_iso_string now)) = Ok c) as [c Hc];
    [|unfold commitDecision; rewrite Hc; by eexists].
  assert (forall t, plain t = true /\ (length t <= 128)%nat -> fits 1 130 1 (VStr t)) as Hplain.
  { intros t [? ?]. apply (fits_plain 1 t 128); try done; by apply Nat.leb_le. }
  apply (fits_payload (2 + sum_list_with (fun bound => 44 + bound.1)%nat
      [(130, 1); (130, 1); (130, 1); (130, 1); (1538, 1); (1538, 1); (130, 1); (130, 1); (130, 1);
       (2 + 40 * 63, 1 + 40 * 1); (130, 1); (130, 1); (130, 1)])%nat
    (1 + sum_list_with snd
      [(130, 1); (130, 1); (130, 1); (130, 1); (1538, 1); (1538, 1); (130, 1); (130, 1); (130, 1);
       (2 + 40 * 63, 1 + 40 * 1); (130, 1); (130, 1); (130, 1)])%nat); [|by vm_compute|by vm_compute].
  apply fits_object; [done|by vm_compute|].
  repeat (constructor; [cbn [fst snd]|]); [..|constructor]; try apply Hplain.
  - by split; [vm_compute|apply Nat.leb_le].
  - by apply id_pattern_plain.
  - by apply id_pattern_plain.
  - apply REQUEST_ID_plain, Hv.
  - apply fits_reference; [done| |done]. rewrite Hna. apply nfc_nfc_fixed.
  - apply fits_reference; [done| |done]. rewrite Hnu. apply nfc_nfc_fixed.
  - destruct (source_key_id_pattern_plain _ Hk). split; [done|lia].
  - destruct (to_iso_string_plain now). split; [done|lia].
  - split; [by destruct (pr_decision _)|by destruct (pr_decision _); apply Nat.leb_le].
  - apply (fits_array 1 62 1 40); [done| |].
    + apply Forall_fmap. unfold sorted_reasons, sort_str. rewrite sort_by_perm.
      eapply Forall_impl; [exact Hrf|]. intros t [? ?]. apply (fits_plain 2 t 60); try done. by apply Nat.leb_le.
    + unfold sorted_reasons, sort_str. by rewrite length_fmap, sort_by_perm.
  - rewrite Hid. by apply POLICY_ID_plain, np_id, (normalizePolicy_normal _ _ _ Hpol).
  - rewrite Hhash. apply sha256_plain.
  - rewrite Hco. apply sha256_plain.
Qed.

(** [a] says that the rule [id] gave the result [r], and commits to that. *)
Definition asserts (a : assertion) (id : jsstr) (r : assertion_result) (decision : jsstr) : Prop :=
  exists text, canonicalizePayload (assertion_payload id r decision) = Ok text /\
    a = {| rule_id := id; rule_hash := sha256Hex (RULE_COMMIT_DOMAIN ++ id); result := r;
           proof_mode := Commitment; evidence_hash := sha256Hex (RULE_EVIDENCE_DOMAIN ++ text) |}.

Lemma makeAssertion_total id r commitment :
  plain id = true -> (length id <= 64)%nat -> RULE_ID_PATTERN id = true -> hash_pattern commitment = true ->
  exists a, makeAssertion id r commitment = Ok a /\ asserts a id r commitment /\
    rule_id a = id /\ result a = r /\ assertion_wf a.
Proof.
  intros Hid Hl Hrule Hh%hash_pattern_plain. unfold makeAssertion.
  destruct (flat_payload_total PObject
    [(js "rule_id", VStr id); (js "result", VStr (result_name r)); (js "decision_commitment", VStr commitment)])
    as [c Hc]; [|by apply Nat.leb_le|].
  - split; [by vm_compute|]. repeat (apply Forall_cons; split); [..|by apply Forall_nil]; cbn [snd flat_field].
    + split; [done|lia].
    + by destruct r; (split; [vm_compute|apply Nat.leb_le]).
    + destruct Hh. split; [done|lia].
  - change (canonicalizePayload (assertion_payload id r commitment) = Ok c) in Hc. rewrite Hc.
    eexists. split; [done|]. split; [by exists c|]. split; [done|]. split; [done|].
    split; [done|apply sha256_hex_format|apply sha256_hex_format].
Qed.

(** What the evidence of [p] at [now] is. *)
Record evidence_of (p : preflight_input) (now : Z) (ev : preflight_evidence) : Prop := {
  ev_input : pe_input ev = p;
  ev_time : pe_occurred_at ev = to_iso_string now;
  ev_reasons : pe_reasons ev = sort_str (pr_reasons (pi_policy_result p));
  ev_input_commitment : pe_input_commitment ev = sha256Hex (INPUT_COMMIT_DOMAIN ++ pi_canonical_intent p);
  ev_method : pe_method_hash ev = sha256Hex (WALLET_GUARD_METHOD_COMMIT_DOMAIN ++ wi_rpc_method (pi_intent p));
  ev_decision : exists text, canonicalizePayload (decision_payload p (to_iso_string now)) = Ok text /\
    pe_decision_commitment ev = sha256Hex (DECISION_COMMIT_DOMAIN ++ text);
  ev_receipt :
    match pe_receipt ev with
    | None => pr_decision (pi_policy_result p) = INDETERMINATE
    | Some c =>
        pr_decision (pi_policy_result p) <> INDETERMINATE /\ committed_ok c /\
        exists a f,
          asserts a (js "wallet-guard-determinate") Pass (pe_decision_commitment ev) /\
          asserts f (js "wallet-guard-forwardable")
            (match pr_decision (pi_policy_result p) with ALLOW => Pass | _ => Failed end)
            (pe_decision_commitment ev) /\
          c_receipt c = sort_assertions (preflight_receipt p (to_iso_string now) (pe_method_hash ev)
            (pe_input_commitment ev) a f)
    end;
}.

Lemma preflight_receipt_wf h intents raw s pol p now method input a f :
  build_input h intents raw s pol p -> time_valid now = true ->
  pr_decision (pi_policy_result p) <> INDETERMINATE ->
  hash_pattern method = true -> hash_pattern input = true -> assertion_wf a -> assertion_wf f ->
  rule_id a <> rule_id f -> result a = Pass ->
  result f = (if forwardable (pr_decision (pi_policy_result p)) then Pass else Failed) ->
  receipt_wf (sort_assertions (preflight_receipt p (to_iso_string now) method input a f)).
Proof.
  intros [_ [_ He] [_ Hr] (ta & _ & Hna & _) (tu & _ & Hnu & _) [_ Hk] _ _ _ _ Hco _ Hres] Hnow Hd Hm Hin
    Ha Hf Hne Hpass Hresult.
  pose proof (sort_by_perm assertion_leb [a; f]) as Hperm.
  split; cbn [sort_assertions preflight_receipt p_receipt_id run_id p_phase p_outcome agent_ref subject_ref
    method_hash policy_hash input_commitment action_commitment assertions previous_receipt_hash p_occurred_at
    source_key_id]; try done.
  - unfold forwardable. case_bool_decide; set_solver.
  - rewrite Hna. apply nfc_nfc_fixed.
  - rewrite Hnu. apply nfc_nfc_fixed.
  - rewrite Hres. destruct (verdict_names pol (pi_intent p) (js "not_run")) as [_ ->]. apply sha256_hex_format.
  - rewrite Hco. apply sha256_hex_format.
  - rewrite Hperm. cbn. lia.
  - rewrite Hperm. apply Forall_cons. split; [done|]. by apply Forall_singleton.
  - rewrite Hperm. cbn. apply NoDup_cons. split; [set_solver|]. apply NoDup_singleton.
  - apply sort_by_sorted; eauto using assertion_leb_total, assertion_leb_trans.
  - intros _. split; [done|]. destruct (forwardable _); (split; [|done]) || (split; [done|]); intros _.
    + rewrite Hperm. apply Forall_cons. split; [done|]. by apply Forall_singleton.
    + rewrite Hperm. right. by left.
  - by exists now.
Qed.

Lemma assertion_fits depth a :
  assertion_wf a -> depth + 1 <= MAX_DEPTH -> fits depth 872 6 (assertion_value a).
Proof.
  intros [Hr Hh He] Hd.
  assert (forall t, plain t = true /\ (length t <= 128)%nat -> fits (depth + 1) 130 1 (VStr t)) as Hplain.
  { intros t [? ?]. apply (fits_plain _ t 128); try done; by apply Nat.leb_le. }
  assert (forall t, hash_pattern t = true -> fits (depth + 1) 130 1 (VStr t)) as Hhash.
  { intros t [? ?]%hash_pattern_plain. apply Hplain. split; [done|lia]. }
  apply (fits_object depth _ [(130, 1); (130, 1); (130, 1); (130, 1); (130, 1)]%nat); [lia|by vm_compute|].
  repeat (constructor; [cbn [fst snd]|]); [..|constructor].
  - apply Hplain. unfold RULE_ID_PATTERN in Hr. apply re_head_class_plain in Hr as [? ?]; [|plain_class..].
    split; [done|lia].
  - by apply Hhash.
  - apply Hplain. by destruct (result a); (split; [vm_compute|apply Nat.leb_le]).
  - apply Hplain. by destruct (proof_mode a); (split; [vm_compute|apply Nat.leb_le]).
  - by apply Hhash.
Qed.

Lemma receipt_payload_total r :
  receipt_wf r -> ref_ok (agent_ref r) = true -> ref_ok (subject_ref r) = true ->
  (length (assertions r) <= 2)%nat ->
  exists c, canonicalizePayload (pom_value r) = Ok c.
Proof.
  intros W Ha Hs Hl. destruct (wf_occurred _ W) as (t & Ht & Hoc).
  assert (forall t, plain t = true /\ (length t <= 128)%nat -> fits 1 130 1 (VStr t)) as Hplain.
  { intros u [? ?]. apply (fits_plain 1 u 128); try done; by apply Nat.leb_le. }
  assert (forall t, hash_pattern t = true -> fits 1 130 1 (VStr t)) as Hhash.
  { intros u [? ?]%hash_pattern_plain. apply Hplain. split; [done|lia]. }
  set (sizes := [(130, 1); (130, 1); (130, 1); (130, 1); (130, 1); (1538, 1); (1538, 1); (130, 1); (130, 1);
       (130, 1); (130, 1); (2 + 2 * 873, 1 + 2 * 6); (130, 1); (130, 1); (130, 1)]%nat).
  apply (fits_payload (2 + sum_list_with (fun bound => 44 + bound.1)%nat sizes)
    (1 + sum_list_with snd sizes)%nat); [|by vm_compute|by vm_compute].
  apply fits_object; [done|by vm_compute|].
  repeat (constructor; [cbn [fst snd]|]); [..|constructor]; try (apply Hhash, W); try (apply Hplain).
  - by split; [vm_compute|apply Nat.leb_le].
  - by apply id_pattern_plain, W.
  - by apply id_pattern_plain, W.
  - by destruct (p_phase r); (split; [vm_compute|apply Nat.leb_le]).
  - by destruct (p_outcome r); (split; [vm_compute|apply Nat.leb_le]).
  - apply fits_reference; [done|apply W|done].
  - apply fits_reference; [done|apply W|done].
  - apply (fits_array 1 872 6 2); [done| |by rewrite length_fmap]. apply Forall_fmap.
    eapply Forall_impl; [apply W|]. intros a Hwf. by apply assertion_fits.
  - destruct (decide (p_phase r = Preflight)) as [E|E].
    + destruct (wf_preflight _ W E) as [-> _]. split; cbn; try done; lia.
    + destruct (wf_previous _ W E) as (hh & -> & Hh). by apply Hhash.
  - rewrite Hoc. destruct (to_iso_string_plain t). split; [done|lia].
  - destruct (source_key_id_pattern_plain _ (wf_source _ W)). split; [done|lia].
Qed.

Lemma build_evidence_total h intents raw s pol p now :
  build_input h intents raw s pol p -> time_valid now = true ->
  exists ev, build_evidence p now = Ok ev /\ evidence_of p now ev.
Proof.
  intros Hp Hnow. destruct (commitDecision_total _ _ _ _ _ _ now Hp Hnow) as [d Hd].
  pose proof (bi_intent _ _ _ _ _ _ Hp) as [_ Hv]%validate_sound.
  assert (exists text, canonicalizePayload (decision_payload p (to_iso_string now)) = Ok text /\
    d = sha256Hex (DECISION_COMMIT_DOMAIN ++ text)) as Hdt.
  { unfold commitDecision in Hd. apply bind_Ok in Hd as (text & ? & [= <-]). by exists text. }
  assert (hash_pattern d = true) as Hdh by (destruct Hdt as (? & _ & ->); apply sha256_hex_format).
  unfold build_evidence, commitWalletGuardMethod, assert. cbv zeta. rewrite (vi_method _ Hv).
  cbn [guard_or mbind res_bind]. rewrite Hd. cbn [mbind res_bind].
  case_bool_decide as Hdec; [eexists; split; [reflexivity|by split]|].
  destruct (makeAssertion_total (js "wallet-guard-determinate") Pass d) as (a & -> & Aa & Ea & Ra & Wa);
    [by vm_compute|by apply Nat.leb_le|by vm_compute|done|]. cbn [mbind res_bind].
  destruct (makeAssertion_total (js "wallet-guard-forwardable")
    (if forwardable (pr_decision (pi_policy_result p)) then Pass else Failed) d) as (f & -> & Af & Ef & Rf & Wf);
    [by vm_compute|by apply Nat.leb_le|by vm_compute|done|]. cbn [mbind res_bind].
  set (m := sha256Hex (WALLET_GUARD_METHOD_COMMIT_DOMAIN ++ wi_rpc_method (pi_intent p))).
  set (u := sha256Hex (INPUT_COMMIT_DOMAIN ++ pi_canonical_intent p)).
  set (r := preflight_receipt p (to_iso_string now) m u a f).
  assert (receipt_wf (sort_assertions r)) as Hwf.
  { eapply preflight_receipt_wf; try done; try apply sha256_hex_format. by rewrite Ea, Ef. }
  destruct (bi_agent _ _ _ _ _ _ Hp) as (_ & _ & _ & Hagent).
  destruct (bi_subject _ _ _ _ _ _ Hp) as (_ & _ & _ & Hsubject).
  destruct (receipt_payload_total (sort_assertions r)) as [c Hc]; try done.
  { cbn [sort_assertions assertions]. by rewrite sort_by_perm. }
  set (cr := {| c_receipt := sort_assertions r; canonicalReceipt := c; receiptHash := sha256Hex (receipt_input c) |}).
  assert (commitPomRxReceipt (pom_value r) = Ok cr) as Hcr.
  { apply commitPomRxReceipt_Ok. split; [by apply validate_pom_value|]. done. }
  rewrite Hcr. eexists. split; [reflexivity|].
  split; cbn [pe_input pe_occurred_at pe_reasons pe_input_commitment pe_method_hash pe_decision_commitment
    pe_receipt]; try done.
  split; [done|]. split; [by eapply commit_committed_ok|].
  exists a, f. split; [done|]. split; [|done].
  revert Af. unfold forwardable. by destruct (pr_decision _).
Qed.

(** ** Histories of a builder *)

Lemma preflight_clock_Ok last reading now :
  preflight_clock last reading = Ok now -> time_valid now = true /\ (forall t, last = Some t -> t <= now).
Proof.
  unfold preflight_clock. intros (t & Ht & H)%bind_Ok. apply guard_bind_Ok in H as [Hl [= <-]]. split.
  - destruct reading as [|v th]; [done|].
    destruct v; try done; [|by destruct th].
    destruct (canonical_instant s) as [u|] eqn:E; [|done]. injection Ht as ->.
    by apply canonical_instant_Some in E as [? _].
  - intros u ->. by apply Z.leb_le.
Qed.

Definition evidence_list (rs : list (res preflight_evidence)) : list preflight_evidence :=
  omap (fun r => match r with Ok ev => Some ev | Throw _ => None end) rs.
Definition evidence_ids (rs : list (res preflight_evidence)) : list jsstr :=
  pi_evidence_id ∘ pe_input <$> evidence_list rs.
Definition run_ids (rs : list (res preflight_evidence)) : list jsstr :=
  pi_run_id ∘ pe_input <$> evidence_list rs.

(** Where evidence comes from: a well-formed input and an instant. *)
Definition evidence_from (es : list preflight_event) (ev : preflight_evidence) : Prop :=
  exists h intents raw s pol now,
    BuildCalled h intents raw ∈ es /\ build_input h intents raw s pol (pe_input ev) /\
    time_valid now = true /\ evidence_of (pe_input ev) now ev.

Record builder_ok (es : list preflight_event) (rs : list (res preflight_evidence)) (b : builder) : Prop := {
  bo_evidence_ids : usedEvidenceIds b = reverse (evidence_ids rs);
  bo_run_ids : usedRunIds b = reverse (run_ids rs);
  bo_distinct : NoDup (evidence_ids rs) /\ NoDup (run_ids rs);
  bo_bound : (length (evidence_list rs) <= MAX_LOCAL_EVIDENCE_IDENTITIES)%nat;
  bo_times : exists ts, Forall2 (fun ev t => pe_occurred_at ev = to_iso_string t) (evidence_list rs) ts /\
    StronglySorted Z.le ts /\ (forall t, t ∈ ts -> exists u, lastClockSampleMs b = Some u /\ t <= u);
  bo_pending : forall p, buildPending b = Some p ->
    exists h intents raw s pol, BuildCalled h intents raw ∈ es /\ build_input h intents raw s pol p /\
      (pi_evidence_id p ∉ usedEvidenceIds b) /\ (pi_run_id p ∉ usedRunIds b) /\
      (length (usedEvidenceIds b) < MAX_LOCAL_EVIDENCE_IDENTITIES)%nat;
  bo_evidence : Forall (evidence_from es) (evidence_list rs);
}.

Lemma evidence_from_weaken es es' ev : evidence_from es ev -> evidence_from (es ++ es') ev.
Proof.
  intros (h & intents & raw & s & pol & now & Hin & H). exists h, intents, raw, s, pol, now.
  split; [|done]. apply elem_of_app. by left.
Qed.

(** Answers that are errors, and clock samples, keep the builder in order. *)
Lemma builder_ok_weaken es es' rs rs' b b' :
  builder_ok es rs b -> evidence_list rs' = [] ->
  usedEvidenceIds b' = usedEvidenceIds b -> usedRunIds b' = usedRunIds b ->
  (forall u, lastClockSampleMs b = Some u -> exists u', lastClockSampleMs b' = Some u' /\ u <= u') ->
  (forall p, buildPending b' = Some p ->
    exists h intents raw s pol, BuildCalled h intents raw ∈ es ++ es' /\ build_input h intents raw s pol p /\
      (pi_evidence_id p ∉ usedEvidenceIds b) /\ (pi_run_id p ∉ usedRunIds b) /\
      (length (usedEvidenceIds b) < MAX_LOCAL_EVIDENCE_IDENTITIES)%nat) ->
  builder_ok (es ++ es') (rs ++ rs') b'.
Proof.
  intros [He Hr Hd Hb (ts & Ht & Hs & Hl) _ Hev] Hrs E1 E2 Hlast Hp.
  assert (evidence_list (rs ++ rs') = evidence_list rs) as Hlist
    by (unfold evidence_list in *; by rewrite omap_app, Hrs, app_nil_r).
  split; unfold evidence_ids, run_ids in *; rewrite ?Hlist, ?E1, ?E2; try done.
  - exists ts. split; [done|]. split; [done|]. intros t Hin. destruct (Hl t Hin) as (u & Hu & Hle).
    destruct (Hlast u Hu) as (u' & ? & ?). exists u'. split; [done|lia].
  - eapply Forall_impl; [exact Hev|]. intros ev. apply evidence_from_weaken.
Qed.

Lemma finish_build_ok es rs b p reading r b' h intents raw s pol :
  builder_ok es rs b -> buildPending b = Some p ->
  BuildCalled h intents raw ∈ es -> build_input h intents raw s pol p ->
  (pi_evidence_id p ∉ usedEvidenceIds b) -> (pi_run_id p ∉ usedRunIds b) ->
  (length (usedEvidenceIds b) < MAX_LOCAL_EVIDENCE_IDENTITIES)%nat ->
  finish_build b p reading = (r, b') ->
  builder_ok (es ++ [ClockAnswered reading]) (rs ++ [r]) b' /\
  buildPending b' = None /\
  match preflight_clock (lastClockSampleMs b) reading with
  | Ok now => exists ev, r = Ok ev /\ evidence_of p now ev
  | Throw e => r = Throw e
  end.
Proof.
  intros Hok Hpend Hin Hp Fe Fr Hlen. unfold finish_build.
  destruct (preflight_clock (lastClockSampleMs b) reading) as [now|e] eqn:Eclock.
  - apply preflight_clock_Ok in Eclock as [Hnow Hlast].
    destruct (build_evidence_total _ _ _ _ _ _ now Hp Hnow) as (ev & Hev & Hof). rewrite Hev.
    intros [= <- <-]. split; [|split; [done|by exists ev]].
    destruct Hok as [He Hr [Hd1 Hd2] Hb (ts & Ht & Hs & Hl) _ Hall].
    assert (evidence_list (rs ++ [Ok ev]) = evidence_list rs ++ [ev]) as Hlist
      by (unfold evidence_list; by rewrite omap_app).
    pose proof (ev_input _ _ _ Hof) as Ei.
    split; unfold evidence_ids, run_ids in *; rewrite ?Hlist, ?fmap_app, ?reverse_app;
      cbn [usedEvidenceIds usedRunIds lastClockSampleMs buildPending fmap list_fmap compose].
    + rewrite He, Ei. done.
    + rewrite Hr, Ei. done.
    + rewrite Ei. rewrite He in Fe. rewrite Hr in Fr. rewrite elem_of_reverse in Fe, Fr.
      split; apply NoDup_app; (split; [done|]); (split; [|apply NoDup_singleton]); set_solver.
    + rewrite He, length_reverse, length_fmap in Hlen. rewrite length_app. cbn. lia.
    + exists (ts ++ [now]). split; [|split].
      * apply Forall2_app; [done|]. constructor; [apply Hof|constructor].
      * apply StronglySorted_app_2; [|done|by repeat constructor]. intros t u Hin' ->%list_elem_of_singleton.
        destruct (Hl t Hin') as (w & Hw & ?). specialize (Hlast w Hw). lia.
      * intros t [Hin'| ->%list_elem_of_singleton]%elem_of_app; exists now; [|done].
        destruct (Hl t Hin') as (w & Hw & ?). specialize (Hlast w Hw). split; [done|lia].
    + done.
    + apply Forall_app. split; [eapply Forall_impl; [exact Hall|]; intros ?; apply evidence_from_weaken|].
      apply Forall_singleton. exists h, intents, raw, s, pol, now. rewrite Ei.
      split; [apply elem_of_app; by left|done].
  - intros [= <- <-]. split; [|done].
    apply (builder_ok_weaken es [ClockAnswered reading] rs [Throw e] b); try done.
    intros u Hu. exists u. by rewrite Hu.
Qed.

Definition answer_list (r : option (res preflight_evidence)) : list (res preflight_evidence) :=
  match r with Some r => [r] | None => [] end.

Lemma preflight_step_ok es rs b e r b' :
  builder_ok es rs b -> preflight_step b e = (r, b') ->
  builder_ok (es ++ [e]) (rs ++ answer_list r) b'.
Proof.
  intros Hok. unfold preflight_step. destruct e as [h intents raw|reading], (buildPending b) as [p|] eqn:Ep.
  - intros [= <- <-]. apply (builder_ok_weaken es _ rs _ b); try done; [by intros u ->; exists u|].
    intros q Hq. destruct (bo_pending _ _ _ Hok q Hq) as (h' & n' & raw' & s & pol & Hin & H).
    exists h', n', raw', s, pol. split; [apply elem_of_app; by left|done].
  - destruct (prepare_build b h intents raw) as [p|e] eqn:E; intros [= <- <-].
    + apply (builder_ok_weaken es _ rs _ b); try done; [by intros u ->; exists u|]. intros q [= <-].
      apply prepare_build_Ok in E as ((s & pol & Hp) & Fe & Fr & Le & _).
      exists h, intents, raw, s, pol. split; [apply elem_of_app; right; by left|done].
    + apply (builder_ok_weaken es _ rs _ b); try done; [by intros u ->; exists u|]. intros q Hq. congruence.
  - destruct (finish_build b p reading) as [a b1] eqn:E. intros [= <- <-].
    destruct (bo_pending _ _ _ Hok p Ep) as (h & n & raw & s & pol & Hin & Hp & Fe & Fr & Hl).
    by destruct (finish_build_ok _ _ _ _ _ _ _ _ _ _ _ _ Hok Ep Hin Hp Fe Fr Hl E).
  - intros [= <- <-]. apply (builder_ok_weaken es _ rs _ b); try done; [by intros u ->; exists u|]. intros q Hq. congruence.
Qed.

Lemma preflight_steps_ok es0 rs0 b es rs b' :
  builder_ok es0 rs0 b -> preflight_steps b es = (rs, b') -> builder_ok (es0 ++ es) (rs0 ++ rs) b'.
Proof.
  revert es0 rs0 b rs. induction es as [|e es IH]; intros es0 rs0 b rs Hok; cbn [preflight_steps].
  - intros [= <- <-]. by rewrite !app_nil_r.
  - destruct (preflight_step b e) as [r b1] eqn:E1. destruct (preflight_steps b1 es) as [rs1 b2] eqn:E2.
    intros [= <- <-]. pose proof (IH _ _ _ _ (preflight_step_ok _ _ _ _ _ _ Hok E1) E2) as H.
    rewrite <- !app_assoc in H. by destruct r.
Qed.

Lemma created_ok h options b : createWalletGuardPreflightEvidenceBuilder h options = Ok b -> builder_ok [] [] b.
Proof.
  unfold createWalletGuardPreflightEvidenceBuilder. intros (s & _ & H)%bind_Ok.
  apply guard_bind_Ok in H as [_ [= <-]]. split; try done; [by split; apply NoDup_nil_2|cbn; lia|].
  exists []. split; [constructor|]. split; [constructor|]. intros t Ht. by apply elem_of_nil in Ht.
Qed.

Lemma history_ok h options b0 es rs b :
  createWalletGuardPreflightEvidenceBuilder h options = Ok b0 -> preflight_steps b0 es = (rs, b) ->
  builder_ok es rs b.
Proof. intros Hc%created_ok Hs. exact (preflight_steps_ok [] [] _ _ _ _ Hc Hs). Qed.

(** What a builder does at each step of a history.  While the clock runs,
    every build is refused and changes nothing.  A build reaches the clock
    exactly when its input is well-formed, its intent was normalised here and is
    valid, its policy is well-formed, its ids are fresh and the builder has room;
    then a canonical instant that is not before the last one always yields the
    evidence of that input, so the only late failure is the clock's. *)
Theorem preflight_build_exact h options b0 es rs b :
  createWalletGuardPreflightEvidenceBuilder h options = Ok b0 -> preflight_steps b0 es = (rs, b) ->
  match buildPending b with
  | Some p =>
      (forall h intents raw, exists e,
        preflight_step b (BuildCalled h intents raw) = (Some (Throw e), b)) /\
      (forall reading, exists r b', preflight_step b (ClockAnswered reading) = (Some r, b') /\
        buildPending b' = None /\
        match preflight_clock (lastClockSampleMs b) reading with
        | Ok now => exists ev, r = Ok ev /\ evidence_of p now ev
        | Throw e => r = Throw e
        end)
  | None =>
      forall h intents raw,
        (forall p, (exists b', preflight_step b (BuildCalled h intents raw) = (None, b') /\ buildPending b' = Some p)
          <->
          (exists s pol, build_input h intents raw s pol p) /\
          (pi_evidence_id p ∉ evidence_ids rs) /\ (pi_run_id p ∉ run_ids rs) /\
          (length (evidence_list rs) < MAX_LOCAL_EVIDENCE_IDENTITIES)%nat) /\
        (forall r b', preflight_step b (BuildCalled h intents raw) = (Some r, b') ->
          b' = b /\ exists e, r = Throw e)
  end.
Proof.
  intros Hc Hs. pose proof (history_ok _ _ _ _ _ _ Hc Hs) as Hok.
  destruct (buildPending b) as [p|] eqn:Ep.
  - unfold preflight_step. rewrite Ep. split; [intros; by eexists|].
    intros reading. destruct (finish_build b p reading) as [r b'] eqn:E. exists r, b'. split; [done|].
    destruct (bo_pending _ _ _ Hok p Ep) as (h' & n & raw & s & pol & Hin & Hp & Fe & Fr & Hl).
    by destruct (finish_build_ok _ _ _ _ _ _ _ _ _ _ _ _ Hok Ep Hin Hp Fe Fr Hl E).
  - intros h' intents raw. unfold preflight_step. rewrite Ep. split.
    + intros p. pose proof (prepare_build_Ok b h' intents raw p) as Hprep.
      rewrite (bo_evidence_ids _ _ _ Hok), (bo_run_ids _ _ _ Hok), !elem_of_reverse, !length_reverse in Hprep.
      unfold evidence_ids, run_ids in Hprep. rewrite !length_fmap in Hprep.
      fold (evidence_ids rs) (run_ids rs) in Hprep.
      assert (forall A B C D : Prop, A /\ B /\ C /\ D /\ D <-> A /\ B /\ C /\ D) as Hdup by tauto.
      rewrite Hdup in Hprep. rewrite <- Hprep.
      destruct (prepare_build b h' intents raw) as [q|e]; (split; [|by intros [= ->]; eexists || done]).
      * by intros (b' & [= <-] & [= ->]).
      * by intros (b' & [=] & _).
    + destruct (prepare_build b h' intents raw); [done|]. intros r b' [= <- <-]. eauto.
Qed.

(** No evidence id and no run id is used twice by a builder, at most a
    thousand pieces of evidence are made, and their times never go back. *)
Theorem preflight_history h options b0 es rs b :
  createWalletGuardPreflightEvidenceBuilder h options = Ok b0 -> preflight_steps b0 es = (rs, b) ->
  NoDup (evidence_ids rs) /\ NoDup (run_ids rs) /\
  (length (evidence_list rs) <= MAX_LOCAL_EVIDENCE_IDENTITIES)%nat /\
  exists ts, pe_occurred_at <$> evidence_list rs = to_iso_string <$> ts /\ StronglySorted Z.le ts.
Proof.
  intros Hc Hs. destruct (history_ok _ _ _ _ _ _ Hc Hs) as [_ _ [H1 H2] Hb (ts & Ht & Hsorted & _) _ _].
  do 3 (split; [done|]). exists ts. split; [|done]. apply list_eq_Forall2. by apply Forall2_fmap.
Qed.

(** C15: An allowing preflight receipt is for a transfer of native value.  When
    only what the normaliser made counts as normalised, such a receipt commits to
    the intent of a request that sends a bounded native value, with no data, to
    a recipient that the policy lists, from an origin and on a chain that it
    allows; the policy is live and its hash is the one in the receipt. *)
Theorem preflight_allows_native_transfers h options b0 es rs b ev c :
  createWalletGuardPreflightEvidenceBuilder h options = Ok b0 -> preflight_steps b0 es = (rs, b) ->
  (forall h intents raw v, BuildCalled h intents raw ∈ es -> ir_normalized (intents v) = true ->
    exists input i, normalizeWalletGuardIntent input = Ok i /\ ir_value (intents v) = intent_value i) ->
  Ok ev ∈ rs -> pe_receipt ev = Some c -> p_outcome (c_receipt c) = Allow ->
  exists input i h pv pol tx target value,
    normalizeWalletGuardIntent input = Ok i /\ normalizePolicy h pv = Ok pol /\
    vouched input i [tx] /\ sends (wi_account i) tx target value (js "0x") /\
    target ∈ po_recipients pol /\ value <= bigint_of (po_max_native pol) /\
    po_enabled pol = true /\ po_kill_switch pol = false /\
    wi_origin i ∈ po_origins pol /\ wi_chain_id i = po_chain_id pol /\
    action_commitment (c_receipt c) = sha256Hex (intent_input (canonicalizeValidatedIntent i)) /\
    policy_hash (c_receipt c) = sha256Hex (policy_input (canonicalizeNormalizedPolicy pol)).
Proof.
  intros Hc Hs Hbrand Hin Hrec Hallow. destruct (history_ok _ _ _ _ _ _ Hc Hs) as [_ _ _ _ _ _ Hall].
  assert (ev ∈ evidence_list rs) as Hev by (apply list_elem_of_omap; by exists (Ok ev)).
  rewrite Forall_forall in Hall. destruct (Hall _ Hev) as (h' & n & raw & s & pol & now & Hcall & Hp & Hnow & Hof).
  pose proof (ev_receipt _ _ _ Hof) as Hr. rewrite Hrec in Hr.
  destruct Hr as (_ & _ & a & f & _ & _ & Hreceipt). rewrite Hreceipt in Hallow.
  cbn [sort_assertions preflight_receipt p_outcome] in Hallow.
  destruct (forwardable _) eqn:Hfw; [|done]. apply bool_decide_eq_true in Hfw. clear Hallow.
  rewrite (bi_result _ _ _ _ _ _ Hp) in Hfw. destruct (bi_class _ _ _ _ _ _ Hp) as [cl Hcl].
  destruct (Hbrand _ _ _ _ Hcall (bi_normalized _ _ _ _ _ _ Hp)) as (input & i & Hi & Hvalue).
  assert (pi_intent (pe_input ev) = i) as Ei.
  { pose proof (validate_complete _ _ (shows_intent_value i) (normalized_valid _ _ Hi)) as E.
    rewrite <- Hvalue, (bi_intent _ _ _ _ _ _ Hp) in E. congruence. }
  rewrite Ei in Hcl, Hfw.
  destruct (verdict_within_policy _ _ _ _ _ Hi Hcl Hfw) as (params & Hv & He & Hk & Ho & Hch & Hperm).
  inversion Hperm as [tx target value Hsend Htarget Hmax|? ? ? ? ? ? ? ? ? Hst|? ? ? ? ? ? Hst]; [|done|done].
  exists input, i, h', (snap_get (js "policy") s), pol, tx, target, value. subst params.
  do 10 (split; [done || apply Hp|]).
  rewrite Hreceipt. cbn [sort_assertions preflight_receipt action_commitment policy_hash]. split.
  - by rewrite (bi_commitment _ _ _ _ _ _ Hp), (bi_canonical _ _ _ _ _ _ Hp), Ei.
  - rewrite (bi_result _ _ _ _ _ _ Hp). apply verdict_names.
Qed.
End preflight_proofs.

(** ** A concrete build *)

Section preflight_witnesses.
#[local] Existing Instances plain_string_host checksum_hash_host iso_date_host plain_url_host.

(** A transfer of 16 wei, and a policy that allows it. *)
Definition transfer_input : jsv := string_fields
  [("requestId"%string, VStr (js "request-0001")); ("trustedOrigin"%string, VStr (js "https://app.example"));
   ("trustedChainId"%string, VStr (js "0x1")); ("trustedAccount"%string, VStr (sample_address 50));
   ("request"%string, string_fields
     [("method"%string, VStr (js "eth_sendTransaction"));
      ("params"%string, VArr [string_fields
        [("from"%string, VStr (sample_address 50)); ("to"%string, VStr (sample_address 52));
         ("value"%string, VStr (js "0x10")); ("data"%string, VStr (js "0x"))]])])].
Definition transfer_intent : intent :=
  Eval vm_compute in
    match normalizeWalletGuardIntent transfer_input with Ok i => i | Throw _ => sample_intent end.
Definition transfer_policy : policy :=
  {| po_id := js "policy/0002"; po_enabled := true; po_kill_switch := false; po_chain_id := js "0x1";
     po_origins := [js "https://app.example"]; po_targets := []; po_recipients := [sample_address 52];
     po_spenders := []; po_contracts := []; po_max_native := js "100"; po_max_token := js "0";
     po_deny_unlimited := true; po_deny_operator := true; po_simulation_for := [] |}.

(** The policy at object 0, the input at 8, its intent at 9, the bootstrap at 10. *)
Definition preflight_heap : heap := fun l =>
  match l with
  | 8%nat => record_of
      [field_of "intent" (HRef 9%nat); field_of "policy" (HRef 0%nat);
       field_of "evidenceId" (HStr (js "evidence-00000001")); field_of "runId" (HStr (js "run-000000000001"));
       field_of "agentRef" (HStr (js "agent")); field_of "subjectRef" (HStr (js "subject"));
       field_of "sourceKeyId" (HStr (js "key-1"))]
  | 10%nat => record_of [field_of "trustedClock" (HFun 0%nat)]
  | _ => frozen_policy transfer_policy l
  end.
Definition sample_intents (v : hval) : intent_ref :=
  if bool_decide (v = HRef 9%nat) then {| ir_value := intent_value transfer_intent; ir_normalized := true |}
  else {| ir_value := VUndef; ir_normalized := false |}.
Definition sample_build : preflight_event := BuildCalled preflight_heap sample_intents (HRef 8%nat).
Definition sample_events : list preflight_event :=
  [sample_build; ClockAnswered (ClockReturned (HStr (to_iso_string 0)) ThenOther)].
Definition new_builder : builder :=
  {| usedEvidenceIds := []; usedRunIds := []; lastClockSampleMs := None; buildPending := None |}.
Definition sample_answers : list (res preflight_evidence) * builder :=
  Eval vm_compute in preflight_steps new_builder sample_events.

(** One receipt that allows; a replay of the same input is refused. *)
Example sample_receipt_allows :
  (fun ev => (fun c => p_outcome (c_receipt c)) <$> pe_receipt ev) <$> evidence_list sample_answers.1
  = [Some Allow].
Proof. vm_compute. reflexivity. Qed.
Example sample_replay :
  (fun r => match r with Some (Throw e) => err_code e | _ => [] end)
    (preflight_step sample_answers.2 sample_build).1 = js "POMRX_WG_PREFLIGHT_E_REPLAY".
Proof. vm_compute. reflexivity. Qed.

Lemma new_builder_created :
  createWalletGuardPreflightEvidenceBuilder preflight_heap (HRef 10%nat) = Ok new_builder.
Proof. vm_compute. reflexivity. Qed.
Lemma sample_steps : preflight_steps new_builder sample_events = (sample_answers.1, sample_answers.2).
Proof. vm_compute. reflexivity. Qed.
Lemma transfer_normalized : normalizeWalletGuardIntent transfer_input = Ok transfer_intent.
Proof. vm_compute. reflexivity. Qed.

(** After the build the builder is free, and its next input needs other ids. *)
Lemma preflight_build_exact_witness :
  forall h intents raw p,
    (exists b', preflight_step sample_answers.2 (BuildCalled h intents raw) = (None, b') /\ buildPending b' = Some p)
    <->
    (exists s pol, build_input h intents raw s pol p) /\
    (pi_evidence_id p ∉ evidence_ids sample_answers.1) /\ (pi_run_id p ∉ run_ids sample_answers.1) /\
    (length (evidence_list sample_answers.1) < MAX_LOCAL_EVIDENCE_IDENTITIES)%nat.
Proof.
  intros h intents raw p.
  apply (preflight_build_exact preflight_heap (HRef 10%nat) new_builder sample_events sample_answers.1
    sample_answers.2 new_builder_created sample_steps h intents raw).
Defined.

Lemma preflight_history_witness :
  NoDup (evidence_ids sample_answers.1) /\ NoDup (run_ids sample_answers.1) /\
  (length (evidence_list sample_answers.1) <= MAX_LOCAL_EVIDENCE_IDENTITIES)%nat /\
  exists ts, pe_occurred_at <$> evidence_list sample_answers.1 = to_iso_string <$> ts /\ StronglySorted Z.le ts.
Proof.
  apply (preflight_history preflight_heap (HRef 10%nat) new_builder sample_events sample_answers.1
    sample_answers.2); [apply new_builder_created|apply sample_steps].
Defined.

Lemma preflight_allows_native_transfers_witness :
  exists ev c, Ok ev ∈ sample_answers.1 /\ pe_receipt ev = Some c /\
  exists input i h pv pol tx target value,
    normalizeWalletGuardIntent input = Ok i /\ normalizePolicy h pv = Ok pol /\
    vouched input i [tx] /\ sends (wi_account i) tx target value (js "0x") /\
    target ∈ po_recipients pol /\ value <= bigint_of (po_max_native pol) /\
    po_enabled pol = true /\ po_kill_switch pol = false /\
    wi_origin i ∈ po_origins pol /\ wi_chain_id i = po_chain_id pol /\
    action_commitment (c_receipt c) = sha256Hex (intent_input (canonicalizeValidatedIntent i)) /\
    policy_hash (c_receipt c) = sha256Hex (policy_input (canonicalizeNormalizedPolicy pol)).
Proof.
  eexists _, _. split; [left|]. split; [reflexivity|].
  eapply (preflight_allows_native_transfers preflight_heap (HRef 10%nat) new_builder sample_events sample_answers.1
    sample_answers.2); [apply new_builder_created|apply sample_steps| |left|reflexivity|reflexivity].
  intros h intents raw v Hin Hn. apply elem_of_cons in Hin as [[= -> -> ->]|Hin].
  - exists transfer_input, transfer_intent. split; [apply transfer_normalized|].
    unfold sample_intents in *. by case_bool_decide.
  - by apply list_elem_of_singleton in Hin.
Defined.
End preflight_witnesses.
